(* ===== verification/_CoqProject ===== *)
-Q . S2P
Prelude.v
GoStrings.v
GoValue.v
GoTime.v
GoFlag.v
Libraries.v
Key.v
Objects.v
World.v
Config.v
Teleport.v
Token.v
Secret.v
Finalizer.v
ConfigMap.v
AppManager.v
Healthy.v
Controller.v
Stages.v
Registration.v
Registered.v
Deregistration.v
Success.v
Reconcile.v
Isolation.v
Liveness.v
Steady.v
Main.v
Schema.v
Instances.v
FakeWorld.v
FakeHealthy.v
Witnesses.v
LiveWitnesses.v
FakeHost.v
