(* ===== verification/Prelude.v ===== *)
(** * Teleport operator: a verification development

    teleport-operator is a Kubernetes controller.  It watches cluster-api Clusters
    and registers each with a Teleport installation: it creates join tokens in
    Teleport, hands them to the cluster through a Secret and a values ConfigMap, makes
    the cluster's teleport-kube-agent (a Flux HelmRelease or an App) refer to that
    ConfigMap, configures tbot, and undoes all this when the Cluster is deleted.  This
    development models the whole of that logic and proves what it promises.

    ** The program's parts and the files that model them

    - [Prelude]: errors, outcomes (a value, an error or a panic), the state-and-error
      monad [M], its weakest preconditions [wp], and the relational classes [Keeps] (a
      relation every run respects) and [Total] (no run panics).
    - [GoStrings], [GoValue], [GoTime], [GoFlag]: the parts of Go's library the code uses.
      Strings are byte strings; [TrimSpace] runs on fuel equal to the length of its
      argument, which [trim_left_done] shows is enough; times are nanoseconds, and a
      difference of two saturates at 64 bits as Go's does.
    - [Libraries]: semver, yaml.v3 and the Teleport API types, as interfaces with laws.
    - [Key]: internal/pkg/key/key.go.
    - [Objects]: the Kubernetes objects, and snapshots of what is stored.
    - [World]: controller-runtime's client, the patch helper, the Teleport client, the
      clock and the UUID source, as an interface with laws over snapshots.  A write that
      fails may or may not have been applied; a failed read says nothing unless the error
      is NotFound.
    - [Config], [Teleport], [Token], [Secret], [Finalizer], [ConfigMap], [AppManager]:
      internal/pkg/config, internal/pkg/token and the files of internal/pkg/teleport.
      An operation keeps its Go name; a call with an error result is a computation in
      [M world]; a nil client, Teleport's or Kubernetes', whose use panics, is [None].
    - [Controller]: internal/controller/cluster_controller.go.  [Reconcile] threads the
      reconciler it mutates beside the world.  Its body is cut at its comments into
      [refreshIdentity], [reconcileDelete] and [reconcileNormal], and the latter into
      [ensureFinalizer], [reconcileSecret], [reconcileConfigMap], [ensure_reference] and
      [reconcileBot]; [initialReconciler] is main.go's.  The reconciler's own client and
      that of its [Teleport] are fields, unset until main sets them; a run's first call on
      [r.Client] panics if it is nil, and the operations that are then handed the same
      client take no argument for it.
    - [Main]: main.go, as a process that may end with an exit status: [init], the
      flags and their parsing, the set-up of the manager with its error exits, the start.
      The manager and the other host libraries are the class [Host]; the flags that
      libraries declare are the class [LibraryFlags].
    - [Stages], [Registration], [Registered], [Deregistration], [Reconcile]: what the
      stages do, and the theorems about whole runs and sequences of runs.
    - [Isolation]: the derived names of the objects, and what a run stays off.
    - [Healthy], [Success], [Liveness], [Steady]: worlds in which calls do not fail, the
      stages and runs that return in them, and sequences of runs and waiting.
    - [Schema]: the rules that stored objects follow, kept by every run.
    - [Instances], [FakeWorld], [FakeHealthy], [FakeHost], [Witnesses], [LiveWitnesses]:
      the interfaces inhabited (a release parser, a decoder of block documents, an
      in-memory world around the fake Teleport client of internal/pkg/test, and a host),
      and the theorems run on them.

    ** What the theorems show

    - Registration ([Reconcile_registers], [Reconcile_stable]): the specification
      [registered] holds after a run that returns, and a run in that state writes nothing.
    - Deregistration ([Reconcile_deregisters], [delete_reference_contract]): the
      specification [cleaned] holds after a run that returns.
    - Safety under any failure: the finalizer is stored before anything else is created
      ([reconcileNormal_finalizer_first]) and removed after everything else is gone
      ([reconcileDelete_finalizer_last]); a run changes only its own cluster's objects
      ([Reconcile_footprint]), none of another cluster's and nothing the operator only
      reads ([Reconcile_isolated]), and only its own tokens ([Reconcile_foreign_tokens],
      with [registerName_of_injective]); no reachable run panics
      ([Reconcile_never_panics], [reachable_client_ready], [refreshIdentity_spec]).
    - Success: in a good world (class [HealthyWorld]: the servers answer) a registration
      returns for every cluster whose stored objects can be read ([Reconcile_succeeds])
      and a deletion for every cluster whose user values can
      ([Reconcile_completes_deletion]); user values that are no mapping block both
      ([unreadable_user_values_block]); a request for a cluster that is gone is done
      ([Reconcile_absent]).  They are about a [connected] reconciler, one whose clients are
      set, as every reachable one's are.
    - Repetition: along any sequence of runs and waiting, nothing changes before a token
      expires, failures or not ([settled_until_expiry]), and while the servers are up the
      cluster is registered after each run, expired tokens being replaced
      ([registration_holds]).
    - Types: a run leaves well-formed objects and tokens that expire
      ([Reconcile_well_formed]).
    - Start: when [main] starts a manager, what it hands to it, and the exit statuses
      ([main_spec]); the command line is read as written ([parse_settings]).
    - Tokens: the check decides a declarative validity, for any listing order; a
      generated token passes it for 720 hours, for its own cluster and roles only
      ([GenerateToken_then_IsTokenValid], [generated_token_roles]); deletion removes one
      token of a cluster.
    - Values documents: what is rendered is read back; the layout and version gates are
      exact on releases; an update changes the document only, and never the register name
      ([UpdateConfigMap_keeps_name], [UpdateConfigMap_never_converges]).
    - References, names, roles, configuration: the contracts of the helper functions.

    ** Hypotheses

    Laws of the interfaces are classes: [WorldLaws] (what API writes and reads promise),
    [FreshUUID], [ControllerUtilLaws], [SemverLaws], [YamlLaws] (block documents with
    plain double-quoted scalars decode to what they say), [TeleportTypesLaws], [HostLaws].
    The theorems on success also use [HealthyWorld], [ProvisionTokensAccept] (a spec with
    known roles makes a token) and [GeneratorHealthy].  Each has an instance in
    [Instances], [FakeWorld], [FakeHealthy] or [FakeHost].  Text is [plain] where a round
    trip needs it: printable ASCII without quotes and backslashes.  Runs are sequential, as
    with the controller's default of one worker; between two runs anything may happen.
    Reads are current: the lag of controller-runtime's cache is not modelled.

    ** Not modelled

    Logging, the loggers the code carries and the one main.go sets (with the SHA-512 of
    the identity, which is only logged), the tests' assertions, the Helm chart and the
    build.  Contexts and their cancellation show as failing calls.  Optimistic locking is
    a failing update.  The list read from a HelmRelease is a value here: an append may
    share its array with that list, but writes past the list's end only, and a removal
    fills a new slice.

    ** What is left

    Interleaving with other writers inside a run, and stale cached reads; a round trip
    for tbot's document. *)
From stdpp Require Export base gmap sets list strings fin_maps.
From Stdlib Require Export ZArith Lia Ascii.

Declare Scope go_scope.
Delimit Scope go_scope with go.
Open Scope go_scope.

(** ** Errors *)

(** What the code can observe of an error a library call returns: the two
    predicates [apierrors.IsNotFound] and [apierrors.IsConflict]; everything
    else is an opaque text. *)
Inductive lib_error :=
| NotFound
| Conflict
| OtherError (msg : string).

(** A Go [error] value of this program: a library error, a text made by
    [fmt.Errorf] without [%w], one that wraps another with [%w], or one that
    went through [microerror.Mask] / [errors.WithStack]. *)
Inductive error :=
| ELib (e : lib_error)
| EText (msg : string)
| EWrap (msg : string) (e : error)
| EMask (e : error).

#[global] Instance lib_error_eq_dec : EqDecision lib_error.
Proof. solve_decision. Defined.

#[global] Instance error_eq_dec : EqDecision error.
Proof. solve_decision. Defined.

(** [apierrors.IsNotFound] and [apierrors.IsConflict]. *)
Definition IsNotFound (e : lib_error) : bool :=
  match e with NotFound => true | _ => false end.

Definition IsConflict (e : lib_error) : bool :=
  match e with Conflict => true | _ => false end.

(** The error at the bottom of a chain of wrappers ([errors.Unwrap]). *)
Fixpoint cause (e : error) : error :=
  match e with
  | EWrap _ e' | EMask e' => cause e'
  | _ => e
  end.

(** ** Outcomes: a value, an error, or a panic (nil dereference, nil-map write) *)

Inductive outcome (A : Type) :=
| Ret (a : A)
| Err (e : error)
| Panic.
Arguments Ret {A} a.
Arguments Err {A} e.
Arguments Panic {A}.

#[global] Instance outcome_ret : MRet outcome := @Ret.

#[global] Instance outcome_bind : MBind outcome := λ A B f m,
  match m with Ret a => f a | Err e => Err e | Panic => Panic end.

(** ** The state-and-error monad: effects made before an error stay *)

Definition M (S A : Type) : Type := S → outcome A * S.

#[global] Instance M_ret {S} : MRet (M S) := λ A a s, (Ret a, s).

#[global] Instance M_bind {S} : MBind (M S) := λ A B f m s,
  match m s with
  | (Ret a, s') => f a s'
  | (Err e, s') => (Err e, s')
  | (Panic, s') => (Panic, s')
  end.

Definition throw {S A} (e : error) : M S A := λ s, (Err e, s).
Definition panic {S A} : M S A := λ s, (Panic, s).

(** A pure fallible computation inside the monad. *)
Definition lift {S A} (o : outcome A) : M S A := λ s, (o, s).

(** A read of the state, and a call that may change it. *)
Definition gets {S A} (f : S → A) : M S A := λ s, (Ret (f s), s).
Definition run {S A} (f : S → A * S) : M S A := λ s, (Ret (f s).1, (f s).2).

(** [if cond then return err]: the shape of every Go error check. *)
Definition throw_if {S} (e : option error) : M S unit :=
  match e with Some e => throw e | None => mret tt end.

(** ** Weakest preconditions over outcomes *)

Definition wp {S A} (m : M S A) (Q : outcome A → S → Prop) (s : S) : Prop :=
  Q (m s).1 (m s).2.

Section wp.
Context {S : Type}.

Lemma wp_ret {A} (a : A) (Q : outcome A → S → Prop) s :
  Q (Ret a) s → wp (mret a) Q s.
Proof. done. Qed.

Lemma wp_throw {A} e (Q : outcome A → S → Prop) s :
  Q (Err e) s → wp (throw e) Q s.
Proof. done. Qed.

Lemma wp_panic {A} (Q : outcome A → S → Prop) s :
  Q Panic s → wp panic Q s.
Proof. done. Qed.

Lemma wp_gets {A} (f : S → A) (Q : outcome A → S → Prop) s :
  Q (Ret (f s)) s → wp (gets f) Q s.
Proof. done. Qed.

Lemma wp_run {A} (f : S → A * S) (Q : outcome A → S → Prop) s :
  Q (Ret (f s).1) (f s).2 → wp (run f) Q s.
Proof. done. Qed.

Lemma wp_lift {A} (o : outcome A) (Q : outcome A → S → Prop) s :
  Q o s → wp (lift o) Q s.
Proof. done. Qed.

Lemma wp_bind {A B} (m : M S A) (f : A → M S B) (Q : outcome B → S → Prop) s :
  wp m (λ o s', match o with
                | Ret a => wp (f a) Q s'
                | Err e => Q (Err e) s'
                | Panic => Q Panic s'
                end) s →
  wp (m ≫= f) Q s.
Proof.
  unfold wp. unfold mbind at 1 2. unfold M_bind.
  by destruct (m s) as [[a|e|] s'].
Qed.

Lemma wp_mono {A} (m : M S A) (Q Q' : outcome A → S → Prop) s :
  wp m Q s → (∀ o s', Q o s' → Q' o s') → wp m Q' s.
Proof. unfold wp. eauto. Qed.

Lemma wp_and {A} (m : M S A) (Q Q' : outcome A → S → Prop) s :
  wp m Q s → wp m Q' s → wp m (λ o s', Q o s' ∧ Q' o s') s.
Proof. by unfold wp. Qed.

(** A postcondition under an assumption on the input. *)
Lemma wp_imp {A} (P : Prop) (m : M S A) (Q : outcome A → S → Prop) s :
  (P → wp m Q s) → wp m (λ o s', P → Q o s') s.
Proof. by unfold wp. Qed.

(** A run described by [wp] is the run of the function. *)
Lemma wp_elim {A} (m : M S A) (Q : outcome A → S → Prop) s o s' :
  wp m Q s → m s = (o, s') → Q o s'.
Proof. by unfold wp; intros HQ Hm; rewrite Hm in HQ. Qed.
End wp.

Lemma wp_unfold {S A} (m : M S A) (Q : outcome A → S → Prop) s :
  wp m Q s ↔ Q (m s).1 (m s).2.
Proof. done. Qed.

(** ** Relations kept by every run

    [Keeps R m] says that, whatever its outcome, [m] moves the state along the
    relation [R].  For a preorder it composes, so a footprint ("only these
    objects may change"), the monotone clock, or an invariant is proved once per
    primitive and then follows the structure of the program. *)

Class Keeps {S A} (R : S → S → Prop) (m : M S A) : Prop :=
  keeps : ∀ s, R s (m s).2.

Section keeps.
Context {S : Type} (R : S → S → Prop) `{!PreOrder R}.

Lemma keeps_ret {A} (a : A) : Keeps R (mret a : M S A).
Proof. intros s. simpl. reflexivity. Qed.

Lemma keeps_throw {A} e : Keeps R (throw e : M S A).
Proof. intros s. simpl. reflexivity. Qed.

Lemma keeps_panic {A} : Keeps R (panic : M S A).
Proof. intros s. simpl. reflexivity. Qed.

Lemma keeps_gets {A} (f : S → A) : Keeps R (gets f).
Proof. intros s. simpl. reflexivity. Qed.

Lemma keeps_lift {A} (o : outcome A) : Keeps R (lift o : M S A).
Proof. intros s. simpl. reflexivity. Qed.

Lemma keeps_bind {A B} (m : M S A) (f : A → M S B) :
  Keeps R m → (∀ a, Keeps R (f a)) → Keeps R (m ≫= f).
Proof.
  intros Hm Hf s. unfold mbind, M_bind.
  specialize (Hm s). destruct (m s) as [[a|e|] s'] eqn:E; simpl in *; [|done..].
  etrans; [exact Hm|]. apply Hf.
Qed.
End keeps.

Lemma keeps_weaken {S A} (R R' : S → S → Prop) (m : M S A) :
  Keeps R m → (∀ s s', R s s' → R' s s') → Keeps R' m.
Proof. intros Hm HR s. apply HR, Hm. Qed.

Lemma keeps_wp {S A} (R : S → S → Prop) (m : M S A) s :
  Keeps R m → wp m (λ _ s', R s s') s.
Proof. intros Hm. apply Hm. Qed.

(** ** Runs without a panic *)

Class Total {S A} (m : M S A) : Prop := total : ∀ s, (m s).1 ≠ Panic.

Section total.
Context {S : Type}.

Lemma total_ret {A} (a : A) : Total (mret a : M S A).
Proof. done. Qed.

Lemma total_throw {A} e : Total (throw e : M S A).
Proof. done. Qed.

Lemma total_gets {A} (f : S → A) : Total (gets f).
Proof. done. Qed.

Lemma total_run {A} (f : S → A * S) : Total (run f).
Proof. done. Qed.

Lemma total_lift {A} (o : outcome A) : o ≠ Panic → Total (lift o : M S A).
Proof. by intros Ho s. Qed.

Lemma total_bind {A B} (m : M S A) (f : A → M S B) :
  Total m → (∀ a, Total (f a)) → Total (m ≫= f).
Proof.
  intros Hm Hf s. unfold mbind, M_bind. specialize (Hm s).
  destruct (m s) as [[a|e|] s']; [apply Hf|done..].
Qed.
End total.

Create HintDb total discriminated.
#[export] Hint Resolve total_ret total_throw total_gets total_run : total.

Ltac total_step :=
  lazymatch goal with
  | |- forall _, _ => intro
  | |- Total (_ ≫= _) => apply total_bind
  | |- Total (match ?x with _ => _ end) => destruct x
  | |- Total (let '_ := ?x in _) => destruct x
  | |- Total _ => solve [eauto with total typeclass_instances]
  end.
Ltac solve_total := repeat total_step.

#[global] Opaque wp.

Create HintDb keeps discriminated.
#[export] Hint Resolve keeps_ret keeps_throw keeps_panic keeps_gets keeps_lift : keeps.

(** Follows the structure of a program down to its primitives, splitting every
    [match] and [if] on the way, and closes the primitives with the [keeps]
    database. *)
Ltac keeps_step :=
  lazymatch goal with
  | |- forall _, _ => intro
  | |- Keeps _ (_ ≫= _) => apply keeps_bind; [typeclasses eauto| |]
  | |- Keeps _ (match ?x with _ => _ end) => destruct x
  | |- Keeps _ (let '_ := ?x in _) => destruct x
  | |- Keeps _ _ => solve [eauto with keeps typeclass_instances]
  end.
Ltac solve_keeps := repeat keeps_step.

(** Symbolic execution of one monadic step under [wp]. *)
Ltac wp_step :=
  lazymatch goal with
  | |- wp (_ ≫= _) _ _ => apply wp_bind
  | |- wp (mret _) _ _ => apply wp_ret
  | |- wp (throw _) _ _ => apply wp_throw
  | |- wp panic _ _ => apply wp_panic
  | |- wp (gets _) _ _ => apply wp_gets
  | |- wp (run _) _ _ => apply wp_run
  | |- wp (lift _) _ _ => apply wp_lift
  end.
Ltac wp_steps := repeat (wp_step; cbn beta iota).

(** ** Generic lemmas on lists and options *)

Lemma forallb_True_forall {A} (f : A → bool) l :
  forallb f l = true ↔ ∀ x, x ∈ l → f x = true.
Proof.
  rewrite forallb_forall. split; intros H x Hx; apply H; by apply list_elem_of_In.
Qed.

Lemma bool_eq_iff (a b : bool) : (a = true ↔ b = true) → a = b.
Proof. destruct a, b; intros [H1 H2]; auto; symmetry; auto. Qed.
