(* ===== verification/GoStrings.v ===== *)
(** * Go strings

    The functions of Go's [strings], [strconv] and [fmt] packages that the
    operator uses.  A Go string is a sequence of bytes: Rocq's [string], whose
    characters are bytes.  What needs Go's Unicode tables (lower-casing and
    quoting text that is not ASCII) is the interface [Unicode]; trimming is
    modelled on all inputs, since the white-space code points are few. *)
From S2P Require Import Prelude.

(** The characters the templates write between the words. *)
Definition dquote : ascii := "034"%char.
Definition newline : ascii := "010"%char.
Definition backslash : ascii := "092"%char.
Definition str1 (c : ascii) : string := String c "".

(** ** Splitting, joining, prefixes *)

(** [strings.Split(s, sep)] for a one-byte separator. *)
Fixpoint Split (sep : ascii) (s : string) : list string :=
  match s with
  | "" => [""]
  | String c s' =>
      if decide (c = sep) then "" :: Split sep s'
      else match Split sep s' with
           | [] => [str1 c]
           | p :: ps => String c p :: ps
           end
  end.

(** [strings.Join(parts, sep)]. *)
Fixpoint Join (parts : list string) (sep : string) : string :=
  match parts with
  | [] => ""
  | [p] => p
  | p :: ps => p +:+ sep +:+ Join ps sep
  end.

(** [strings.CutPrefix]: the rest of [s] after [p]. *)
Fixpoint CutPrefix (p s : string) : option string :=
  match p, s with
  | "", _ => Some s
  | String a p', String b s' => if decide (a = b) then CutPrefix p' s' else None
  | String _ _, "" => None
  end.

(** [strings.TrimPrefix(s, p)]. *)
Definition TrimPrefix (s p : string) : string := default s (CutPrefix p s).

(** ** White space *)

(** The UTF-8 encodings of the code points [unicode.IsSpace] accepts. *)
Definition white_space : list string :=
  (str1 <$> ["009"; "010"; "011"; "012"; "013"; " "]%char) ++
  [ String "194" (str1 "133"); String "194" (str1 "160");
    String "225" (String "154" (str1 "128")) ] ++
  ((λ c, String "226" (String "128" (str1 c))) <$>
     ["128"; "129"; "130"; "131"; "132"; "133"; "134"; "135"; "136"; "137"; "138";
      "168"; "169"; "175"]%char) ++
  [ String "226" (String "129" (str1 "159")); String "227" (String "128" (str1 "128")) ].

(** [s] without one leading white-space character, if it starts with one. *)
Definition cut_space (spaces : list string) (s : string) : option string :=
  head (omap (λ p, CutPrefix p s) spaces).

Fixpoint trim_left_fuel (fuel : nat) (spaces : list string) (s : string) : string :=
  match fuel with
  | O => s
  | S fuel => match cut_space spaces s with
              | Some s' => trim_left_fuel fuel spaces s'
              | None => s
              end
  end.

(** Every step drops at least one byte, so the length of the string is enough
    fuel ([trim_left_done] below). *)
Definition trim_left (spaces : list string) (s : string) : string :=
  trim_left_fuel (String.length s) spaces s.

(** [strings.TrimSpace]: the trailing white space is the leading white space of
    the reversed bytes. *)
Definition TrimSpace (s : string) : string :=
  let s1 := trim_left white_space s in
  String.rev (trim_left (String.rev <$> white_space) (String.rev s1)).

(** ** Case and quoting *)

(** What Go takes from its Unicode tables: [strings.Map(unicode.ToLower, s)] and
    [strconv.Quote] on strings with a byte outside ASCII. *)
Class Unicode := {
  unicode_ToLower : string → string;
  unicode_Quote : string → string;
}.

Definition is_ascii (c : ascii) : bool := Nat.ltb (nat_of_ascii c) 128.

Fixpoint all_chars (f : ascii → bool) (s : string) : bool :=
  match s with "" => true | String c s' => f c && all_chars f s' end.

Fixpoint map_chars (f : ascii → ascii) (s : string) : string :=
  match s with "" => "" | String c s' => String (f c) (map_chars f s') end.

Fixpoint flat_map_chars (f : ascii → string) (s : string) : string :=
  match s with "" => "" | String c s' => f c +:+ flat_map_chars f s' end.

Definition lower_char (c : ascii) : ascii :=
  let n := nat_of_ascii c in
  if Nat.leb 65 n && Nat.leb n 90 then ascii_of_nat (n + 32) else c.

(** [strings.ToLower]. *)
Definition ToLower `{Unicode} (s : string) : string :=
  if all_chars is_ascii s then map_chars lower_char s else unicode_ToLower s.

Definition hex_digit (n : nat) : ascii :=
  ascii_of_nat (if Nat.ltb n 10 then 48 + n else 87 + n).

(** [strconv.appendEscapedRune] on an ASCII character, within double quotes. *)
Definition escape_char (c : ascii) : string :=
  let n := nat_of_ascii c in
  if decide (c = dquote ∨ c = backslash) then String backslash (str1 c)
  else if Nat.leb 32 n && Nat.leb n 126 then str1 c
  else match n with
       | 7 => String backslash (str1 "a")
       | 8 => String backslash (str1 "b")
       | 12 => String backslash (str1 "f")
       | 10 => String backslash (str1 "n")
       | 13 => String backslash (str1 "r")
       | 9 => String backslash (str1 "t")
       | 11 => String backslash (str1 "v")
       | _ => String backslash (String "x"
                (String (hex_digit (n / 16)) (str1 (hex_digit (n mod 16)))))
       end.

(** [strconv.Quote], the [%q] of [fmt.Sprintf]. *)
Definition Quote `{Unicode} (s : string) : string :=
  if all_chars is_ascii s
  then str1 dquote +:+ flat_map_chars escape_char s +:+ str1 dquote
  else unicode_Quote s.

(** Printable ASCII without a quote or a backslash: text that means itself
    between double quotes, to Go's [%q] and to YAML alike. *)
Definition plain_char (c : ascii) : bool :=
  Nat.leb 32 (nat_of_ascii c) && Nat.leb (nat_of_ascii c) 126 &&
  negb (bool_decide (c = dquote ∨ c = backslash)).
Definition plain (s : string) : bool := all_chars plain_char s.

(** A one-byte separator does not occur in [s]. *)
Definition lacks (sep : ascii) (s : string) : bool :=
  all_chars (λ c, negb (bool_decide (c = sep))) s.

(** ** Lemmas *)

Lemma string_app_assoc (a b c : string) : (a +:+ b) +:+ c = a +:+ b +:+ c.
Proof.
  induction a as [|x a IH]; [done|]. simpl. unfold String.app in *.
  simpl. by f_equal.
Qed.

Lemma string_app_nil_r (a : string) : a +:+ "" = a.
Proof. induction a as [|x a IH]; [done|]. unfold String.app in *. simpl. by f_equal. Qed.

Lemma string_app_cons c (a b : string) : String c a +:+ b = String c (a +:+ b).
Proof. done. Qed.

Lemma string_app_nil_l (b : string) : "" +:+ b = b.
Proof. done. Qed.

Create Rewrite HintDb strings.
#[export] Hint Rewrite string_app_assoc string_app_nil_r string_app_cons
  string_app_nil_l : strings.

Lemma all_chars_app f (a b : string) :
  all_chars f (a +:+ b) = all_chars f a && all_chars f b.
Proof.
  induction a as [|c a IH]; [done|]. rewrite string_app_cons. simpl.
  by rewrite IH, andb_assoc.
Qed.

Lemma all_chars_impl (f g : ascii → bool) s :
  (∀ c, f c = true → g c = true) → all_chars f s = true → all_chars g s = true.
Proof.
  intros Hfg. induction s as [|c s IH]; [done|]. simpl.
  rewrite !andb_true_iff. intros [??]. auto.
Qed.

Lemma Split_not_nil sep s : Split sep s ≠ [].
Proof. destruct s as [|c s]; [done|]. simpl. case_decide; [done|]. by destruct (Split sep s). Qed.

(** Splitting then joining with the same separator gives the text back. *)
Lemma Join_Split sep s : Join (Split sep s) (str1 sep) = s.
Proof.
  induction s as [|c s IH]; [done|]. simpl. case_decide as Hc.
  - subst. destruct (Split sep s) as [|p ps] eqn:E; [by apply Split_not_nil in E|].
    by rewrite <-IH.
  - destruct (Split sep s) as [|p ps] eqn:E; [by apply Split_not_nil in E|].
    destruct ps; by rewrite <-IH.
Qed.

Lemma Split_lacks sep s : lacks sep s = true → Split sep s = [s].
Proof.
  induction s as [|c s IH]; [done|]. simpl. unfold lacks in *. simpl.
  rewrite andb_true_iff, negb_true_iff, bool_decide_eq_false. intros [Hc Hs].
  by rewrite decide_False, (IH Hs) by done.
Qed.

Lemma Split_app sep p s :
  lacks sep p = true → Split sep (p +:+ str1 sep +:+ s) = p :: Split sep s.
Proof.
  induction p as [|c p IH].
  - intros _. rewrite string_app_nil_l. unfold str1. rewrite string_app_cons. simpl.
    by rewrite decide_True.
  - unfold lacks. rewrite string_app_cons. simpl.
    rewrite andb_true_iff, negb_true_iff, bool_decide_eq_false. intros [Hc Hs].
    by rewrite decide_False, (IH Hs) by done.
Qed.

(** Joining parts that lack the separator, then splitting, gives the parts. *)
Lemma Split_Join sep parts :
  parts ≠ [] → Forall (λ p, lacks sep p = true) parts →
  Split sep (Join parts (str1 sep)) = parts.
Proof.
  intros Hne Hall. induction Hall as [|p ps Hp Hps IH]; [done|].
  destruct ps as [|q qs]; [by apply Split_lacks|].
  change (Join (p :: q :: qs) (str1 sep)) with (p +:+ str1 sep +:+ Join (q :: qs) (str1 sep)).
  by rewrite Split_app, IH.
Qed.

Lemma string_length_app (a b : string) :
  String.length (a +:+ b) = String.length a + String.length b.
Proof. induction a as [|c a IH]; [done|]. rewrite string_app_cons. simpl. lia. Qed.

Lemma CutPrefix_Some p s s' : CutPrefix p s = Some s' ↔ s = p +:+ s'.
Proof.
  revert s. induction p as [|a p IH]; intros s.
  - simpl. rewrite string_app_nil_l. naive_solver.
  - destruct s as [|b s]; [done|]. rewrite string_app_cons. simpl.
    case_decide; [subst; rewrite IH|]; split; congruence.
Qed.

Lemma TrimPrefix_app p s : TrimPrefix (p +:+ s) p = s.
Proof. unfold TrimPrefix. by rewrite (proj2 (CutPrefix_Some p (p +:+ s) s) eq_refl). Qed.

Lemma cut_space_None spaces s :
  Forall (λ p, CutPrefix p s = None) spaces → cut_space spaces s = None.
Proof.
  unfold cut_space. induction 1 as [|p ps Hp _ IH]; [done|]. simpl. by rewrite Hp.
Qed.

Lemma cut_space_shorter spaces s s' :
  Forall (λ p, p ≠ "") spaces → cut_space spaces s = Some s' →
  String.length s' < String.length s.
Proof.
  unfold cut_space. induction 1 as [|p ps Hp _ IH]; [done|]. simpl.
  destruct (CutPrefix p s) as [s''|] eqn:E; simpl; [|done].
  intros [= <-]. apply CutPrefix_Some in E as ->. rewrite string_length_app.
  destruct p; [done|]. simpl. lia.
Qed.

(** The fuel is enough: what is left does not start with white space. *)
Lemma trim_left_done spaces s :
  Forall (λ p, p ≠ "") spaces → cut_space spaces (trim_left spaces s) = None.
Proof.
  intros Hsp. unfold trim_left.
  assert (∀ n s, String.length s ≤ n → cut_space spaces (trim_left_fuel n spaces s) = None)
    as Hgen; [|by apply Hgen].
  clear s. induction n as [|n IH]; intros s Hlen; simpl.
  - destruct (cut_space spaces s) as [s'|] eqn:E; [|done].
    apply cut_space_shorter in E; [lia|done].
  - destruct (cut_space spaces s) as [s'|] eqn:E; [|done].
    apply IH. apply cut_space_shorter in E; [lia|done].
Qed.

Lemma trim_left_id spaces s : cut_space spaces s = None → trim_left spaces s = s.
Proof. unfold trim_left. intros H. destruct (String.length s); [done|]. simpl. by rewrite H. Qed.

Lemma white_space_not_empty : Forall (λ p, p ≠ "") white_space.
Proof. by repeat constructor. Qed.

Lemma flat_map_escape_plain s :
  plain s = true → flat_map_chars escape_char s = s.
Proof.
  unfold plain. induction s as [|c s IH]; [done|]. simpl.
  rewrite andb_true_iff. intros [Hc Hs]. rewrite (IH Hs).
  unfold plain_char in Hc. rewrite !andb_true_iff, negb_true_iff, bool_decide_eq_false in Hc.
  destruct Hc as [[H1 H2] H3]. unfold escape_char. rewrite decide_False by done.
  rewrite H1, H2. done.
Qed.

(** [%q] only adds the quotes to plain text. *)
Lemma Quote_plain `{Unicode} s :
  plain s = true → Quote s = str1 dquote +:+ s +:+ str1 dquote.
Proof.
  intros Hs. unfold Quote. rewrite (flat_map_escape_plain s Hs).
  rewrite (all_chars_impl plain_char is_ascii s); [done| |done].
  intros c. unfold plain_char, is_ascii.
  rewrite !andb_true_iff, Nat.ltb_lt, !Nat.leb_le. lia.
Qed.

Lemma string_app_inj_r (a b c : string) : a +:+ c = b +:+ c → a = b.
Proof.
  revert b. induction a as [|x a IH]; intros [|y b]; rewrite ?string_app_cons,
    ?string_app_nil_l; [done|..].
  - intros E. apply (f_equal String.length) in E. simpl in E.
    rewrite string_length_app in E. lia.
  - intros E. apply (f_equal String.length) in E. simpl in E.
    rewrite string_length_app in E. lia.
  - intros [= -> E]. by rewrite (IH b E).
Qed.

#[global] Instance string_app_inj_l (c : string) : Inj (=) (=) (λ s, s +:+ c).
Proof. intros a b. apply string_app_inj_r. Qed.
