(* ===== verification/GoValue.v ===== *)
(** * Go's dynamic values

    The [interface{}] values a decoded YAML document or an unstructured
    Kubernetes object holds, the type assertions the code makes on them, slices
    that may be nil, and [reflect.DeepEqual]. *)
From S2P Require Import Prelude.

(** A value of type [interface{}] as the JSON and YAML decoders build it.
    Numbers are kept as text: the code never looks inside one. *)
Inductive value :=
| VNil
| VBool (b : bool)
| VNumber (text : string)
| VString (s : string)
| VList (l : list value)
| VMap (m : gmap string value).

(** Decidable equality, by recursion through the lists and the maps. *)
#[global] Instance value_eq_dec : EqDecision value.
Proof.
  refine (fix go v1 v2 : Decision (v1 = v2) :=
    match v1, v2 with
    | VNil, VNil => left eq_refl
    | VBool a, VBool b => cast_if (decide (a = b))
    | VNumber a, VNumber b => cast_if (decide (a = b))
    | VString a, VString b => cast_if (decide (a = b))
    | VList a, VList b => cast_if (@decide (a = b) (@list_eq_dec value go a b))
    | VMap a, VMap b => cast_if (@decide (a = b) (@gmap_eq_dec string _ _ value go a b))
    | _, _ => right _
    end); try congruence; clear go; abstract congruence.
Defined.

(** Type assertions with the two-value form [x, ok := v.(T)]. *)
Definition as_string (v : value) : option string :=
  match v with VString s => Some s | _ => None end.
Definition as_list (v : value) : option (list value) :=
  match v with VList l => Some l | _ => None end.
Definition as_map (v : value) : option (gmap string value) :=
  match v with VMap m => Some m | _ => None end.

(** [m[k].(T)]: a missing key reads as the nil interface, whose assertion fails. *)
Definition index (m : gmap string value) (k : string) : value := default VNil (m !! k).

(** A step into a value: a field of a map, an item of a list. *)
Inductive path_step := Field (k : string) | Item (n : nat).

Definition value_step (p : path_step) (v : value) : option value :=
  match p with
  | Field k => as_map v ≫= (.!! k)
  | Item n => as_list v ≫= (.!! n)
  end.

(** The value at the end of a path, if there is one. *)
Fixpoint value_at (path : list path_step) (v : value) : option value :=
  match path with
  | [] => Some v
  | p :: rest => value_step p v ≫= value_at rest
  end.

(** A Go slice: [None] is the nil slice, which [reflect.DeepEqual] tells apart
    from an empty one.  [len] and [range] treat the two alike. *)
Definition slice (A : Type) : Type := option (list A).
Definition elems {A} (s : slice A) : list A := default [] s.

(** [append(s, x)]: never nil. *)
Definition append {A} (s : slice A) (x : A) : slice A := Some (elems s ++ [x]).

(** [reflect.DeepEqual].  On these values two maps are deeply equal when they
    have the same keys with deeply equal values and two slices when both are nil
    or both are not and agree element by element, which is equality here (maps
    are extensional).  Decoders build no NaN, cycle or function value, the only
    places where Go's relation differs from equality. *)
Definition DeepEqual {A} `{EqDecision A} (x y : A) : bool := bool_decide (x = y).

(** A nil Go map reads as an empty one. *)
Definition map_read {A} (m : option (gmap string A)) (k : string) : option A :=
  m ≫= (.!! k).

(** ** Lemmas *)

Lemma DeepEqual_true {A} `{EqDecision A} (x y : A) : DeepEqual x y = true ↔ x = y.
Proof. apply bool_decide_eq_true. Qed.

Lemma DeepEqual_false {A} `{EqDecision A} (x y : A) : DeepEqual x y = false ↔ x ≠ y.
Proof. apply bool_decide_eq_false. Qed.

Lemma DeepEqual_refl {A} `{EqDecision A} (x : A) : DeepEqual x x = true.
Proof. by apply DeepEqual_true. Qed.

Lemma index_Some m k v : m !! k = Some v → index m k = v.
Proof. unfold index. by intros ->. Qed.

Lemma index_None m k : m !! k = None → index m k = VNil.
Proof. unfold index. by intros ->. Qed.

Lemma index_insert m k v : index (<[k := v]> m) k = v.
Proof. apply index_Some, lookup_insert_eq. Qed.

Lemma index_insert_ne m k k' v : k ≠ k' → index (<[k := v]> m) k' = index m k'.
Proof. unfold index. intros. by rewrite lookup_insert_ne. Qed.

Create Rewrite HintDb values.
#[export] Hint Rewrite index_insert : values.
