(* ===== verification/GoTime.v ===== *)
(** * Go time

    [time.Time] as nanoseconds since the zero time, and [time.Duration] as a
    signed 64-bit number of nanoseconds; a difference of times saturates. *)
From S2P Require Import Prelude.
#[local] Open Scope Z_scope.

Definition Minute : Z := 60 * 10 ^ 9.
Definition Hour : Z := 60 * Minute.

Definition minDuration : Z := - 2 ^ 63.
Definition maxDuration : Z := 2 ^ 63 - 1.

(** [t.Sub(u)]. *)
Definition Sub (t u : Z) : Z :=
  let d := t - u in
  if decide (d < minDuration) then minDuration
  else if decide (maxDuration < d) then maxDuration
  else d.

(** [t.Add(d)], [t.After(u)] and [t.IsZero()]. *)
Definition Add (t d : Z) : Z := t + d.
Definition After (t u : Z) : bool := bool_decide (u < t).
Definition IsZero (t : Z) : bool := bool_decide (t = 0).

(** A difference is a duration that fits 64 bits. *)
Lemma Sub_bounds t u : minDuration <= Sub t u <= maxDuration.
Proof.
  unfold Sub, minDuration, maxDuration. cbn zeta.
  repeat case_decide; lia.
Qed.

(** Saturation does not change a comparison with a duration in range. *)
Lemma Sub_gt t u d : minDuration <= d < maxDuration → d < Sub t u ↔ d < t - u.
Proof.
  unfold Sub, minDuration, maxDuration. cbn zeta. intros Hd.
  repeat case_decide; lia.
Qed.

Lemma Sub_mono t t' u : t <= t' → Sub t u <= Sub t' u.
Proof.
  unfold Sub, minDuration, maxDuration. cbn zeta. intros Ht.
  repeat case_decide; lia.
Qed.
