(* ===== verification/GoFlag.v ===== *)
(** * Go's [flag] package

    Parsing a command line the way [flag.Parse] does on [flag.CommandLine]: flags
    start with one or two dashes, a value follows an equals sign or, for flags that
    are not boolean, is the next argument; parsing stops at the first argument that
    is no flag, after [--], at a request for help, or at an error. *)
From S2P Require Import Prelude GoStrings.

(** [strconv.ParseBool]. *)
Definition ParseBool (s : string) : option bool :=
  if decide (s ∈ ["1"; "t"; "T"; "true"; "TRUE"; "True"]) then Some true
  else if decide (s ∈ ["0"; "f"; "F"; "false"; "FALSE"; "False"]) then Some false
  else None.

(** [name[i+1:]] and [name[0:i]] at the first equals sign after the first byte. *)
Fixpoint cut_equals (s : string) : string * option string :=
  match s with
  | EmptyString => ("", None)
  | String c s' =>
      if decide (c = "="%char) then ("", Some s')
      else let '(n, v) := cut_equals s' in (String c n, v)
  end.

(** What one argument is to [parseOne]. *)
Inductive argument :=
| NoFlag                                       (* stops; the argument is kept *)
| EndOfFlags                                   (* [--] stops; it is dropped *)
| BadSyntax
| AFlag (name : string) (value : option string).

(** The rest of an argument after its dashes. *)
Definition flag_body (s : string) : argument :=
  match s with
  | EmptyString => BadSyntax
  | String c s' =>
      if decide (c = "-"%char ∨ c = "="%char) then BadSyntax
      else let '(n, v) := cut_equals s' in AFlag (String c n) v
  end.

Definition classify (s : string) : argument :=
  match s with
  | String "-" (String "-" "") => EndOfFlags
  | String "-" (String "-" s') => flag_body s'
  | String "-" (String c s') => flag_body (String c s')
  | _ => NoFlag
  end.

(** A flag of a flag set: whether it needs no value, and [Set] on the variables. *)
Record flag (S : Type) := mkFlag { IsBoolFlag : bool; Set_ : string → S → string + S }.
Arguments mkFlag {S}.
Arguments IsBoolFlag {S}.
Arguments Set_ {S}.

Definition StringVar {S} (assign : string → S → S) : flag S :=
  mkFlag false (λ v s, inr (assign v s)).
Definition BoolVar {S} (assign : bool → S → S) : flag S :=
  mkFlag true (λ v s, match ParseBool v with Some b => inr (assign b s) | None => inl "parse error" end).

Inductive parse_result (S : Type) :=
| Parsed (variables : S) (args : list string)
| ErrHelp
| ErrUsage (msg : string).
Arguments Parsed {S}.
Arguments ErrHelp {S}.
Arguments ErrUsage {S}.

Section parse.
Context `{Unicode} {S : Type} (formal : string → option (flag S)).

(** [if err := flag.Value.Set(value); err != nil { return false, f.failf(msg, err) }]. *)
Definition set_or_fail (f : flag S) (value : string) (msg : string → string)
    (k : S → parse_result S) (s : S) : parse_result S :=
  match Set_ f value s with
  | inr s' => k s'
  | inl err => ErrUsage (msg err)
  end.

Definition invalid (what value name err : string) : string :=
  "invalid " +:+ what +:+ Quote value +:+ name +:+ ": " +:+ err.

(** The loop of [FlagSet.Parse]. *)
Fixpoint parse (args : list string) (s : S) : parse_result S :=
  match args with
  | [] => Parsed s []
  | a :: rest =>
      match classify a with
      | NoFlag => Parsed s args
      | EndOfFlags => Parsed s rest
      | BadSyntax => ErrUsage ("bad flag syntax: " +:+ a)
      | AFlag name value =>
          match formal name with
          | None =>
              if decide (name = "help" ∨ name = "h") then ErrHelp
              else ErrUsage ("flag provided but not defined: -" +:+ name)
          | Some f =>
              if IsBoolFlag f then
                match value with
                | Some v => set_or_fail f v (invalid "boolean value " v (" for -" +:+ name)) (parse rest) s
                | None => set_or_fail f "true" (λ err, "invalid boolean flag " +:+ name +:+ ": " +:+ err)
                            (parse rest) s
                end
              else
                match value, rest with
                | Some v, _ => set_or_fail f v (invalid "value " v (" for flag -" +:+ name)) (parse rest) s
                | None, v :: rest' =>
                    set_or_fail f v (invalid "value " v (" for flag -" +:+ name)) (parse rest') s
                | None, [] => ErrUsage ("flag needs an argument: -" +:+ name)
                end
          end
      end
  end.
End parse.

(** ** Writing arguments *)

(** A flag set on the command line: its name, the text of its value, whether the
    name has two dashes, and whether the value is after an equals sign. *)
Record setting := mkSetting {
  set_name : string;
  set_value : string;
  set_double : bool;
  set_equals : bool;
}.

(** Without the equals sign the value of a boolean flag is not written. *)
Definition print_setting (is_bool : bool) (x : setting) : list string :=
  let dashed := (if set_double x then "--" else "-") +:+ set_name x in
  if set_equals x then [dashed +:+ "=" +:+ set_value x]
  else if is_bool then [dashed] else [dashed; set_value x].

(** A name that can be a flag's: not empty, no leading dash, no equals sign. *)
Definition flag_name (s : string) : bool :=
  match s with
  | EmptyString => false
  | String c _ => negb (bool_decide (c = "-"%char)) && all_chars (λ c, negb (bool_decide (c = "="%char))) s
  end.

(** ** Lemmas *)

Lemma cut_equals_none s :
  all_chars (λ c, negb (bool_decide (c = "="%char))) s = true → cut_equals s = (s, None).
Proof.
  induction s as [|c s IH]; [done|]. simpl. rewrite andb_true_iff, negb_true_iff, bool_decide_eq_false.
  intros [Hc Hs]. rewrite decide_False by done. by rewrite IH.
Qed.

Lemma cut_equals_some s v :
  all_chars (λ c, negb (bool_decide (c = "="%char))) s = true →
  cut_equals (s +:+ "=" +:+ v) = (s, Some v).
Proof.
  induction s as [|c s IH]; [done|]. rewrite string_app_cons. simpl.
  rewrite andb_true_iff, negb_true_iff, bool_decide_eq_false.
  intros [Hc Hs]. rewrite decide_False by done. by rewrite IH.
Qed.

Lemma flag_name_inv s :
  flag_name s = true → ∃ c s', s = String c s' ∧ c ≠ "-"%char ∧ c ≠ "="%char ∧
    all_chars (λ c, negb (bool_decide (c = "="%char))) s' = true.
Proof.
  destruct s as [|c s']; [done|]. simpl. rewrite !andb_true_iff, !negb_true_iff, !bool_decide_eq_false.
  intros (Hd & He & Hs). by exists c, s'.
Qed.

Lemma flag_body_name n v :
  flag_name n = true →
  flag_body n = AFlag n None ∧ flag_body (n +:+ "=" +:+ v) = AFlag n (Some v).
Proof.
  intros (c & n' & -> & Hd & He & Hn)%flag_name_inv. rewrite string_app_cons. simpl.
  rewrite !decide_False by by intros [].
  by rewrite cut_equals_none, cut_equals_some.
Qed.

Lemma classify_dashed (double : bool) n s :
  flag_name n = true →
  classify ((if double then "--" else "-") +:+ n +:+ s) = flag_body (n +:+ s).
Proof.
  intros (c & n' & -> & Hd & _)%flag_name_inv. rewrite !string_app_cons.
  destruct double; [done|]. simpl.
  destruct c as [[] [] [] [] [] [] [] []]; try done.
Qed.

Lemma parse_setting `{Unicode} {S} (formal : string → option (flag S)) is_bool x f rest s s' :
  flag_name (set_name x) = true → formal (set_name x) = Some f → IsBoolFlag f = is_bool →
  (is_bool = true → set_equals x = false → set_value x = "true") →
  Set_ f (set_value x) s = inr s' →
  parse formal (print_setting is_bool x ++ rest) s = parse formal rest s'.
Proof.
  destruct x as [n v double equals]. simpl. intros Hn Hf Eb Hb Hset.
  destruct (flag_body_name n v Hn) as [HN HV].
  pose proof (classify_dashed double n ("=" +:+ v) Hn) as CV. rewrite HV in CV.
  pose proof (classify_dashed double n "" Hn) as CN. rewrite string_app_nil_r, HN in CN.
  unfold print_setting. cbn [set_name set_value set_double set_equals].
  destruct equals; [|destruct is_bool]; cbn [app parse].
  - rewrite string_app_assoc, CV, Hf. unfold set_or_fail. rewrite Hset. by destruct (IsBoolFlag f).
  - rewrite CN, Hf, Eb. unfold set_or_fail. by rewrite <-(Hb eq_refl eq_refl), Hset.
  - rewrite CN, Hf, Eb. unfold set_or_fail. by rewrite Hset.
Qed.
