(* ===== verification/Libraries.v ===== *)
(** * Interfaces of the pure libraries

    The operator calls three libraries whose functions do no I/O: Masterminds
    semver (version parsing and comparison), yaml.v3 (decoding into
    [map[string]interface{}]) and the Teleport API types (system roles and
    provision tokens).  Each is an interface: a class of operations, and a class
    of laws that states the documented behaviour the operator relies on. *)
From Stdlib Require Import DecimalString.
From S2P Require Import Prelude GoStrings GoValue.

(** ** Semantic versions *)

(** The decimal numeral of a number, and [MAJOR.MINOR.PATCH]. *)
Definition dec (n : N) : string := NilZero.string_of_uint (N.to_uint n).
Definition version_text (a b c : N) : string :=
  dec a +:+ "." +:+ dec b +:+ "." +:+ dec c.

(** Precedence of releases: numeric, most significant first. *)
Definition release_compare (x y : N * N * N) : comparison :=
  let '(a, b, c) := x in let '(a', b', c') := y in
  match (a ?= a')%N with
  | Eq => match (b ?= b')%N with Eq => (c ?= c')%N | r => r end
  | r => r
  end.

Definition of_comparison (c : comparison) : Z :=
  match c with Lt => -1 | Eq => 0 | Gt => 1 end.

Class Semver := {
  Version : Type;
  NewVersion : string → lib_error + Version;
  MustParse : string → Version;  (* panics unless NewVersion succeeds *)
  Compare : Version → Version → Z;
}.

(** A version component is an unsigned 64-bit number. *)
Definition is_uint64 (n : N) : Prop := (n < 2 ^ 64)%N.

Class SemverLaws `{Semver} : Prop := {
  MustParse_spec s v : NewVersion s = inr v → MustParse s = v;
  NewVersion_release a b c :
    is_uint64 a → is_uint64 b → is_uint64 c →
    ∃ v, NewVersion (version_text a b c) = inr v;
  Compare_release a b c a' b' c' v v' :
    is_uint64 a → is_uint64 b → is_uint64 c →
    is_uint64 a' → is_uint64 b' → is_uint64 c' →
    NewVersion (version_text a b c) = inr v →
    NewVersion (version_text a' b' c') = inr v' →
    Compare v v' = of_comparison (release_compare (a, b, c) (a', b', c'));
  (* precedence is a total preorder *)
  Compare_antisym v v' : Compare v v' = (- Compare v' v)%Z;
  Compare_trans v1 v2 v3 :
    (Compare v1 v2 <= 0)%Z → (Compare v2 v3 <= 0)%Z → (Compare v1 v3 <= 0)%Z;
}.

(** ** YAML *)

(** [yaml.Unmarshal(bytes, &root)] with [root] a [map[string]interface{}]; an
    empty document leaves the map nil, which reads as the empty map. *)
Class Yaml := {
  Unmarshal : string → lib_error + gmap string value;
}.

(** The block documents the operator's own templates produce: top-level keys
    with a double-quoted scalar, or with a nested block of such keys. *)
Inductive ynode :=
| YScalar (s : string)
| YBlock (entries : list (string * string)).
Definition ydoc : Type := list (string * ynode).

Definition print_scalar (indent : string) (e : string * string) : string :=
  indent +:+ e.1 +:+ ": " +:+ str1 dquote +:+ e.2 +:+ str1 dquote +:+ str1 newline.

Fixpoint concat_map {A} (f : A → string) (l : list A) : string :=
  match l with [] => "" | x :: l => f x +:+ concat_map f l end.

Definition print_node (e : string * ynode) : string :=
  match e.2 with
  | YScalar s => print_scalar "" (e.1, s)
  | YBlock entries => e.1 +:+ ":" +:+ str1 newline +:+ concat_map (print_scalar "  ") entries
  end.
Definition print_doc (d : ydoc) : string := concat_map print_node d.

Definition denote_node (n : ynode) : value :=
  match n with
  | YScalar s => VString s
  | YBlock entries => VMap (list_to_map (prod_map id VString <$> entries))
  end.
Definition denote_doc (d : ydoc) : gmap string value :=
  list_to_map (prod_map id denote_node <$> d).

(** The keys of the templates: plain YAML scalars that resolve to strings. *)
Definition template_keys : list string :=
  [ "roles"; "authToken"; "proxyAddr"; "kubeClusterName"; "teleportVersionOverride";
    "teleport-kube-agent" ].

Definition wf_entry (e : string * string) : Prop :=
  e.1 ∈ template_keys ∧ plain e.2 = true.
Definition wf_node (e : string * ynode) : Prop :=
  e.1 ∈ template_keys ∧
  match e.2 with
  | YScalar s => plain s = true
  | YBlock entries => entries ≠ [] ∧ NoDup entries.*1 ∧ Forall wf_entry entries
  end.
Definition wf_doc (d : ydoc) : Prop := NoDup d.*1 ∧ Forall wf_node d.

(** YAML 1.2, 7.3.1 and 8.2: a block mapping of such lines decodes to the map of
    its keys, and a double-quoted scalar without escapes to its text. *)
Class YamlLaws `{Yaml} : Prop := {
  Unmarshal_print d : wf_doc d → Unmarshal (print_doc d) = inr (denote_doc d);
}.

(** ** Teleport API types *)

Class SystemRoles := {
  SystemRole : Type;
  RoleKube : SystemRole;
  RoleApp : SystemRole;
  RoleNode : SystemRole;
  SystemRole_String : SystemRole → string;
}.

(** The observable part of a [types.ProvisionToken]: [GetName],
    [GetMetadata().Labels], [Expiry] (nanoseconds since the zero time) and
    [GetRoles]. *)
Record ProvisionToken `{SystemRoles} := mkToken {
  GetName : string;
  Labels : gmap string string;
  Expiry : Z;
  GetRoles : list SystemRole;
}.

Class ProvisionTokens `{SystemRoles} := {
  NewProvisionToken : string → list SystemRole → Z → lib_error + ProvisionToken;
}.

Class TeleportTypesLaws `{Unicode, SystemRoles, !ProvisionTokens} : Prop := {
  RoleKube_lower : ToLower (SystemRole_String RoleKube) = "kube";
  RoleApp_lower : ToLower (SystemRole_String RoleApp) = "app";
  RoleNode_lower : ToLower (SystemRole_String RoleNode) = "node";
  NewProvisionToken_spec name roles expires t :
    NewProvisionToken name roles expires = inr t →
    GetName t = name ∧ Expiry t = expires ∧ GetRoles t = roles;
}.

(** [types.NewProvisionToken] accepts a name that is not empty with distinct
    roles, at least one, of those the operator uses. *)
Class ProvisionTokensAccept `{SystemRoles, !ProvisionTokens} : Prop := {
  NewProvisionToken_accepts name roles expires :
    name ≠ "" → roles ≠ [] → NoDup roles →
    Forall (λ r, r = RoleKube ∨ r = RoleApp ∨ r = RoleNode) roles →
    ∃ t, NewProvisionToken name roles expires = inr t;
}.

(** ** Lemmas on the documents *)

Lemma concat_map_app {A} (f : A → string) (l1 l2 : list A) :
  concat_map f (l1 ++ l2) = concat_map f l1 +:+ concat_map f l2.
Proof.
  induction l1 as [|x l1 IH]; [done|]. simpl. rewrite IH.
  by rewrite string_app_assoc.
Qed.

Lemma print_doc_app d1 d2 : print_doc (d1 ++ d2) = print_doc d1 +:+ print_doc d2.
Proof. apply concat_map_app. Qed.

Lemma release_compare_refl x : release_compare x x = Eq.
Proof. destruct x as [[a b] c]. simpl. by rewrite !N.compare_refl. Qed.
