(* ===== verification/Key.v ===== *)
(** * Package key (internal/pkg/key/key.go)

    The constants, the role lists, the object names derived from a cluster's
    name, the version gates and the templates of the values documents. *)
From S2P Require Import Prelude GoStrings GoValue GoTime Libraries.

(** ** Constants *)

Definition TeleportOperatorFinalizer : string := "teleport.finalizer.giantswarm.io".
Definition TeleportOperatorConfigName : string := "teleport-operator".
Definition TeleportBotSecretName : string := "identity-output".
Definition TeleportBotNamespace : string := "giantswarm".
Definition TeleportBotAppName : string := "teleport-tbot".

Definition TeleportKubeTokenValidity : Z := 720 * Hour.

Definition AppCatalog : string := "appCatalog".
Definition AppName : string := "appName".
Definition AppVersion : string := "appVersion".
Definition Identity : string := "identity".
Definition ManagementClusterName : string := "managementClusterName".
Definition ProxyAddr : string := "proxyAddr".
Definition TeleportVersion : string := "teleportVersion".
Definition role_kube : string := "kube".
Definition role_app : string := "app".
Definition role_node : string := "node".

Definition TeleportKubeAgentValuesKey : string := "teleport-kube-agent".
Definition teleportKubeAgentNestedSinceVersion : string := "0.11.0".
Definition teleportKubeAgentBundledTeleportVersion : string := "18.7.6".

(** ** Roles *)

Definition comma : ascii := ","%char.

(** The loop of [ParseRoles]: the parts not yet read. *)
Fixpoint parse_parts (parts : list string) : outcome (list string) :=
  match parts with
  | [] => Ret []
  | part :: rest =>
      let part := TrimSpace part in
      if decide (part = role_kube ∨ part = role_app ∨ part = role_node)
      then roles ← parse_parts rest; Ret (part :: roles)
      else Err (EText ("invalid role: " +:+ part))
  end.

Definition ParseRoles (s : string) : outcome (list string) :=
  parse_parts (Split comma s).

Definition RolesToString (roles : list string) : string := Join roles (str1 comma).

(** The switch of [RolesToSystemRoles]: it has no default case. *)
Definition system_role `{SystemRoles} (role : string) : option SystemRole :=
  if decide (role = role_kube) then Some RoleKube
  else if decide (role = role_app) then Some RoleApp
  else if decide (role = role_node) then Some RoleNode
  else None.

Definition RolesToSystemRoles `{SystemRoles} (roles : list string) : list SystemRole :=
  omap system_role roles.

(** ** Object names *)

Definition GetConfigmapName (clusterName appName : string) : string :=
  clusterName +:+ "-" +:+ appName +:+ "-config".
Definition GetTbotConfigmapName (clusterName : string) : string :=
  "teleport-tbot-" +:+ clusterName +:+ "-config".
Definition GetSecretName (clusterName : string) : string :=
  clusterName +:+ "-teleport-join-token".
Definition GetKubeconfigSecretName (clusterName : string) : string :=
  "teleport-" +:+ clusterName +:+ "-kubeconfig".
Definition GetRegisterName (managementClusterName clusterName : string) : string :=
  managementClusterName +:+ "-" +:+ clusterName.
Definition GetAppSpecKubeConfigSecretName (clusterName : string) : string :=
  clusterName +:+ "-kubeconfig".
Definition GetAppName (clusterName appName : string) : string :=
  clusterName +:+ "-" +:+ appName.

(** ** Version gates *)

Definition UsesNestedKubeAgentValues `{Semver} (appVersion : string) : bool :=
  match NewVersion (TrimPrefix appVersion "v") with
  | inl _ => false
  | inr v =>
      let threshold := MustParse teleportKubeAgentNestedSinceVersion in
      bool_decide (Compare v threshold >= 0)%Z
  end.

Definition ResolveNestedTeleportVersionOverride `{Semver} (teleportVersion : string) : string :=
  if decide (teleportVersion = "") then ""
  else match NewVersion (TrimPrefix teleportVersion "v") with
       | inl _ => ""
       | inr v =>
           let bundled := MustParse teleportKubeAgentBundledTeleportVersion in
           if decide (Compare v bundled < 0)%Z then "" else teleportVersion
       end.

(** ** Templates *)

(** A line [<key>: "%s"] of the raw-string templates. *)
Definition quoted_line (key s : string) : string :=
  key +:+ ": " +:+ str1 dquote +:+ s +:+ str1 dquote +:+ str1 newline.

Definition renderFlatValuesBlock `{Unicode}
    (authToken proxyAddr kubeClusterName teleportVersion : string)
    (roles : list string) : string :=
  let body := quoted_line "roles" (RolesToString roles) +:+
              quoted_line "authToken" authToken +:+
              quoted_line "proxyAddr" proxyAddr +:+
              quoted_line "kubeClusterName" kubeClusterName in
  if decide (teleportVersion ≠ "")
  then body +:+ "teleportVersionOverride: " +:+ Quote teleportVersion +:+ str1 newline
  else body.

Definition renderNestedValuesBlock `{Unicode}
    (authToken proxyAddr kubeClusterName teleportVersion : string)
    (roles : list string) : string :=
  let body := TeleportKubeAgentValuesKey +:+ ":" +:+ str1 newline +:+
              quoted_line "  roles" (RolesToString roles) +:+
              quoted_line "  authToken" authToken +:+
              quoted_line "  proxyAddr" proxyAddr +:+
              quoted_line "  kubeClusterName" kubeClusterName in
  if decide (teleportVersion ≠ "")
  then body +:+ "  teleportVersionOverride: " +:+ Quote teleportVersion +:+ str1 newline
  else body.

Definition GetConfigmapDataFromTemplate `{Unicode, Semver}
    (authToken proxyAddr kubeClusterName teleportVersion : string)
    (roles : list string) (tkaVersion : string) : string :=
  let flat := renderFlatValuesBlock authToken proxyAddr kubeClusterName teleportVersion roles in
  let nestedOverride := ResolveNestedTeleportVersionOverride teleportVersion in
  let nested := renderNestedValuesBlock authToken proxyAddr kubeClusterName nestedOverride roles in
  if UsesNestedKubeAgentValues tkaVersion then nested else flat +:+ nested.

Definition GetTbotConfigmapDataFromTemplate (kubeClusterName clusterName : string) : string :=
  "outputs:" +:+ str1 newline +:+
  "  " +:+ kubeClusterName +:+ ": " +:+ str1 dquote +:+ clusterName +:+ str1 dquote +:+ str1 newline.

(** ** The documents the templates denote *)

(** The entries of one block; the override is left out when empty. *)
Definition values_entries (authToken proxyAddr kubeClusterName override : string)
    (roles : list string) : list (string * string) :=
  [ ("roles", RolesToString roles); ("authToken", authToken);
    ("proxyAddr", proxyAddr); ("kubeClusterName", kubeClusterName) ] ++
  (if decide (override ≠ "") then [("teleportVersionOverride", override)] else []).

Definition flat_doc (authToken proxyAddr kubeClusterName teleportVersion : string)
    (roles : list string) : ydoc :=
  prod_map id YScalar <$>
    values_entries authToken proxyAddr kubeClusterName teleportVersion roles.

Definition nested_doc (authToken proxyAddr kubeClusterName override : string)
    (roles : list string) : ydoc :=
  [ (TeleportKubeAgentValuesKey,
     YBlock (values_entries authToken proxyAddr kubeClusterName override roles)) ].

Definition values_doc `{Semver}
    (authToken proxyAddr kubeClusterName teleportVersion : string)
    (roles : list string) (tkaVersion : string) : ydoc :=
  let nested := nested_doc authToken proxyAddr kubeClusterName
                  (ResolveNestedTeleportVersionOverride teleportVersion) roles in
  if UsesNestedKubeAgentValues tkaVersion then nested
  else flat_doc authToken proxyAddr kubeClusterName teleportVersion roles ++ nested.

(** A role the operator knows. *)
Definition known_role (role : string) : Prop :=
  role = role_kube ∨ role = role_app ∨ role = role_node.

(** ** Role lists *)

Lemma known_role_trim role : known_role role → TrimSpace role = role.
Proof. by intros [-> | [-> | ->]]; vm_compute. Qed.

Lemma known_role_lacks_comma role : known_role role → lacks comma role = true.
Proof. by intros [-> | [-> | ->]]; vm_compute. Qed.

Lemma known_role_plain role : known_role role → plain role = true.
Proof. by intros [-> | [-> | ->]]; vm_compute. Qed.

Lemma parse_parts_known roles :
  Forall known_role roles → parse_parts roles = Ret roles.
Proof.
  induction 1 as [|r rs Hr _ IH]; [done|]. simpl.
  by rewrite (known_role_trim r Hr), decide_True, IH by done.
Qed.

Lemma parse_parts_Ret parts roles :
  parse_parts parts = Ret roles ↔
  roles = TrimSpace <$> parts ∧ Forall known_role roles.
Proof.
  revert roles. induction parts as [|p ps IH]; intros roles; simpl.
  - split; [by intros [= <-]|]. by intros [-> _].
  - case_decide as Hp.
    + destruct (parse_parts ps) as [rs|e|] eqn:E; simpl.
      * destruct (proj1 (IH rs) eq_refl) as [-> Hrs].
        split; [intros [= <-]; auto|]. by intros [-> _].
      * split; [done|]. intros [-> [_ Hps]%Forall_cons].
        discriminate (proj2 (IH _) (conj eq_refl Hps)).
      * split; [done|]. intros [-> [_ Hps]%Forall_cons].
        discriminate (proj2 (IH _) (conj eq_refl Hps)).
    + split; [done|]. intros [-> [Hk _]%Forall_cons]. by destruct Hp.
Qed.

(** The only way [ParseRoles] fails is on a part that is no role. *)
Lemma parse_parts_Err parts e :
  parse_parts parts = Err e →
  ∃ p, p ∈ parts ∧ ¬ known_role (TrimSpace p) ∧
       e = EText ("invalid role: " +:+ TrimSpace p).
Proof.
  induction parts as [|p ps IH]; [done|]. simpl. case_decide as Hp.
  - destruct (parse_parts ps) as [rs|e'|] eqn:E; [done| |done].
    simpl. intros [= ->]. destruct (IH eq_refl) as (q & Hq & Hk & ->).
    exists q. split_and!; [by right|done..].
  - intros [= <-]. exists p. split_and!; [by left|done..].
Qed.

(** [RolesToString] is undone by [ParseRoles]. *)
Lemma ParseRoles_RolesToString roles :
  roles ≠ [] → Forall known_role roles → ParseRoles (RolesToString roles) = Ret roles.
Proof.
  intros Hne Hk. unfold ParseRoles, RolesToString. rewrite Split_Join; [|done|].
  - by apply parse_parts_known.
  - eapply Forall_impl; [exact Hk|]. apply known_role_lacks_comma.
Qed.

Lemma system_role_known `{SystemRoles} role :
  known_role role → is_Some (system_role role).
Proof. intros [-> | [-> | ->]]; by eexists. Qed.

Lemma RolesToSystemRoles_cons `{SystemRoles} role roles sr :
  system_role role = Some sr →
  RolesToSystemRoles (role :: roles) = sr :: RolesToSystemRoles roles.
Proof. unfold RolesToSystemRoles. csimpl. by intros ->. Qed.

Lemma RolesToSystemRoles_length `{SystemRoles} roles :
  Forall known_role roles → length (RolesToSystemRoles roles) = length roles.
Proof.
  induction 1 as [|r rs Hr _ IH]; [done|].
  destruct (system_role_known r Hr) as [sr Hsr].
  rewrite (RolesToSystemRoles_cons r rs sr Hsr). simpl. by rewrite IH.
Qed.

(** ** Templates denote documents *)

Lemma quoted_line_scalar indent k s :
  quoted_line (indent +:+ k) s = print_scalar indent (k, s).
Proof. unfold quoted_line, print_scalar. simpl. by rewrite string_app_assoc. Qed.

Lemma override_line `{Unicode} indent v :
  plain v = true →
  indent +:+ "teleportVersionOverride: " +:+ Quote v +:+ str1 newline =
  print_scalar indent ("teleportVersionOverride", v).
Proof.
  intros Hv. rewrite (Quote_plain v Hv). unfold print_scalar. simpl.
  by autorewrite with strings.
Qed.

Lemma print_flat_doc `{Unicode} tok proxy name v roles :
  plain v = true →
  renderFlatValuesBlock tok proxy name v roles = print_doc (flat_doc tok proxy name v roles).
Proof.
  intros Hv. unfold renderFlatValuesBlock, flat_doc, values_entries.
  pose proof (override_line "" v Hv) as Ho. rewrite string_app_nil_l in Ho.
  case_decide; simpl; unfold print_node; cbn -[String.app print_scalar];
    [rewrite Ho|];
    unfold print_scalar, quoted_line; cbn [fst snd]; by autorewrite with strings.
Qed.

Lemma print_nested_doc `{Unicode} tok proxy name v roles :
  plain v = true →
  renderNestedValuesBlock tok proxy name v roles = print_doc (nested_doc tok proxy name v roles).
Proof.
  intros Hv. unfold renderNestedValuesBlock, nested_doc, values_entries.
  pose proof (override_line "  " v Hv) as Ho.
  case_decide; simpl; unfold print_node; cbn -[String.app print_scalar];
    [rewrite <-Ho|];
    unfold print_scalar, quoted_line; cbn [fst snd]; by autorewrite with strings.
Qed.

Lemma resolve_cases `{Semver} v :
  ResolveNestedTeleportVersionOverride v = "" ∨ ResolveNestedTeleportVersionOverride v = v.
Proof.
  unfold ResolveNestedTeleportVersionOverride.
  case_decide; [by left|]. destruct (NewVersion _); [by left|].
  case_decide; [by left|by right].
Qed.

Lemma resolve_plain `{Semver} v :
  plain v = true → plain (ResolveNestedTeleportVersionOverride v) = true.
Proof. intros Hv. by destruct (resolve_cases v) as [-> | ->]. Qed.

(** The rendered text is the printed form of the document it stands for. *)
Lemma print_values_doc `{Unicode, Semver} tok proxy name v roles tka :
  plain v = true →
  GetConfigmapDataFromTemplate tok proxy name v roles tka =
  print_doc (values_doc tok proxy name v roles tka).
Proof.
  intros Hv. unfold GetConfigmapDataFromTemplate, values_doc. cbn zeta.
  rewrite print_flat_doc, print_nested_doc by auto using resolve_plain.
  destruct (UsesNestedKubeAgentValues tka); [done|]. by rewrite print_doc_app.
Qed.

Lemma Join_plain roles sep :
  plain sep = true → Forall (λ r, plain r = true) roles → plain (Join roles sep) = true.
Proof.
  intros Hs. induction 1 as [|r rs Hr Hrs IH]; [done|].
  destruct rs as [|q qs]; [done|].
  change (Join (r :: q :: qs) sep) with (r +:+ sep +:+ Join (q :: qs) sep).
  unfold plain in *. rewrite !all_chars_app, Hr, Hs. done.
Qed.

Lemma RolesToString_plain roles :
  Forall known_role roles → plain (RolesToString roles) = true.
Proof.
  intros H. apply Join_plain; [done|]. eapply Forall_impl; [exact H|].
  apply known_role_plain.
Qed.

(** The inputs of the templates are plain text. *)
Definition plain_inputs (tok proxy name v : string) (roles : list string) : Prop :=
  plain tok = true ∧ plain proxy = true ∧ plain name = true ∧ plain v = true ∧
  Forall known_role roles.

Lemma values_entries_wf tok proxy name v roles :
  plain_inputs tok proxy name v roles →
  Forall wf_entry (values_entries tok proxy name v roles).
Proof.
  intros (Ht & Hp & Hn & Hv & Hr). unfold values_entries.
  pose proof (RolesToString_plain roles Hr).
  apply Forall_app. split.
  - repeat constructor; cbn; auto; apply list_elem_of_In; simpl; tauto.
  - case_decide; repeat constructor; cbn; auto; apply list_elem_of_In; simpl; tauto.
Qed.

Lemma values_entries_keys tok proxy name v roles :
  NoDup (values_entries tok proxy name v roles).*1.
Proof. unfold values_entries. by case_decide; apply (bool_decide_unpack _); vm_compute. Qed.

Lemma values_doc_wf `{Semver} tok proxy name v roles tka :
  plain_inputs tok proxy name v roles →
  wf_doc (values_doc tok proxy name v roles tka).
Proof.
  intros Hin. unfold values_doc. cbn zeta.
  set (o := ResolveNestedTeleportVersionOverride v).
  assert (wf_node (TeleportKubeAgentValuesKey, YBlock (values_entries tok proxy name o roles)))
    as Hnested.
  { split; [apply list_elem_of_In; simpl; tauto|]. cbn [snd]. split_and!.
    - unfold values_entries. done.
    - apply values_entries_keys.
    - apply values_entries_wf. destruct Hin as (?&?&?&?&?).
      repeat split; auto. by apply resolve_plain. }
  destruct (UsesNestedKubeAgentValues tka); [split; [apply NoDup_singleton|by constructor]|].
  split.
  - unfold flat_doc, nested_doc, values_entries.
    by case_decide; apply (bool_decide_unpack _); vm_compute.
  - apply Forall_app. split; [|by constructor].
    unfold flat_doc. apply Forall_fmap.
    eapply Forall_impl; [exact (values_entries_wf _ _ _ _ _ Hin)|]. intros [k s] [Hk Hs]. by split.
Qed.

(** ** Releases *)

Definition starts_v (s : string) : bool :=
  match s with String c _ => bool_decide (c = "v"%char) | "" => false end.

Lemma TrimPrefix_v s : starts_v s = false → TrimPrefix s "v" = s.
Proof.
  destruct s as [|c s]; [done|]. unfold TrimPrefix. simpl. rewrite bool_decide_eq_false.
  intros Hc. by rewrite decide_False by congruence.
Qed.

Lemma version_text_no_v a b c : starts_v (version_text a b c) = false.
Proof. unfold version_text, dec. by destruct (N.to_uint a). Qed.

(** A release may be written with the prefix that Git tags have. *)
Lemma TrimPrefix_version p a b c :
  p = "" ∨ p = "v" → TrimPrefix (p +:+ version_text a b c) "v" = version_text a b c.
Proof.
  intros [-> | ->].
  - rewrite string_app_nil_l. apply TrimPrefix_v, version_text_no_v.
  - apply TrimPrefix_app.
Qed.

Section releases.
Context `{SemverLaws}.

Lemma compare_threshold a b c a' b' c' :
  is_uint64 a → is_uint64 b → is_uint64 c → is_uint64 a' → is_uint64 b' → is_uint64 c' →
  ∃ v, NewVersion (version_text a b c) = inr v ∧
       Compare v (MustParse (version_text a' b' c')) =
         of_comparison (release_compare (a, b, c) (a', b', c')).
Proof.
  intros Ha Hb Hc Ha' Hb' Hc'.
  destruct (NewVersion_release a b c Ha Hb Hc) as [v Hv].
  destruct (NewVersion_release a' b' c' Ha' Hb' Hc') as [v' Hv'].
  exists v. split; [done|]. rewrite (MustParse_spec _ _ Hv').
  by apply Compare_release.
Qed.

Lemma uint64_small n : (n < 1000)%N → is_uint64 n.
Proof. unfold is_uint64. intros. etrans; [done|]. by apply N.ltb_lt; vm_compute. Qed.

(** C30. The layout gate on releases: the nested-only layout is used exactly from chart version
    0.11.0 on, by numeric precedence, with or without the letter v in front. *)
Theorem UsesNestedKubeAgentValues_release p a b c :
  p = "" ∨ p = "v" → is_uint64 a → is_uint64 b → is_uint64 c →
  UsesNestedKubeAgentValues (p +:+ version_text a b c) =
    bool_decide (release_compare (a, b, c) (0, 11, 0)%N ≠ Lt).
Proof.
  intros Hp Ha Hb Hc. unfold UsesNestedKubeAgentValues. rewrite TrimPrefix_version by done.
  destruct (compare_threshold a b c 0 11 0) as (v & -> & Hv); try done; try by apply uint64_small.
  change teleportKubeAgentNestedSinceVersion with (version_text 0 11 0). cbn zeta.
  rewrite Hv. destruct (release_compare _ _); apply bool_decide_ext; simpl; split; done || lia.
Qed.

(** C31. The version floor on releases: the nested block overrides the Teleport version exactly
    when the configured one is not below the bundled 18.7.6, and passes it on as it is
    written. *)
Theorem ResolveNestedTeleportVersionOverride_release p a b c :
  p = "" ∨ p = "v" → is_uint64 a → is_uint64 b → is_uint64 c →
  ResolveNestedTeleportVersionOverride (p +:+ version_text a b c) =
    if decide (release_compare (a, b, c) (18, 7, 6)%N = Lt) then ""
    else p +:+ version_text a b c.
Proof.
  intros Hp Ha Hb Hc. unfold ResolveNestedTeleportVersionOverride.
  rewrite TrimPrefix_version by done. case_decide as Hempty.
  - exfalso. destruct Hp as [-> | ->]; [|done]. revert Hempty.
    unfold version_text, dec. by destruct (N.to_uint a).
  - destruct (compare_threshold a b c 18 7 6) as (v & -> & Hv); try done; try by apply uint64_small.
    change teleportKubeAgentBundledTeleportVersion with (version_text 18 7 6). cbn zeta.
    rewrite Hv. by destruct (release_compare _ _).
Qed.
End releases.

(** ** Theorems *)

(** C34. Parsing a role list: exactly the texts whose comma-separated parts, trimmed of white
    space, are known roles are accepted, as those parts in order; the error names the
    trimmed text of some part that is not a role; and there is no panic. *)
Theorem ParseRoles_spec s :
  match ParseRoles s with
  | Ret roles => roles = TrimSpace <$> Split comma s ∧ Forall known_role roles
  | Err e => ∃ part, part ∈ Split comma s ∧ ¬ known_role (TrimSpace part) ∧
                     e = EText ("invalid role: " +:+ TrimSpace part)
  | Panic => False
  end.
Proof.
  unfold ParseRoles. destruct (parse_parts _) as [roles|e|] eqn:E.
  - by apply parse_parts_Ret.
  - by apply parse_parts_Err.
  - revert E. induction (Split comma s) as [|p ps IH]; [done|]. simpl. case_decide; [|done].
    by destruct (parse_parts ps); simpl; [| |intros _; apply IH].
Qed.

(** C35. Role lists round-trip: whatever text a list of roles was parsed from, writing the list
    in canonical form and parsing it again gives the same list. *)
Theorem RolesToString_canonical s roles :
  ParseRoles s = Ret roles → ParseRoles (RolesToString roles) = Ret roles.
Proof.
  intros Hs. apply parse_parts_Ret in Hs as [Hroles Hk].
  apply ParseRoles_RolesToString; [|done]. rewrite Hroles. intros Hn%fmap_nil_inv.
  by apply Split_not_nil in Hn.
Qed.
