(* ===== verification/Objects.v ===== *)
(** * Objects and snapshots

    The Kubernetes objects the operator reads and writes, with the fields it
    looks at, and the abstract state of the outside world: what the API server
    stores, object by object, and which tokens Teleport holds. *)
From S2P Require Import Prelude GoStrings GoValue Libraries.

(** ** Objects *)

(** [client.ObjectKey] / [types.NamespacedName]; also the two fields of
    [metav1.ObjectMeta] that identify an object. *)
Record ObjectKey := mkKey { Namespace : string; Name : string }.

#[global] Instance ObjectKey_eq_dec : EqDecision ObjectKey.
Proof. solve_decision. Defined.
#[global] Instance ObjectKey_countable : Countable ObjectKey.
Proof.
  refine (inj_countable' (λ k, (Namespace k, Name k)) (λ p, mkKey p.1 p.2) _).
  by intros [].
Defined.

(** [capi.Cluster]: the deletion timestamp is a pointer to a time in
    nanoseconds. *)
Record Cluster := mkCluster {
  cl_meta : ObjectKey;
  cl_Finalizers : list string;
  cl_DeletionTimestamp : option Z;
}.

(** [corev1.Secret]. *)
Record Secret := mkSecret {
  sec_meta : ObjectKey;
  sec_Data : gmap string string;
  sec_StringData : gmap string string;
}.

(** [corev1.ConfigMap]: [Data] may be the nil map. *)
Record ConfigMap := mkConfigMap {
  cm_meta : ObjectKey;
  cm_Data : option (gmap string string);
  cm_BinaryData : gmap string string;
}.

(** A Flux HelmRelease, held as an unstructured object: its content without the
    identity. *)
Record HelmRelease := mkHelmRelease {
  hr_meta : ObjectKey;
  hr_Object : gmap string value;
}.

(** [v1alpha1.AppExtraConfig] and [v1alpha1.App]. *)
Record AppExtraConfig := mkExtraConfig {
  ec_Kind : string;
  ec_Name : string;
  ec_Namespace : string;
  ec_Priority : Z;
}.
Record App := mkApp {
  app_meta : ObjectKey;
  app_Spec_Version : string;
  app_Spec_ExtraConfigs : slice AppExtraConfig;
}.

#[global] Instance Cluster_eq_dec : EqDecision Cluster.
Proof. solve_decision. Defined.
#[global] Instance Secret_eq_dec : EqDecision Secret.
Proof. solve_decision. Defined.
#[global] Instance ConfigMap_eq_dec : EqDecision ConfigMap.
Proof. solve_decision. Defined.
#[global] Instance HelmRelease_eq_dec : EqDecision HelmRelease.
Proof. solve_decision. Defined.
#[global] Instance AppExtraConfig_eq_dec : EqDecision AppExtraConfig.
Proof. solve_decision. Defined.
#[global] Instance slice_eq_dec {A} `{EqDecision A} : EqDecision (slice A).
Proof. solve_decision. Defined.
#[global] Instance App_eq_dec : EqDecision App.
Proof. solve_decision. Defined.

(** [metav1.Time.IsZero] on the pointer: nil, or the zero time. *)
Definition time_IsZero (t : option Z) : bool :=
  match t with None => true | Some t => bool_decide (t = 0)%Z end.

(** ** Kinds *)

Inductive kind := KCluster | KSecret | KConfigMap | KHelmRelease | KApp.

#[global] Instance kind_eq_dec : EqDecision kind.
Proof. solve_decision. Defined.

Definition obj (k : kind) : Type :=
  match k with
  | KCluster => Cluster
  | KSecret => Secret
  | KConfigMap => ConfigMap
  | KHelmRelease => HelmRelease
  | KApp => App
  end.

Definition obj_key (k : kind) : obj k → ObjectKey :=
  match k return obj k → ObjectKey with
  | KCluster => cl_meta
  | KSecret => sec_meta
  | KConfigMap => cm_meta
  | KHelmRelease => hr_meta
  | KApp => app_meta
  end.

(** What the API server keeps of an object it accepts: a Secret's write-only
    [StringData] is merged into [Data]. *)
Definition stored (k : kind) : obj k → obj k :=
  match k return obj k → obj k with
  | KSecret => λ s, mkSecret (sec_meta s) (sec_StringData s ∪ sec_Data s) ∅
  | _ => λ o, o
  end.

Section Snapshot.
Context `{SystemRoles}.

(** ** Snapshots *)

Record Snapshot := mkSnapshot {
  s_clusters : gmap ObjectKey Cluster;
  s_secrets : gmap ObjectKey Secret;
  s_configmaps : gmap ObjectKey ConfigMap;
  s_helmreleases : gmap ObjectKey HelmRelease;
  s_apps : gmap ObjectKey App;
  s_tokens : gmap string ProvisionToken;
}.

Definition objs (k : kind) (s : Snapshot) : gmap ObjectKey (obj k) :=
  match k return gmap ObjectKey (obj k) with
  | KCluster => s_clusters s
  | KSecret => s_secrets s
  | KConfigMap => s_configmaps s
  | KHelmRelease => s_helmreleases s
  | KApp => s_apps s
  end.

Definition with_objs (k : kind) : gmap ObjectKey (obj k) → Snapshot → Snapshot :=
  match k return gmap ObjectKey (obj k) → Snapshot → Snapshot with
  | KCluster => λ m s, mkSnapshot m (s_secrets s) (s_configmaps s) (s_helmreleases s) (s_apps s) (s_tokens s)
  | KSecret => λ m s, mkSnapshot (s_clusters s) m (s_configmaps s) (s_helmreleases s) (s_apps s) (s_tokens s)
  | KConfigMap => λ m s, mkSnapshot (s_clusters s) (s_secrets s) m (s_helmreleases s) (s_apps s) (s_tokens s)
  | KHelmRelease => λ m s, mkSnapshot (s_clusters s) (s_secrets s) (s_configmaps s) m (s_apps s) (s_tokens s)
  | KApp => λ m s, mkSnapshot (s_clusters s) (s_secrets s) (s_configmaps s) (s_helmreleases s) m (s_tokens s)
  end.

Definition with_tokens (m : gmap string ProvisionToken) (s : Snapshot) : Snapshot :=
  mkSnapshot (s_clusters s) (s_secrets s) (s_configmaps s) (s_helmreleases s) (s_apps s) m.

Definition put_obj (k : kind) (o : obj k) (s : Snapshot) : Snapshot :=
  with_objs k (<[obj_key k o := stored k o]> (objs k s)) s.
Definition del_obj (k : kind) (key : ObjectKey) (s : Snapshot) : Snapshot :=
  with_objs k (delete key (objs k s)) s.
Definition put_token (t : ProvisionToken) (s : Snapshot) : Snapshot :=
  with_tokens (<[GetName t := t]> (s_tokens s)) s.
Definition del_token (n : string) (s : Snapshot) : Snapshot :=
  with_tokens (delete n (s_tokens s)) s.

(** Patching a Cluster from [before] to [after] replaces the finalizers when the
    two differ; a cluster that is being deleted disappears with its last
    finalizer. *)
Definition patched (before after cur : Cluster) : Cluster :=
  if decide (cl_Finalizers before = cl_Finalizers after) then cur
  else mkCluster (cl_meta cur) (cl_Finalizers after) (cl_DeletionTimestamp cur).
Definition patch_cluster (before after : Cluster) (s : Snapshot) : Snapshot :=
  match s_clusters s !! cl_meta before with
  | None => s
  | Some cur =>
      let new := patched before after cur in
      if negb (time_IsZero (cl_DeletionTimestamp new)) &&
         bool_decide (cl_Finalizers new = [])
      then del_obj KCluster (cl_meta before) s
      else with_objs KCluster (<[cl_meta before := new]> (s_clusters s)) s
  end.

(** ** Slots and footprints *)

(** One place of a snapshot: an object, or a token by its name. *)
Inductive slot :=
| slot_obj (k : kind) (key : ObjectKey)
| slot_token (n : string).

Definition same_slot (x : slot) (s s' : Snapshot) : Prop :=
  match x with
  | slot_obj k key => objs k s' !! key = objs k s !! key
  | slot_token n => s_tokens s' !! n = s_tokens s !! n
  end.

(** Only slots of [F] differ. *)
Definition untouched (F : slot → Prop) (s s' : Snapshot) : Prop :=
  ∀ x, ¬ F x → same_slot x s s'.

(** ** Lemmas *)

Lemma objs_with_objs k m s : objs k (with_objs k m s) = m.
Proof. by destruct k. Qed.

Lemma objs_with_objs_ne k k' m s : k ≠ k' → objs k' (with_objs k m s) = objs k' s.
Proof. by destruct k, k'. Qed.

Lemma tokens_with_objs k m s : s_tokens (with_objs k m s) = s_tokens s.
Proof. by destruct k. Qed.

Lemma objs_with_tokens k m s : objs k (with_tokens m s) = objs k s.
Proof. by destruct k. Qed.

Lemma obj_key_stored k o : obj_key k (stored k o) = obj_key k o.
Proof. by destruct k. Qed.

Lemma same_slot_refl x s : same_slot x s s.
Proof. by destruct x. Qed.

Lemma same_slot_trans x s1 s2 s3 : same_slot x s1 s2 → same_slot x s2 s3 → same_slot x s1 s3.
Proof. destruct x; simpl; congruence. Qed.

#[global] Instance untouched_preorder F : PreOrder (untouched F).
Proof.
  split.
  - intros s x _. apply same_slot_refl.
  - intros s1 s2 s3 H1 H2 x Hx. eapply same_slot_trans; eauto.
Qed.

Lemma untouched_mono (F G : slot → Prop) s s' :
  (∀ x, F x → G x) → untouched F s s' → untouched G s s'.
Proof. intros HFG H1 x Hx. apply H1. auto. Qed.

Lemma same_slot_with_objs k m s x :
  (∀ key, x = slot_obj k key → m !! key = objs k s !! key) → same_slot x s (with_objs k m s).
Proof.
  intros Hm. destruct x as [k' key|n]; simpl.
  - destruct (decide (k = k')) as [<-|Hk].
    + rewrite objs_with_objs. by apply Hm.
    + by rewrite objs_with_objs_ne.
  - by rewrite tokens_with_objs.
Qed.

Lemma untouched_put_obj k o s :
  untouched (λ x, x = slot_obj k (obj_key k o)) s (put_obj k o s).
Proof.
  intros x Hx. apply same_slot_with_objs. intros key ->.
  apply lookup_insert_ne. congruence.
Qed.

Lemma untouched_del_obj k key s :
  untouched (λ x, x = slot_obj k key) s (del_obj k key s).
Proof.
  intros x Hx. apply same_slot_with_objs. intros key' ->.
  apply lookup_delete_ne. congruence.
Qed.

Lemma untouched_patch_cluster before after s :
  untouched (λ x, x = slot_obj KCluster (cl_meta before)) s (patch_cluster before after s).
Proof.
  unfold patch_cluster. destruct (s_clusters s !! cl_meta before) as [cur|]; [|done].
  cbn zeta. destruct (_ && _); [apply untouched_del_obj|].
  intros x Hx. apply (same_slot_with_objs KCluster). intros key ->.
  apply lookup_insert_ne. congruence.
Qed.

Lemma untouched_put_token t s :
  untouched (λ x, x = slot_token (GetName t)) s (put_token t s).
Proof.
  intros [k key|n] Hx; simpl; [by destruct k|].
  apply lookup_insert_ne. congruence.
Qed.

Lemma untouched_del_token n s :
  untouched (λ x, x = slot_token n) s (del_token n s).
Proof.
  intros [k key|n'] Hx; simpl; [by destruct k|].
  apply lookup_delete_ne. congruence.
Qed.

Lemma objs_put_obj k o s : objs k (put_obj k o s) = <[obj_key k o := stored k o]> (objs k s).
Proof. apply objs_with_objs. Qed.

Lemma objs_del_obj k key s : objs k (del_obj k key s) = delete key (objs k s).
Proof. apply objs_with_objs. Qed.

Lemma lookup_put_obj k o s : objs k (put_obj k o s) !! obj_key k o = Some (stored k o).
Proof. rewrite objs_put_obj. apply lookup_insert_eq. Qed.

Lemma lookup_del_obj k key s : objs k (del_obj k key s) !! key = None.
Proof. rewrite objs_del_obj. apply lookup_delete_eq. Qed.
End Snapshot.

Arguments stored : simpl never.
