(* ===== verification/World.v ===== *)
(** * The outside world

    What the operator acts on is not its own code: the Kubernetes API behind
    controller-runtime's [client.Client], cluster-api's patch helper, the
    Teleport API client, the clock and the UUID source.  The class [World] lists
    the calls, over an abstract type of worlds; [WorldLaws] states what they
    promise, through the snapshot of a world.  A write that reports an error may
    or may not have been applied; a read that fails with anything but NotFound
    says nothing. *)
From S2P Require Import Prelude GoStrings GoValue Libraries Objects.

(** ** controllerutil *)

Class ControllerUtil := {
  ContainsFinalizer : Cluster → string → bool;
  AddFinalizerTo : Cluster → string → Cluster;
  RemoveFinalizerFrom : Cluster → string → Cluster;
}.

Class ControllerUtilLaws `{ControllerUtil} : Prop := {
  ContainsFinalizer_spec c f : ContainsFinalizer c f = bool_decide (f ∈ cl_Finalizers c);
  AddFinalizerTo_spec c f :
    AddFinalizerTo c f =
      if decide (f ∈ cl_Finalizers c) then c
      else mkCluster (cl_meta c) (cl_Finalizers c ++ [f]) (cl_DeletionTimestamp c);
  RemoveFinalizerFrom_spec c f :
    RemoveFinalizerFrom c f =
      mkCluster (cl_meta c) (filter (λ g, g ≠ f) (cl_Finalizers c)) (cl_DeletionTimestamp c);
}.

(** ** The calls *)

Class World `{SystemRoles} := {
  world : Type;
  kube_client : Type;
  tele_client : Type;
  runtime_scheme : Type;
  now : world → Z;
  k8s_Get (k : kind) : ObjectKey → world → lib_error + obj k;
  k8s_Create (k : kind) : obj k → world → option lib_error * world;
  k8s_Update (k : kind) : obj k → world → option lib_error * world;
  k8s_Delete (k : kind) : ObjectKey → world → option lib_error * world;
  patch_NewHelper : Cluster → world → option lib_error;
  patch_Patch : Cluster → Cluster → world → option lib_error * world;
  uuid_NewString : world → string * world;
  tc_New : string → string → world → (lib_error + tele_client) * world;
  tc_Ping : tele_client → world → option lib_error;
  tc_GetTokens : tele_client → world → lib_error + list ProvisionToken;
  tc_UpsertToken : tele_client → ProvisionToken → world → option lib_error * world;
  tc_DeleteToken : tele_client → string → world → option lib_error * world;
}.

Section calls.
Context `{World}.

(** [ctrlClient.Get], [.Create], [.Update], [.Delete] at a kind, the patch
    helper, [time.Now], and the Teleport client's methods, as computations. *)
Definition Get (k : kind) (key : ObjectKey) : M world (lib_error + obj k) :=
  gets (k8s_Get k key).
Definition Create (k : kind) (o : obj k) : M world (option lib_error) :=
  run (k8s_Create k o).
Definition Update (k : kind) (o : obj k) : M world (option lib_error) :=
  run (k8s_Update k o).
Definition Delete (k : kind) (key : ObjectKey) : M world (option lib_error) :=
  run (k8s_Delete k key).
Definition NewHelper (c : Cluster) : M world (option lib_error) :=
  gets (patch_NewHelper c).
Definition Patch (before after : Cluster) : M world (option lib_error) :=
  run (patch_Patch before after).
Definition Now : M world Z := gets now.
Definition NewString : M world string := run uuid_NewString.

(** A method call on an interface value panics when the interface is nil. *)
Definition deref {A} (x : option A) : M world A :=
  match x with Some a => mret a | None => panic end.
Definition client_Get (c : option kube_client) (k : kind) (key : ObjectKey)
    : M world (lib_error + obj k) := deref c;; Get k key.
Definition client_GetTokens (c : option tele_client) : M world (lib_error + list ProvisionToken) :=
  c ← deref c; gets (tc_GetTokens c).
Definition client_UpsertToken (c : option tele_client) (t : ProvisionToken) : M world (option lib_error) :=
  c ← deref c; run (tc_UpsertToken c t).
Definition client_DeleteToken (c : option tele_client) (n : string) : M world (option lib_error) :=
  c ← deref c; run (tc_DeleteToken c n).

(** What a write promises: time does not go back; without an error [pre] held
    and the change is made; with one it is made in full or not at all. *)
Definition write_spec (view : world → Snapshot) (pre : Prop) (change : Snapshot → Snapshot)
    (call : world → option lib_error * world) (w : world) : Prop :=
  (now w <= now (call w).2)%Z ∧
  match (call w).1 with
  | None => pre ∧ view (call w).2 = change (view w)
  | Some _ => view (call w).2 = view w ∨ (pre ∧ view (call w).2 = change (view w))
  end.
End calls.

Class WorldLaws `{World} := {
  view : world → Snapshot;
  now_pos w : (0 < now w)%Z;
  view_obj_key w k key o : objs k (view w) !! key = Some o → obj_key k o = key;
  view_token_name w n t : s_tokens (view w) !! n = Some t → GetName t = n;
  Get_spec k key w :
    match k8s_Get k key w with
    | inr o => objs k (view w) !! key = Some o
    | inl e => IsNotFound e = true → objs k (view w) !! key = None
    end;
  Create_spec k o w :
    write_spec view (objs k (view w) !! obj_key k o = None) (put_obj k o) (k8s_Create k o) w;
  Update_spec k o w :
    write_spec view (is_Some (objs k (view w) !! obj_key k o)) (put_obj k o) (k8s_Update k o) w;
  Delete_spec k key w :
    k = KSecret ∨ k = KConfigMap →
    write_spec view True (del_obj k key) (k8s_Delete k key) w;
  Delete_NotFound k key w :
    (k8s_Delete k key w).1 = Some NotFound → objs k (view (k8s_Delete k key w).2) !! key = None;
  Patch_spec before after w :
    write_spec view (is_Some (s_clusters (view w) !! cl_meta before))
      (patch_cluster before after) (patch_Patch before after) w;
  Patch_NotFound before after w :
    (patch_Patch before after w).1 = Some NotFound →
    s_clusters (view w) !! cl_meta before = None;
  NewString_spec w :
    (now w <= now (uuid_NewString w).2)%Z ∧ view (uuid_NewString w).2 = view w;
  New_spec proxyAddr identityFile w :
    (now w <= now (tc_New proxyAddr identityFile w).2)%Z ∧
    view (tc_New proxyAddr identityFile w).2 = view w;
  GetTokens_spec c w :
    match tc_GetTokens c w with
    | inr l => NoDup (GetName <$> l) ∧ ∀ t, t ∈ l ↔ s_tokens (view w) !! GetName t = Some t
    | inl _ => True
    end;
  UpsertToken_spec c t w : write_spec view True (put_token t) (tc_UpsertToken c t) w;
  DeleteToken_spec c n w : write_spec view True (del_token n) (tc_DeleteToken c n) w;
}.

(** Version-4 UUIDs do not repeat: a new one names no existing token. *)
Class FreshUUID `{WorldLaws} : Prop := {
  NewString_fresh w : s_tokens (view w) !! (uuid_NewString w).1 = None;
}.

Section laws.
Context `{WorldLaws}.

(** One step of the world within a footprint: the clock does not go back and
    only the slots of [F] differ. *)
Definition step (F : slot → Prop) (w w' : world) : Prop :=
  (now w <= now w')%Z ∧ untouched F (view w) (view w').

#[global] Instance step_preorder F : PreOrder (step F).
Proof.
  split.
  - intros w. split; [lia|reflexivity].
  - intros w1 w2 w3 [??] [??]. split; [lia|by etrans].
Qed.

Lemma step_mono (F G : slot → Prop) w w' : (∀ x, F x → G x) → step F w w' → step G w w'.
Proof. intros HFG [??]. split; [done|]. by eapply untouched_mono. Qed.

Lemma step_of_view F w w' : (now w <= now w')%Z → view w' = view w → step F w w'.
Proof. intros ? Hv. split; [done|]. by rewrite Hv. Qed.

(** A write stays within a footprint that holds its change. *)
Lemma write_spec_step F pre change call w :
  write_spec view pre change call w →
  (∀ s, untouched F s (change s)) → step F w (call w).2.
Proof.
  intros [Ht Hw] Hc. split; [done|].
  destruct (call w).1; [destruct Hw as [->|[_ ->]]|destruct Hw as [_ ->]]; auto; reflexivity.
Qed.

Ltac single := intros; eapply untouched_mono; [|eauto using untouched_put_obj,
  untouched_del_obj, untouched_patch_cluster, untouched_put_token, untouched_del_token];
  simpl; intros; subst; done.

Lemma keeps_Get F k key : Keeps (step F) (Get k key).
Proof. apply keeps_gets, _. Qed.

Lemma keeps_Create (F : slot → Prop) k o :
  F (slot_obj k (obj_key k o)) → Keeps (step F) (Create k o).
Proof. intros HF w. eapply write_spec_step; [apply Create_spec|single]. Qed.

Lemma keeps_Update (F : slot → Prop) k o :
  F (slot_obj k (obj_key k o)) → Keeps (step F) (Update k o).
Proof. intros HF w. eapply write_spec_step; [apply Update_spec|single]. Qed.

Lemma keeps_Delete (F : slot → Prop) k key :
  k = KSecret ∨ k = KConfigMap → F (slot_obj k key) → Keeps (step F) (Delete k key).
Proof. intros Hk HF w. eapply write_spec_step; [by apply Delete_spec|single]. Qed.

Lemma keeps_NewHelper F c : Keeps (step F) (NewHelper c).
Proof. apply keeps_gets, _. Qed.

Lemma keeps_Patch (F : slot → Prop) before after :
  F (slot_obj KCluster (cl_meta before)) → Keeps (step F) (Patch before after).
Proof. intros HF w. eapply write_spec_step; [apply Patch_spec|single]. Qed.

Lemma keeps_Now F : Keeps (step F) Now.
Proof. apply keeps_gets, _. Qed.

Lemma keeps_NewString F : Keeps (step F) NewString.
Proof. intros w. destruct (NewString_spec w). by apply step_of_view. Qed.

Lemma keeps_New F p i : Keeps (step F) (run (tc_New p i)).
Proof. intros w. destruct (New_spec p i w). by apply step_of_view. Qed.

Lemma keeps_deref {A} F (x : option A) : Keeps (step F) (deref x).
Proof. destruct x; [apply keeps_ret, _|apply keeps_panic, _]. Qed.

Lemma keeps_client_Get F c k key : Keeps (step F) (client_Get c k key).
Proof. apply keeps_bind; [apply _|apply keeps_deref|]. intros. apply keeps_Get. Qed.

Lemma keeps_GetTokens F c : Keeps (step F) (client_GetTokens c).
Proof.
  apply keeps_bind; [apply _|apply keeps_deref|]. intros. apply keeps_gets, _.
Qed.

Lemma keeps_UpsertToken (F : slot → Prop) c t :
  F (slot_token (GetName t)) → Keeps (step F) (client_UpsertToken c t).
Proof.
  intros HF. apply keeps_bind; [apply _|apply keeps_deref|]. intros c' w.
  eapply write_spec_step; [apply UpsertToken_spec|single].
Qed.

Lemma keeps_DeleteToken (F : slot → Prop) c n :
  F (slot_token n) → Keeps (step F) (client_DeleteToken c n).
Proof.
  intros HF. apply keeps_bind; [apply _|apply keeps_deref|]. intros c' w.
  eapply write_spec_step; [apply DeleteToken_spec|single].
Qed.

(** ** Weakest preconditions of the calls *)

Lemma wp_Get k key (Q : outcome (lib_error + obj k) → world → Prop) w :
  (∀ o, objs k (view w) !! key = Some o → Q (Ret (inr o)) w) →
  (∀ e, IsNotFound e = true → objs k (view w) !! key = None → Q (Ret (inl e)) w) →
  (∀ e, IsNotFound e = false → Q (Ret (inl e)) w) →
  wp (Get k key) Q w.
Proof.
  intros HQ1 HQ2 HQ3. apply wp_gets. pose proof (Get_spec k key w) as Hs.
  destruct (k8s_Get k key w) as [e|o]; [|auto].
  destruct (IsNotFound e) eqn:E; auto.
Qed.

(** A read hands on an object of the key that was asked for. *)
Lemma keeps_Get_bind {A} (F : slot → Prop) k key (f : lib_error + obj k → M world A) :
  (∀ e, Keeps (step F) (f (inl e))) →
  (∀ o, obj_key k o = key → Keeps (step F) (f (inr o))) →
  Keeps (step F) (Get k key ≫= f).
Proof.
  intros HL HR w. change (step F w (f (k8s_Get k key w) w).2).
  pose proof (Get_spec k key w) as Hs.
  destruct (k8s_Get k key w) as [e|o]; [apply HL|apply HR]. by eapply view_obj_key.
Qed.

Lemma wp_Now (Q : outcome Z → world → Prop) w : Q (Ret (now w)) w → wp Now Q w.
Proof. apply wp_gets. Qed.

(** A write, as the two cases the caller tells apart. *)
Lemma wp_write pre change call (Q : outcome (option lib_error) → world → Prop) w :
  write_spec view pre change call w →
  (∀ w', call w = (None, w') → (now w <= now w')%Z → pre → view w' = change (view w) →
     Q (Ret None) w') →
  (∀ e w', call w = (Some e, w') → (now w <= now w')%Z →
     view w' = view w ∨ (pre ∧ view w' = change (view w)) → Q (Ret (Some e)) w') →
  wp (run call) Q w.
Proof.
  intros [Ht Hw] HQ1 HQ2. apply wp_run.
  destruct (call w) as [[e|] w'] eqn:E; simpl in *; [eauto|]. destruct Hw. eauto.
Qed.

Lemma wp_deref {A} (x : option A) (Q : outcome A → world → Prop) w :
  (∀ a, x = Some a → Q (Ret a) w) → (x = None → Q Panic w) → wp (deref x) Q w.
Proof. destruct x; intros HQ1 HQ2; [by apply wp_ret, HQ1|by apply wp_panic, HQ2]. Qed.

Lemma client_Get_Some c k key : is_Some c → client_Get c k key = Get k key.
Proof. by intros [c' ->]. Qed.

Lemma wp_client_Get c k key (Q : outcome (lib_error + obj k) → world → Prop) w :
  (c = None → Q Panic w) → wp (Get k key) Q w → wp (client_Get c k key) Q w.
Proof. intros HQ1 HQ2. by apply wp_bind, wp_deref; [intros _ _|]. Qed.

Lemma wp_GetTokens c (Q : outcome (lib_error + list ProvisionToken) → world → Prop) w :
  (c = None → Q Panic w) →
  (∀ e, is_Some c → Q (Ret (inl e)) w) →
  (∀ l, is_Some c → NoDup (GetName <$> l) →
     (∀ t, t ∈ l ↔ s_tokens (view w) !! GetName t = Some t) → Q (Ret (inr l)) w) →
  wp (client_GetTokens c) Q w.
Proof.
  intros HQ1 HQ2 HQ3. apply wp_bind, wp_deref; [|auto]. intros c' ->.
  apply wp_gets. pose proof (GetTokens_spec c' w) as Hs.
  destruct (tc_GetTokens c' w) as [e|l]; [by eauto|]. destruct Hs. eauto.
Qed.
End laws.

#[export] Hint Resolve keeps_Get keeps_Create keeps_Update keeps_Delete keeps_NewHelper
  keeps_Patch keeps_Now keeps_NewString keeps_New keeps_deref keeps_GetTokens
  keeps_UpsertToken keeps_DeleteToken : keeps.
#[export] Hint Extern 0 (Keeps (step ?F) (client_Get ?c ?k ?key)) =>
  exact (keeps_client_Get F c k key) : keeps.
#[export] Hint Opaque Get Create Update Delete NewHelper Patch Now NewString deref
  client_Get client_GetTokens client_UpsertToken client_DeleteToken : keeps.
Arguments Get : simpl never.
Arguments Create : simpl never.
Arguments Update : simpl never.
Arguments Delete : simpl never.
Arguments NewHelper : simpl never.
Arguments Patch : simpl never.
Arguments Now : simpl never.
Arguments NewString : simpl never.
Arguments deref : simpl never.
Arguments client_Get : simpl never.
Arguments client_GetTokens : simpl never.
Arguments client_UpsertToken : simpl never.
Arguments client_DeleteToken : simpl never.

(** [apply wp_Get] with the kind read off the goal: [obj] is not invertible. *)
Ltac wp_get :=
  lazymatch goal with |- wp (Get ?k ?key) ?Q ?w => apply (wp_Get k key Q w) end.
Ltac wp_client_get :=
  lazymatch goal with |- wp (client_Get ?c ?k ?key) ?Q ?w =>
    apply (wp_client_Get c k key Q w); [|apply (wp_Get k key Q w)] end.
