(* ===== verification/Config.v ===== *)
(** * Package config (internal/pkg/config/config.go and identity.go)

    The operator's configuration, read once from a ConfigMap, and the Teleport
    identity, read from a Secret and dated. *)
From S2P Require Import Prelude GoStrings GoValue GoTime Libraries Key Objects World.

(** ** Data *)

Record Config := mkConfig {
  cfg_ProxyAddr : string;
  cfg_TeleportVersion : string;
  cfg_ManagementClusterName : string;
  cfg_AppName : string;
  cfg_AppVersion : string;
  cfg_AppCatalog : string;
}.

Record IdentityConfig := mkIdentity {
  id_IdentityFile : string;
  id_LastRead : Z;
}.

Section Config.
Context `{Unicode, World}.

(** ** config.go *)

Definition getConfigMapString (configMap : ConfigMap) (key : string) : outcome string :=
  match map_read (cm_Data configMap) key with
  | Some s => Ret s
  | None =>
      match cm_BinaryData configMap !! key with
      | Some b => Ret b
      | None => Err (EText ("malformed Config Map: required key " +:+ Quote key +:+ " not found"))
      end
  end.

(** [if err != nil { return nil, microerror.Mask(err) }] after a pure call. *)
Definition masked {A} (o : outcome A) : outcome A :=
  match o with Err e => Err (EMask e) | o => o end.

Definition config_of (configMap : ConfigMap) : outcome Config :=
  proxyAddr ← masked (getConfigMapString configMap ProxyAddr);
  managementClusterName ← masked (getConfigMapString configMap ManagementClusterName);
  teleportVersion ← masked (getConfigMapString configMap TeleportVersion);
  appName ← masked (getConfigMapString configMap AppName);
  appVersion ← masked (getConfigMapString configMap AppVersion);
  appCatalog ← masked (getConfigMapString configMap AppCatalog);
  Ret (mkConfig proxyAddr teleportVersion managementClusterName appName appVersion appCatalog).

Definition GetConfigFromConfigMap (ctrlClient : option kube_client) (namespace : string)
    : M world Config :=
  r ← client_Get ctrlClient KConfigMap (mkKey namespace TeleportOperatorConfigName);
  match r with
  | inl e => throw (EMask (ELib e))
  | inr configMap => lift (config_of configMap)
  end.

(** ** identity.go *)

Definition Age (c : IdentityConfig) : M world Z :=
  t ← Now; mret (Sub t (id_LastRead c)).

Definition getSecretString (secret : Secret) (key : string) : outcome string :=
  match sec_Data secret !! key with
  | Some b => Ret b
  | None => Err (EText ("malformed Secret: required key " +:+ Quote key +:+ " not found"))
  end.

Definition GetIdentityConfigFromSecret (namespace : string) : M world IdentityConfig :=
  r ← Get KSecret (mkKey namespace TeleportBotSecretName);
  match r with
  | inl e => throw (EMask (ELib e))
  | inr secret =>
      identityFile ← lift (masked (getSecretString secret Identity));
      t ← Now;
      mret (mkIdentity identityFile t)
  end.

(** ** Lemmas *)

Lemma getConfigMapString_total cm k : getConfigMapString cm k ≠ Panic.
Proof. unfold getConfigMapString. by repeat case_match. Qed.

Lemma keeps_GetConfigFromConfigMap `{!WorldLaws} F c namespace :
  Keeps (step F) (GetConfigFromConfigMap c namespace).
Proof. unfold GetConfigFromConfigMap. solve_keeps. Qed.

Lemma keeps_GetIdentity `{!WorldLaws} F namespace :
  Keeps (step F) (GetIdentityConfigFromSecret namespace).
Proof. unfold GetIdentityConfigFromSecret. solve_keeps. Qed.

(** The identity that is read is the Secret's, dated now; a read changes
    nothing, and never panics. *)
Lemma wp_GetIdentity `{!WorldLaws} namespace w :
  wp (GetIdentityConfigFromSecret namespace) (λ o w',
    w' = w ∧
    match o with
    | Ret i =>
        id_LastRead i = now w ∧
        ∃ s, s_secrets (view w) !! mkKey namespace TeleportBotSecretName = Some s ∧
             sec_Data s !! Identity = Some (id_IdentityFile i)
    | Err _ => True
    | Panic => False
    end) w.
Proof.
  unfold GetIdentityConfigFromSecret. apply wp_bind; wp_get; [|by intros..].
  intros s Hs. apply wp_bind, wp_lift. unfold getSecretString.
  destruct (sec_Data s !! Identity) as [b|] eqn:E; simpl; [|done].
  apply wp_bind, wp_Now, wp_ret. simpl. eauto.
Qed.

(** What a ConfigMap has under a key: text before binary data. *)
Definition config_value (configMap : ConfigMap) (key : string) : option string :=
  match map_read (cm_Data configMap) key with
  | Some s => Some s
  | None => cm_BinaryData configMap !! key
  end.

Lemma masked_getConfigMapString cm k :
  masked (getConfigMapString cm k) =
  match config_value cm k with
  | Some s => Ret s
  | None => Err (EMask (EText ("malformed Config Map: required key " +:+ Quote k +:+ " not found")))
  end.
Proof. unfold getConfigMapString, config_value. by repeat case_match; simplify_eq. Qed.

(** C36. Reading the configuration: it succeeds exactly when all six keys are present, as text or
    as binary data, each field is the value of its own key, and an error names the first key
    that is missing, in the order they are read. *)
Theorem config_of_spec cm :
  match config_of cm with
  | Ret c =>
      config_value cm ProxyAddr = Some (cfg_ProxyAddr c) ∧
      config_value cm ManagementClusterName = Some (cfg_ManagementClusterName c) ∧
      config_value cm TeleportVersion = Some (cfg_TeleportVersion c) ∧
      config_value cm AppName = Some (cfg_AppName c) ∧
      config_value cm AppVersion = Some (cfg_AppVersion c) ∧
      config_value cm AppCatalog = Some (cfg_AppCatalog c)
  | Err e => ∃ before k after,
      [ProxyAddr; ManagementClusterName; TeleportVersion; AppName; AppVersion; AppCatalog] =
        before ++ k :: after ∧
      Forall (λ k, is_Some (config_value cm k)) before ∧ config_value cm k = None ∧
      e = EMask (EText ("malformed Config Map: required key " +:+ Quote k +:+ " not found"))
  | Panic => False
  end.
Proof.
  unfold config_of. rewrite !masked_getConfigMapString.
  destruct (config_value cm ProxyAddr) eqn:E1; simpl; [|by exists [], ProxyAddr; eexists].
  destruct (config_value cm ManagementClusterName) eqn:E2; simpl;
    [|by exists [ProxyAddr], ManagementClusterName; eexists; split_and!; eauto].
  destruct (config_value cm TeleportVersion) eqn:E3; simpl;
    [|by exists [ProxyAddr; ManagementClusterName], TeleportVersion; eexists; split_and!; eauto 6].
  destruct (config_value cm AppName) eqn:E4; simpl;
    [|by exists [ProxyAddr; ManagementClusterName; TeleportVersion], AppName; eexists;
       split_and!; eauto 8].
  destruct (config_value cm AppVersion) eqn:E5; simpl;
    [|by exists [ProxyAddr; ManagementClusterName; TeleportVersion; AppName], AppVersion; eexists;
       split_and!; eauto 10].
  destruct (config_value cm AppCatalog) eqn:E6; simpl; [done|].
  exists [ProxyAddr; ManagementClusterName; TeleportVersion; AppName; AppVersion], AppCatalog.
  eexists. split_and!; eauto 12.
Qed.
End Config.

#[export] Hint Resolve keeps_GetConfigFromConfigMap keeps_GetIdentity : keeps.
