(* ===== verification/Teleport.v ===== *)
(** * The Teleport service object (internal/pkg/teleport/teleport.go, client.go,
    internal/pkg/token/generator.go)

    The [Teleport] struct that the reconciler carries, the connection to
    Teleport, the token generator and the check for Teleport apps. *)
From S2P Require Import Prelude GoStrings GoValue GoTime Libraries Key Objects World Config.

Section Teleport.
Context `{World}.

(** ** internal/pkg/token/generator.go *)

(** The [Generator] interface, and its implementation [RandomGenerator]. *)
Record Generator := mkGenerator { Generate : M world string }.

Definition RandomGenerator_Generate : M world string := NewString.
Definition NewGenerator : Generator := mkGenerator RandomGenerator_Generate.

(** ** teleport.go *)

Record Teleport := mkTeleport {
  t_Config : Config;
  t_Identity : option IdentityConfig;
  t_TeleportClient : option tele_client;
  t_Namespace : string;
  t_TokenGenerator : Generator;
  t_Client : option kube_client;
}.

Definition New (namespace : string) (cfg : Config) (tokenGenerator : Generator) : Teleport :=
  mkTeleport cfg None None namespace tokenGenerator None.

(** [apps, ok := values["apps"].([]interface{}); ok && len(apps) > 0]. *)
Definition apps_of (values : gmap string value) : bool :=
  match as_list (index values "apps") with
  | Some apps => Nat.ltb 0 (length apps)
  | None => false
  end.

Definition user_values_name (clusterName : string) : string :=
  clusterName +:+ "-teleport-kube-agent-user-values".

Definition AreTeleportAppsEnabled `{Yaml} (t : Teleport) (clusterName namespace : string)
    : M world bool :=
  r ← client_Get (t_Client t) KConfigMap (mkKey namespace (user_values_name clusterName));
  match r with
  | inl e => if IsNotFound e then mret false else throw (EMask (ELib e))
  | inr configMap =>
      match map_read (cm_Data configMap) "values" with
      | None => mret false
      | Some valuesYaml =>
          match Unmarshal valuesYaml with
          | inl e => throw (EMask (ELib e))
          | inr values => mret (apps_of values)
          end
      end
  end.

(** ** client.go *)

Definition NewClient (proxyAddr identityFile : string) : M world tele_client :=
  r ← run (tc_New proxyAddr identityFile);
  match r with
  | inl e => throw (EMask (ELib e))
  | inr teleportClient =>
      p ← gets (tc_Ping teleportClient);
      match p with
      | Some e => throw (EMask (ELib e))
      | None => mret teleportClient
      end
  end.

(** ** Lemmas *)

(** The generator's promise to its clients: it changes no snapshot, fails in no
    way, and time does not go back. *)
Class GeneratorLaws `{!WorldLaws} (g : Generator) : Prop := {
  Generate_spec w :
    wp (Generate g) (λ o w', (∃ n, o = Ret n) ∧ (now w <= now w')%Z ∧ view w' = view w) w;
}.

(** A generator whose names are new to Teleport. *)
Class GeneratorFresh `{!WorldLaws} (g : Generator) : Prop := {
  Generate_fresh w n w' : Generate g w = (Ret n, w') → s_tokens (view w) !! n = None;
}.

#[global] Instance NewGenerator_laws `{!WorldLaws} : GeneratorLaws NewGenerator.
Proof. constructor. intros w. destruct (NewString_spec w). apply wp_run. eauto. Qed.

#[global] Instance NewGenerator_fresh `{!WorldLaws, !FreshUUID} : GeneratorFresh NewGenerator.
Proof. constructor. intros w n w' [= <- _]. apply NewString_fresh. Qed.

Lemma keeps_Generate `{!WorldLaws} F g `{!GeneratorLaws g} : Keeps (step F) (Generate g).
Proof.
  intros w. destruct (proj1 (wp_unfold _ _ _) (Generate_spec w)) as (_ & ? & ?).
  by apply step_of_view.
Qed.

Lemma keeps_AreTeleportAppsEnabled `{Yaml, !WorldLaws} F t c n :
  Keeps (step F) (AreTeleportAppsEnabled t c n).
Proof. unfold AreTeleportAppsEnabled. solve_keeps. Qed.

Lemma keeps_NewClient `{!WorldLaws} F p i : Keeps (step F) (NewClient p i).
Proof. unfold NewClient. solve_keeps. Qed.

(** Whether a snapshot's user values list any Teleport app. *)
Definition apps_enabled `{Yaml} (s : Snapshot) (clusterName namespace : string) : bool :=
  match s_configmaps s !! mkKey namespace (user_values_name clusterName) with
  | None => false
  | Some cm =>
      match map_read (cm_Data cm) "values" with
      | None => false
      | Some v => match Unmarshal v with inl _ => false | inr values => apps_of values end
      end
  end.

Lemma wp_AreTeleportAppsEnabled `{Yaml, !WorldLaws} t clusterName namespace w :
  wp (AreTeleportAppsEnabled t clusterName namespace) (λ o w', w' = w ∧
    match o with
    | Ret b => b = apps_enabled (view w) clusterName namespace
    | Err _ => True
    | Panic => t_Client t = None
    end) w.
Proof.
  unfold AreTeleportAppsEnabled, apps_enabled. apply wp_bind; wp_client_get; [done|..].
  - intros cm Hcm. simpl in Hcm. rewrite Hcm. by repeat case_match.
  - intros e -> Hn. simpl in *. by rewrite Hn.
  - intros e ->. done.
Qed.

(** A client that [NewClient] returns comes from a connection with this identity, and
    has answered. *)
Lemma wp_NewClient `{!WorldLaws} p i w :
  wp (NewClient p i) (λ o w', (now w <= now w')%Z ∧ view w' = view w ∧
    match o with
    | Ret c => tc_New p i w = (inr c, w') ∧ tc_Ping c w' = None
    | Err _ => True
    | Panic => False
    end) w.
Proof.
  unfold NewClient. destruct (New_spec p i w). apply wp_bind, wp_run.
  destruct (tc_New p i w) as [[e|c] w']; simpl in *; [done|].
  apply wp_bind, wp_gets. by destruct (tc_Ping c w') eqn:E.
Qed.
End Teleport.

#[export] Hint Resolve keeps_Generate keeps_AreTeleportAppsEnabled keeps_NewClient : keeps.
