(* ===== verification/Token.v ===== *)
(** * Join tokens (internal/pkg/teleport/token.go)

    Checking, generating and deleting a cluster's Teleport tokens, with the
    abstract notion of validity that the check decides and a new token meets. *)
From S2P Require Import Prelude GoStrings GoValue GoTime Libraries Key Objects World Config.
From S2P Require Import Teleport.

Section Token.
Context `{Unicode, World, !ProvisionTokens}.

(** ** Operations *)

(** [GetMetadata().Labels["cluster"]]: a missing label reads as the empty text. *)
Definition cluster_label (t : ProvisionToken) : string := default "" (Labels t !! "cluster").

Fixpoint containsRole (roles : list SystemRole) (role : string) : bool :=
  match roles with
  | [] => false
  | r :: rs => if decide (ToLower (SystemRole_String r) = role) then true
               else containsRole rs role
  end.

(** The loop over the tokens: the first one with the name and the label decides. *)
Fixpoint check_tokens (t_now : Z) (tokens : list ProvisionToken)
    (registerName token : string) (expectedRoles : list string) : bool :=
  match tokens with
  | [] => false
  | t :: rest =>
      if decide (GetName t = token ∧ cluster_label t = registerName) then
        if negb (IsZero (Expiry t)) && After (Expiry t) t_now then
          let tokenRoles := GetRoles t in
          if decide (length tokenRoles ≠ length expectedRoles) then false
          else forallb (containsRole tokenRoles) expectedRoles
        else false
      else check_tokens t_now rest registerName token expectedRoles
  end.

Definition IsTokenValid (t : Teleport) (registerName token tokenType : string) : M world bool :=
  r ← client_GetTokens (t_TeleportClient t);
  match r with
  | inl e => throw (EMask (ELib e))
  | inr tokens =>
      expectedRoles ← lift (masked (ParseRoles tokenType));
      t_now ← Now;
      mret (check_tokens t_now tokens registerName token expectedRoles)
  end.

(** [m.Labels = ...; token.SetMetadata(m)]. *)
Definition set_labels (labels : gmap string string) (t : ProvisionToken) : ProvisionToken :=
  mkToken _ (GetName t) labels (Expiry t) (GetRoles t).

Definition token_labels (registerName : string) (roles : list string) : gmap string string :=
  <["cluster" := registerName]> {["roles" := RolesToString roles]}.

Definition GenerateToken (t : Teleport) (registerName : string) (roles : list string)
    : M world string :=
  t_now ← Now;
  let tokenValidity := Add t_now TeleportKubeTokenValidity in
  let tokenRoles := RolesToSystemRoles roles in
  name ← Generate (t_TokenGenerator t);
  match NewProvisionToken name tokenRoles tokenValidity with
  | inl e => throw (EMask (ELib e))
  | inr token =>
      let token := set_labels (token_labels registerName roles) token in
      r ← client_UpsertToken (t_TeleportClient t) token;
      match r with
      | Some e => throw (EMask (ELib e))
      | None => mret (GetName token)
      end
  end.

(** The first token with the cluster's label is deleted; the loop returns. *)
Definition has_label (registerName : string) (t : ProvisionToken) : bool :=
  bool_decide (cluster_label t = registerName).
Definition DeleteToken (t : Teleport) (registerName : string) : M world unit :=
  r ← client_GetTokens (t_TeleportClient t);
  match r with
  | inl e => throw (ELib e)
  | inr tokens =>
      match List.find (has_label registerName) tokens with
      | None => mret tt
      | Some token =>
          r ← client_DeleteToken (t_TeleportClient t) (GetName token);
          match r with
          | Some e => throw (EMask (ELib e))
          | None => mret tt
          end
      end
  end.

(** ** Specification *)

(** The token grants the expected roles to the cluster at a time. *)
Definition grants (t : ProvisionToken) (t_now : Z) (registerName : string)
    (roles : list string) : Prop :=
  cluster_label t = registerName ∧ Expiry t ≠ 0%Z ∧ (t_now < Expiry t)%Z ∧
  length (GetRoles t) = length roles ∧
  ∀ role, role ∈ roles → ∃ sr, sr ∈ GetRoles t ∧ ToLower (SystemRole_String sr) = role.

Definition valid_token (s : Snapshot) (t_now : Z) (registerName token : string)
    (roles : list string) : Prop :=
  ∃ t, s_tokens s !! token = Some t ∧ grants t t_now registerName roles.

(** The names of a cluster's tokens. *)
Definition cluster_tokens (registerName : string) (s : Snapshot) : gset string :=
  dom (filter (λ p, cluster_label p.2 = registerName) (s_tokens s)).

(** Tokens that belong to other clusters stay as they are. *)
Definition others_kept `{!WorldLaws} (registerName : string) (w w' : world) : Prop :=
  ∀ n t, s_tokens (view w) !! n = Some t → cluster_label t ≠ registerName →
         s_tokens (view w') !! n = Some t.

(** ** Lemmas *)

Lemma containsRole_true roles role :
  containsRole roles role = true ↔
  ∃ sr, sr ∈ roles ∧ ToLower (SystemRole_String sr) = role.
Proof.
  induction roles as [|r rs IH]; simpl.
  - split; [done|]. by intros (sr & Hin%elem_of_nil & _).
  - case_decide as Hr.
    + split; [|done]. intros _. exists r. split; [by left|done].
    + rewrite IH. split.
      * intros (sr & Hin & Hsr). exists sr. split; [by right|done].
      * intros (sr & [->|Hin]%elem_of_cons & Hsr); [done|eauto].
Qed.

Lemma grants_check t t_now registerName roles :
  cluster_label t = registerName →
  (if negb (IsZero (Expiry t)) && After (Expiry t) t_now then
     if decide (length (GetRoles t) ≠ length roles) then false
     else forallb (containsRole (GetRoles t)) roles
   else false) = true ↔ grants t t_now registerName roles.
Proof.
  intros Hl. unfold grants, IsZero, After.
  destruct (decide (Expiry t = 0%Z)); [rewrite bool_decide_true by done; naive_solver|].
  rewrite bool_decide_false by done. simpl.
  case_bool_decide; [|naive_solver].
  case_decide; [naive_solver|].
  rewrite forallb_True_forall. setoid_rewrite containsRole_true.
  assert (length (GetRoles t) = length roles) by lia. naive_solver.
Qed.

(** With one token per name, the order of the list does not matter. *)
Lemma check_tokens_true t_now tokens registerName token roles :
  NoDup (GetName <$> tokens) →
  check_tokens t_now tokens registerName token roles = true ↔
  ∃ t, t ∈ tokens ∧ GetName t = token ∧ grants t t_now registerName roles.
Proof.
  induction tokens as [|t ts IH]; intros Hnd.
  - split; [done|]. by intros (t & Hin%elem_of_nil & _).
  - apply NoDup_cons in Hnd as [Hnotin Hnd]. cbn [check_tokens]. case_decide as Ht.
    + destruct Ht as [Hn Hl]. rewrite (grants_check t t_now registerName roles Hl). split.
      * intros Hg. exists t. split; [by left|done].
      * intros (t' & [->|Hin]%elem_of_cons & Hn' & Hg); [done|].
        destruct Hnotin. apply list_elem_of_fmap. exists t'. split; [congruence|done].
    + rewrite (IH Hnd). split.
      * intros (t' & Hin & Hg). exists t'. split; [by right|done].
      * intros (t' & [->|Hin]%elem_of_cons & Hn' & Hg); [|eauto].
        destruct Ht. split; [done|]. apply Hg.
Qed.

Lemma find_has_label registerName tokens :
  match List.find (has_label registerName) tokens with
  | Some t => t ∈ tokens ∧ cluster_label t = registerName
  | None => ∀ t, t ∈ tokens → cluster_label t ≠ registerName
  end.
Proof.
  destruct (List.find _ tokens) as [t|] eqn:E.
  - apply List.find_some in E as [Hin Hl]. apply bool_decide_eq_true in Hl.
    by rewrite list_elem_of_In.
  - intros t Hin Hl. eapply List.find_none in E; [|by apply list_elem_of_In].
    by apply bool_decide_eq_false in E.
Qed.

Section laws.
Context `{!WorldLaws}.

Lemma keeps_IsTokenValid F t registerName token tokenType :
  Keeps (step F) (IsTokenValid t registerName token tokenType).
Proof. unfold IsTokenValid. solve_keeps. Qed.

Lemma keeps_GenerateToken (F : slot → Prop) t registerName roles
    `{!GeneratorLaws (t_TokenGenerator t)} :
  (∀ n, F (slot_token n)) → Keeps (step F) (GenerateToken t registerName roles).
Proof. intros HF. unfold GenerateToken. solve_keeps. Qed.

Lemma keeps_DeleteToken_cluster (F : slot → Prop) t registerName :
  (∀ n, F (slot_token n)) → Keeps (step F) (DeleteToken t registerName).
Proof. intros HF. unfold DeleteToken. solve_keeps. Qed.

(** The check reads the world only, panics exactly without a client, and answers
    whether Teleport holds a valid token. *)
Lemma wp_IsTokenValid t registerName token tokenType roles w :
  ParseRoles tokenType = Ret roles →
  wp (IsTokenValid t registerName token tokenType) (λ o w',
    w' = w ∧
    match o with
    | Ret b => b = true ↔ valid_token (view w) (now w) registerName token roles
    | Err _ => True
    | Panic => t_TeleportClient t = None
    end) w.
Proof.
  intros Hr. unfold IsTokenValid. apply wp_bind, wp_GetTokens; [done|done|].
  intros l _ Hnd Hl. rewrite Hr. apply wp_bind, wp_lift. simpl.
  apply wp_bind, wp_Now, wp_ret. split; [done|].
  rewrite (check_tokens_true (now w) l registerName token roles Hnd). unfold valid_token.
  split.
  - intros (tk & Hin & <- & Hg). exists tk. split; [by apply Hl|done].
  - intros (tk & Hin & Hg). pose proof (view_token_name _ _ _ Hin). subst.
    exists tk. split_and!; [by apply Hl|done..].
Qed.

(** What [GenerateToken] stores. *)
Definition generated (registerName : string) (roles : list string) (t_now : Z)
    (name : string) (t : ProvisionToken) : Prop :=
  GetName t = name ∧ Labels t = token_labels registerName roles ∧
  Expiry t = Add t_now TeleportKubeTokenValidity ∧ GetRoles t = RolesToSystemRoles roles.

Lemma wp_GenerateToken t registerName roles w `{!TeleportTypesLaws}
    `{!GeneratorLaws (t_TokenGenerator t)} :
  wp (GenerateToken t registerName roles) (λ o w',
    (now w <= now w')%Z ∧
    match o with
    | Ret name => ∃ tk, generated registerName roles (now w) name tk ∧
                        view w' = put_token tk (view w)
    | Err _ => view w' = view w ∨
               ∃ name tk, generated registerName roles (now w) name tk ∧
                          view w' = put_token tk (view w)
    | Panic => t_TeleportClient t = None
    end) w.
Proof.
  unfold GenerateToken. apply wp_bind, wp_Now. simpl.
  apply wp_bind. eapply wp_mono; [apply Generate_spec|].
  intros o w1 ((name & ->) & Ht1 & Hv1).
  destruct (NewProvisionToken _ _ _) as [e|tk] eqn:Etk; [apply wp_throw; auto|].
  apply NewProvisionToken_spec in Etk as (Hn & He & Hr).
  set (tk' := set_labels _ tk).
  assert (generated registerName roles (now w) name tk') as Hgen by done.
  apply wp_bind. apply wp_bind, wp_deref; [|done]. intros c Hc.
  eapply wp_write; [apply UpsertToken_spec| |]; rewrite Hv1.
  - intros w2 _ Ht2 _ Hv2. apply wp_ret. split; [lia|]. simpl. rewrite Hn. eauto.
  - intros e w2 _ Ht2 Hv2. apply wp_throw. split; [lia|].
    destruct Hv2 as [?|[_ ?]]; eauto.
Qed.

Lemma wp_DeleteToken t registerName w :
  wp (DeleteToken t registerName) (λ o w',
    (now w <= now w')%Z ∧
    match o with
    | Ret _ =>
        (view w' = view w ∧ cluster_tokens registerName (view w) = ∅) ∨
        ∃ n, n ∈ cluster_tokens registerName (view w) ∧ view w' = del_token n (view w)
    | Err _ => view w' = view w ∨
               ∃ n, n ∈ cluster_tokens registerName (view w) ∧ view w' = del_token n (view w)
    | Panic => w' = w ∧ t_TeleportClient t = None
    end) w.
Proof.
  unfold DeleteToken. apply wp_bind, wp_GetTokens; [by intros Hc; split; [lia|]| |].
  { intros e _. apply wp_throw. split; [lia|auto]. }
  intros l [c Hc] _ Hl. pose proof (find_has_label registerName l) as Hf.
  destruct (List.find _ l) as [tk|].
  - destruct Hf as [Hin Hlab].
    assert (GetName tk ∈ cluster_tokens registerName (view w)).
    { apply elem_of_dom. exists tk. apply map_lookup_filter_Some. split; [by apply Hl|done]. }
    rewrite Hc. apply wp_bind, wp_bind, wp_deref; [|done]. intros c' _.
    eapply wp_write; [apply DeleteToken_spec| |].
    + intros w' _ Ht _ Hv. apply wp_ret. split; [done|]. right. eauto.
    + intros e w' _ Ht Hv. apply wp_throw. split; [done|].
      destruct Hv as [?|[_ ?]]; eauto.
  - apply wp_ret. split; [lia|]. left. split; [done|].
    apply dom_empty_iff_L, map_empty. intros n. apply map_lookup_filter_None. right.
    intros tk Htk Hlab. pose proof (view_token_name _ _ _ Htk). subst.
    apply (Hf tk); [by apply Hl|done].
Qed.

(** A token as generated grants its roles until it expires, and not after. *)
Lemma known_role_lower role sr `{!TeleportTypesLaws} :
  known_role role → system_role role = Some sr → ToLower (SystemRole_String sr) = role.
Proof.
  intros [-> | [-> | ->]]; unfold system_role; simpl; intros [= <-];
    [apply RoleKube_lower|apply RoleApp_lower|apply RoleNode_lower].
Qed.

Lemma RolesToSystemRoles_lower roles role `{!TeleportTypesLaws} :
  Forall known_role roles → role ∈ roles →
  ∃ sr, sr ∈ RolesToSystemRoles roles ∧ ToLower (SystemRole_String sr) = role.
Proof.
  intros Hk Hin. rewrite Forall_forall in Hk. pose proof (Hk role Hin) as Hr.
  destruct (system_role_known role Hr) as [sr Hsr]. exists sr. split.
  - apply list_elem_of_omap. eauto.
  - by apply known_role_lower.
Qed.

Lemma generated_grants registerName roles t0 t1 name tk `{!TeleportTypesLaws} :
  Forall known_role roles → (0 < t0)%Z →
  generated registerName roles t0 name tk →
  grants tk t1 registerName roles ↔ (t1 < t0 + TeleportKubeTokenValidity)%Z.
Proof.
  intros Hk Hpos (Hn & Hl & He & Hr). unfold grants. rewrite He, Hr.
  unfold Add, TeleportKubeTokenValidity, Hour, Minute in *. split; [tauto|]. intros Ht.
  split_and!.
  - unfold cluster_label. by rewrite Hl.
  - lia.
  - done.
  - by apply RolesToSystemRoles_length.
  - intros role Hin. by apply RolesToSystemRoles_lower.
Qed.

Lemma generated_valid registerName roles t0 t1 name tk s `{!TeleportTypesLaws} :
  Forall known_role roles → (0 < t0)%Z →
  generated registerName roles t0 name tk →
  valid_token (put_token tk s) t1 registerName name roles ↔
  (t1 < t0 + TeleportKubeTokenValidity)%Z.
Proof.
  intros Hk Hpos Hg. rewrite <-(generated_grants registerName roles t0 t1 name tk) by done.
  unfold valid_token, put_token. simpl. destruct Hg as (Hn & _). rewrite Hn, lookup_insert_eq.
  split; [by intros (? & [= <-] & ?)|eauto].
Qed.

Lemma cluster_tokens_put_del reg n s :
  cluster_tokens reg (del_token n s) = cluster_tokens reg s ∖ {[n]}.
Proof.
  apply set_eq. intros m. unfold cluster_tokens, del_token. simpl.
  rewrite elem_of_difference, elem_of_singleton, !elem_of_dom.
  unfold is_Some. setoid_rewrite map_lookup_filter_Some. setoid_rewrite lookup_delete_Some.
  naive_solver.
Qed.

(** Two known roles whose system roles print alike are the same. *)
Lemma system_role_inj sr roles role `{!TeleportTypesLaws} :
  Forall known_role roles → sr ∈ RolesToSystemRoles roles →
  ToLower (SystemRole_String sr) = role → role ∈ roles.
Proof.
  intros Hk Hin <-. apply list_elem_of_omap in Hin as (r & Hr & Hsr).
  rewrite Forall_forall in Hk. by rewrite (known_role_lower r sr (Hk r Hr) Hsr).
Qed.

(** What a generated token grants: its own roles, to its own cluster, in time. *)
Lemma generated_grants_roles reg reg' roles roles' t0 t1 name tk `{!TeleportTypesLaws} :
  Forall known_role roles → NoDup roles' → (0 < t0)%Z → generated reg roles t0 name tk →
  grants tk t1 reg' roles' ↔
  reg' = reg ∧ roles' ≡ₚ roles ∧ (t1 < t0 + TeleportKubeTokenValidity)%Z.
Proof.
  intros Hk Hnd Hpos Hg. pose proof Hg as (_ & Hlab & He & Hr).
  assert (cluster_label tk = reg) as Hreg by (unfold cluster_label; by rewrite Hlab).
  split.
  - intros (Hl & Hexp & Ht & Hlen & Hall). split; [congruence|].
    assert (length roles' = length roles) as Hlen'
      by (by rewrite <-Hlen, Hr, RolesToSystemRoles_length).
    assert (roles' ⊆ roles) as Hsub.
    { intros role Hin. destruct (Hall role Hin) as (sr & Hsr & Hlow). rewrite Hr in Hsr.
      by eapply system_role_inj. }
    rewrite He in Ht. split; [|exact Ht].
    apply submseteq_length_Permutation; [by apply NoDup_submseteq|lia].
  - intros (-> & Hperm & Ht). rewrite <-(generated_grants reg roles t0 t1 name tk) in Ht by done.
    destruct Ht as (Hl & Hexp & Hlt & Hlen & Hall). split_and!; [done..|by rewrite Hperm|].
    intros role. rewrite Hperm. apply Hall.
Qed.

(** ** Theorems *)

(** C20. The token check answers the question it stands for: it changes nothing, it panics only
    without a client, and its answer is whether Teleport holds, under that name, an unexpired
    token with the cluster's label and exactly as many roles, among them the expected ones. *)
Theorem IsTokenValid_decides t registerName token tokenType roles w :
  ParseRoles tokenType = Ret roles →
  wp (IsTokenValid t registerName token tokenType) (λ o w',
    w' = w ∧
    match o with
    | Ret b => b = true ↔ valid_token (view w) (now w) registerName token roles
    | Err _ => True
    | Panic => t_TeleportClient t = None
    end) w.
Proof. apply wp_IsTokenValid. Qed.

(** C39. The order in which Teleport lists the tokens does not matter to the check. *)
Theorem check_tokens_permutation t_now tokens tokens' registerName token roles :
  NoDup (GetName <$> tokens) → tokens ≡ₚ tokens' →
  check_tokens t_now tokens registerName token roles =
  check_tokens t_now tokens' registerName token roles.
Proof.
  intros Hnd Hp. apply bool_eq_iff.
  rewrite !check_tokens_true by (done || by rewrite <-Hp). by setoid_rewrite Hp.
Qed.

(** C21. A generated token passes the check until 720 hours after its generation started and
    not after: as long as Teleport stores it as it was upserted, any later check for the same
    register name and roles that returns says valid exactly within that time. *)
Theorem GenerateToken_then_IsTokenValid t t' registerName roles w w1 w2 w3 name b
    `{!TeleportTypesLaws, !GeneratorLaws (t_TokenGenerator t)} :
  roles ≠ [] → Forall known_role roles →
  GenerateToken t registerName roles w = (Ret name, w1) →
  s_tokens (view w2) !! name = s_tokens (view w1) !! name →
  IsTokenValid t' registerName name (RolesToString roles) w2 = (Ret b, w3) →
  b = true ↔ (now w2 < now w + 720 * Hour)%Z.
Proof.
  intros Hne Hk Hgen Hsame Hvalid.
  destruct (wp_elim _ _ _ _ _ (wp_GenerateToken t registerName roles w) Hgen)
    as [_ (tk & Htk & Hv1)].
  pose proof (ParseRoles_RolesToString roles Hne Hk) as Hparse.
  destruct (wp_elim _ _ _ _ _ (wp_IsTokenValid t' registerName name _ roles w2 Hparse) Hvalid)
    as [_ ->].
  unfold valid_token. rewrite Hsame, Hv1. destruct Htk as (Hn & Htk). simpl.
  rewrite Hn, lookup_insert_eq. change (720 * Hour)%Z with TeleportKubeTokenValidity.
  rewrite <-(generated_grants registerName roles (now w) (now w2) name tk)
    by (done || apply now_pos). naive_solver.
Qed.

(** C23. Tokens are not interchangeable: as long as Teleport stores a generated token as it was
    upserted, a check that returns accepts it exactly for the register name it was generated
    for, for a list without repetitions of exactly the roles it was generated for, in any
    order, and for 720 hours; so a node token is never taken for a kube token, nor one
    cluster's token for another's. *)
Theorem generated_token_roles t t' registerName registerName' roles roles' tokenType w w1 w2 w3
    name b `{!TeleportTypesLaws, !GeneratorLaws (t_TokenGenerator t)} :
  Forall known_role roles → ParseRoles tokenType = Ret roles' → NoDup roles' →
  GenerateToken t registerName roles w = (Ret name, w1) →
  s_tokens (view w2) !! name = s_tokens (view w1) !! name →
  IsTokenValid t' registerName' name tokenType w2 = (Ret b, w3) →
  b = true ↔ registerName' = registerName ∧ roles' ≡ₚ roles ∧ (now w2 < now w + 720 * Hour)%Z.
Proof.
  intros Hk Hparse Hnd Hgen Hsame Hvalid.
  destruct (wp_elim _ _ _ _ _ (wp_GenerateToken t registerName roles w) Hgen)
    as [_ (tk & Htk & Hv1)].
  destruct (wp_elim _ _ _ _ _ (wp_IsTokenValid t' registerName' name _ roles' w2 Hparse) Hvalid)
    as [_ ->].
  unfold valid_token. rewrite Hsame, Hv1. destruct Htk as (Hn & Htk). simpl.
  rewrite Hn, lookup_insert_eq. change (720 * Hour)%Z with TeleportKubeTokenValidity.
  rewrite <-(generated_grants_roles registerName registerName' roles roles' (now w) (now w2) name tk)
    by (done || apply now_pos). naive_solver.
Qed.

(** C22. Deleting a cluster's token deletes one: after a [DeleteToken] that returns, the cluster
    has one token less, or none when it had none, and other tokens are as before.  Of the two
    tokens the registration creates, one stays. *)
Theorem DeleteToken_deletes_one t registerName w :
  wp (DeleteToken t registerName) (λ o w', match o with
    | Ret _ =>
        size (cluster_tokens registerName (view w')) =
          pred (size (cluster_tokens registerName (view w))) ∧
        cluster_tokens registerName (view w') ⊆ cluster_tokens registerName (view w) ∧
        others_kept registerName w w'
    | _ => True
    end) w.
Proof.
  eapply wp_mono; [apply wp_DeleteToken|]. intros [[]|?|] w' [_ Ho]; [|done..].
  destruct Ho as [[Hv Hnone]|(n & Hn & Hv)]; unfold others_kept; rewrite Hv.
  - rewrite Hnone, size_empty. split_and!; [done..|auto].
  - rewrite cluster_tokens_put_del, size_difference, size_singleton by set_solver.
    split_and!; [lia|set_solver|]. intros m tk Htk Hl. simpl.
    rewrite lookup_delete_ne; [done|]. intros ->. unfold cluster_tokens in Hn.
    apply elem_of_dom in Hn as [tk' [Htk' Hl']%map_lookup_filter_Some]. simpl in Hl'. congruence.
Qed.
End laws.
End Token.

#[export] Hint Resolve keeps_IsTokenValid keeps_GenerateToken keeps_DeleteToken_cluster : keeps.
