(* ===== verification/Secret.v ===== *)
(** * Secrets (internal/pkg/teleport/secret.go)

    The Secret with a cluster's node join token, and tbot's kubeconfig Secret.
    [get_or_nil] and [delete_if_present] are the two idioms this file of the
    program shares with configmap.go. *)
From S2P Require Import Prelude GoStrings GoValue GoTime Libraries Key Objects World Config.
From S2P Require Import Teleport.

Section Secret.
Context `{World}.

(** ** Idioms *)

(** [if err := ctrlClient.Get(...); err != nil {
      if apierrors.IsNotFound(err) { return nil, nil }; return nil, <wrapped err> }]. *)
Definition get_or_nil (k : kind) (key : ObjectKey) (wrapped : error → error)
    : M world (option (obj k)) :=
  r ← Get k key;
  match r with
  | inl e => if IsNotFound e then mret None else throw (wrapped (ELib e))
  | inr o => mret (Some o)
  end.

(** [if err := ctrlClient.Delete(...); err != nil {
      if apierrors.IsNotFound(err) { return nil }; return <wrapped err> }]. *)
Definition delete_if_present (k : kind) (key : ObjectKey) (wrapped : error → error)
    : M world unit :=
  r ← Delete k key;
  match r with
  | Some e => if IsNotFound e then mret tt else throw (wrapped (ELib e))
  | None => mret tt
  end.

(** ** Operations *)

Definition secret_key (clusterName clusterNamespace : string) : ObjectKey :=
  mkKey clusterNamespace (GetSecretName clusterName).
Definition kubeconfig_key (clusterName clusterNamespace : string) : ObjectKey :=
  mkKey clusterNamespace (GetKubeconfigSecretName clusterName).

Definition GetSecret (clusterName clusterNamespace : string) : M world (option Secret) :=
  get_or_nil KSecret (secret_key clusterName clusterNamespace)
    (λ e, EMask (EWrap "failed to get Secret" e)).

Definition GetTokenFromSecret (secret : Secret) : outcome string :=
  match sec_Data secret !! "joinToken" with
  | Some tokenBytes => Ret tokenBytes
  | None => Err (EMask (EText "failed to get joinToken from Secret"))
  end.

(** The object [CreateSecret] and [UpdateSecret] send. *)
Definition token_secret (clusterName clusterNamespace token : string) : Secret :=
  mkSecret (secret_key clusterName clusterNamespace) ∅ {["joinToken" := token]}.

Definition CreateSecret (clusterName clusterNamespace token : string) : M world unit :=
  r ← Create KSecret (token_secret clusterName clusterNamespace token);
  match r with
  | Some e => throw (EMask (EWrap "failed to create Secret" (ELib e)))
  | None => mret tt
  end.

Definition UpdateSecret (clusterName clusterNamespace token : string) : M world unit :=
  r ← Update KSecret (token_secret clusterName clusterNamespace token);
  match r with
  | Some e => throw (EMask (EWrap "failed to update Secret" (ELib e)))
  | None => mret tt
  end.

Definition DeleteSecret (clusterName clusterNamespace : string) : M world unit :=
  delete_if_present KSecret (secret_key clusterName clusterNamespace)
    (λ e, EMask (EWrap "failed to delete Secret" e)).

Definition DeleteKubeconfigSecret (clusterName clusterNamespace : string) : M world unit :=
  delete_if_present KSecret (kubeconfig_key clusterName clusterNamespace)
    (λ e, EMask (EWrap "failed to delete Secret" e)).

Definition GetKubeconfigSecret (clusterName clusterNamespace : string)
    : M world (option Secret) :=
  get_or_nil KSecret (kubeconfig_key clusterName clusterNamespace)
    (λ e, EMask (EWrap "failed to get Secret" e)).

(** ** Specification *)

(** The stored Secret of a cluster carries the token. *)
Definition holds_token (s : Snapshot) (key : ObjectKey) (token : string) : Prop :=
  ∃ sec, s_secrets s !! key = Some sec ∧ GetTokenFromSecret sec = Ret token.

(** ** Lemmas *)

Section laws.
Context `{!WorldLaws}.

Lemma keeps_get_or_nil F k key f : Keeps (step F) (get_or_nil k key f).
Proof. unfold get_or_nil. solve_keeps. Qed.

Lemma keeps_get_or_nil_bind {A} (F : slot → Prop) k key f (g : option (obj k) → M world A) :
  Keeps (step F) (g None) →
  (∀ o, obj_key k o = key → Keeps (step F) (g (Some o))) →
  Keeps (step F) (get_or_nil k key f ≫= g).
Proof.
  intros HN HS w. pose proof (Get_spec k key w) as Hs.
  unfold mbind, M_bind, get_or_nil, mbind, M_bind, Get, gets.
  destruct (k8s_Get k key w) as [e|o]; [destruct (IsNotFound e)|].
  - apply HN.
  - reflexivity.
  - apply HS. by eapply view_obj_key.
Qed.

Lemma keeps_delete_if_present (F : slot → Prop) k key f :
  k = KSecret ∨ k = KConfigMap → F (slot_obj k key) →
  Keeps (step F) (delete_if_present k key f).
Proof. intros Hk HF. unfold delete_if_present. solve_keeps. Qed.

Lemma wp_get_or_nil k key f w :
  wp (get_or_nil k key f) (λ o w', w' = w ∧
    match o with
    | Ret r => objs k (view w) !! key = r
    | Err _ => True
    | Panic => False
    end) w.
Proof.
  unfold get_or_nil. apply wp_bind; wp_get.
  - intros o Ho. apply wp_ret. done.
  - intros e -> Hn. apply wp_ret. done.
  - intros e ->. by apply wp_throw.
Qed.

(** After a deletion that reports no error the object is gone; deleting an
    object that is not there is no error. *)
Lemma wp_delete_if_present k key f w :
  k = KSecret ∨ k = KConfigMap →
  wp (delete_if_present k key f) (λ o w',
    match o with
    | Ret _ => objs k (view w') !! key = None
    | Err _ => True
    | Panic => False
    end) w.
Proof.
  intros Hk. unfold delete_if_present. apply wp_bind.
  eapply wp_write; [by apply Delete_spec| |].
  - intros w' _ _ _ Hv. apply wp_ret. rewrite Hv. apply lookup_del_obj.
  - intros e w' He _ _. destruct e; simpl; [apply wp_ret|by apply wp_throw..].
    pose proof (Delete_NotFound k key w) as Hd. rewrite He in Hd. by apply Hd.
Qed.

Lemma keeps_GetSecret F c n : Keeps (step F) (GetSecret c n).
Proof. exact (keeps_get_or_nil F _ _ _). Qed.

Lemma keeps_GetKubeconfigSecret F c n : Keeps (step F) (GetKubeconfigSecret c n).
Proof. exact (keeps_get_or_nil F _ _ _). Qed.

Lemma keeps_CreateSecret (F : slot → Prop) c n tok :
  F (slot_obj KSecret (secret_key c n)) → Keeps (step F) (CreateSecret c n tok).
Proof. intros HF. unfold CreateSecret. solve_keeps. Qed.

Lemma keeps_UpdateSecret (F : slot → Prop) c n tok :
  F (slot_obj KSecret (secret_key c n)) → Keeps (step F) (UpdateSecret c n tok).
Proof. intros HF. unfold UpdateSecret. solve_keeps. Qed.

Lemma keeps_DeleteSecret (F : slot → Prop) c n :
  F (slot_obj KSecret (secret_key c n)) → Keeps (step F) (DeleteSecret c n).
Proof. exact (keeps_delete_if_present F KSecret _ _ (or_introl eq_refl)). Qed.

Lemma keeps_DeleteKubeconfigSecret (F : slot → Prop) c n :
  F (slot_obj KSecret (kubeconfig_key c n)) → Keeps (step F) (DeleteKubeconfigSecret c n).
Proof. exact (keeps_delete_if_present F KSecret _ _ (or_introl eq_refl)). Qed.

Lemma token_secret_stored c n tok s :
  holds_token (put_obj KSecret (token_secret c n tok) s) (secret_key c n) tok.
Proof.
  exists (stored KSecret (token_secret c n tok)). split.
  - apply (lookup_put_obj KSecret (token_secret c n tok)).
  - unfold GetTokenFromSecret, stored, token_secret. simpl.
    by rewrite (lookup_union_Some_l _ _ _ tok), ?lookup_singleton_eq.
Qed.

Lemma wp_CreateSecret c n tok w :
  wp (CreateSecret c n tok) (λ o w', (now w <= now w')%Z ∧
    match o with
    | Ret _ => view w' = put_obj KSecret (token_secret c n tok) (view w)
    | Err _ => True
    | Panic => False
    end) w.
Proof.
  unfold CreateSecret. apply wp_bind. eapply wp_write; [apply Create_spec| |].
  - intros w' _ Ht _ Hv. by apply wp_ret.
  - intros e w' _ Ht _. by apply wp_throw.
Qed.

Lemma wp_UpdateSecret c n tok w :
  wp (UpdateSecret c n tok) (λ o w', (now w <= now w')%Z ∧
    match o with
    | Ret _ => view w' = put_obj KSecret (token_secret c n tok) (view w)
    | Err _ => True
    | Panic => False
    end) w.
Proof.
  unfold UpdateSecret. apply wp_bind. eapply wp_write; [apply Update_spec| |].
  - intros w' _ Ht _ Hv. by apply wp_ret.
  - intros e w' _ Ht _. by apply wp_throw.
Qed.
End laws.
End Secret.

#[export] Hint Resolve keeps_get_or_nil keeps_delete_if_present keeps_GetSecret
  keeps_GetKubeconfigSecret keeps_CreateSecret keeps_UpdateSecret keeps_DeleteSecret
  keeps_DeleteKubeconfigSecret : keeps.
