(* ===== verification/Finalizer.v ===== *)
(** * Finalizers (internal/pkg/teleport/finalizer.go)

    Adding and removing the operator's finalizer with cluster-api's patch
    helper.  The code also updates the local copy of the Cluster, which its only
    caller does not read again. *)
From S2P Require Import Prelude GoStrings GoValue GoTime Libraries Key Objects World Config.
From S2P Require Import Teleport.

Section Finalizer.
Context `{ControllerUtil, World}.

(** [microerror.Mask(client.IgnoreNotFound(err))] is nil for NotFound. *)
Definition mask_ignoring_notfound (e : lib_error) : M world unit :=
  if IsNotFound e then mret tt else throw (EMask (ELib e)).

Definition RemoveFinalizer (cluster : Cluster) : M world unit :=
  h ← NewHelper cluster;
  match h with
  | Some e => throw (EMask (ELib e))
  | None =>
      r ← Patch cluster (RemoveFinalizerFrom cluster TeleportOperatorFinalizer);
      match r with
      | Some e => mask_ignoring_notfound e
      | None => mret tt
      end
  end.

Definition AddFinalizer (cluster : Cluster) : M world unit :=
  h ← NewHelper cluster;
  match h with
  | Some e => throw (EMask (ELib e))
  | None =>
      r ← Patch cluster (AddFinalizerTo cluster TeleportOperatorFinalizer);
      match r with
      | Some e => mask_ignoring_notfound e
      | None => mret tt
      end
  end.

(** ** Specification *)

(** The stored cluster carries the operator's finalizer. *)
Definition finalizer_set (s : Snapshot) (key : ObjectKey) : Prop :=
  ∃ c, s_clusters s !! key = Some c ∧ TeleportOperatorFinalizer ∈ cl_Finalizers c.

(** The stored cluster, if there is one, does not. *)
Definition finalizer_clear (s : Snapshot) (key : ObjectKey) : Prop :=
  ∀ c, s_clusters s !! key = Some c → TeleportOperatorFinalizer ∉ cl_Finalizers c.

(** ** Lemmas *)

Section laws.
Context `{!WorldLaws, !ControllerUtilLaws}.

Lemma keeps_RemoveFinalizer (F : slot → Prop) c :
  F (slot_obj KCluster (cl_meta c)) → Keeps (step F) (RemoveFinalizer c).
Proof. intros HF. unfold RemoveFinalizer, mask_ignoring_notfound. solve_keeps. Qed.

Lemma keeps_AddFinalizer (F : slot → Prop) c :
  F (slot_obj KCluster (cl_meta c)) → Keeps (step F) (AddFinalizer c).
Proof. intros HF. unfold AddFinalizer, mask_ignoring_notfound. solve_keeps. Qed.

(** What a patch stores at the cluster's key. *)
Lemma lookup_patch_cluster before after s c :
  s_clusters (patch_cluster before after s) !! cl_meta before = Some c →
  ∃ cur, s_clusters s !! cl_meta before = Some cur ∧ c = patched before after cur.
Proof.
  unfold patch_cluster.
  destruct (s_clusters s !! cl_meta before) as [cur|] eqn:E; [|congruence].
  cbn zeta. destruct (_ && _); simpl.
  - by rewrite lookup_delete_eq.
  - rewrite lookup_insert_eq. intros [= <-]. eauto.
Qed.

Lemma patch_clears c s :
  TeleportOperatorFinalizer ∈ cl_Finalizers c →
  finalizer_clear (patch_cluster c (RemoveFinalizerFrom c TeleportOperatorFinalizer) s) (cl_meta c).
Proof.
  intros Hin c' Hc'. apply lookup_patch_cluster in Hc' as (cur & _ & ->).
  unfold patched. rewrite RemoveFinalizerFrom_spec. simpl.
  assert (TeleportOperatorFinalizer ∉
    filter (λ g, g ≠ TeleportOperatorFinalizer) (cl_Finalizers c)) as Hnot.
  { intros [Hne _]%list_elem_of_filter. done. }
  case_decide as Heq; [|done]. by rewrite Heq in Hin.
Qed.

Lemma patch_sets c cur s :
  s_clusters s !! cl_meta c = Some cur →
  TeleportOperatorFinalizer ∉ cl_Finalizers c →
  finalizer_set (patch_cluster c (AddFinalizerTo c TeleportOperatorFinalizer) s) (cl_meta c).
Proof.
  intros Hcur Hnot. unfold patch_cluster. rewrite Hcur. cbn zeta.
  assert (patched c (AddFinalizerTo c TeleportOperatorFinalizer) cur =
    mkCluster (cl_meta cur) (cl_Finalizers c ++ [TeleportOperatorFinalizer])
      (cl_DeletionTimestamp cur)) as ->.
  { unfold patched. rewrite AddFinalizerTo_spec.
    destruct (decide (TeleportOperatorFinalizer ∈ cl_Finalizers c)) as [|_]; [done|]. simpl.
    rewrite decide_False; [done|]. intros E%(f_equal length). rewrite length_app in E.
    simpl in E. lia. }
  simpl. rewrite bool_decide_false, andb_false_r by (by destruct (cl_Finalizers c)).
  eexists. split.
  - simpl. apply lookup_insert_eq.
  - simpl. apply elem_of_app. right. by left.
Qed.

(** Removing the finalizer of the cluster as it was read: without an error it is
    gone, whether the cluster is kept by others or disappears. *)
Lemma wp_RemoveFinalizer c w :
  TeleportOperatorFinalizer ∈ cl_Finalizers c →
  wp (RemoveFinalizer c) (λ o w',
    match o with
    | Ret _ => finalizer_clear (view w') (cl_meta c)
    | Err _ => True
    | Panic => False
    end) w.
Proof.
  intros Hin. unfold RemoveFinalizer. apply wp_bind, wp_gets.
  destruct (patch_NewHelper c w); [by apply wp_throw|].
  apply wp_bind. eapply wp_write; [apply Patch_spec| |].
  - intros w' _ _ _ Hv. apply wp_ret. rewrite Hv. by apply patch_clears.
  - intros e w' He _ Hv. unfold mask_ignoring_notfound.
    destruct e; simpl; [apply wp_ret|by apply wp_throw..].
    pose proof (Patch_NotFound c (RemoveFinalizerFrom c TeleportOperatorFinalizer) w) as Hn.
    rewrite He in Hn. specialize (Hn eq_refl). destruct Hv as [->|[[? Hp] _]]; [|congruence].
    intros c' Hc'. congruence.
Qed.

(** Adding it to a cluster that is stored: without an error it is set. *)
Lemma wp_AddFinalizer c cur w :
  s_clusters (view w) !! cl_meta c = Some cur →
  TeleportOperatorFinalizer ∉ cl_Finalizers c →
  wp (AddFinalizer c) (λ o w',
    match o with
    | Ret _ => finalizer_set (view w') (cl_meta c)
    | Err _ => True
    | Panic => False
    end) w.
Proof.
  intros Hcur Hnot. unfold AddFinalizer. apply wp_bind, wp_gets.
  destruct (patch_NewHelper c w); [by apply wp_throw|].
  apply wp_bind. eapply wp_write; [apply Patch_spec| |].
  - intros w' _ _ _ Hv. apply wp_ret. rewrite Hv. by eapply patch_sets.
  - intros e w' He _ _. unfold mask_ignoring_notfound.
    destruct e; simpl; [|by apply wp_throw..].
    pose proof (Patch_NotFound c (AddFinalizerTo c TeleportOperatorFinalizer) w) as Hn.
    rewrite He in Hn. specialize (Hn eq_refl). congruence.
Qed.
End laws.
End Finalizer.

#[export] Hint Resolve keeps_RemoveFinalizer keeps_AddFinalizer : keeps.
