(* ===== verification/ConfigMap.v ===== *)
(** * Values ConfigMaps (internal/pkg/teleport/configmap.go)

    The ConfigMap that carries the teleport-kube-agent values of a cluster (join
    token, register name, Teleport version), and tbot's ConfigMap. *)
From S2P Require Import Prelude GoStrings GoValue GoTime Libraries Key Objects World Config.
From S2P Require Import Teleport Secret.

Section ConfigMap.
Context `{Unicode, Semver, Yaml, World}.

(** ** Reading *)

Definition configmap_key (t : Teleport) (clusterName clusterNamespace : string) : ObjectKey :=
  mkKey clusterNamespace (GetConfigmapName clusterName (cfg_AppName (t_Config t))).
Definition tbot_configmap_key (clusterName namespace : string) : ObjectKey :=
  mkKey namespace (GetTbotConfigmapName clusterName).

Definition GetConfigMap (t : Teleport) (clusterName clusterNamespace : string)
    : M world (option ConfigMap) :=
  get_or_nil KConfigMap (configmap_key t clusterName clusterNamespace)
    (λ e, EMask (EWrap "failed to get ConfigMap" e)).

Definition GetTbotConfigMap (clusterName : string) : M world (option ConfigMap) :=
  get_or_nil KConfigMap (tbot_configmap_key clusterName TeleportBotNamespace)
    (λ e, EMask (EWrap "bot: Failed to get configmap" e)).

(** The values document of a ConfigMap, decoded. *)
Definition values_root (configMap : ConfigMap) : outcome (gmap string value) :=
  match map_read (cm_Data configMap) "values" with
  | None => Err (EMask (EText "malformed ConfigMap: key `values` not found"))
  | Some valuesBytes =>
      match Unmarshal valuesBytes with
      | inl e => Err (EMask (EWrap "failed to parse YAML" (ELib e)))
      | inr root => Ret root
      end
  end.

(** The nested block when there is one, else the root. *)
Definition parseConfigMapValues (configMap : ConfigMap) : outcome (gmap string value) :=
  root ← values_root configMap;
  match as_map (index root TeleportKubeAgentValuesKey) with
  | Some nested => Ret nested
  | None => Ret root
  end.

Definition GetTokenFromConfigMap (configMap : ConfigMap) : outcome string :=
  valuesYaml ← parseConfigMapValues configMap;
  match as_string (index valuesYaml "authToken") with
  | Some token => Ret token
  | None => Err (EMask (EText "malformed ConfigMap: key `authToken` not found"))
  end.

Definition GetTeleportVersionFromConfigMap (configMap : ConfigMap) : outcome string :=
  valuesYaml ← parseConfigMapValues configMap;
  Ret (default "" (as_string (index valuesYaml "teleportVersionOverride"))).

Definition IsConfigMapLayoutUpToDate (configMap : ConfigMap) (tkaVersion : string)
    : outcome bool :=
  root ← values_root configMap;
  let hasNested := bool_decide (is_Some (as_map (index root TeleportKubeAgentValuesKey))) in
  let hasFlat := bool_decide (is_Some (as_string (index root "authToken"))) in
  if UsesNestedKubeAgentValues tkaVersion then Ret (hasNested && negb hasFlat)
  else Ret (hasNested && hasFlat).

Definition registerNameFromConfigMap (configMap : ConfigMap) : outcome string :=
  values ← parseConfigMapValues configMap;
  match as_string (index values "kubeClusterName") with
  | Some name =>
      if decide (name = "")
      then Err (EMask (EText "malformed ConfigMap: key `kubeClusterName` not found"))
      else Ret name
  | None => Err (EMask (EText "malformed ConfigMap: key `kubeClusterName` not found"))
  end.

(** ** Writing *)

Definition getConfigMapData (t : Teleport) (registerName token : string)
    (roles : list string) (tkaVersion : string) : string :=
  GetConfigmapDataFromTemplate token (cfg_ProxyAddr (t_Config t)) registerName
    (cfg_TeleportVersion (t_Config t)) roles tkaVersion.

Definition RenderConfigMapValues (t : Teleport) (registerName token : string)
    (roles : list string) (tkaVersion : string) : string :=
  getConfigMapData t registerName token roles tkaVersion.

Definition getTbotConfigMapData (registerName clusterName : string) : string :=
  GetTbotConfigmapDataFromTemplate registerName clusterName.

(** A ConfigMap with a values document and nothing else. *)
Definition values_configmap (key : ObjectKey) (values : string) : ConfigMap :=
  mkConfigMap key (Some {["values" := values]}) ∅.

Definition CreateConfigMap (t : Teleport) (clusterName clusterNamespace registerName token : string)
    (roles : list string) (tkaVersion : string) : M world unit :=
  let configMapName := configmap_key t clusterName clusterNamespace in
  let configMapData := getConfigMapData t registerName token roles tkaVersion in
  r ← Get KConfigMap configMapName;
  match r with
  | inl e =>
      if IsNotFound e then
        c ← Create KConfigMap (values_configmap configMapName configMapData);
        match c with
        | Some e => throw (EMask (ELib e))
        | None => mret tt
        end
      else throw (EMask (ELib e))
  | inr _ => mret tt
  end.

Definition CreateTbotConfigMap (clusterName registerName : string) : M world ConfigMap :=
  let cm := values_configmap (tbot_configmap_key clusterName TeleportBotNamespace)
              (getTbotConfigMapData registerName clusterName) in
  r ← Create KConfigMap cm;
  match r with
  | Some e => throw (EMask (ELib e))
  | None => mret cm
  end.

(** [if err != nil { return microerror.Mask(err) }] after a call that may change
    the world. *)
Definition mask_errors {S A} (m : M S A) : M S A :=
  λ s, let '(o, s') := m s in (masked o, s').

(** The namespace argument is not used: both callees use [TeleportBotNamespace]. *)
Definition EnsureTbotConfigMap (clusterName namespace registerName : string) : M world unit :=
  cm ← mask_errors (GetTbotConfigMap clusterName);
  match cm with
  | None => mask_errors (CreateTbotConfigMap clusterName registerName);; mret tt
  | Some _ => mret tt
  end.

(** [configMap.Data["values"] = values] after the nil check. *)
Definition set_values (values : string) (configMap : ConfigMap) : ConfigMap :=
  let data := match cm_Data configMap with None => ∅ | Some d => d end in
  mkConfigMap (cm_meta configMap) (Some (<["values" := values]> data))
    (cm_BinaryData configMap).

Definition UpdateConfigMap (t : Teleport) (configMap : ConfigMap) (token : string)
    (roles : list string) (tkaVersion : string) : M world unit :=
  registerName ← lift (registerNameFromConfigMap configMap);
  let configMap' := set_values (getConfigMapData t registerName token roles tkaVersion) configMap in
  r ← Update KConfigMap configMap';
  match r with
  | Some e => throw (EMask (EWrap "failed to update ConfigMap" (ELib e)))
  | None => mret tt
  end.

Definition DeleteConfigMap (t : Teleport) (clusterName clusterNamespace : string) : M world unit :=
  delete_if_present KConfigMap (configmap_key t clusterName clusterNamespace) EMask.

Definition DeleteTbotConfigMap (clusterName namespace : string) : M world unit :=
  delete_if_present KConfigMap (tbot_configmap_key clusterName namespace) EMask.

(** ** Specification *)

(** The stored ConfigMap has this values document. *)
Definition has_values (s : Snapshot) (key : ObjectKey) (values : string) : Prop :=
  ∃ cm, s_configmaps s !! key = Some cm ∧ map_read (cm_Data cm) "values" = Some values.

(** ** Lemmas on rendered documents *)

(** The decoded form of one block. *)
Definition entries_map (tok proxy name override : string) (roles : list string)
    : gmap string value :=
  list_to_map (prod_map id VString <$> values_entries tok proxy name override roles).

Lemma entries_token tok proxy name o roles :
  index (entries_map tok proxy name o roles) "authToken" = VString tok.
Proof. unfold entries_map, values_entries. by case_decide. Qed.

Lemma entries_name tok proxy name o roles :
  index (entries_map tok proxy name o roles) "kubeClusterName" = VString name.
Proof. unfold entries_map, values_entries. by case_decide. Qed.

Lemma entries_version tok proxy name o roles :
  default "" (as_string (index (entries_map tok proxy name o roles) "teleportVersionOverride")) = o.
Proof.
  unfold entries_map, values_entries. case_decide as Ho; [done|].
  by destruct (decide (o = "")) as [->|].
Qed.

(** What a rendered document decodes to: always the nested block; the flat keys
    exactly when the chart does not use the nested layout. *)
Lemma denote_values_nested tok proxy name v roles tka :
  index (denote_doc (values_doc tok proxy name v roles tka)) TeleportKubeAgentValuesKey =
  VMap (entries_map tok proxy name (ResolveNestedTeleportVersionOverride v) roles).
Proof.
  unfold values_doc, flat_doc. cbn zeta.
  destruct (UsesNestedKubeAgentValues tka); [done|].
  unfold values_entries at 1. by case_decide.
Qed.

Lemma denote_values_flat tok proxy name v roles tka :
  as_string (index (denote_doc (values_doc tok proxy name v roles tka)) "authToken") =
  if UsesNestedKubeAgentValues tka then None else Some tok.
Proof.
  unfold values_doc, flat_doc. cbn zeta.
  destruct (UsesNestedKubeAgentValues tka); [done|].
  unfold values_entries at 1. by case_decide.
Qed.

Section yaml.
Context `{!YamlLaws}.

Lemma values_root_rendered t cm name tok roles tka :
  map_read (cm_Data cm) "values" = Some (RenderConfigMapValues t name tok roles tka) →
  plain_inputs tok (cfg_ProxyAddr (t_Config t)) name (cfg_TeleportVersion (t_Config t)) roles →
  values_root cm = Ret (denote_doc (values_doc tok (cfg_ProxyAddr (t_Config t)) name
                          (cfg_TeleportVersion (t_Config t)) roles tka)).
Proof.
  intros Hcm Hin. unfold values_root. rewrite Hcm.
  unfold RenderConfigMapValues, getConfigMapData.
  rewrite print_values_doc by apply Hin.
  by rewrite Unmarshal_print by by apply values_doc_wf.
Qed.

Lemma parse_rendered t cm name tok roles tka :
  map_read (cm_Data cm) "values" = Some (RenderConfigMapValues t name tok roles tka) →
  plain_inputs tok (cfg_ProxyAddr (t_Config t)) name (cfg_TeleportVersion (t_Config t)) roles →
  parseConfigMapValues cm =
  Ret (entries_map tok (cfg_ProxyAddr (t_Config t)) name
         (ResolveNestedTeleportVersionOverride (cfg_TeleportVersion (t_Config t))) roles).
Proof.
  intros Hcm Hin. unfold parseConfigMapValues.
  rewrite (values_root_rendered t cm name tok roles tka Hcm Hin). simpl.
  by rewrite denote_values_nested.
Qed.
End yaml.

(** ** Lemmas on the operations *)

Lemma masked_not_panic {A} (o : outcome A) : masked o = Panic ↔ o = Panic.
Proof. by destruct o. Qed.

Lemma masked_Ret {A} (o : outcome A) a : masked o = Ret a ↔ o = Ret a.
Proof. by destruct o. Qed.

Lemma keeps_mask_errors {S A} (R : S → S → Prop) (m : M S A) :
  Keeps R m → Keeps R (mask_errors m).
Proof. intros Hm s. specialize (Hm s). unfold mask_errors. by destruct (m s). Qed.

Lemma wp_mask_errors {S A} (m : M S A) (Q : outcome A → S → Prop) s :
  wp m (λ o s', Q (masked o) s') s → wp (mask_errors m) Q s.
Proof. rewrite !wp_unfold. unfold mask_errors. by destruct (m s). Qed.

Lemma registerName_total cm : registerNameFromConfigMap cm ≠ Panic.
Proof.
  unfold registerNameFromConfigMap, parseConfigMapValues, values_root.
  repeat (case_match || case_decide || simpl); done.
Qed.

Section laws.
Context `{!WorldLaws}.

Lemma keeps_GetConfigMap F t c n : Keeps (step F) (GetConfigMap t c n).
Proof. exact (keeps_get_or_nil F _ _ _). Qed.

Lemma keeps_CreateConfigMap (F : slot → Prop) t c n reg tok roles tka :
  F (slot_obj KConfigMap (configmap_key t c n)) →
  Keeps (step F) (CreateConfigMap t c n reg tok roles tka).
Proof. intros HF. unfold CreateConfigMap. solve_keeps. Qed.

Lemma keeps_EnsureTbotConfigMap (F : slot → Prop) c n reg :
  F (slot_obj KConfigMap (tbot_configmap_key c TeleportBotNamespace)) →
  Keeps (step F) (EnsureTbotConfigMap c n reg).
Proof.
  intros HF. unfold EnsureTbotConfigMap, GetTbotConfigMap, CreateTbotConfigMap.
  apply keeps_bind; [apply _|apply keeps_mask_errors; exact (keeps_get_or_nil F KConfigMap _ _)|].
  intros [cm|]; [solve_keeps|].
  apply keeps_bind; [apply _| |intros; apply keeps_ret, _].
  apply keeps_mask_errors. solve_keeps.
Qed.

Lemma keeps_UpdateConfigMap (F : slot → Prop) t cm tok roles tka :
  F (slot_obj KConfigMap (cm_meta cm)) →
  Keeps (step F) (UpdateConfigMap t cm tok roles tka).
Proof. intros HF. unfold UpdateConfigMap. solve_keeps. Qed.

Lemma keeps_DeleteConfigMap (F : slot → Prop) t c n :
  F (slot_obj KConfigMap (configmap_key t c n)) → Keeps (step F) (DeleteConfigMap t c n).
Proof. exact (keeps_delete_if_present F KConfigMap _ _ (or_intror eq_refl)). Qed.

Lemma keeps_DeleteTbotConfigMap (F : slot → Prop) c n :
  F (slot_obj KConfigMap (tbot_configmap_key c n)) → Keeps (step F) (DeleteTbotConfigMap c n).
Proof. exact (keeps_delete_if_present F KConfigMap _ _ (or_intror eq_refl)). Qed.

Lemma has_values_put key values s :
  has_values (put_obj KConfigMap (values_configmap key values) s) key values.
Proof.
  exists (values_configmap key values). split; [apply (lookup_put_obj KConfigMap)|done].
Qed.

(** Without an error the ConfigMap exists: as it was, or with the rendered
    document. *)
Lemma wp_CreateConfigMap t c n reg tok roles tka w :
  wp (CreateConfigMap t c n reg tok roles tka) (λ o w',
    (now w <= now w')%Z ∧
    match o with
    | Ret _ =>
        (is_Some (s_configmaps (view w) !! configmap_key t c n) ∧ w' = w) ∨
        (s_configmaps (view w) !! configmap_key t c n = None ∧
         view w' = put_obj KConfigMap (values_configmap (configmap_key t c n)
                     (RenderConfigMapValues t reg tok roles tka)) (view w))
    | Err _ => True
    | Panic => False
    end) w.
Proof.
  unfold CreateConfigMap. apply wp_bind; wp_get.
  - intros cm Hcm. apply wp_ret. split; [lia|]. left. split; [by exists cm|done].
  - intros e -> Hn. apply wp_bind. eapply wp_write; [apply Create_spec| |].
    + intros w' _ Ht _ Hv. apply wp_ret. eauto.
    + intros e' w' _ Ht _. by apply wp_throw.
  - intros e ->. apply wp_throw. split; [lia|done].
Qed.

(** An update replaces the values document and keeps the rest of the object; it
    renders for the register name the ConfigMap already holds. *)
Lemma wp_UpdateConfigMap t cm tok roles tka w :
  wp (UpdateConfigMap t cm tok roles tka) (λ o w',
    (now w <= now w')%Z ∧
    match o with
    | Ret _ => ∃ name, registerNameFromConfigMap cm = Ret name ∧
        view w' = put_obj KConfigMap
                    (set_values (RenderConfigMapValues t name tok roles tka) cm) (view w)
    | Err _ => True
    | Panic => False
    end) w.
Proof.
  unfold UpdateConfigMap. apply wp_bind, wp_lift.
  pose proof (registerName_total cm) as Hnp.
  destruct (registerNameFromConfigMap cm) as [name|e|] eqn:E; [|split; [lia|done]|done].
  apply wp_bind. eapply wp_write; [apply Update_spec| |].
  - intros w' _ Ht _ Hv. apply wp_ret. eauto.
  - intros e w' _ Ht _. by apply wp_throw.
Qed.

Lemma has_values_set cm values s :
  has_values (put_obj KConfigMap (set_values values cm) s) (cm_meta cm) values.
Proof.
  exists (set_values values cm). split; [apply (lookup_put_obj KConfigMap (set_values values cm))|].
  unfold set_values. simpl. apply lookup_insert_eq.
Qed.

Lemma wp_EnsureTbotConfigMap c n reg w :
  wp (EnsureTbotConfigMap c n reg) (λ o w',
    match o with
    | Ret _ => is_Some (s_configmaps (view w') !! tbot_configmap_key c TeleportBotNamespace)
    | Err _ => True
    | Panic => False
    end) w.
Proof.
  unfold EnsureTbotConfigMap, GetTbotConfigMap. apply wp_bind, wp_mask_errors.
  eapply wp_mono; [apply (wp_get_or_nil KConfigMap)|]. intros o w1 [-> Ho].
  destruct o as [[cm|]|e|]; simpl; [| |done|done].
  - apply wp_ret. by exists cm.
  - apply wp_bind, wp_mask_errors. unfold CreateTbotConfigMap. apply wp_bind.
    eapply wp_write; [apply Create_spec| |].
    + intros w' _ _ _ Hv. apply wp_ret. simpl. apply wp_ret. rewrite Hv. eexists.
      apply (lookup_put_obj KConfigMap (values_configmap _ _)).
    + intros e w' _ _ _. by apply wp_throw.
Qed.

(** ** Theorems *)

(** C24. The values document round-trips: from a ConfigMap whose document was rendered from
    plain text, the operator reads back the token, the register name, and the Teleport version
    the nested block overrides; and the layout check accepts it for exactly the chart versions
    that use the same layout as the one it was rendered for. *)
Theorem rendered_values_roundtrip `{!YamlLaws} t cm name tok roles tka tka' :
  map_read (cm_Data cm) "values" = Some (RenderConfigMapValues t name tok roles tka) →
  plain_inputs tok (cfg_ProxyAddr (t_Config t)) name (cfg_TeleportVersion (t_Config t)) roles →
  name ≠ "" →
  GetTokenFromConfigMap cm = Ret tok ∧
  registerNameFromConfigMap cm = Ret name ∧
  GetTeleportVersionFromConfigMap cm =
    Ret (ResolveNestedTeleportVersionOverride (cfg_TeleportVersion (t_Config t))) ∧
  IsConfigMapLayoutUpToDate cm tka' =
    Ret (Bool.eqb (UsesNestedKubeAgentValues tka) (UsesNestedKubeAgentValues tka')).
Proof.
  intros Hcm Hin Hne.
  unfold GetTokenFromConfigMap, registerNameFromConfigMap, GetTeleportVersionFromConfigMap,
    IsConfigMapLayoutUpToDate.
  rewrite (parse_rendered t cm name tok roles tka Hcm Hin).
  rewrite (values_root_rendered t cm name tok roles tka Hcm Hin). simpl.
  rewrite entries_token, entries_name, entries_version. simpl.
  rewrite decide_False by done. split_and!; [done..|].
  rewrite denote_values_nested, denote_values_flat. simpl.
  by destruct (UsesNestedKubeAgentValues tka), (UsesNestedKubeAgentValues tka').
Qed.

(** C25. Updating the ConfigMap: when it returns, the stored object is the one that was read with
    only the document under [values] replaced, rendered for the new token and for the register
    name the ConfigMap already had; so the register name of a ConfigMap never changes. *)
Theorem UpdateConfigMap_keeps_name `{!YamlLaws} t cm tok roles tka name w :
  registerNameFromConfigMap cm = Ret name →
  plain_inputs tok (cfg_ProxyAddr (t_Config t)) name (cfg_TeleportVersion (t_Config t)) roles →
  wp (UpdateConfigMap t cm tok roles tka) (λ o w', match o with
    | Ret _ => ∃ cm', s_configmaps (view w') !! cm_meta cm = Some cm' ∧
        GetTokenFromConfigMap cm' = Ret tok ∧ registerNameFromConfigMap cm' = Ret name ∧
        cm_BinaryData cm' = cm_BinaryData cm ∧
        ∀ k, k ≠ "values" → map_read (cm_Data cm') k = map_read (cm_Data cm) k
    | _ => True
    end) w.
Proof.
  intros Hname Hin. eapply wp_mono; [apply wp_UpdateConfigMap|].
  intros [[]|?|] w' [_ Ho]; [|done..]. destruct Ho as (name' & Hname' & ->).
  assert (name' = name) as -> by congruence.
  set (cm' := set_values _ cm). exists cm'.
  assert (map_read (cm_Data cm') "values" = Some (RenderConfigMapValues t name tok roles tka))
    as Hdoc by apply lookup_insert_eq.
  assert (name ≠ "") as Hne.
  { intros ->. revert Hname. unfold registerNameFromConfigMap.
    destruct (parseConfigMapValues cm); [|done..]. simpl.
    destruct (as_string _); [|done]. by case_decide; [|intros [= ?]]. }
  split_and!.
  - apply (lookup_put_obj KConfigMap cm').
  - unfold GetTokenFromConfigMap. rewrite (parse_rendered t cm' name tok roles tka Hdoc Hin).
    simpl. by rewrite entries_token.
  - unfold registerNameFromConfigMap. rewrite (parse_rendered t cm' name tok roles tka Hdoc Hin).
    simpl. rewrite entries_name. simpl. by rewrite decide_False.
  - done.
  - intros k Hk. unfold cm', set_values, map_read. simpl. rewrite lookup_insert_ne by done.
    by destruct (cm_Data cm).
Qed.

(** C26. A wrong register name is never repaired: when the register name in the ConfigMap is not
    the one the controller renders for, an update that returns leaves a document that still
    differs from every document the controller could want, for any token and layout; so the
    drift check fails again at the next run. *)
Theorem UpdateConfigMap_never_converges `{!YamlLaws} t cm tok roles tka name reg w :
  registerNameFromConfigMap cm = Ret name → name ≠ reg →
  plain_inputs tok (cfg_ProxyAddr (t_Config t)) name (cfg_TeleportVersion (t_Config t)) roles →
  plain reg = true →
  wp (UpdateConfigMap t cm tok roles tka) (λ o w', match o with
    | Ret _ => ∃ cm', s_configmaps (view w') !! cm_meta cm = Some cm' ∧
        ∀ tok' tka', plain tok' = true →
          map_read (cm_Data cm') "values" ≠ Some (RenderConfigMapValues t reg tok' roles tka')
    | _ => True
    end) w.
Proof.
  intros Hname Hne Hin Hreg. eapply wp_mono; [apply wp_UpdateConfigMap|].
  intros [[]|?|] w' [_ Ho]; [|done..]. destruct Ho as (name' & Hname' & ->).
  assert (name' = name) as -> by congruence. set (cm' := set_values _ cm). exists cm'.
  split; [apply (lookup_put_obj KConfigMap cm')|]. intros tok' tka' Htok' Hdoc'.
  assert (map_read (cm_Data cm') "values" = Some (RenderConfigMapValues t name tok roles tka))
    as Hdoc by apply lookup_insert_eq.
  assert (plain_inputs tok' (cfg_ProxyAddr (t_Config t)) reg (cfg_TeleportVersion (t_Config t)) roles)
    as Hin' by (destruct Hin as (_ & ? & _ & ? & ?); by split_and!).
  pose proof (parse_rendered t cm' name tok roles tka Hdoc Hin) as E.
  rewrite (parse_rendered t cm' reg tok' roles tka' Hdoc' Hin') in E.
  injection E as E. apply (f_equal (λ m, index m "kubeClusterName")) in E.
  rewrite !entries_name in E. congruence.
Qed.
End laws.
End ConfigMap.

#[export] Hint Resolve keeps_GetConfigMap keeps_CreateConfigMap keeps_EnsureTbotConfigMap
  keeps_UpdateConfigMap keeps_DeleteConfigMap keeps_DeleteTbotConfigMap : keeps.
