(* ===== verification/AppManager.v ===== *)
(** * Config managers (internal/pkg/teleport/app_manager.go)

    Injecting a ConfigMap reference into a Flux HelmRelease ([spec.valuesFrom])
    or a Giant Swarm App ([spec.extraConfigs]), and reading the deployed chart
    version.  The three implementations of the interface
    [TeleportAppConfigManager] are the constructors of one type; the contract
    they share is [config_injected] / [config_removed] below. *)
From S2P Require Import Prelude GoStrings GoValue GoTime Libraries Key Objects World Config.
From S2P Require Import Teleport.

(** ** The deployed chart version *)

Definition helmReleaseInstalledChartVersion (hr : HelmRelease) : string :=
  match as_map (index (hr_Object hr) "status") with
  | None => ""
  | Some status =>
      match as_list (index status "history") with
      | None | Some [] => ""
      | Some (e :: _) =>
          match as_map e with
          | None => ""
          | Some entry => default "" (as_string (index entry "chartVersion"))
          end
      end
  end.

Definition helmReleaseSpecChartVersion (hr : HelmRelease) : string :=
  match as_map (index (hr_Object hr) "spec") with
  | None => ""
  | Some spec =>
      match as_map (index spec "chart") with
      | None => ""
      | Some chart =>
          match as_map (index chart "spec") with
          | None => ""
          | Some chartSpec => default "" (as_string (index chartSpec "version"))
          end
      end
  end.

(** ** References in a HelmRelease *)

(** The value of [desired]. *)
Definition values_ref (configMapName : string) : value :=
  VMap (<["kind" := VString "ConfigMap"]> (<["name" := VString configMapName]>
        {["valuesKey" := VString "values"]})).

Definition getValuesFrom (hr : HelmRelease) : slice value :=
  match as_map (index (hr_Object hr) "spec") with
  | None => None
  | Some spec => as_list (index spec "valuesFrom")
  end.

(** A spec that is not a map is replaced by a new one. *)
Definition setValuesFrom (hr : HelmRelease) (valuesFrom : slice value) : HelmRelease :=
  let spec := default ∅ (as_map (index (hr_Object hr) "spec")) in
  mkHelmRelease (hr_meta hr)
    (<["spec" := VMap (<["valuesFrom" := VList (elems valuesFrom)]> spec)]> (hr_Object hr)).

(** The two pairs of list functions are the same loops at two element types. *)
Section references.
Context {A : Type} `{EqDecision A}.

Definition append_reference (refs : slice A) (ref : A) : slice A :=
  if existsb (λ existing, DeepEqual existing ref) (elems refs) then refs
  else append refs ref.

Definition remove_reference (refs : slice A) (ref : A) : slice A :=
  Some (List.filter (λ existing, negb (DeepEqual existing ref)) (elems refs)).
End references.

Definition appendValuesReference (refs : slice value) (ref : value) : slice value :=
  append_reference refs ref.
Definition removeValuesReference (refs : slice value) (ref : value) : slice value :=
  remove_reference refs ref.
Definition appendExtraConfig (configs : slice AppExtraConfig) (config : AppExtraConfig)
    : slice AppExtraConfig := append_reference configs config.
Definition removeExtraConfig (configs : slice AppExtraConfig) (config : AppExtraConfig)
    : slice AppExtraConfig := remove_reference configs config.

Definition extra_config (configMapName namespace : string) : AppExtraConfig :=
  mkExtraConfig "configMap" configMapName namespace 25.

Definition with_extra_configs (app : App) (configs : slice AppExtraConfig) : App :=
  mkApp (app_meta app) (app_Spec_Version app) configs.

(** ** Managers *)

Inductive TeleportAppConfigManager :=
| helmReleaseManager (resourceName namespace configMapName : string)
| appCRManager (resourceName namespace configMapName : string)
| noOpManager (resourceName namespace : string).

Section AppManager.
Context `{World}.

Definition GetTeleportKubeAgentVersion (resourceName namespace : string) : M world string :=
  r ← Get KHelmRelease (mkKey namespace resourceName);
  match r with
  | inr hr =>
      let v := helmReleaseInstalledChartVersion hr in
      if decide (v ≠ "") then mret v
      else
        let v := helmReleaseSpecChartVersion hr in
        if decide (v ≠ "") then mret v else mret ""
  | inl e =>
      if negb (IsNotFound e) then throw (EMask (ELib e))
      else
        r ← Get KApp (mkKey namespace resourceName);
        match r with
        | inr app => mret (app_Spec_Version app)
        | inl e => if negb (IsNotFound e) then throw (EMask (ELib e)) else mret ""
        end
  end.

Definition NewTeleportAppConfigManager (resourceName namespace configMapName : string)
    : M world TeleportAppConfigManager :=
  r ← Get KHelmRelease (mkKey namespace resourceName);
  match r with
  | inr _ => mret (helmReleaseManager resourceName namespace configMapName)
  | inl e =>
      if negb (IsNotFound e) then throw (EMask (ELib e))
      else
        r ← Get KApp (mkKey namespace resourceName);
        match r with
        | inr _ => mret (appCRManager resourceName namespace configMapName)
        | inl e => if negb (IsNotFound e) then throw (EMask (ELib e))
                   else mret (noOpManager resourceName namespace)
        end
  end.

(** [if err := m.client.Update(ctx, o); err != nil { ...; return microerror.Mask(err) }]. *)
Definition update_or_fail (k : kind) (o : obj k) : M world unit :=
  r ← Update k o;
  match r with
  | Some e => throw (EMask (ELib e))
  | None => mret tt
  end.

Definition helmRelease_EnsureConfig (resourceName namespace configMapName : string)
    : M world unit :=
  r ← Get KHelmRelease (mkKey namespace resourceName);
  match r with
  | inl e => throw (EMask (ELib e))
  | inr hr =>
      let before := getValuesFrom hr in
      let updated := appendValuesReference before (values_ref configMapName) in
      if DeepEqual before updated then mret tt
      else update_or_fail KHelmRelease (setValuesFrom hr updated)
  end.

Definition helmRelease_DeleteConfig (resourceName namespace configMapName : string)
    : M world unit :=
  r ← Get KHelmRelease (mkKey namespace resourceName);
  match r with
  | inl e => if IsNotFound e then mret tt else throw (EMask (ELib e))
  | inr hr =>
      let before := getValuesFrom hr in
      let updated := removeValuesReference before (values_ref configMapName) in
      if DeepEqual before updated then mret tt
      else update_or_fail KHelmRelease (setValuesFrom hr updated)
  end.

Definition appCR_EnsureConfig (resourceName namespace configMapName : string)
    : M world unit :=
  r ← Get KApp (mkKey namespace resourceName);
  match r with
  | inl e => throw (EMask (ELib e))
  | inr app =>
      let before := app_Spec_ExtraConfigs app in
      let updated := appendExtraConfig before (extra_config configMapName namespace) in
      if DeepEqual before updated then mret tt
      else update_or_fail KApp (with_extra_configs app updated)
  end.

Definition appCR_DeleteConfig (resourceName namespace configMapName : string)
    : M world unit :=
  r ← Get KApp (mkKey namespace resourceName);
  match r with
  | inl e => if IsNotFound e then mret tt else throw (EMask (ELib e))
  | inr app =>
      match app_Spec_ExtraConfigs app with
      | None => mret tt
      | before =>
          let updated := removeExtraConfig before (extra_config configMapName namespace) in
          if DeepEqual before updated then mret tt
          else update_or_fail KApp (with_extra_configs app updated)
      end
  end.

(** The interface's two methods; the no-op implementation only logs. *)
Definition EnsureConfig (m : TeleportAppConfigManager) : M world unit :=
  match m with
  | helmReleaseManager rn ns cm => helmRelease_EnsureConfig rn ns cm
  | appCRManager rn ns cm => appCR_EnsureConfig rn ns cm
  | noOpManager _ _ => mret tt
  end.
Definition DeleteConfig (m : TeleportAppConfigManager) : M world unit :=
  match m with
  | helmReleaseManager rn ns cm => helmRelease_DeleteConfig rn ns cm
  | appCRManager rn ns cm => appCR_DeleteConfig rn ns cm
  | noOpManager _ _ => mret tt
  end.
End AppManager.

(** ** Specification *)

Definition hr_refs (hr : HelmRelease) : list value := elems (getValuesFrom hr).
Definition app_refs (app : App) : list AppExtraConfig := elems (app_Spec_ExtraConfigs app).

Section spec.
Context `{SystemRoles}.

(** The text at a path in an object; the empty text where there is none. *)
Definition text_at (hr : HelmRelease) (path : list path_step) : string :=
  default "" (value_at path (VMap (hr_Object hr)) ≫= as_string).

(** In Flux's API the newest release of a HelmRelease is the first of its history. *)
Definition installed_version_path : list path_step :=
  [Field "status"; Field "history"; Item 0; Field "chartVersion"].
Definition wanted_version_path : list path_step :=
  [Field "spec"; Field "chart"; Field "spec"; Field "version"].

(** The chart version a snapshot reports for a resource. *)
Definition deployed_version (s : Snapshot) (key : ObjectKey) : string :=
  match s_helmreleases s !! key with
  | Some hr =>
      if decide (text_at hr installed_version_path ≠ "") then text_at hr installed_version_path
      else text_at hr wanted_version_path
  | None =>
      match s_apps s !! key with
      | Some app => app_Spec_Version app
      | None => ""
      end
  end.

(** The resource that deploys a chart (the HelmRelease, else the App) refers to
    the ConfigMap. *)
Definition config_injected (s : Snapshot) (key : ObjectKey) (configMapName : string) : Prop :=
  match s_helmreleases s !! key with
  | Some hr => values_ref configMapName ∈ hr_refs hr
  | None =>
      match s_apps s !! key with
      | Some app => extra_config configMapName (Namespace key) ∈ app_refs app
      | None => True
      end
  end.

(** It does not. *)
Definition config_removed (s : Snapshot) (key : ObjectKey) (configMapName : string) : Prop :=
  match s_helmreleases s !! key with
  | Some hr => values_ref configMapName ∉ hr_refs hr
  | None =>
      match s_apps s !! key with
      | Some app => extra_config configMapName (Namespace key) ∉ app_refs app
      | None => True
      end
  end.
End spec.

(** ** Lemmas on references *)

Section reference_lemmas.
Context {A : Type} `{EqDecision A}.
Implicit Types (refs : slice A) (ref : A).

Lemma existsb_DeepEqual (l : list A) ref :
  existsb (λ x, DeepEqual x ref) l = true ↔ ref ∈ l.
Proof.
  rewrite existsb_exists. setoid_rewrite DeepEqual_true. rewrite list_elem_of_In.
  split; [by intros (? & ? & ->)|eauto].
Qed.

Lemma append_reference_spec refs ref :
  elems (append_reference refs ref) =
  if decide (ref ∈ elems refs) then elems refs else elems refs ++ [ref].
Proof.
  unfold append_reference. case_decide as Hin.
  - by rewrite (proj2 (existsb_DeepEqual _ _) Hin).
  - destruct (existsb _ _) eqn:E; [by apply existsb_DeepEqual in E|done].
Qed.

Lemma append_reference_in refs ref : ref ∈ elems (append_reference refs ref).
Proof.
  rewrite append_reference_spec. case_decide; [done|].
  apply elem_of_app. right. by left.
Qed.

(** Appending changes nothing exactly when the reference is there. *)
Lemma append_reference_same refs ref :
  DeepEqual refs (append_reference refs ref) = true ↔ ref ∈ elems refs.
Proof.
  rewrite DeepEqual_true. split.
  - intros E. rewrite E. apply append_reference_in.
  - intros Hin. unfold append_reference. by rewrite (proj2 (existsb_DeepEqual _ _) Hin).
Qed.

Lemma remove_reference_spec refs ref :
  elems (remove_reference refs ref) = filter (λ x, x ≠ ref) (elems refs).
Proof.
  unfold remove_reference. simpl. induction (elems refs) as [|x l IH]; [done|].
  simpl. rewrite IH. unfold DeepEqual. rewrite filter_cons.
  destruct (decide (x = ref)) as [->|Hne].
  - rewrite bool_decide_true by done. simpl. rewrite decide_False; [done|]. by intros [].
  - rewrite bool_decide_false by done. simpl. by rewrite decide_True.
Qed.

Lemma remove_reference_notin refs ref : ref ∉ elems (remove_reference refs ref).
Proof. rewrite remove_reference_spec. by intros [? _]%list_elem_of_filter. Qed.

Lemma filter_ne_id (l : list A) ref : ref ∉ l → filter (λ x, x ≠ ref) l = l.
Proof.
  induction l as [|x l IH]; [done|]. intros [Hne Hnot]%not_elem_of_cons.
  rewrite filter_cons, decide_True by done. by rewrite IH.
Qed.

(** Removing is the identity up to the nil slice exactly when the reference is
    not there; on the nil slice itself the comparison sees a difference. *)
Lemma remove_reference_same refs ref :
  DeepEqual refs (remove_reference refs ref) = true ↔ is_Some refs ∧ ref ∉ elems refs.
Proof.
  rewrite DeepEqual_true. split.
  - intros E. split; [rewrite E; by eexists|]. rewrite E. apply remove_reference_notin.
  - intros [[l ->] Hnot]. pose proof (remove_reference_spec (Some l) ref) as Hs.
    rewrite filter_ne_id in Hs by done. unfold remove_reference in *. simpl in *. by rewrite Hs.
Qed.
End reference_lemmas.

Lemma getValuesFrom_set hr refs : getValuesFrom (setValuesFrom hr refs) = Some (elems refs).
Proof.
  unfold getValuesFrom, setValuesFrom. simpl. rewrite index_insert. simpl.
  by rewrite index_insert.
Qed.

Section laws.
Context `{WorldLaws}.

Lemma keeps_GetTeleportKubeAgentVersion F rn ns :
  Keeps (step F) (GetTeleportKubeAgentVersion rn ns).
Proof. unfold GetTeleportKubeAgentVersion. solve_keeps. Qed.

Lemma keeps_NewTeleportAppConfigManager F rn ns cm :
  Keeps (step F) (NewTeleportAppConfigManager rn ns cm).
Proof. unfold NewTeleportAppConfigManager. solve_keeps. Qed.

(** The read of the version answers what the snapshot says. *)
Lemma as_map_index m k : as_map (index m k) = m !! k ≫= as_map.
Proof. unfold index. by destruct (m !! k). Qed.
Lemma as_list_index m k : as_list (index m k) = m !! k ≫= as_list.
Proof. unfold index. by destruct (m !! k). Qed.
Lemma as_string_index m k : as_string (index m k) = m !! k ≫= as_string.
Proof. unfold index. by destruct (m !! k). Qed.

Lemma installed_version_at hr :
  helmReleaseInstalledChartVersion hr = text_at hr installed_version_path.
Proof.
  unfold helmReleaseInstalledChartVersion, text_at. simpl. rewrite as_map_index.
  destruct (hr_Object hr !! "status") as [[]|]; simpl; try done. rewrite as_list_index.
  destruct (m !! "history") as [[| | | |[|e l]|]|]; simpl; try done.
  destruct e as [| | | | |entry]; simpl; try done. rewrite as_string_index. by destruct (entry !! _).
Qed.

Lemma wanted_version_at hr :
  helmReleaseSpecChartVersion hr = text_at hr wanted_version_path.
Proof.
  unfold helmReleaseSpecChartVersion, text_at. simpl. rewrite as_map_index.
  destruct (hr_Object hr !! "spec") as [[]|]; simpl; try done. rewrite as_map_index.
  destruct (m !! "chart") as [[| | | | |chart]|]; simpl; try done. rewrite as_map_index.
  destruct (chart !! "spec") as [[| | | | |cs]|]; simpl; try done.
  rewrite as_string_index. by destruct (cs !! _).
Qed.

Lemma wp_GetTeleportKubeAgentVersion rn ns w :
  wp (GetTeleportKubeAgentVersion rn ns) (λ o w', w' = w ∧
    match o with
    | Ret v => v = deployed_version (view w) (mkKey ns rn)
    | Err _ => True
    | Panic => False
    end) w.
Proof.
  unfold GetTeleportKubeAgentVersion, deployed_version. apply wp_bind; wp_get.
  - intros hr Hhr. simpl in Hhr. rewrite Hhr, installed_version_at, wanted_version_at. cbn zeta.
    repeat case_decide; apply wp_ret; auto.
  - intros e -> Hn. simpl in *. rewrite Hn. apply wp_bind; wp_get.
    + intros app Happ. simpl in Happ. rewrite Happ. by apply wp_ret.
    + intros e' -> Hn'. simpl in *. rewrite Hn'. by apply wp_ret.
    + intros e' ->. by apply wp_throw.
  - intros e ->. by apply wp_throw.
Qed.

(** Which manager is chosen: the HelmRelease's when there is one. *)
Definition chosen_manager (s : Snapshot) (rn ns cm : string) : TeleportAppConfigManager :=
  match s_helmreleases s !! mkKey ns rn with
  | Some _ => helmReleaseManager rn ns cm
  | None =>
      match s_apps s !! mkKey ns rn with
      | Some _ => appCRManager rn ns cm
      | None => noOpManager rn ns
      end
  end.

Lemma wp_NewTeleportAppConfigManager rn ns cm w :
  wp (NewTeleportAppConfigManager rn ns cm) (λ o w', w' = w ∧
    match o with
    | Ret m => m = chosen_manager (view w) rn ns cm
    | Err _ => True
    | Panic => False
    end) w.
Proof.
  unfold NewTeleportAppConfigManager, chosen_manager. apply wp_bind; wp_get.
  - intros hr Hhr. simpl in Hhr. rewrite Hhr. by apply wp_ret.
  - intros e -> Hn. simpl in *. rewrite Hn. apply wp_bind; wp_get.
    + intros app Happ. simpl in Happ. rewrite Happ. by apply wp_ret.
    + intros e' -> Hn'. simpl in *. rewrite Hn'. by apply wp_ret.
    + intros e' ->. by apply wp_throw.
  - intros e ->. by apply wp_throw.
Qed.

Lemma keeps_update_or_fail (F : slot → Prop) k o :
  F (slot_obj k (obj_key k o)) → Keeps (step F) (update_or_fail k o).
Proof. intros HF. unfold update_or_fail. solve_keeps. Qed.

Lemma wp_update_or_fail k o w :
  wp (update_or_fail k o) (λ r w', (now w <= now w')%Z ∧
    match r with
    | Ret _ => view w' = put_obj k o (view w)
    | Err _ => view w' = view w ∨ view w' = put_obj k o (view w)
    | Panic => False
    end) w.
Proof.
  unfold update_or_fail. apply wp_bind. eapply wp_write; [apply Update_spec| |].
  - intros w' _ Ht _ Hv. by apply wp_ret.
  - intros e w' _ Ht Hv. apply wp_throw. split; [done|]. naive_solver.
Qed.

(** The slot a manager may write. *)
Definition manager_slot (m : TeleportAppConfigManager) (x : slot) : Prop :=
  match m with
  | helmReleaseManager rn ns _ => x = slot_obj KHelmRelease (mkKey ns rn)
  | appCRManager rn ns _ => x = slot_obj KApp (mkKey ns rn)
  | noOpManager _ _ => False
  end.

Lemma keeps_EnsureConfig (F : slot → Prop) m :
  (∀ x, manager_slot m x → F x) → Keeps (step F) (EnsureConfig m).
Proof.
  intros HF. destruct m as [rn ns cm|rn ns cm|rn ns]; simpl; [..|apply keeps_ret, _].
  - apply (keeps_Get_bind F KHelmRelease); [solve_keeps|]. intros hr Hk. simpl.
    destruct (DeepEqual _ _); [apply keeps_ret, _|].
    apply keeps_update_or_fail, HF. simpl in *. by rewrite <-Hk.
  - apply (keeps_Get_bind F KApp); [solve_keeps|]. intros app Hk. simpl.
    destruct (DeepEqual _ _); [apply keeps_ret, _|].
    apply keeps_update_or_fail, HF. simpl in *. by rewrite <-Hk.
Qed.

Lemma keeps_DeleteConfig (F : slot → Prop) m :
  (∀ x, manager_slot m x → F x) → Keeps (step F) (DeleteConfig m).
Proof.
  intros HF. destruct m as [rn ns cm|rn ns cm|rn ns]; simpl; [..|apply keeps_ret, _].
  - apply (keeps_Get_bind F KHelmRelease); [solve_keeps|]. intros hr Hk. simpl.
    destruct (DeepEqual _ _); [apply keeps_ret, _|].
    apply keeps_update_or_fail, HF. simpl in *. by rewrite <-Hk.
  - apply (keeps_Get_bind F KApp); [solve_keeps|]. intros app Hk. simpl.
    destruct (app_Spec_ExtraConfigs app) as [before|]; [|apply keeps_ret, _].
    destruct (DeepEqual _ _); [apply keeps_ret, _|].
    apply keeps_update_or_fail, HF. simpl in *. by rewrite <-Hk.
Qed.

(** *** The HelmRelease implementation *)

Lemma wp_helmRelease_EnsureConfig rn ns cm w :
  wp (helmRelease_EnsureConfig rn ns cm) (λ o w',
    match o with
    | Ret _ => ∃ hr, s_helmreleases (view w) !! mkKey ns rn = Some hr ∧
        ((values_ref cm ∈ hr_refs hr ∧ w' = w) ∨
         (values_ref cm ∉ hr_refs hr) ∧
         view w' = put_obj KHelmRelease
           (setValuesFrom hr (Some (hr_refs hr ++ [values_ref cm]))) (view w))
    | Err _ => True
    | Panic => False
    end) w.
Proof.
  unfold helmRelease_EnsureConfig. apply wp_bind; wp_get; [|by intros; apply wp_throw..].
  intros hr Hhr. simpl in Hhr. unfold appendValuesReference.
  destruct (DeepEqual _ _) eqn:E.
  - apply append_reference_same in E. apply wp_ret. eauto.
  - assert (values_ref cm ∉ hr_refs hr) as Hnot.
    { intros Hin%append_reference_same. congruence. }
    eapply wp_mono; [apply wp_update_or_fail|]. intros [?|?|] w' [_ Hv]; [|done..].
    exists hr. split; [done|]. right. split; [done|]. rewrite Hv.
    do 2 f_equal. unfold append_reference.
    by destruct (existsb _ _) eqn:E'; [apply existsb_DeepEqual in E'|].
Qed.

Lemma wp_helmRelease_DeleteConfig rn ns cm w :
  wp (helmRelease_DeleteConfig rn ns cm) (λ o w',
    match o with
    | Ret _ =>
        s_helmreleases (view w) !! mkKey ns rn = None ∧ w' = w ∨
        ∃ hr, s_helmreleases (view w) !! mkKey ns rn = Some hr ∧
          (((values_ref cm ∉ hr_refs hr) ∧ w' = w) ∨
           view w' = put_obj KHelmRelease
             (setValuesFrom hr (Some (filter (λ x, x ≠ values_ref cm) (hr_refs hr)))) (view w))
    | Err _ => True
    | Panic => False
    end) w.
Proof.
  unfold helmRelease_DeleteConfig. apply wp_bind; wp_get.
  - intros hr Hhr. simpl in Hhr. unfold removeValuesReference.
    destruct (DeepEqual _ _) eqn:E.
    + apply remove_reference_same in E as [_ Hnot]. apply wp_ret. eauto 6.
    + eapply wp_mono; [apply wp_update_or_fail|]. intros [?|?|] w' [_ Hv]; [|done..].
      right. exists hr. split; [done|]. right. rewrite Hv.
      unfold hr_refs. by rewrite <-remove_reference_spec.
  - intros e -> Hn. apply wp_ret. auto.
  - intros e ->. by apply wp_throw.
Qed.

(** *** The App implementation *)

Lemma wp_appCR_EnsureConfig rn ns cm w :
  wp (appCR_EnsureConfig rn ns cm) (λ o w',
    match o with
    | Ret _ => ∃ app, s_apps (view w) !! mkKey ns rn = Some app ∧
        ((extra_config cm ns ∈ app_refs app ∧ w' = w) ∨
         (extra_config cm ns ∉ app_refs app) ∧
         view w' = put_obj KApp
           (with_extra_configs app (Some (app_refs app ++ [extra_config cm ns]))) (view w))
    | Err _ => True
    | Panic => False
    end) w.
Proof.
  unfold appCR_EnsureConfig. apply wp_bind; wp_get; [|by intros; apply wp_throw..].
  intros app Happ. simpl in Happ. unfold appendExtraConfig.
  destruct (DeepEqual _ _) eqn:E.
  - apply append_reference_same in E. apply wp_ret. eauto.
  - assert (extra_config cm ns ∉ app_refs app) as Hnot.
    { intros Hin%append_reference_same. congruence. }
    eapply wp_mono; [apply wp_update_or_fail|]. intros [?|?|] w' [_ Hv]; [|done..].
    exists app. split; [done|]. right. split; [done|]. rewrite Hv.
    do 2 f_equal. unfold append_reference.
    by destruct (existsb _ _) eqn:E'; [apply existsb_DeepEqual in E'|].
Qed.

Lemma wp_appCR_DeleteConfig rn ns cm w :
  wp (appCR_DeleteConfig rn ns cm) (λ o w',
    match o with
    | Ret _ =>
        s_apps (view w) !! mkKey ns rn = None ∧ w' = w ∨
        ∃ app, s_apps (view w) !! mkKey ns rn = Some app ∧
          (((extra_config cm ns ∉ app_refs app) ∧ w' = w) ∨
           extra_config cm ns ∈ app_refs app ∧
           view w' = put_obj KApp
             (with_extra_configs app (Some (filter (λ x, x ≠ extra_config cm ns) (app_refs app))))
             (view w))
    | Err _ => True
    | Panic => False
    end) w.
Proof.
  unfold appCR_DeleteConfig. apply wp_bind; wp_get.
  - intros app Happ. simpl in Happ. unfold removeExtraConfig.
    destruct (app_Spec_ExtraConfigs app) as [before|] eqn:Eb.
    2:{ apply wp_ret. right. exists app. split; [done|]. left.
        unfold app_refs. rewrite Eb. split; [apply not_elem_of_nil|done]. }
    destruct (DeepEqual _ _) eqn:E.
    + apply remove_reference_same in E as [_ Hnot]. apply wp_ret.
      right. exists app. unfold app_refs. rewrite Eb. eauto.
    + eapply wp_mono; [apply wp_update_or_fail|]. intros [?|?|] w' [_ Hv]; [|done..].
      right. exists app. split; [done|]. right. rewrite Hv.
      unfold app_refs. rewrite Eb, <-remove_reference_spec. split; [|done].
      destruct (decide (extra_config cm ns ∈ elems (Some before))) as [|Hnot]; [done|].
      by rewrite (proj2 (remove_reference_same (Some before) _) (conj (mk_is_Some _ _ eq_refl) Hnot)) in E.
  - intros e -> Hn. apply wp_ret. auto.
  - intros e ->. by apply wp_throw.
Qed.
(** *** Detection followed by the method, as the reconciler composes them *)

Lemma lookup_put_helmrelease hr key s :
  hr_meta hr = key → s_helmreleases (put_obj KHelmRelease hr s) !! key = Some hr.
Proof. intros <-. apply (lookup_put_obj KHelmRelease). Qed.

Lemma lookup_put_app app key s :
  app_meta app = key → s_apps (put_obj KApp app s) !! key = Some app.
Proof. intros <-. apply (lookup_put_obj KApp). Qed.

Lemma hr_meta_key w key hr : s_helmreleases (view w) !! key = Some hr → hr_meta hr = key.
Proof. apply (view_obj_key w KHelmRelease). Qed.

Lemma app_meta_key w key app : s_apps (view w) !! key = Some app → app_meta app = key.
Proof. apply (view_obj_key w KApp). Qed.

Lemma hr_refs_set hr l : hr_refs (setValuesFrom hr (Some l)) = l.
Proof. unfold hr_refs. by rewrite getValuesFrom_set. Qed.

Lemma elem_of_snoc {A} (l : list A) x : x ∈ l ++ [x].
Proof. apply elem_of_app. right. by left. Qed.

Lemma notin_filter_ne {A} `{EqDecision A} (l : list A) x : x ∉ filter (λ y, y ≠ x) l.
Proof. by intros [? _]%list_elem_of_filter. Qed.

(** Without an error the reference is in place. *)
Lemma wp_ensure_injects rn ns cm w :
  wp (NewTeleportAppConfigManager rn ns cm ≫= EnsureConfig) (λ o w',
    match o with
    | Ret _ => config_injected (view w') (mkKey ns rn) cm
    | Err _ => True
    | Panic => False
    end) w.
Proof.
  apply wp_bind. eapply wp_mono; [apply wp_NewTeleportAppConfigManager|].
  intros [m|?|] w1 [-> Hm]; [|done..]. subst m. unfold chosen_manager, config_injected.
  destruct (s_helmreleases (view w) !! mkKey ns rn) as [hr|] eqn:Ehr; simpl.
  { eapply wp_mono; [apply wp_helmRelease_EnsureConfig|]. intros [?|?|] w' Hv; [|done..].
    destruct Hv as (hr' & Ehr' & [[Hin ->]|[_ ->]]).
    - by rewrite Ehr'.
    - rewrite lookup_put_helmrelease by exact (hr_meta_key _ _ _ Ehr').
      rewrite hr_refs_set. apply elem_of_snoc. }
  destruct (s_apps (view w) !! mkKey ns rn) as [app|] eqn:Eapp; simpl.
  { eapply wp_mono; [apply wp_appCR_EnsureConfig|]. intros [?|?|] w' Hv; [|done..].
    destruct Hv as (app' & Eapp' & [[Hin ->]|[_ ->]]).
    - by rewrite Ehr, Eapp'.
    - change (s_helmreleases (put_obj KApp _ _)) with (s_helmreleases (view w)).
      rewrite Ehr, lookup_put_app by exact (app_meta_key _ _ _ Eapp'). apply elem_of_snoc. }
  apply wp_ret. by rewrite Ehr, Eapp.
Qed.

(** With the reference in place nothing is written, whatever the reads answer. *)
Lemma wp_ensure_noop rn ns cm w :
  config_injected (view w) (mkKey ns rn) cm →
  wp (NewTeleportAppConfigManager rn ns cm ≫= EnsureConfig) (λ _ w', w' = w) w.
Proof.
  intros Hinj. apply wp_bind. eapply wp_mono; [apply wp_NewTeleportAppConfigManager|].
  intros [m|?|] w1 [-> Hm]; [|done..]. subst m. unfold chosen_manager, config_injected in *.
  destruct (s_helmreleases (view w) !! mkKey ns rn) as [hr|] eqn:Ehr; simpl.
  { apply wp_bind; wp_get; [|by intros; apply wp_throw..]. simpl. intros hr' Ehr'.
    assert (hr' = hr) as -> by congruence. unfold appendValuesReference.
    rewrite (proj2 (append_reference_same _ _)) by done. by apply wp_ret. }
  destruct (s_apps (view w) !! mkKey ns rn) as [app|] eqn:Eapp; simpl; [|by apply wp_ret].
  apply wp_bind; wp_get; [|by intros; apply wp_throw..]. simpl. intros app' Eapp'.
  assert (app' = app) as -> by congruence. unfold appendExtraConfig.
  rewrite (proj2 (append_reference_same _ _)) by done. by apply wp_ret.
Qed.

(** Without an error the reference is gone. *)
Lemma wp_delete_removes rn ns cm w :
  wp (NewTeleportAppConfigManager rn ns cm ≫= DeleteConfig) (λ o w',
    match o with
    | Ret _ => config_removed (view w') (mkKey ns rn) cm
    | Err _ => True
    | Panic => False
    end) w.
Proof.
  apply wp_bind. eapply wp_mono; [apply wp_NewTeleportAppConfigManager|].
  intros [m|?|] w1 [-> Hm]; [|done..]. subst m. unfold chosen_manager, config_removed.
  destruct (s_helmreleases (view w) !! mkKey ns rn) as [hr|] eqn:Ehr; simpl.
  { eapply wp_mono; [apply wp_helmRelease_DeleteConfig|]. intros [?|?|] w' Hv; [|done..].
    destruct Hv as [[? _]|(hr' & Ehr' & [[Hin ->]| ->])]; [congruence| |].
    - by rewrite Ehr'.
    - rewrite lookup_put_helmrelease by exact (hr_meta_key _ _ _ Ehr').
      rewrite hr_refs_set. apply notin_filter_ne. }
  destruct (s_apps (view w) !! mkKey ns rn) as [app|] eqn:Eapp; simpl.
  { eapply wp_mono; [apply wp_appCR_DeleteConfig|]. intros [?|?|] w' Hv; [|done..].
    destruct Hv as [[? _]|(app' & Eapp' & [[Hin ->]|[_ ->]])]; [congruence| |].
    - by rewrite Ehr, Eapp'.
    - change (s_helmreleases (put_obj KApp _ _)) with (s_helmreleases (view w)).
      rewrite Ehr, lookup_put_app by exact (app_meta_key _ _ _ Eapp'). apply notin_filter_ne. }
  apply wp_ret. by rewrite Ehr, Eapp.
Qed.

(** Both methods write at most the HelmRelease or the App of the resource. *)
Definition resource_slot (rn ns : string) (x : slot) : Prop :=
  x = slot_obj KHelmRelease (mkKey ns rn) ∨ x = slot_obj KApp (mkKey ns rn).

Lemma keeps_manager_bind {A} (F : slot → Prop) rn ns cm (f : TeleportAppConfigManager → M world A) :
  (∀ m, (∀ x, manager_slot m x → resource_slot rn ns x) → Keeps (step F) (f m)) →
  Keeps (step F) (NewTeleportAppConfigManager rn ns cm ≫= f).
Proof.
  intros Hf w. pose proof (wp_NewTeleportAppConfigManager rn ns cm w) as Hm.
  apply wp_unfold in Hm. unfold mbind, M_bind.
  destruct (NewTeleportAppConfigManager rn ns cm w) as [[m|e|] w1]; simpl in Hm;
    destruct Hm as [-> Hm]; [|reflexivity..].
  apply Hf. subst m. unfold chosen_manager, resource_slot.
  destruct (s_helmreleases _ !! _); [simpl; auto|].
  by destruct (s_apps _ !! _); simpl; auto.
Qed.

(** ** Theorems *)

(** C29. The chart version that decides the layout: a version that is reported is the one the
    snapshot holds: of a HelmRelease the text at [status.history[0].chartVersion], the version
    installed last, and when that is missing, empty or no text the one at
    [spec.chart.spec.version]; without a HelmRelease that of the App; else none.  Reading it
    changes nothing. *)
Theorem GetTeleportKubeAgentVersion_spec rn ns w :
  wp (GetTeleportKubeAgentVersion rn ns) (λ o w', w' = w ∧
    match o with
    | Ret v => v = deployed_version (view w) (mkKey ns rn)
    | Err _ => True
    | Panic => False
    end) w.
Proof. apply wp_GetTeleportKubeAgentVersion. Qed.

(** C37. Deleting from a HelmRelease without [spec.valuesFrom] is not a no-op: [DeepEqual] tells
    the missing list from the empty one, so a deletion that returns has written the object with
    an empty list added. *)
Theorem helmRelease_DeleteConfig_writes_empty rn ns cm hr w :
  s_helmreleases (view w) !! mkKey ns rn = Some hr → getValuesFrom hr = None →
  wp (helmRelease_DeleteConfig rn ns cm) (λ o w', match o with
    | Ret _ => s_helmreleases (view w') !! mkKey ns rn = Some (setValuesFrom hr (Some [])) ∧
               setValuesFrom hr (Some []) ≠ hr
    | _ => True
    end) w.
Proof.
  intros Hhr Hnone. unfold helmRelease_DeleteConfig. apply wp_bind; wp_get.
  2:{ intros e _ Hn. simpl in Hn. congruence. }
  2:{ intros e ->. by apply wp_throw. }
  intros hr' Hhr'. simpl in Hhr'. assert (hr' = hr) as -> by congruence. rewrite Hnone.
  unfold removeValuesReference. cbn zeta.
  destruct (DeepEqual _ _) eqn:E; [by apply remove_reference_same in E as [[l [=]] _]|].
  eapply wp_mono; [apply wp_update_or_fail|]. intros [?|?|] w' [_ Ho]; [|done..]. rewrite Ho.
  split.
  - apply lookup_put_helmrelease. exact (hr_meta_key _ _ _ Hhr).
  - intros E'%(f_equal getValuesFrom). rewrite getValuesFrom_set, Hnone in E'. done.
Qed.

(** Without a HelmRelease or an App of the agent's name there is nothing to configure:
    injecting and removing the reference both leave the world as it is. *)
Theorem no_resource_no_effect rn ns cm w :
  s_helmreleases (view w) !! mkKey ns rn = None → s_apps (view w) !! mkKey ns rn = None →
  wp (NewTeleportAppConfigManager rn ns cm ≫= EnsureConfig) (λ o w', w' = w ∧ o ≠ Panic) w ∧
  wp (NewTeleportAppConfigManager rn ns cm ≫= DeleteConfig) (λ o w', w' = w ∧ o ≠ Panic) w.
Proof.
  intros Hhr Happ. split; apply wp_bind;
    (eapply wp_mono; [apply wp_NewTeleportAppConfigManager|]);
    intros [m|?|] w1 [-> Hm]; try done; subst m; unfold chosen_manager; rewrite Hhr, Happ;
    by apply wp_ret.
Qed.
End laws.

(** C38. Removing a reference undoes adding it: for a list that did not have it, the elements are
    as before, in order; and adding twice is adding once. *)
Theorem reference_add_remove {A} `{EqDecision A} (refs : slice A) ref :
  ref ∉ elems refs →
  elems (remove_reference (append_reference refs ref) ref) = elems refs ∧
  append_reference (append_reference refs ref) ref = append_reference refs ref.
Proof.
  intros Hnot. rewrite remove_reference_spec, append_reference_spec, decide_False by done. split.
  - rewrite filter_app, filter_ne_id by done. rewrite filter_cons, decide_False by (by intros []).
    apply app_nil_r.
  - unfold append_reference at 1.
    by rewrite (proj2 (existsb_DeepEqual _ _) (append_reference_in refs ref)).
Qed.

#[export] Hint Resolve keeps_GetTeleportKubeAgentVersion keeps_NewTeleportAppConfigManager
  keeps_EnsureConfig keeps_DeleteConfig : keeps.
