(* ===== verification/Healthy.v ===== *)
(** * Worlds in which calls do not fail

    The other half of [WorldLaws]: when the API servers are up, a read finds what
    is stored, a write whose precondition holds succeeds, and the servers stay up.
    [returns] is total correctness under this assumption; it composes with the
    partial specifications of the components, which say in what state a call
    leaves the world. *)
From S2P Require Import Prelude GoStrings GoValue GoTime Libraries Key Objects World Config.
From S2P Require Import Teleport Token Secret Finalizer ConfigMap AppManager.

(** The call succeeds and the servers stay up. *)
Definition served `{World} (good : world → Prop) (call : world → option lib_error * world)
    (w : world) : Prop :=
  (call w).1 = None ∧ good (call w).2.

(** A world is good when the servers answer, and Teleport's token names are
    plain text. *)
Class HealthyWorld `{WorldLaws} := {
  good : world → Prop;
  good_token_plain w n : good w → is_Some (s_tokens (view w) !! n) → plain n = true;
  good_Get k key w e : good w → k8s_Get k key w = inl e → e = NotFound;
  good_Create k o w :
    good w → objs k (view w) !! obj_key k o = None → served good (k8s_Create k o) w;
  good_Update k o w :
    good w → is_Some (objs k (view w) !! obj_key k o) → served good (k8s_Update k o) w;
  good_Delete k key w :
    good w → good (k8s_Delete k key w).2 ∧
             ((k8s_Delete k key w).1 = None ∨ (k8s_Delete k key w).1 = Some NotFound);
  good_NewHelper c w : good w → patch_NewHelper c w = None;
  good_Patch before after w :
    good w → is_Some (s_clusters (view w) !! cl_meta before) →
    served good (patch_Patch before after) w;
  good_NewString w :
    good w → good (uuid_NewString w).2 ∧
             (uuid_NewString w).1 ≠ "" ∧ plain (uuid_NewString w).1 = true;
  good_New proxyAddr identityFile w :
    good w → good (tc_New proxyAddr identityFile w).2 ∧
             ∃ c, (tc_New proxyAddr identityFile w).1 = inr c;
  good_Ping c w : good w → tc_Ping c w = None;
  good_GetTokens c w : good w → ∃ l, tc_GetTokens c w = inr l;
  good_UpsertToken c t w :
    good w → plain (GetName t) = true → served good (tc_UpsertToken c t) w;
  good_DeleteToken c n w :
    good w → is_Some (s_tokens (view w) !! n) → served good (tc_DeleteToken c n) w;
}.

Section Healthy.
Context `{HealthyWorld}.

(** ** Total correctness *)

Definition returns {A} (m : M world A) (w : world) : Prop :=
  wp m (λ o w', (∃ a, o = Ret a) ∧ good w') w.

Lemma returns_ret {A} (a : A) w : good w → returns (mret a) w.
Proof. intros Hg. apply wp_ret. eauto. Qed.

Lemma returns_lift {A} (o : outcome A) a w : good w → o = Ret a → returns (lift o) w.
Proof. intros Hg ->. apply wp_lift. eauto. Qed.

(** What a partial specification says of a run that returns. *)
Lemma returns_and {A} (m : M world A) (Q : outcome A → world → Prop) w :
  returns m w → wp m Q w → wp m (λ o w', ∃ a, o = Ret a ∧ good w' ∧ Q (Ret a) w') w.
Proof.
  unfold returns. intros Hr HQ. eapply wp_mono; [apply wp_and; [exact Hr|exact HQ]|].
  intros o w' [[[a ->] Hg] Ha]. eauto.
Qed.

(** Sequencing: the first computation's specification is what the rest starts from. *)
Lemma returns_bind {A B} (m : M world A) (f : A → M world B) (Q : outcome A → world → Prop) w :
  returns m w → wp m Q w → (∀ a w', good w' → Q (Ret a) w' → returns (f a) w') →
  returns (m ≫= f) w.
Proof.
  intros Hr HQ Hf. apply wp_bind. eapply wp_mono; [by apply returns_and|].
  intros o w' (a & -> & Hg & Ha). by apply Hf.
Qed.

Lemma returns_mask {A} (m : M world A) w : returns m w → returns (mask_errors m) w.
Proof.
  unfold returns. intros Hr. apply wp_mask_errors. eapply wp_mono; [exact Hr|].
  intros o w' [[a ->] Hg]. simpl. eauto.
Qed.

Lemma wp_masked_spec {A} (m : M world A) (Q : outcome A → world → Prop) w :
  wp m Q w → wp (mask_errors m) (λ o w', match o with Ret _ => Q o w' | _ => True end) w.
Proof. intros Hm. apply wp_mask_errors. eapply wp_mono; [exact Hm|]. by intros [?|?|] w'. Qed.

(** The same for a masked call, as the controller makes them. *)
Lemma returns_mask_bind {A B} (m : M world A) (f : A → M world B) (Q : outcome A → world → Prop) w :
  returns m w → wp m Q w → (∀ a w', good w' → Q (Ret a) w' → returns (f a) w') →
  returns (mask_errors m ≫= f) w.
Proof.
  intros Hr HQ Hf. eapply returns_bind; [by apply returns_mask|by apply wp_masked_spec|done].
Qed.

(** ** The calls *)

Lemma good_wp_Get k key (Q : outcome (lib_error + obj k) → world → Prop) w :
  good w →
  (∀ o, objs k (view w) !! key = Some o → Q (Ret (inr o)) w) →
  (objs k (view w) !! key = None → Q (Ret (inl NotFound)) w) →
  wp (Get k key) Q w.
Proof.
  intros Hg HS HN. apply wp_gets. pose proof (Get_spec k key w) as Hs.
  destruct (k8s_Get k key w) as [e|o] eqn:E; [|by apply HS].
  pose proof (good_Get k key w e Hg E) as ->. by apply HN, Hs.
Qed.

Lemma good_wp_write pre change call (Q : outcome (option lib_error) → world → Prop) w :
  write_spec view pre change call w → served good call w →
  (∀ w', good w' → (now w <= now w')%Z → view w' = change (view w) → Q (Ret None) w') →
  wp (run call) Q w.
Proof.
  intros [Ht Hw] [Hn Hg] HQ. apply wp_run. rewrite Hn in *. apply HQ; [done..|apply Hw].
Qed.

End Healthy.

(** [apply good_wp_Get] with the kind read off the goal. *)
Ltac good_get :=
  lazymatch goal with |- wp (Get ?k ?key) ?Q ?w => apply (good_wp_Get k key Q w) end.

Section components.
Context `{HealthyWorld}.

Lemma returns_update k o w :
  good w → is_Some (objs k (view w) !! obj_key k o) → returns (update_or_fail k o) w.
Proof.
  intros Hg Hs. unfold update_or_fail. apply wp_bind.
  eapply good_wp_write; [apply Update_spec|by apply good_Update|].
  intros w' Hg' _ _. by apply returns_ret.
Qed.

Lemma returns_get_or_nil k key f w : good w → returns (get_or_nil k key f) w.
Proof.
  intros Hg. unfold get_or_nil. apply wp_bind; good_get; [done| |];
    intros; by apply returns_ret.
Qed.

Lemma returns_delete k key f w : good w → returns (delete_if_present k key f) w.
Proof.
  intros Hg. unfold delete_if_present. apply wp_bind, wp_run.
  destruct (good_Delete k key w Hg) as [Hg' Ho].
  destruct Ho as [-> | ->]; by apply returns_ret.
Qed.

(** ** The components *)

Lemma returns_manager rn ns cm w : good w → returns (NewTeleportAppConfigManager rn ns cm) w.
Proof.
  intros Hg. unfold NewTeleportAppConfigManager. apply wp_bind; good_get; [done| |].
  { intros. by apply returns_ret. }
  intros _. simpl. apply wp_bind; good_get; [done| |]; intros; by apply returns_ret.
Qed.

Lemma returns_EnsureConfig rn ns cm w :
  good w → returns (EnsureConfig (chosen_manager (view w) rn ns cm)) w.
Proof.
  intros Hg. unfold chosen_manager.
  destruct (s_helmreleases (view w) !! mkKey ns rn) as [hr|] eqn:Ehr; simpl.
  { apply wp_bind; good_get; [done| |]; simpl; [|congruence].
    intros hr' Ehr'. assert (hr' = hr) as -> by congruence.
    destruct (DeepEqual _ _); [by apply returns_ret|]. apply returns_update; [done|].
    simpl. rewrite (hr_meta_key _ _ _ Ehr). by exists hr. }
  destruct (s_apps (view w) !! mkKey ns rn) as [app|] eqn:Eapp; simpl; [|by apply returns_ret].
  apply wp_bind; good_get; [done| |]; simpl; [|congruence].
  intros app' Eapp'. assert (app' = app) as -> by congruence.
  destruct (DeepEqual _ _); [by apply returns_ret|]. apply returns_update; [done|].
  simpl. rewrite (app_meta_key _ _ _ Eapp). by exists app.
Qed.

Lemma returns_DeleteConfig rn ns cm w :
  good w → returns (DeleteConfig (chosen_manager (view w) rn ns cm)) w.
Proof.
  intros Hg. unfold chosen_manager.
  destruct (s_helmreleases (view w) !! mkKey ns rn) as [hr|] eqn:Ehr; simpl.
  { apply wp_bind; good_get; [done| |]; simpl; [|congruence].
    intros hr' Ehr'. assert (hr' = hr) as -> by congruence.
    destruct (DeepEqual _ _); [by apply returns_ret|]. apply returns_update; [done|].
    simpl. rewrite (hr_meta_key _ _ _ Ehr). by exists hr. }
  destruct (s_apps (view w) !! mkKey ns rn) as [app|] eqn:Eapp; simpl; [|by apply returns_ret].
  apply wp_bind; good_get; [done| |]; simpl; [|congruence].
  intros app' Eapp'. assert (app' = app) as -> by congruence.
  destruct (app_Spec_ExtraConfigs app); [|by apply returns_ret].
  destruct (DeepEqual _ _); [by apply returns_ret|]. apply returns_update; [done|].
  simpl. rewrite (app_meta_key _ _ _ Eapp). by exists app.
Qed.

Lemma returns_GetVersion rn ns w : good w → returns (GetTeleportKubeAgentVersion rn ns) w.
Proof.
  intros Hg. unfold GetTeleportKubeAgentVersion. apply wp_bind; good_get; [done| |].
  { intros hr _. repeat case_decide; by apply returns_ret. }
  intros _. simpl. apply wp_bind; good_get; [done| |]; intros; by apply returns_ret.
Qed.

Lemma returns_Patch before after w (f : option lib_error → M world unit) :
  good w → is_Some (s_clusters (view w) !! cl_meta before) →
  (∀ w', good w' → view w' = patch_cluster before after (view w) → returns (f None) w') →
  returns (Patch before after ≫= f) w.
Proof.
  intros Hg Hs Hf. apply wp_bind.
  eapply good_wp_write; [apply Patch_spec|by apply good_Patch|].
  intros w' Hg' _ Hv. by apply Hf.
Qed.
End components.
