(* ===== verification/Controller.v ===== *)
(** * The cluster controller (internal/controller/cluster_controller.go)

    [Reconcile], in the stages its body has: refresh the identity, deregister a
    cluster that is being deleted, or register it (finalizer, Secret, ConfigMap,
    reference from the agent's resource, tbot).

    The operations that the code hands [r.Client] take no client here: the first call
    of a run, [r.Client.Get], is made on it and panics when it is nil, and a run does
    not change it.  [Teleport.Client], which [AreTeleportAppsEnabled] uses, is a field of
    its own that [main] sets.  The logger is left out. *)
From S2P Require Import Prelude GoStrings GoValue GoTime Libraries Key Objects World Config.
From S2P Require Import Teleport Token Secret Finalizer ConfigMap AppManager.

Definition identityExpirationPeriod : Z := 20 * Minute.

(** [ctrl.Result]: zero means no requeue. *)
Record Result := mkResult { RequeueAfter : Z }.

Section Controller.
Context `{Unicode, Semver, Yaml, World, !ProvisionTokens, ControllerUtil}.

(** ** The reconciler's own state *)

Record ClusterReconciler := mkReconciler {
  r_Client : option kube_client;
  r_Scheme : runtime_scheme;
  r_Teleport : Teleport;
  r_IsBotEnabled : bool;
  r_Namespace : string;
  r_lastAssignedRoles : list string;
}.

(** A run threads the reconciler, which it mutates, and the world. *)
Definition run_state : Type := ClusterReconciler * world.

Definition on_world {A} (m : M world A) : M run_state A :=
  λ '(r, w), let '(o, w') := m w in (o, (r, w')).
Definition get_reconciler : M run_state ClusterReconciler := gets fst.
Definition modify_reconciler (f : ClusterReconciler → ClusterReconciler) : M run_state unit :=
  run (λ '(r, w), (tt, (f r, w))).

Definition set_roles (roles : list string) (r : ClusterReconciler) : ClusterReconciler :=
  mkReconciler (r_Client r) (r_Scheme r) (r_Teleport r) (r_IsBotEnabled r) (r_Namespace r) roles.
Definition set_teleport (f : Teleport → Teleport) (r : ClusterReconciler) : ClusterReconciler :=
  mkReconciler (r_Client r) (r_Scheme r) (f (r_Teleport r)) (r_IsBotEnabled r) (r_Namespace r)
    (r_lastAssignedRoles r).
Definition set_client (c : option tele_client) (t : Teleport) : Teleport :=
  mkTeleport (t_Config t) (t_Identity t) c (t_Namespace t) (t_TokenGenerator t)
    (t_Client t).
Definition set_identity (i : option IdentityConfig) (t : Teleport) : Teleport :=
  mkTeleport (t_Config t) i (t_TeleportClient t) (t_Namespace t) (t_TokenGenerator t)
    (t_Client t).
Definition set_Client (c : option kube_client) (t : Teleport) : Teleport :=
  mkTeleport (t_Config t) (t_Identity t) (t_TeleportClient t) (t_Namespace t)
    (t_TokenGenerator t) c.

(** [x, err := m()] where the code goes on to use both. *)
Definition attempt {S A} (m : M S A) : M S (error + A) :=
  λ s, match m s with
       | (Ret a, s') => (Ret (inr a), s')
       | (Err e, s') => (Ret (inl e), s')
       | (Panic, s') => (Panic, s')
       end.

(** ** Identity *)

(** [r.Teleport.Identity == nil || time.Since(LastRead) > identityExpirationPeriod]. *)
Definition identity_expired (t_now : Z) (i : option IdentityConfig) : bool :=
  match i with
  | None => true
  | Some i => bool_decide (identityExpirationPeriod < Sub t_now (id_LastRead i))%Z
  end.

(** The assignment [r.Teleport.TeleportClient, err = NewClient(...)] stores the
    nil client when the connection fails. *)
Definition refreshIdentity : M run_state unit :=
  r ← get_reconciler;
  t_now ← on_world Now;
  if identity_expired t_now (t_Identity (r_Teleport r)) then
    newIdentityConfig ← on_world (mask_errors (GetIdentityConfigFromSecret (r_Namespace r)));
    c ← on_world (attempt (NewClient (cfg_ProxyAddr (t_Config (r_Teleport r)))
                             (id_IdentityFile newIdentityConfig)));
    match c with
    | inl e =>
        modify_reconciler (set_teleport (set_client None));;
        throw (EMask e)
    | inr client =>
        modify_reconciler (set_teleport (set_client (Some client)));;
        modify_reconciler (set_teleport (set_identity (Some newIdentityConfig)))
    end
  else mret tt.

(** ** Names *)

Definition cluster_name (cluster : Cluster) : string := Name (cl_meta cluster).
Definition cluster_namespace (cluster : Cluster) : string := Namespace (cl_meta cluster).

Definition registerName_of (t : Teleport) (cluster : Cluster) : string :=
  if decide (cluster_name cluster ≠ cfg_ManagementClusterName (t_Config t))
  then GetRegisterName (cfg_ManagementClusterName (t_Config t)) (cluster_name cluster)
  else cluster_name cluster.

Definition agent_name (t : Teleport) (cluster : Cluster) : string :=
  GetAppName (cluster_name cluster) (cfg_AppName (t_Config t)).
Definition agent_configmap (t : Teleport) (cluster : Cluster) : string :=
  GetConfigmapName (cluster_name cluster) (cfg_AppName (t_Config t)).

(** ** Config references *)

Definition ensure_reference (resourceName namespace configMapName : string) : M world unit :=
  mgr ← mask_errors (NewTeleportAppConfigManager resourceName namespace configMapName);
  mask_errors (EnsureConfig mgr).
Definition delete_reference (resourceName namespace configMapName : string) : M world unit :=
  mgr ← mask_errors (NewTeleportAppConfigManager resourceName namespace configMapName);
  mask_errors (DeleteConfig mgr).

(** ** Deregistering *)

Definition delete_tbot (cluster : Cluster) : M world unit :=
  delete_reference TeleportBotAppName TeleportBotNamespace
    (GetTbotConfigmapName (cluster_name cluster));;
  mask_errors (DeleteTbotConfigMap (cluster_name cluster) TeleportBotNamespace);;
  mask_errors (DeleteKubeconfigSecret (cluster_name cluster) TeleportBotNamespace).

Definition reconcileDelete (t : Teleport) (isBotEnabled : bool) (cluster : Cluster)
    (registerName : string) : M world Result :=
  mask_errors (DeleteToken t registerName);;
  mask_errors (DeleteSecret (cluster_name cluster) (cluster_namespace cluster));;
  mask_errors (DeleteConfigMap t (cluster_name cluster) (cluster_namespace cluster));;
  (if isBotEnabled : bool then delete_tbot cluster else mret tt);;
  delete_reference (agent_name t cluster) (cluster_namespace cluster) (agent_configmap t cluster);;
  (if ContainsFinalizer cluster TeleportOperatorFinalizer
   then mask_errors (RemoveFinalizer cluster) else mret tt);;
  mret (mkResult 0).

(** ** Registering *)

Definition ensureFinalizer (cluster : Cluster) : M world unit :=
  if negb (ContainsFinalizer cluster TeleportOperatorFinalizer)
  then mask_errors (AddFinalizer cluster) else mret tt.

Definition reconcileSecret (t : Teleport) (cluster : Cluster) (registerName : string)
    : M world unit :=
  secret ← mask_errors (GetSecret (cluster_name cluster) (cluster_namespace cluster));
  match secret with
  | None =>
      token ← mask_errors (GenerateToken t registerName [role_node]);
      mask_errors (CreateSecret (cluster_name cluster) (cluster_namespace cluster) token)
  | Some secret =>
      token ← mask_errors (lift (GetTokenFromSecret secret));
      tokenValid ← mask_errors (IsTokenValid t registerName token role_node);
      if negb tokenValid then
        token ← mask_errors (GenerateToken t registerName [role_node]);
        mask_errors (UpdateSecret (cluster_name cluster) (cluster_namespace cluster) token)
      else mret tt
  end.

(** The branch for a ConfigMap that exists. *)
Definition updateExistingConfigMap (t : Teleport) (registerName : string)
    (roles : list string) (tkaVersion : string) (configMap : ConfigMap) : M world unit :=
  token ← mask_errors (lift (GetTokenFromConfigMap configMap));
  tokenValid ← mask_errors (IsTokenValid t registerName token (RolesToString roles));
  writeToken ← (if negb tokenValid then mask_errors (GenerateToken t registerName roles)
                else mret token);
  let desiredValues := RenderConfigMapValues t registerName writeToken roles tkaVersion in
  if decide (default "" (map_read (cm_Data configMap) "values") = desiredValues) then mret tt
  else if negb tokenValid
  then mask_errors (UpdateConfigMap t configMap writeToken roles tkaVersion)
  else mask_errors (UpdateConfigMap t configMap writeToken roles tkaVersion).

Definition reconcileConfigMap (t : Teleport) (cluster : Cluster) (registerName : string)
    (roles : list string) : M world unit :=
  tkaVersion ← mask_errors (GetTeleportKubeAgentVersion (agent_name t cluster)
                              (cluster_namespace cluster));
  configMap ← mask_errors (GetConfigMap t (cluster_name cluster) (cluster_namespace cluster));
  match configMap with
  | None =>
      token ← mask_errors (GenerateToken t registerName roles);
      mask_errors (CreateConfigMap t (cluster_name cluster) (cluster_namespace cluster)
                     registerName token roles tkaVersion)
  | Some configMap => updateExistingConfigMap t registerName roles tkaVersion configMap
  end.

Definition reconcileBot (cluster : Cluster) (registerName : string) : M world unit :=
  secret ← mask_errors (GetKubeconfigSecret (cluster_name cluster) TeleportBotNamespace);
  match secret with
  | None =>
      mask_errors (EnsureTbotConfigMap (cluster_name cluster) TeleportBotNamespace registerName);;
      ensure_reference TeleportBotAppName TeleportBotNamespace
        (GetTbotConfigmapName (cluster_name cluster))
  | Some _ => mret tt
  end.

Definition reconcileNormal (t : Teleport) (isBotEnabled : bool) (cluster : Cluster)
    (registerName : string) (roles : list string) : M world Result :=
  ensureFinalizer cluster;;
  reconcileSecret t cluster registerName;;
  reconcileConfigMap t cluster registerName roles;;
  ensure_reference (agent_name t cluster) (cluster_namespace cluster) (agent_configmap t cluster);;
  (if isBotEnabled : bool then reconcileBot cluster registerName else mret tt);;
  mret (mkResult (5 * Minute)).

(** ** Reconcile *)

Definition roles_for (appsEnabled : bool) : list string :=
  if appsEnabled then [role_kube; role_app] else [role_kube].

Definition reconcileCluster (t : Teleport) (isBotEnabled : bool) (cluster : Cluster)
    (roles : list string) : M world Result :=
  let registerName := registerName_of t cluster in
  if negb (time_IsZero (cl_DeletionTimestamp cluster))
  then reconcileDelete t isBotEnabled cluster registerName
  else reconcileNormal t isBotEnabled cluster registerName roles.

Definition Reconcile (req : ObjectKey) : M run_state Result :=
  r ← get_reconciler;
  g ← on_world (client_Get (r_Client r) KCluster req);
  match g with
  | inl e => if IsNotFound e then mret (mkResult 0) else throw (EMask (ELib e))
  | inr cluster =>
      appsEnabled ← on_world (mask_errors (AreTeleportAppsEnabled (r_Teleport r)
                                             (cluster_name cluster) (cluster_namespace cluster)));
      let roles := roles_for appsEnabled in
      modify_reconciler (set_roles roles);;
      refreshIdentity;;
      r ← get_reconciler;
      on_world (reconcileCluster (r_Teleport r) (r_IsBotEnabled r) cluster roles)
  end.

(** main.go: the reconciler as it is set up, before the first reconcile, with the
    manager's client and scheme. *)
Definition initialReconciler (client : kube_client) (scheme : runtime_scheme)
    (namespace : string) (config : Config) (enableTeleportBot : bool) : ClusterReconciler :=
  let tele := New namespace config NewGenerator in
  let tele := set_Client (Some client) tele in
  mkReconciler (Some client) scheme tele enableTeleportBot namespace [].

(** ** Theorems *)

(** C32. Register names tell clusters apart: under one configuration, the management cluster
    itself and the workload clusters with different names get different register names, so
    the label of a token says whose it is. *)
Theorem registerName_of_injective t c1 c2 :
  registerName_of t c1 = registerName_of t c2 → cluster_name c1 = cluster_name c2.
Proof.
  assert (∀ p a b : string, p +:+ a = p +:+ b → a = b) as Hp.
  { induction p as [|x p IH]; [done|]. intros a b [= E]. by apply IH. }
  assert (∀ p s : string, p +:+ "-" +:+ s ≠ p) as Hlen.
  { intros p s E%(f_equal String.length). rewrite !string_length_app in E. simpl in E. lia. }
  unfold registerName_of, GetRegisterName. repeat case_decide; intros E.
  - apply Hp, Hp in E. done.
  - destruct (Hlen (cfg_ManagementClusterName (t_Config t)) (cluster_name c1)).
    by rewrite E.
  - destruct (Hlen (cfg_ManagementClusterName (t_Config t)) (cluster_name c2)).
    by rewrite <-E.
  - done.
Qed.

(** C40. When the identity expires: exactly when more than twenty minutes have passed since it
    was read, for any two times; the saturation of Go's duration does not show. *)
Theorem identity_expired_exact t_now i :
  identity_expired t_now (Some i) = bool_decide (20 * Minute < t_now - id_LastRead i)%Z.
Proof.
  unfold identity_expired, identityExpirationPeriod. apply bool_decide_ext, Sub_gt.
  unfold minDuration, maxDuration, Minute. lia.
Qed.
End Controller.

Arguments run_state {_ _}.
