(* ===== verification/Stages.v ===== *)
(** * The stages of a reconciliation

    What each stage of [Reconcile] does on its own: its footprint, its panics,
    and what holds after it returns without an error.  Controller-level theorems
    chain these lemmas. *)
From S2P Require Import Prelude GoStrings GoValue GoTime Libraries Key Objects World Config.
From S2P Require Import Teleport Token Secret Finalizer ConfigMap AppManager Controller.

(** ** Runs without a panic *)

Section total.
Context `{Unicode, Semver, Yaml, World, !ProvisionTokens, ControllerUtil}.

Lemma total_mask_errors {S A} (m : M S A) : Total m → Total (mask_errors m).
Proof.
  intros Hm s. specialize (Hm s). unfold mask_errors.
  destruct (m s) as [o s']. by destruct o.
Qed.

Lemma total_Get k key : Total (Get k key).
Proof. done. Qed.
Lemma total_Create k o : Total (Create k o).
Proof. done. Qed.
Lemma total_Update k o : Total (Update k o).
Proof. done. Qed.
Lemma total_Delete k key : Total (Delete k key).
Proof. done. Qed.
Lemma total_NewHelper c : Total (NewHelper c).
Proof. done. Qed.
Lemma total_Patch b a : Total (Patch b a).
Proof. done. Qed.
Lemma total_Now : Total Now.
Proof. done. Qed.
Lemma total_deref {A} (x : option A) : is_Some x → Total (deref x).
Proof. by intros [a ->]. Qed.
End total.

#[export] Hint Resolve total_mask_errors total_NewHelper total_Patch total_Now total_deref : total.
#[export] Hint Extern 0 (Total (Get ?k ?key)) => exact (total_Get k key) : total.
#[export] Hint Extern 0 (Total (Create ?k ?o)) => exact (total_Create k o) : total.
#[export] Hint Extern 0 (Total (Update ?k ?o)) => exact (total_Update k o) : total.
#[export] Hint Extern 0 (Total (Delete ?k ?key)) => exact (total_Delete k key) : total.
#[export] Hint Opaque Get Create Update Delete NewHelper Patch Now deref : total.

Lemma masked_total {A} (o : outcome A) : o ≠ Panic → masked o ≠ Panic.
Proof. by rewrite masked_not_panic. Qed.

Lemma parse_parts_total parts : parse_parts parts ≠ Panic.
Proof.
  induction parts as [|p ps IH]; [done|]. simpl. case_decide; [|done].
  by destruct (parse_parts ps).
Qed.

Section stages.
Context `{Unicode, Semver, Yaml, World, !ProvisionTokens, ControllerUtil}.

Lemma parseConfigMapValues_total cm : parseConfigMapValues cm ≠ Panic.
Proof. unfold parseConfigMapValues, values_root. by repeat (case_match; simpl). Qed.

Lemma GetTokenFromConfigMap_total cm : GetTokenFromConfigMap cm ≠ Panic.
Proof.
  unfold GetTokenFromConfigMap. pose proof (parseConfigMapValues_total cm).
  destruct (parseConfigMapValues cm); simpl; [by case_match|done..].
Qed.

Lemma GetTokenFromSecret_total sec : GetTokenFromSecret sec ≠ Panic.
Proof. unfold GetTokenFromSecret. by case_match. Qed.

Lemma total_AreTeleportAppsEnabled t c n :
  is_Some (t_Client t) → Total (AreTeleportAppsEnabled t c n).
Proof. intros Ht. unfold AreTeleportAppsEnabled, client_Get. solve_total. Qed.

Lemma total_NewClient p i : Total (NewClient p i).
Proof. unfold NewClient. solve_total. Qed.

Lemma total_GetIdentity ns : Total (GetIdentityConfigFromSecret ns).
Proof.
  unfold GetIdentityConfigFromSecret, getSecretString. apply total_bind; [solve_total|].
  intros [e|s]; [solve_total|]. apply total_bind; [|solve_total].
  apply total_lift. by destruct (sec_Data s !! Identity).
Qed.

Lemma total_manager rn ns cm : Total (NewTeleportAppConfigManager rn ns cm).
Proof. unfold NewTeleportAppConfigManager. solve_total. Qed.

Lemma total_GetVersion rn ns : Total (GetTeleportKubeAgentVersion rn ns).
Proof. unfold GetTeleportKubeAgentVersion. cbn zeta. solve_total. Qed.

Lemma total_EnsureConfig m : Total (EnsureConfig m).
Proof.
  destruct m; simpl; unfold helmRelease_EnsureConfig, appCR_EnsureConfig, update_or_fail;
    cbn zeta; solve_total.
Qed.

Lemma total_DeleteConfig m : Total (DeleteConfig m).
Proof.
  destruct m; simpl; unfold helmRelease_DeleteConfig, appCR_DeleteConfig, update_or_fail;
    cbn zeta; solve_total.
Qed.

Lemma total_get_or_nil k key f : Total (get_or_nil k key f).
Proof. unfold get_or_nil. solve_total. Qed.

Lemma total_delete_if_present k key f : Total (delete_if_present k key f).
Proof. unfold delete_if_present. solve_total. Qed.
Hint Resolve total_AreTeleportAppsEnabled total_NewClient total_GetIdentity total_manager
  total_GetVersion total_EnsureConfig total_DeleteConfig : total.
Hint Extern 0 (Total (get_or_nil ?k ?key ?f)) => exact (total_get_or_nil k key f) : total.
Hint Extern 0 (Total (delete_if_present ?k ?key ?f)) =>
  exact (total_delete_if_present k key f) : total.

Lemma total_ensure_reference rn ns cm : Total (ensure_reference rn ns cm).
Proof. unfold ensure_reference. solve_total. Qed.

Lemma total_delete_reference rn ns cm : Total (delete_reference rn ns cm).
Proof. unfold delete_reference. solve_total. Qed.
Hint Resolve total_ensure_reference total_delete_reference : total.

Section client.
Context (t : Teleport) (Hclient : is_Some (t_TeleportClient t)).

Lemma total_IsTokenValid reg tok ty : Total (IsTokenValid t reg tok ty).
Proof.
  unfold IsTokenValid, client_GetTokens. apply total_bind; [solve_total|].
  intros [e|l]; [solve_total|]. apply total_bind; [|solve_total].
  apply total_lift, masked_total, parse_parts_total.
Qed.

Lemma total_DeleteToken reg : Total (DeleteToken t reg).
Proof. unfold DeleteToken, client_GetTokens, client_DeleteToken. solve_total. Qed.

Lemma total_GenerateToken `{!WorldLaws, !GeneratorLaws (t_TokenGenerator t)} reg roles :
  Total (GenerateToken t reg roles).
Proof.
  unfold GenerateToken, client_UpsertToken. apply total_bind; [solve_total|]. intros t_now.
  cbn zeta. apply total_bind; [|solve_total]. intros w.
  pose proof (proj1 (wp_unfold _ _ _) (Generate_spec w)) as ((n & ->) & _). done.
Qed.
Hint Resolve total_IsTokenValid total_DeleteToken total_GenerateToken : total.

Lemma total_reconcileDelete bot cluster reg : Total (reconcileDelete t bot cluster reg).
Proof.
  unfold reconcileDelete, delete_tbot, DeleteSecret, DeleteConfigMap, DeleteTbotConfigMap,
    DeleteKubeconfigSecret, RemoveFinalizer, mask_ignoring_notfound.
  repeat (total_step || apply total_mask_errors).
Qed.

Context `{!WorldLaws, !GeneratorLaws (t_TokenGenerator t)}.

Lemma total_reconcileSecret cluster reg : Total (reconcileSecret t cluster reg).
Proof.
  unfold reconcileSecret, GetSecret, CreateSecret, UpdateSecret.
  apply total_bind; [solve_total|]. intros [sec|].
  - apply total_bind; [apply total_mask_errors, total_lift, GetTokenFromSecret_total|].
    repeat (total_step || apply total_mask_errors).
  - repeat (total_step || apply total_mask_errors).
Qed.

Lemma total_UpdateConfigMap cm tok roles tka : Total (UpdateConfigMap t cm tok roles tka).
Proof.
  unfold UpdateConfigMap. apply total_bind; [apply total_lift, registerName_total|].
  intros name. cbn zeta. solve_total.
Qed.
Hint Resolve total_UpdateConfigMap : total.

Lemma total_reconcileConfigMap cluster reg roles : Total (reconcileConfigMap t cluster reg roles).
Proof.
  unfold reconcileConfigMap, GetConfigMap, CreateConfigMap.
  apply total_bind; [solve_total|]. intros tka.
  apply total_bind; [solve_total|]. intros [cm|].
  - unfold updateExistingConfigMap.
    apply total_bind; [apply total_mask_errors, total_lift, GetTokenFromConfigMap_total|].
    cbn zeta. solve_total.
  - cbn zeta. repeat (total_step || apply total_mask_errors).
Qed.

Lemma total_reconcileNormal bot cluster reg roles :
  Total (reconcileNormal t bot cluster reg roles).
Proof.
  unfold reconcileNormal, ensureFinalizer, reconcileBot, AddFinalizer, GetKubeconfigSecret,
    EnsureTbotConfigMap, GetTbotConfigMap, CreateTbotConfigMap, mask_ignoring_notfound.
  pose proof (total_reconcileSecret cluster reg).
  pose proof (total_reconcileConfigMap cluster reg roles). cbn zeta.
  repeat (total_step || assumption || apply total_mask_errors).
Qed.

Lemma total_reconcileCluster bot cluster roles : Total (reconcileCluster t bot cluster roles).
Proof.
  unfold reconcileCluster. cbn zeta.
  destruct (negb _); [apply total_reconcileDelete|apply total_reconcileNormal].
Qed.
End client.
End stages.

#[export] Hint Resolve total_AreTeleportAppsEnabled total_NewClient total_GetIdentity : total.
