(* ===== verification/Registration.v ===== *)
(** * Registering a cluster: the stages of [reconcileNormal]

    What each stage establishes when it returns without an error, and what the
    later stages leave alone, so that the facts can be read off the final state. *)
From S2P Require Import Prelude GoStrings GoValue GoTime Libraries Key Objects World Config.
From S2P Require Import Teleport Token Secret Finalizer ConfigMap AppManager Controller Stages.

(** Runs a masked call whose specification is [lem], and keeps the good case. *)
Ltac wp_call lem :=
  first [ apply wp_bind, wp_mask_errors | apply wp_mask_errors | apply wp_bind | idtac ];
  eapply wp_mono; [apply lem; try apply _|].

Section Registration.
Context `{Unicode, Semver, Yaml, WorldLaws, !ProvisionTokens, !TeleportTypesLaws,
  ControllerUtil, !ControllerUtilLaws}.

(** ** Footprints *)

(** Every slot but the tokens; every slot but the Clusters. *)
Definition no_tokens (x : slot) : Prop :=
  match x with slot_token _ => False | slot_obj _ _ => True end.
Definition no_clusters (x : slot) : Prop :=
  match x with slot_obj KCluster _ => False | _ => True end.

#[local] Hint Extern 0 (no_tokens _) => exact I : keeps.

(** The slots a cluster's registration may write. *)
Definition cluster_slots (t : Teleport) (bot : bool) (cluster : Cluster) (x : slot) : Prop :=
  x = slot_obj KCluster (cl_meta cluster) ∨
  x = slot_obj KSecret (secret_key (cluster_name cluster) (cluster_namespace cluster)) ∨
  x = slot_obj KConfigMap (configmap_key t (cluster_name cluster) (cluster_namespace cluster)) ∨
  resource_slot (agent_name t cluster) (cluster_namespace cluster) x ∨
  (∃ n, x = slot_token n) ∨
  (bot = true ∧
   (x = slot_obj KConfigMap (tbot_configmap_key (cluster_name cluster) TeleportBotNamespace) ∨
    x = slot_obj KSecret (kubeconfig_key (cluster_name cluster) TeleportBotNamespace) ∨
    resource_slot TeleportBotAppName TeleportBotNamespace x)).

Lemma untouched_obj F k key s s' :
  untouched F s s' → ¬ F (slot_obj k key) → objs k s' !! key = objs k s !! key.
Proof. intros HU HF. exact (HU _ HF). Qed.

Lemma untouched_token F n s s' :
  untouched F s s' → ¬ F (slot_token n) → s_tokens s' !! n = s_tokens s !! n.
Proof. intros HU HF. exact (HU _ HF). Qed.

(** ** Tokens that stay *)

Definition tokens_kept (w w' : world) : Prop :=
  ∀ n tk, s_tokens (view w) !! n = Some tk → s_tokens (view w') !! n = Some tk.

#[global] Instance tokens_kept_preorder : PreOrder tokens_kept.
Proof. split; [by intros w n tk|intros w1 w2 w3 K12 K23 n tk Htk; auto]. Qed.

Lemma tokens_kept_step F w w' : (∀ n, ¬ F (slot_token n)) → step F w w' → tokens_kept w w'.
Proof. intros HF [_ HU] n tk. by rewrite (untouched_token F n _ _ HU (HF n)). Qed.

Lemma keeps_tokens {A} (m : M world A) : Keeps (step no_tokens) m → Keeps tokens_kept m.
Proof. intros Hm. eapply keeps_weaken; [exact Hm|]. intros w w'. apply tokens_kept_step. intros n []. Qed.

Lemma valid_token_kept w w' t_now reg tok roles :
  tokens_kept w w' → valid_token (view w) t_now reg tok roles →
  valid_token (view w') t_now reg tok roles.
Proof. intros Hk (tk & Htk & Hg). exists tk. split; [by apply Hk|done]. Qed.

(** A fresh name overwrites no token. *)
Lemma keeps_tokens_GenerateToken t reg roles
    `{!GeneratorLaws (t_TokenGenerator t), !GeneratorFresh (t_TokenGenerator t)} :
  Keeps tokens_kept (GenerateToken t reg roles).
Proof.
  unfold GenerateToken. apply keeps_bind; [apply _|apply keeps_tokens; solve_keeps|].
  intros t_now. cbn zeta. intros w. unfold mbind, M_bind.
  pose proof (proj1 (wp_unfold _ _ _) (Generate_spec w)) as ((n & Hn) & _ & Hv).
  pose proof (Generate_fresh w n) as Hfresh.
  destruct (Generate _ w) as [o w1]. simpl in *. subst o. specialize (Hfresh w1 eq_refl).
  destruct (NewProvisionToken _ _ _) as [e|tk] eqn:Etk.
  { intros m tk. simpl. by rewrite Hv. }
  apply NewProvisionToken_spec in Etk as (<- & _ & _). set (tk' := set_labels _ tk).
  assert (Keeps (step (λ x, x = slot_token (GetName tk)))
    (r ← client_UpsertToken (t_TeleportClient t) tk';
     match r with Some e => throw (EMask (ELib e)) | None => mret (GetName tk') end)) as Hs.
  { apply keeps_bind; [apply _|by apply (keeps_UpsertToken _ _ tk')|]. intros [e|]; solve_keeps. }
  destruct (Hs w1) as [_ HU]. intros m tm Hm. rewrite <-Hv in Hm, Hfresh.
  etrans; [|exact Hm]. apply (untouched_token _ m _ _ HU). intros [= ->]. congruence.
Qed.

(** A generated token is valid when the generation started. *)
Lemma wp_GenerateToken_valid t reg roles w `{!GeneratorLaws (t_TokenGenerator t)} :
  Forall known_role roles →
  wp (GenerateToken t reg roles) (λ o w',
    (now w <= now w')%Z ∧ match o with
    | Ret name => valid_token (view w') (now w) reg name roles ∧
                  ∀ k, objs k (view w') = objs k (view w)
    | _ => True
    end) w.
Proof.
  intros Hk. eapply wp_mono; [apply wp_GenerateToken; apply _|]. intros [name|e|] w' [Ht Ho]; [|done..].
  destruct Ho as (tk & Hg & ->). split_and!; [done| |by intros k; apply objs_with_tokens].
  apply (generated_valid reg roles (now w) (now w) name tk _ Hk (now_pos w) Hg).
  unfold TeleportKubeTokenValidity, Hour, Minute. lia.
Qed.

(** A token valid for the roles at some time during a run. *)
Definition valid_within (w w' : world) (reg tok : string) (roles : list string) : Prop :=
  ∃ t_check, (now w <= t_check <= now w')%Z ∧ valid_token (view w') t_check reg tok roles.

Lemma valid_within_later w0 w w' reg tok roles :
  (now w <= now w')%Z → tokens_kept w w' →
  valid_within w0 w reg tok roles → valid_within w0 w' reg tok roles.
Proof.
  intros Ht Hk (tc & Htc & Hv). exists tc. split; [lia|]. by eapply valid_token_kept.
Qed.

Lemma valid_within_earlier w0 w0' w reg tok roles :
  (now w0 <= now w0')%Z → valid_within w0' w reg tok roles → valid_within w0 w reg tok roles.
Proof. intros Ht (tc & Htc & Hv). exists tc. split; [lia|done]. Qed.

(** ** The finalizer *)

Lemma keeps_ensureFinalizer (F : slot → Prop) cluster :
  F (slot_obj KCluster (cl_meta cluster)) → Keeps (step F) (ensureFinalizer cluster).
Proof.
  intros HF. unfold ensureFinalizer. destruct (negb _); [|apply keeps_ret, _].
  by apply keeps_mask_errors, keeps_AddFinalizer.
Qed.

Lemma wp_ensureFinalizer cluster w :
  s_clusters (view w) !! cl_meta cluster = Some cluster →
  wp (ensureFinalizer cluster) (λ o w',
    match o with Ret _ => finalizer_set (view w') (cl_meta cluster) | _ => True end) w.
Proof.
  intros Hc. unfold ensureFinalizer. rewrite ContainsFinalizer_spec.
  case_bool_decide as Hin; simpl.
  - apply wp_ret. by exists cluster.
  - apply wp_mask_errors. eapply wp_mono; [by eapply wp_AddFinalizer|].
    by intros [?|?|] w' Ho.
Qed.

Section run.
Context (t : Teleport) `{!GeneratorLaws (t_TokenGenerator t)}.

(** ** The Secret *)

Lemma keeps_reconcileSecret (F : slot → Prop) cluster reg :
  (∀ n, F (slot_token n)) →
  F (slot_obj KSecret (secret_key (cluster_name cluster) (cluster_namespace cluster))) →
  Keeps (step F) (reconcileSecret t cluster reg).
Proof.
  intros HT HS. unfold reconcileSecret. repeat (keeps_step || apply keeps_mask_errors).
Qed.

Lemma wp_reconcileSecret cluster reg w `{!GeneratorFresh (t_TokenGenerator t)} :
  wp (reconcileSecret t cluster reg) (λ o w', match o with
    | Ret _ => ∃ tok,
        holds_token (view w') (secret_key (cluster_name cluster) (cluster_namespace cluster)) tok ∧
        valid_within w w' reg tok [role_node]
    | _ => True
    end) w.
Proof.
  assert (Forall known_role [role_node]) as Hk by (repeat constructor; by right; right).
  assert (∀ m : M world unit, ∀ tok w1,
    (now w <= now w1)%Z → valid_token (view w1) (now w) reg tok [role_node] →
    wp m (λ o w', (now w1 <= now w')%Z ∧ match o with
      | Ret _ => view w' = put_obj KSecret (token_secret (cluster_name cluster)
                             (cluster_namespace cluster) tok) (view w1)
      | Err _ => True | Panic => False end) w1 →
    wp m (λ o w', match masked o with
      | Ret _ => ∃ tok, holds_token (view w') (secret_key (cluster_name cluster)
                          (cluster_namespace cluster)) tok ∧
                        valid_within w w' reg tok [role_node]
      | _ => True end) w1) as Hwrite.
  { intros m tok w1 Ht1 Hv1 Hm. eapply wp_mono; [exact Hm|].
    intros [?|?|] w' [Ht Hv]; simpl; [|done..]. exists tok. rewrite Hv. split.
    - apply token_secret_stored.
    - exists (now w). split; [lia|]. by rewrite Hv. }
  unfold reconcileSecret. wp_call (wp_get_or_nil KSecret).
  intros [[sec|]|e|] w1 [-> Hsec]; simpl; [| |done..]; simpl in Hsec.
  - apply wp_bind, wp_mask_errors, wp_lift.
    destruct (GetTokenFromSecret sec) as [tok|e|] eqn:Etok; simpl; [|done..].
    wp_call (wp_IsTokenValid t reg tok role_node [role_node]); [done|].
    intros [b|e|] w1 [-> Hb]; simpl; [|done..]. destruct b; simpl.
    + apply wp_ret. exists tok. split; [by exists sec|]. exists (now w). split; [lia|].
      by apply Hb.
    + wp_call (wp_GenerateToken_valid t reg [role_node]); [done|].
      intros [name|e|] w1 [Ht Hv]; simpl; [destruct Hv as [Hv _]|done..].
      apply wp_mask_errors. eapply Hwrite; [done..|apply wp_UpdateSecret].
  - wp_call (wp_GenerateToken_valid t reg [role_node]); [done|].
    intros [name|e|] w1 [Ht Hv]; simpl; [destruct Hv as [Hv _]|done..].
    apply wp_mask_errors. eapply Hwrite; [done..|apply wp_CreateSecret].
Qed.
(** ** The ConfigMap *)

Lemma keeps_mask_get_bind {A} (F : slot → Prop) k key f (g : option (obj k) → M world A) :
  Keeps (step F) (g None) →
  (∀ o, obj_key k o = key → Keeps (step F) (g (Some o))) →
  Keeps (step F) (mask_errors (get_or_nil k key f) ≫= g).
Proof.
  intros HN HS. pose proof (keeps_get_or_nil_bind F k key f g HN HS) as Hb.
  intros w. specialize (Hb w). unfold mbind, M_bind in *. unfold mask_errors.
  by destruct (get_or_nil k key f w) as [[o|e|] w'].
Qed.

Lemma keeps_updateExisting (F : slot → Prop) reg roles tka cm :
  (∀ n, F (slot_token n)) → F (slot_obj KConfigMap (cm_meta cm)) →
  Keeps (step F) (updateExistingConfigMap t reg roles tka cm).
Proof.
  intros HT HC. unfold updateExistingConfigMap. cbn zeta.
  repeat (keeps_step || apply keeps_mask_errors).
Qed.

Lemma keeps_reconcileConfigMap (F : slot → Prop) cluster reg roles :
  (∀ n, F (slot_token n)) →
  F (slot_obj KConfigMap (configmap_key t (cluster_name cluster) (cluster_namespace cluster))) →
  Keeps (step F) (reconcileConfigMap t cluster reg roles).
Proof.
  intros HT HC. unfold reconcileConfigMap.
  apply keeps_bind; [apply _|apply keeps_mask_errors; solve_keeps|]. intros tka.
  apply (keeps_mask_get_bind F KConfigMap).
  - repeat (keeps_step || apply keeps_mask_errors).
  - intros cm Hk. apply keeps_updateExisting; [done|]. simpl in Hk. by rewrite Hk.
Qed.

(** The stored ConfigMap, if there is one, is for this register name. *)
Definition register_name_agrees (s : Snapshot) (cluster : Cluster) (reg : string) : Prop :=
  ∀ cm, s_configmaps s !! configmap_key t (cluster_name cluster) (cluster_namespace cluster)
          = Some cm →
        registerNameFromConfigMap cm = Ret reg.

(** The stored ConfigMap has the values rendered for a token that is valid for
    the roles, in the layout of the deployed chart version. *)
Definition configmap_ready (w0 w : world) (cluster : Cluster) (reg : string)
    (roles : list string) (tka : string) : Prop :=
  ∃ tok,
    has_values (view w) (configmap_key t (cluster_name cluster) (cluster_namespace cluster))
      (RenderConfigMapValues t reg tok roles tka) ∧
    valid_within w0 w reg tok roles.

(** Writing the rendered document for a token that was just checked. *)
Lemma wp_write_values reg roles tka cluster cm tok w0 w :
  s_configmaps (view w) !! configmap_key t (cluster_name cluster) (cluster_namespace cluster)
    = Some cm →
  registerNameFromConfigMap cm = Ret reg →
  valid_within w0 w reg tok roles →
  wp (mask_errors (UpdateConfigMap t cm tok roles tka)) (λ o w',
    match o with Ret _ => configmap_ready w0 w' cluster reg roles tka | _ => True end) w.
Proof.
  intros Hcm Hreg Hv. apply wp_mask_errors. eapply wp_mono; [apply wp_UpdateConfigMap|].
  intros [?|?|] w' [Ht Ho]; simpl; [|done..]. destruct Ho as (name & Hname & Hv').
  assert (name = reg) as -> by congruence.
  pose proof (view_obj_key w KConfigMap _ _ Hcm) as Hkey. simpl in Hkey.
  exists tok. rewrite Hv'. split.
  - rewrite <-Hkey. apply has_values_set.
  - eapply valid_within_later; [exact Ht| |exact Hv].
    intros n tk. rewrite Hv'. done.
Qed.

Lemma wp_updateExisting reg roles tka cluster cm w :
  roles ≠ [] → Forall known_role roles →
  s_configmaps (view w) !! configmap_key t (cluster_name cluster) (cluster_namespace cluster)
    = Some cm →
  registerNameFromConfigMap cm = Ret reg →
  wp (updateExistingConfigMap t reg roles tka cm) (λ o w',
    match o with Ret _ => configmap_ready w w' cluster reg roles tka | _ => True end) w.
Proof.
  intros Hne Hk Hcm Hreg. unfold updateExistingConfigMap.
  apply wp_bind, wp_mask_errors, wp_lift.
  destruct (GetTokenFromConfigMap cm) as [tok|e|] eqn:Etok; simpl; [|done..].
  wp_call (wp_IsTokenValid t reg tok (RolesToString roles) roles);
    [by apply ParseRoles_RolesToString|].
  intros [b|e|] w1 [-> Hb]; simpl; [|done..]. destruct b; simpl.
  - assert (valid_within w w reg tok roles) as Hv.
    { exists (now w). split; [lia|]. by apply Hb. }
    apply wp_bind, wp_ret. cbn zeta. case_decide as Hdoc; [|by apply wp_write_values].
    apply wp_ret. exists tok. split; [|done]. exists cm. split; [done|].
    revert Etok Hdoc. unfold GetTokenFromConfigMap, parseConfigMapValues, values_root.
    destruct (map_read (cm_Data cm) "values") as [v|]; [|done]. simpl. by intros _ ->.
  - wp_call (wp_GenerateToken_valid t reg roles); [done|].
    intros [name|e|] w1 [Ht Hv]; simpl; [destruct Hv as [Hv Hobjs]|done..]. cbn zeta.
    assert (valid_within w w1 reg name roles) as Hvw by (exists (now w); split; [lia|done]).
    specialize (Hobjs KConfigMap). simpl in Hobjs.
    case_decide as Hdoc; [|apply wp_write_values; [by rewrite Hobjs|done..]].
    apply wp_ret. exists name. split; [|done]. exists cm. rewrite Hobjs. split; [done|].
    revert Etok Hdoc. unfold GetTokenFromConfigMap, parseConfigMapValues, values_root.
    destruct (map_read (cm_Data cm) "values") as [v|]; [|done]. simpl. by intros _ ->.
Qed.

Lemma wp_reconcileConfigMap cluster reg roles w :
  roles ≠ [] → Forall known_role roles → register_name_agrees (view w) cluster reg →
  wp (reconcileConfigMap t cluster reg roles) (λ o w', match o with
    | Ret _ => configmap_ready w w' cluster reg roles
        (deployed_version (view w) (mkKey (cluster_namespace cluster) (agent_name t cluster)))
    | _ => True
    end) w.
Proof.
  intros Hne Hk Hag. unfold reconcileConfigMap.
  wp_call wp_GetTeleportKubeAgentVersion. intros [tka|e|] w1 [-> Htka]; simpl; [|done..].
  rewrite <-Htka.
  wp_call (wp_get_or_nil KConfigMap). intros [[cm|]|e|] w1 [-> Hcm]; simpl; [| |done..];
    simpl in Hcm.
  - apply wp_updateExisting; [done..|by apply Hag].
  - wp_call (wp_GenerateToken_valid t reg roles); [done|].
    intros [name|e|] w1 [Ht Hv]; simpl; [destruct Hv as [Hv Hobjs]|done..].
    specialize (Hobjs KConfigMap). simpl in Hobjs.
    apply wp_mask_errors. eapply wp_mono; [apply wp_CreateConfigMap|].
    intros [?|?|] w' [Ht' Ho]; simpl; [|done..]. rewrite Hobjs in Ho.
    destruct Ho as [[Hsome _]|[_ Hv']]; [rewrite Hcm in Hsome; by destruct Hsome|].
    exists name. rewrite Hv'. split; [apply has_values_put|].
    exists (now w). split; [lia|]. by rewrite Hv'.
Qed.

(** *** Neither stage drops a token *)

Context `{!GeneratorFresh (t_TokenGenerator t)}.

Ltac solve_keeps_tokens :=
  repeat (keeps_step || apply keeps_mask_errors
          || (apply keeps_tokens_GenerateToken; apply _)
          || (apply keeps_tokens; solve [solve_keeps])).

Lemma keeps_tokens_reconcileSecret cluster reg :
  Keeps tokens_kept (reconcileSecret t cluster reg).
Proof.
  unfold reconcileSecret.
  solve_keeps_tokens.
Qed.

Lemma keeps_tokens_reconcileConfigMap cluster reg roles :
  Keeps tokens_kept (reconcileConfigMap t cluster reg roles).
Proof.
  unfold reconcileConfigMap, updateExistingConfigMap. cbn zeta.
  solve_keeps_tokens.
Qed.

(** ** References and the resources that carry them *)

Lemma mask_bind {A B} (m : M world A) (f : A → M world B) w :
  (mask_errors m ≫= λ a, mask_errors (f a)) w = mask_errors (m ≫= f) w.
Proof.
  unfold mask_errors, mbind, M_bind. destruct (m w) as [[a|e|] w']; simpl; try done.
Qed.

Lemma wp_mask_bind {A B} (m : M world A) (f : A → M world B) Q w :
  wp (m ≫= f) (λ o w', Q (masked o) w') w → wp (mask_errors m ≫= λ a, mask_errors (f a)) Q w.
Proof. intros Hm. apply wp_mask_errors in Hm. rewrite wp_unfold in *. by rewrite mask_bind. Qed.

Lemma keeps_ensure_reference (F : slot → Prop) rn ns cm :
  (∀ x, resource_slot rn ns x → F x) → Keeps (step F) (ensure_reference rn ns cm).
Proof.
  intros HF w. unfold ensure_reference. rewrite mask_bind.
  assert (Keeps (step F) (NewTeleportAppConfigManager rn ns cm ≫= EnsureConfig)) as Hk.
  { apply keeps_manager_bind. intros m Hm. apply keeps_EnsureConfig. eauto. }
  by apply keeps_mask_errors.
Qed.

(** Adding a reference drops none and leaves the chart versions as they are. *)
Definition resources_grow (s s' : Snapshot) : Prop :=
  ∀ key, deployed_version s' key = deployed_version s key ∧
         ∀ cm, config_injected s key cm → config_injected s' key cm.

Lemma resources_grow_refl s : resources_grow s s.
Proof. by split. Qed.

Lemma setValuesFrom_installed hr refs :
  text_at (setValuesFrom hr refs) installed_version_path = text_at hr installed_version_path.
Proof.
  rewrite <-!installed_version_at. unfold helmReleaseInstalledChartVersion, setValuesFrom. simpl. by rewrite index_insert_ne.
Qed.

Lemma setValuesFrom_spec hr refs :
  text_at (setValuesFrom hr refs) wanted_version_path = text_at hr wanted_version_path.
Proof.
  rewrite <-!wanted_version_at. unfold helmReleaseSpecChartVersion, setValuesFrom. simpl. rewrite index_insert. simpl.
  rewrite index_insert_ne by done. by destruct (as_map (index (hr_Object hr) "spec")).
Qed.

Lemma resources_grow_helmrelease s key hr ref :
  s_helmreleases s !! key = Some hr → hr_meta hr = key →
  resources_grow s (put_obj KHelmRelease (setValuesFrom hr (Some (hr_refs hr ++ [ref]))) s).
Proof.
  intros Hhr <- key'. unfold deployed_version, config_injected. simpl.
  destruct (decide (hr_meta hr = key')) as [<-|Hne].
  - rewrite lookup_insert_eq, Hhr. unfold stored.
    rewrite setValuesFrom_installed, setValuesFrom_spec, hr_refs_set. split; [done|].
    intros cm Hin. apply elem_of_app. by left.
  - by rewrite lookup_insert_ne by done.
Qed.

Lemma resources_grow_app s key app ref :
  s_apps s !! key = Some app → app_meta app = key →
  resources_grow s (put_obj KApp (with_extra_configs app (Some (app_refs app ++ [ref]))) s).
Proof.
  intros Happ <- key'. unfold deployed_version, config_injected. simpl.
  destruct (s_helmreleases s !! key'); [done|].
  destruct (decide (app_meta app = key')) as [<-|Hne].
  - rewrite lookup_insert_eq, Happ. split; [done|]. intros cm Hin. apply elem_of_app. by left.
  - by rewrite lookup_insert_ne by done.
Qed.

Lemma wp_ensure_grows rn ns cm w :
  wp (NewTeleportAppConfigManager rn ns cm ≫= EnsureConfig) (λ o w',
    match o with Ret _ => resources_grow (view w) (view w') | _ => True end) w.
Proof.
  apply wp_bind. eapply wp_mono; [apply wp_NewTeleportAppConfigManager|].
  intros [m|?|] w1 [-> _]; [|done..]. destruct m as [rn' ns' cm'|rn' ns' cm'|rn' ns']; simpl.
  - eapply wp_mono; [apply wp_helmRelease_EnsureConfig|]. intros [?|?|] w' Hv; [|done..].
    destruct Hv as (hr & Hhr & [[_ ->]|[_ ->]]); [apply resources_grow_refl|].
    eapply resources_grow_helmrelease; [done|by eapply hr_meta_key].
  - eapply wp_mono; [apply wp_appCR_EnsureConfig|]. intros [?|?|] w' Hv; [|done..].
    destruct Hv as (app & Happ & [[_ ->]|[_ ->]]); [apply resources_grow_refl|].
    eapply resources_grow_app; [done|by eapply app_meta_key].
  - apply wp_ret, resources_grow_refl.
Qed.

Lemma wp_ensure_reference rn ns cm w :
  wp (ensure_reference rn ns cm) (λ o w', match o with
    | Ret _ => config_injected (view w') (mkKey ns rn) cm ∧ resources_grow (view w) (view w')
    | _ => True
    end) w.
Proof.
  apply wp_mask_bind. eapply wp_mono;
    [apply wp_and; [apply wp_ensure_injects|apply wp_ensure_grows]|].
  by intros [?|?|] w'.
Qed.

(** ** tbot *)

(** ConfigMaps that exist stay as they are. *)
Definition configmaps_kept (w w' : world) : Prop :=
  ∀ key cm, s_configmaps (view w) !! key = Some cm → s_configmaps (view w') !! key = Some cm.

#[local] Instance configmaps_kept_preorder : PreOrder configmaps_kept.
Proof. split; [by intros w k cm|intros w1 w2 w3 K12 K23 k cm Hcm; auto]. Qed.

Definition no_configmaps (x : slot) : Prop :=
  match x with slot_obj KConfigMap _ => False | _ => True end.

Lemma keeps_configmaps {A} (m : M world A) :
  Keeps (step no_configmaps) m → Keeps configmaps_kept m.
Proof.
  intros Hm. eapply keeps_weaken; [exact Hm|]. intros w w' [_ HU] key cm Hcm.
  etrans; [|exact Hcm]. by apply (untouched_obj _ KConfigMap key _ _ HU); intros [].
Qed.

Lemma keeps_configmaps_Create o : Keeps configmaps_kept (Create KConfigMap o).
Proof.
  intros w key cm Hcm. pose proof (Create_spec KConfigMap o w) as [_ Hw].
  change (s_configmaps (view (k8s_Create KConfigMap o w).2) !! key = Some cm).
  assert (view (k8s_Create KConfigMap o w).2 = view w ∨
    s_configmaps (view w) !! cm_meta o = None ∧
    view (k8s_Create KConfigMap o w).2 = put_obj KConfigMap o (view w)) as [->|[Hn ->]];
    [destruct (k8s_Create KConfigMap o w).1; naive_solver|done|].
  simpl. rewrite lookup_insert_ne; [done|]. intros E. simpl in E. congruence.
Qed.

Lemma keeps_configmaps_reconcileBot cluster reg : Keeps configmaps_kept (reconcileBot cluster reg).
Proof.
  unfold reconcileBot, EnsureTbotConfigMap, CreateTbotConfigMap, GetTbotConfigMap. cbn zeta.
  apply keeps_bind; [apply _|apply keeps_mask_errors, keeps_configmaps; solve_keeps|].
  intros [sec|]; [apply keeps_ret, _|].
  apply keeps_bind; [apply _| |].
  - apply keeps_mask_errors, keeps_bind; [apply _| |].
    + apply keeps_mask_errors, keeps_configmaps, (keeps_get_or_nil _ KConfigMap).
    + intros [cm|]; [apply keeps_ret, _|]. apply keeps_bind; [apply _| |solve_keeps].
      apply keeps_mask_errors, keeps_bind; [apply _|apply keeps_configmaps_Create|solve_keeps].
  - intros _. apply keeps_configmaps, keeps_ensure_reference. by intros x [-> | ->].
Qed.

(** The slots of tbot's registration. *)
Definition bot_slots (cluster : Cluster) (x : slot) : Prop :=
  x = slot_obj KConfigMap (tbot_configmap_key (cluster_name cluster) TeleportBotNamespace) ∨
  resource_slot TeleportBotAppName TeleportBotNamespace x.

Lemma keeps_reconcileBot (F : slot → Prop) cluster reg :
  (∀ x, bot_slots cluster x → F x) → Keeps (step F) (reconcileBot cluster reg).
Proof.
  intros HF. unfold reconcileBot.
  apply keeps_bind; [apply _|apply keeps_mask_errors; solve_keeps|].
  intros [sec|]; [apply keeps_ret, _|]. apply keeps_bind; [apply _| |].
  - apply keeps_mask_errors, keeps_EnsureTbotConfigMap, HF. by left.
  - intros _. apply keeps_ensure_reference. intros x Hx. apply HF. by right.
Qed.

(** Either tbot has published the cluster's kubeconfig, or it is configured to. *)
Definition bot_ready (s : Snapshot) (cluster : Cluster) : Prop :=
  is_Some (s_secrets s !! kubeconfig_key (cluster_name cluster) TeleportBotNamespace) ∨
  (is_Some (s_configmaps s !! tbot_configmap_key (cluster_name cluster) TeleportBotNamespace) ∧
   config_injected s (mkKey TeleportBotNamespace TeleportBotAppName)
     (GetTbotConfigmapName (cluster_name cluster))).

Lemma wp_masked_tbot c n reg w :
  wp (mask_errors (EnsureTbotConfigMap c n reg)) (λ o w', match o with
    | Ret _ => is_Some (s_configmaps (view w') !! tbot_configmap_key c TeleportBotNamespace)
    | _ => True
    end) w.
Proof.
  apply wp_mask_errors. eapply wp_mono; [apply wp_EnsureTbotConfigMap|]. by intros [?|?|] w'.
Qed.

Lemma wp_reconcileBot cluster reg w :
  wp (reconcileBot cluster reg) (λ o w', match o with
    | Ret _ => bot_ready (view w') cluster ∧ resources_grow (view w) (view w')
    | _ => True
    end) w.
Proof.
  unfold reconcileBot. wp_call (wp_get_or_nil KSecret).
  intros [[sec|]|e|] w1 [-> Hsec]; simpl; [| |done..]; simpl in Hsec.
  - apply wp_ret. split; [left; by exists sec|apply resources_grow_refl].
  - apply wp_bind. eapply wp_mono.
    { apply wp_and; [|apply (keeps_wp (step (λ x, x = slot_obj KConfigMap
        (tbot_configmap_key (cluster_name cluster) TeleportBotNamespace))));
        by apply keeps_mask_errors, keeps_EnsureTbotConfigMap].
      apply wp_masked_tbot. }
    intros [?|?|] w1 [Hcm Hs]; [|done..]. simpl in Hcm. destruct Hs as [_ HU].
    eapply wp_mono; [apply wp_and; [apply wp_ensure_reference|
      apply (keeps_wp (step (resource_slot TeleportBotAppName TeleportBotNamespace)));
      by apply keeps_ensure_reference]|].
    intros [?|?|] w2 [Hinj [_ HU2]]; [|done..]. destruct Hinj as [Hinj Hg]. split.
    + right. split; [|done]. destruct Hcm as [cm Hcm]. exists cm.
      rewrite <-Hcm. apply (untouched_obj _ KConfigMap _ _ _ HU2). by intros [|].
    + assert (s_helmreleases (view w1) = s_helmreleases (view w)) as E1.
      { apply map_eq. intros key. by apply (untouched_obj _ KHelmRelease key _ _ HU). }
      assert (s_apps (view w1) = s_apps (view w)) as E2.
      { apply map_eq. intros key. by apply (untouched_obj _ KApp key _ _ HU). }
      intros key. destruct (Hg key) as [Hd Hi]. split.
      * rewrite Hd. unfold deployed_version. by rewrite E1, E2.
      * intros cm Hin. apply Hi. unfold config_injected in *. by rewrite E1, E2.
Qed.
End run.
End Registration.
