(* ===== verification/Registered.v ===== *)
(** * The registered state, and that registering reaches and keeps it

    [registered] is the specification of [reconcileNormal]: what a run that
    returns without an error leaves behind, and the state in which a further run
    writes nothing. *)
From S2P Require Import Prelude GoStrings GoValue GoTime Libraries Key Objects World Config.
From S2P Require Import Teleport Token Secret Finalizer ConfigMap AppManager Controller Stages.
From S2P Require Import Registration.

Section Registered.
Context `{Unicode, Semver, Yaml, WorldLaws, !ProvisionTokens, !TeleportTypesLaws,
  ControllerUtil, !ControllerUtilLaws}.
Context (t : Teleport).

(** ** Specification *)

Definition agent_key (cluster : Cluster) : ObjectKey :=
  mkKey (cluster_namespace cluster) (agent_name t cluster).

(** The tokens were valid at some time between [now w0] and [now w]. *)
Record registered (w0 w : world) (bot : bool) (cluster : Cluster) (reg : string)
    (roles : list string) : Prop := {
  registered_finalizer : finalizer_set (view w) (cl_meta cluster);
  registered_secret : ∃ tok,
    holds_token (view w) (secret_key (cluster_name cluster) (cluster_namespace cluster)) tok ∧
    valid_within w0 w reg tok [role_node];
  registered_configmap :
    configmap_ready t w0 w cluster reg roles (deployed_version (view w) (agent_key cluster));
  registered_reference :
    config_injected (view w) (agent_key cluster) (agent_configmap t cluster);
  registered_bot : bot = true → bot_ready (view w) cluster;
}.

(** ** Reaching it *)

(** A stage, for what comes after it: its footprint, and that it drops no token. *)
Definition progress (F : slot → Prop) (w w' : world) : Prop := step F w w' ∧ tokens_kept w w'.

Lemma keeps_progress {A} F (m : M world A) :
  Keeps (step F) m → Keeps tokens_kept m → Keeps (progress F) m.
Proof. intros H1' H2' w. by split. Qed.

Lemma progress_now F w w' : progress F w w' → (now w <= now w')%Z.
Proof. by intros [[? _] _]. Qed.

Lemma finalizer_set_kept F w w' key :
  ¬ F (slot_obj KCluster key) → progress F w w' →
  finalizer_set (view w) key → finalizer_set (view w') key.
Proof.
  intros HF [[_ HU] _] (c & Hc & Hin). exists c. split; [|done].
  rewrite <-Hc. by apply (untouched_obj F KCluster).
Qed.

Lemma secret_kept F w0 w w' key reg roles :
  ¬ F (slot_obj KSecret key) → progress F w w' →
  (∃ tok, holds_token (view w) key tok ∧ valid_within w0 w reg tok roles) →
  ∃ tok, holds_token (view w') key tok ∧ valid_within w0 w' reg tok roles.
Proof.
  intros HF [[Ht HU] Hk] (tok & (sec & Hsec & Htok) & Hv). exists tok. split.
  - exists sec. split; [|done]. rewrite <-Hsec. by apply (untouched_obj F KSecret).
  - by eapply valid_within_later.
Qed.

Lemma configmap_ready_kept w0 w w' cluster reg roles tka :
  (now w <= now w')%Z → tokens_kept w w' → configmaps_kept w w' →
  configmap_ready t w0 w cluster reg roles tka → configmap_ready t w0 w' cluster reg roles tka.
Proof.
  intros Ht Hk Hcms (tok & (cm & Hcm & Hdoc) & Hv). exists tok. split.
  - exists cm. split; [by apply Hcms|done].
  - by eapply valid_within_later.
Qed.

Section run.
Context `{!GeneratorLaws (t_TokenGenerator t), !GeneratorFresh (t_TokenGenerator t)}.

(** Each stage: its specification together with its progress. *)
Definition secret_slots (cluster : Cluster) (x : slot) : Prop :=
  x = slot_obj KSecret (secret_key (cluster_name cluster) (cluster_namespace cluster)) ∨
  ∃ n, x = slot_token n.
Definition configmap_slots (cluster : Cluster) (x : slot) : Prop :=
  x = slot_obj KConfigMap (configmap_key t (cluster_name cluster) (cluster_namespace cluster)) ∨
  ∃ n, x = slot_token n.

Lemma stage_secret cluster reg w :
  wp (reconcileSecret t cluster reg) (λ o w', (match o with
    | Ret _ => ∃ tok,
        holds_token (view w') (secret_key (cluster_name cluster) (cluster_namespace cluster)) tok ∧
        valid_within w w' reg tok [role_node]
    | _ => True
    end) ∧ progress (secret_slots cluster) w w') w.
Proof.
  apply wp_and; [by apply wp_reconcileSecret|]. apply keeps_wp, keeps_progress.
  - apply keeps_reconcileSecret; unfold secret_slots; eauto.
  - apply keeps_tokens_reconcileSecret; apply _.
Qed.

Lemma stage_configmap cluster reg roles w :
  roles ≠ [] → Forall known_role roles → register_name_agrees t (view w) cluster reg →
  wp (reconcileConfigMap t cluster reg roles) (λ o w', (match o with
    | Ret _ => configmap_ready t w w' cluster reg roles (deployed_version (view w) (agent_key cluster))
    | _ => True
    end) ∧ progress (configmap_slots cluster) w w') w.
Proof.
  intros Hne Hk Hag. apply wp_and; [by apply wp_reconcileConfigMap|].
  apply keeps_wp, keeps_progress.
  - apply keeps_reconcileConfigMap; unfold configmap_slots; eauto.
  - apply keeps_tokens_reconcileConfigMap; apply _.
Qed.

Lemma stage_reference rn ns cm w :
  wp (ensure_reference rn ns cm) (λ o w', (match o with
    | Ret _ => config_injected (view w') (mkKey ns rn) cm ∧ resources_grow (view w) (view w')
    | _ => True
    end) ∧ progress (resource_slot rn ns) w w') w.
Proof.
  apply wp_and; [apply wp_ensure_reference|]. apply keeps_wp, keeps_progress.
  - by apply keeps_ensure_reference.
  - apply keeps_tokens, keeps_ensure_reference. by intros x [-> | ->].
Qed.

Lemma stage_bot cluster reg w :
  wp (reconcileBot cluster reg) (λ o w', (match o with
    | Ret _ => bot_ready (view w') cluster ∧ resources_grow (view w) (view w')
    | _ => True
    end) ∧ progress (bot_slots cluster) w w' ∧ configmaps_kept w w') w.
Proof.
  apply wp_and; [apply wp_reconcileBot|]. apply wp_and.
  - apply keeps_wp, keeps_progress; [by apply keeps_reconcileBot|].
    apply keeps_tokens, keeps_reconcileBot. by intros x [-> | [-> | ->]].
  - apply keeps_wp, keeps_configmaps_reconcileBot.
Qed.

Lemma stage_finalizer cluster w :
  s_clusters (view w) !! cl_meta cluster = Some cluster →
  wp (ensureFinalizer cluster) (λ o w', (match o with
    | Ret _ => finalizer_set (view w') (cl_meta cluster)
    | _ => True
    end) ∧ progress (λ x, x = slot_obj KCluster (cl_meta cluster)) w w') w.
Proof.
  intros Hc. apply wp_and; [by apply wp_ensureFinalizer|]. apply keeps_wp, keeps_progress.
  - by apply keeps_ensureFinalizer.
  - by apply keeps_tokens, keeps_ensureFinalizer.
Qed.

Lemma progress_same F k key w w' :
  ¬ F (slot_obj k key) → progress F w w' → objs k (view w') !! key = objs k (view w) !! key.
Proof. intros HF [[_ HU] _]. by apply (untouched_obj F). Qed.

Lemma deployed_version_same F w w' key :
  ¬ F (slot_obj KHelmRelease key) → ¬ F (slot_obj KApp key) → progress F w w' →
  deployed_version (view w') key = deployed_version (view w) key.
Proof.
  intros HF1 HF2 Hp. unfold deployed_version.
  pose proof (progress_same F KHelmRelease key _ _ HF1 Hp) as E1.
  pose proof (progress_same F KApp key _ _ HF2 Hp) as E2. simpl in E1, E2. by rewrite E1, E2.
Qed.

Definition reference_slots (cluster : Cluster) (x : slot) : Prop :=
  resource_slot (agent_name t cluster) (cluster_namespace cluster) x ∨ bot_slots cluster x.

Lemma progress_mono (F G : slot → Prop) w w' : (∀ x, F x → G x) → progress F w w' → progress G w w'.
Proof. intros HFG [HS HT]. split; [by eapply step_mono|done]. Qed.

Lemma progress_trans F w1 w2 w3 : progress F w1 w2 → progress F w2 w3 → progress F w1 w3.
Proof. intros [HS1 HT1] [HS2 HT2]. split; [by etrans|intros n tk Htk; auto]. Qed.

(** The two last stages together: the agent's reference, then tbot. *)
Lemma stage_references bot cluster reg w :
  wp (ensure_reference (agent_name t cluster) (cluster_namespace cluster) (agent_configmap t cluster);;
      (if bot : bool then reconcileBot cluster reg else mret tt);;
      mret (mkResult (5 * Minute))) (λ o w', match o with
    | Ret res => res = mkResult (5 * Minute) ∧
        config_injected (view w') (agent_key cluster) (agent_configmap t cluster) ∧
        (bot = true → bot_ready (view w') cluster) ∧
        deployed_version (view w') (agent_key cluster) = deployed_version (view w) (agent_key cluster) ∧
        progress (reference_slots cluster) w w' ∧ configmaps_kept w w'
    | _ => True
    end) w.
Proof.
  apply wp_bind. eapply wp_mono; [apply stage_reference|].
  intros [[]|?|] w1 [Href Hp1]; [|done..]. destruct Href as [Hinj Hg1].
  assert (configmaps_kept w w1) as Hcm1.
  { intros key cm Hcm. etrans; [|exact Hcm].
    eapply (progress_same _ KConfigMap); [|exact Hp1]. by intros [|]. }
  assert (progress (reference_slots cluster) w w1) as Hp1'.
  { eapply progress_mono; [|exact Hp1]. by left. }
  destruct bot.
  - apply wp_bind. eapply wp_mono; [apply stage_bot|].
    intros [[]|?|] w2 (Hbot & Hp2 & Hcm2); [|done..]. destruct Hbot as [Hbot Hg2].
    apply wp_ret. split_and!; [done|by apply Hg2|done| | |].
    + by rewrite (proj1 (Hg2 _)), (proj1 (Hg1 _)).
    + eapply progress_trans; [exact Hp1'|]. eapply progress_mono; [|exact Hp2]. by right.
    + intros key cm Hcm. auto.
  - apply wp_bind, wp_ret, wp_ret. split_and!; [done..| | |done|done]; [done|].
    apply (proj1 (Hg1 _)).
Qed.

Lemma wp_reconcileNormal bot cluster reg roles w :
  s_clusters (view w) !! cl_meta cluster = Some cluster →
  roles ≠ [] → Forall known_role roles →
  register_name_agrees t (view w) cluster reg →
  wp (reconcileNormal t bot cluster reg roles) (λ o w', match o with
    | Ret res => res = mkResult (5 * Minute) ∧ registered w w' bot cluster reg roles
    | _ => True
    end) w.
Proof.
  intros Hc Hne Hk Hag. unfold reconcileNormal.
  apply wp_bind. eapply wp_mono; [by apply stage_finalizer|].
  intros [[]|?|] w1 [Hfin Hp1]; [|done..].
  apply wp_bind. eapply wp_mono; [apply stage_secret|].
  intros [[]|?|] w2 [Hsec Hp2]; [|done..].
  assert (register_name_agrees t (view w2) cluster reg) as Hag2.
  { intros cm Hcm. apply Hag. rewrite <-Hcm.
    etrans; [symmetry; eapply (progress_same _ KConfigMap); [|exact Hp1]; done|].
    symmetry. eapply (progress_same _ KConfigMap); [|exact Hp2]. by intros [|[]]. }
  apply wp_bind. eapply wp_mono; [by apply stage_configmap|].
  intros [[]|?|] w3 [Hcm Hp3]; [|done..].
  eapply wp_mono; [apply stage_references|].
  intros [res|?|] w4 Hrefs; [|done..].
  destruct Hrefs as (-> & Hinj & Hbot & Hver & Hp4 & Hcms).
  split; [done|].
  pose proof (progress_now _ _ _ Hp1). pose proof (progress_now _ _ _ Hp2).
  pose proof (progress_now _ _ _ Hp3). pose proof (progress_now _ _ _ Hp4).
  constructor; [| | |done|done].
  - eapply finalizer_set_kept; [|exact Hp4|]; [by intros [[|]|[|[|]]]|].
    eapply finalizer_set_kept; [|exact Hp3|]; [by intros [|[]]|].
    by eapply finalizer_set_kept; [|exact Hp2|]; [intros [|[]]|].
  - eapply secret_kept; [|exact Hp4|].
    { by intros [[|]|[|[|]]]. }
    eapply secret_kept; [|exact Hp3|].
    { by intros [|[]]. }
    destruct Hsec as (tok & Hh & Hv). exists tok. split; [done|].
    eapply valid_within_earlier; [|exact Hv]. done.
  - rewrite Hver, (deployed_version_same (configmap_slots cluster) w2 w3)
      by (done || by intros [|[]]).
    eapply configmap_ready_kept; [done|apply Hp4|done|].
    destruct Hcm as (tok & Hdoc & Hv). exists tok. split; [done|].
    eapply valid_within_earlier; [|exact Hv]. lia.
Qed.

(** ** Keeping it *)

Lemma valid_within_now w reg tok roles :
  valid_within w w reg tok roles ↔ valid_token (view w) (now w) reg tok roles.
Proof.
  split; [|by exists (now w)]. intros (tc & Htc & Hv). by replace (now w) with tc by lia.
Qed.

Lemma noop_secret cluster reg w tok :
  holds_token (view w) (secret_key (cluster_name cluster) (cluster_namespace cluster)) tok →
  valid_token (view w) (now w) reg tok [role_node] →
  wp (reconcileSecret t cluster reg) (λ _ w', w' = w) w.
Proof.
  intros (sec & Hsec & Htok) Hv. unfold reconcileSecret.
  wp_call (wp_get_or_nil KSecret). intros [[sec'|]|e|] w1 [-> Hsec']; simpl; [| |done..];
    simpl in Hsec'; [|congruence].
  assert (sec' = sec) as -> by congruence. rewrite Htok.
  apply wp_bind, wp_mask_errors, wp_lift. simpl.
  wp_call (wp_IsTokenValid t reg tok role_node [role_node]); [done|].
  intros [b|e|] w1 [-> Hb]; simpl; [|done..]. rewrite (proj2 Hb Hv). by apply wp_ret.
Qed.

Lemma noop_reference rn ns cm w :
  config_injected (view w) (mkKey ns rn) cm →
  wp (ensure_reference rn ns cm) (λ _ w', w' = w) w.
Proof. intros Hinj. by apply wp_mask_bind, wp_ensure_noop. Qed.

Lemma wp_noop_reference rn ns cm w :
  wp (ensure_reference rn ns cm) (λ _ w', config_injected (view w) (mkKey ns rn) cm → w' = w) w.
Proof. rewrite wp_unfold. intros Hinj. by apply (noop_reference rn ns cm w) in Hinj. Qed.

(** C27. Injecting a reference: whatever the outcome, only the HelmRelease or the App of the
    resource may change; without an error the reference is in place, no reference was lost and
    no chart version changed; and when it was already in place, nothing is written. *)
Theorem ensure_reference_contract rn ns cm w :
  wp (ensure_reference rn ns cm) (λ o w',
    untouched (resource_slot rn ns) (view w) (view w') ∧
    (config_injected (view w) (mkKey ns rn) cm → w' = w) ∧
    match o with
    | Ret _ => config_injected (view w') (mkKey ns rn) cm ∧ resources_grow (view w) (view w')
    | _ => True
    end) w.
Proof.
  eapply wp_mono; [apply wp_and; [apply stage_reference|apply wp_noop_reference]|].
  intros o w' [[Ho Hp] Hnoop]. split_and!; [apply Hp|done..].
Qed.

Lemma noop_bot cluster reg w :
  bot_ready (view w) cluster → wp (reconcileBot cluster reg) (λ _ w', w' = w) w.
Proof.
  intros Hb. unfold reconcileBot. wp_call (wp_get_or_nil KSecret).
  intros [[sec|]|e|] w1 [-> Hsec]; simpl; [by apply wp_ret| |done..]; simpl in Hsec.
  destruct Hb as [[sec Hsec']|[[cm Hcm] Hinj]]; [congruence|].
  apply wp_bind, wp_mask_errors. unfold EnsureTbotConfigMap, GetTbotConfigMap.
  wp_call (wp_get_or_nil KConfigMap). intros [[cm'|]|e|] w1 [-> Hcm']; simpl; [| |done..];
    simpl in Hcm'; [|congruence].
  apply wp_ret. simpl. by apply noop_reference.
Qed.

Lemma noop_configmap `{!YamlLaws} cluster reg roles w tok :
  roles ≠ [] →
  plain_inputs tok (cfg_ProxyAddr (t_Config t)) reg (cfg_TeleportVersion (t_Config t)) roles →
  has_values (view w) (configmap_key t (cluster_name cluster) (cluster_namespace cluster))
    (RenderConfigMapValues t reg tok roles (deployed_version (view w) (agent_key cluster))) →
  valid_token (view w) (now w) reg tok roles →
  wp (reconcileConfigMap t cluster reg roles) (λ _ w', w' = w) w.
Proof.
  intros Hne Hplain (cm & Hcm & Hdoc) Hv. unfold reconcileConfigMap.
  wp_call wp_GetTeleportKubeAgentVersion. intros [tka|e|] w1 [-> Htka]; simpl; [|done..].
  unfold agent_key in Hdoc. rewrite <-Htka in Hdoc.
  wp_call (wp_get_or_nil KConfigMap). intros [[cm'|]|e|] w1 [-> Hcm']; simpl; [| |done..];
    simpl in Hcm'; [|congruence].
  assert (cm' = cm) as -> by congruence.
  assert (GetTokenFromConfigMap cm = Ret tok) as Htok.
  { unfold GetTokenFromConfigMap. rewrite (parse_rendered t cm reg tok roles tka Hdoc Hplain).
    simpl. by rewrite entries_token. }
  unfold updateExistingConfigMap. rewrite Htok. apply wp_bind, wp_mask_errors, wp_lift. simpl.
  wp_call (wp_IsTokenValid t reg tok (RolesToString roles) roles).
  { apply ParseRoles_RolesToString; [done|apply Hplain]. }
  intros [b|e|] w1 [-> Hb]; simpl; [|done..]. rewrite (proj2 Hb Hv). simpl.
  apply wp_bind, wp_ret. cbn zeta. rewrite Hdoc. simpl. rewrite decide_True by done.
  by apply wp_ret.
Qed.

(** In the registered state, with tokens that are valid now, a further
    [reconcileNormal] writes nothing, whether its reads succeed or fail. *)
Lemma wp_reconcileNormal_stable `{!YamlLaws} bot cluster reg roles w :
  s_clusters (view w) !! cl_meta cluster = Some cluster →
  registered w w bot cluster reg roles →
  roles ≠ [] → Forall known_role roles →
  (∀ n, is_Some (s_tokens (view w) !! n) → plain n = true) →
  plain reg = true → plain (cfg_ProxyAddr (t_Config t)) = true →
  plain (cfg_TeleportVersion (t_Config t)) = true →
  wp (reconcileNormal t bot cluster reg roles) (λ _ w', w' = w) w.
Proof.
  intros Hc [Hfin Hsec Hcm Hinj Hbot] Hne Hk Htokens Hreg Hproxy Hversion.
  destruct Hfin as (c & Hc' & Hin). assert (c = cluster) as -> by congruence.
  destruct Hsec as (tok & Hsec & Hv%valid_within_now).
  destruct Hcm as (tok' & Hdoc & Hv'%valid_within_now).
  assert (plain tok' = true) as Htok' by (apply Htokens; destruct Hv' as (tk & -> & _); eauto).
  unfold reconcileNormal, ensureFinalizer.
  rewrite ContainsFinalizer_spec, bool_decide_true by done. apply wp_bind, wp_ret.
  apply wp_bind. eapply wp_mono; [by eapply noop_secret|]. intros [[]|?|] w1 ->; [|done..].
  apply wp_bind. eapply wp_mono; [by apply (noop_configmap cluster reg roles w tok')|].
  intros [[]|?|] w1 ->; [|done..].
  apply wp_bind. eapply wp_mono; [by apply noop_reference|]. intros [[]|?|] w1 ->; [|done..].
  apply wp_bind. destruct bot; [|by apply wp_ret, wp_ret].
  eapply wp_mono; [by apply noop_bot, Hbot|]. by intros [[]|?|] w1 ->; [apply wp_ret|..].
Qed.

(** ** Footprint and the finalizer's place *)

(** What follows the finalizer. *)
Definition register_resources (bot : bool) (cluster : Cluster) (reg : string)
    (roles : list string) : M world Result :=
  reconcileSecret t cluster reg;;
  reconcileConfigMap t cluster reg roles;;
  ensure_reference (agent_name t cluster) (cluster_namespace cluster) (agent_configmap t cluster);;
  (if bot then reconcileBot cluster reg else mret tt);;
  mret (mkResult (5 * Minute)).

Lemma keeps_register_resources (F : slot → Prop) bot cluster reg roles :
  (∀ x, cluster_slots t bot cluster x → x ≠ slot_obj KCluster (cl_meta cluster) → F x) →
  Keeps (step F) (register_resources bot cluster reg roles).
Proof.
  intros HF. unfold cluster_slots in HF. unfold register_resources.
  assert (∀ n, F (slot_token n)) by (intros n; apply HF; [eauto 8|done]).
  repeat (apply keeps_bind; [apply _| |intros _]).
  - apply keeps_reconcileSecret; [apply _|done|apply HF; [auto|done]].
  - apply keeps_reconcileConfigMap; [apply _|done|apply HF; [auto|done]].
  - apply keeps_ensure_reference. intros x Hx. apply HF; [auto|by destruct Hx as [-> | ->]].
  - destruct bot; [|apply keeps_ret, _]. apply keeps_reconcileBot.
    intros x Hx. apply HF; [|by destruct Hx as [-> | [-> | ->]]].
    do 5 right. split; [done|]. destruct Hx; auto.
  - apply keeps_ret, _.
Qed.

Lemma keeps_reconcileNormal (F : slot → Prop) bot cluster reg roles :
  (∀ x, cluster_slots t bot cluster x → F x) →
  Keeps (step F) (reconcileNormal t bot cluster reg roles).
Proof.
  intros HF. unfold cluster_slots in HF. apply keeps_bind; [apply _| |intros _].
  - apply keeps_ensureFinalizer, HF. by left.
  - apply keeps_register_resources. auto.
Qed.

Lemma keeps_tokens_reconcileNormal bot cluster reg roles :
  Keeps tokens_kept (reconcileNormal t bot cluster reg roles).
Proof.
  unfold reconcileNormal. repeat (apply keeps_bind; [apply _| |intros _]).
  - by apply keeps_tokens, keeps_ensureFinalizer.
  - apply keeps_tokens_reconcileSecret; apply _.
  - apply keeps_tokens_reconcileConfigMap; apply _.
  - apply keeps_tokens, keeps_ensure_reference. by intros x [-> | ->].
  - destruct bot; [|apply keeps_ret, _]. apply keeps_tokens, keeps_reconcileBot.
    by intros x [-> | [-> | ->]].
  - apply keeps_ret, _.
Qed.

(** C9. The finalizer comes first: whatever the outcome, either the stored Cluster carries
    the finalizer, or nothing but the Cluster object changed; so no Secret, ConfigMap, token
    or reference is ever created for a cluster whose deletion would not clean it up. *)
Theorem reconcileNormal_finalizer_first bot cluster reg roles w :
  s_clusters (view w) !! cl_meta cluster = Some cluster →
  wp (reconcileNormal t bot cluster reg roles) (λ _ w',
    finalizer_set (view w') (cl_meta cluster) ∨
    untouched (λ x, x = slot_obj KCluster (cl_meta cluster)) (view w) (view w')) w.
Proof.
  intros Hc. unfold reconcileNormal. apply wp_bind.
  eapply wp_mono; [by apply stage_finalizer|].
  intros [[]|?|] w1 [Hfin Hp1]; [|right; apply Hp1..].
  eapply wp_mono; [apply (keeps_wp (step no_clusters)), keeps_register_resources|].
  - intros [[]|n] Hx Hne; simpl; try done. apply Hne. f_equal.
    by destruct Hx as [[= ->]|[|[|[[|]|[[]|[_ [|[|[|]]]]]]]]].
  - intros o w' [_ HU]. left. destruct Hfin as (c & Hc' & Hin). exists c. split; [|done].
    rewrite <-Hc'. apply (untouched_obj _ KCluster _ _ _ HU). by intros [].
Qed.
End run.
End Registered.
