(* ===== verification/Deregistration.v ===== *)
(** * Deregistering a cluster

    [cleaned] is the specification of [reconcileDelete]: what is gone when the
    finalizer goes, and in particular before it goes. *)
From S2P Require Import Prelude GoStrings GoValue GoTime Libraries Key Objects World Config.
From S2P Require Import Teleport Token Secret Finalizer ConfigMap AppManager Controller Stages.
From S2P Require Import Registration Registered.

Section Deregistration.
Context `{Unicode, Semver, Yaml, WorldLaws, !ProvisionTokens, !TeleportTypesLaws,
  ControllerUtil, !ControllerUtilLaws}.

(** ** Specification *)

Definition bot_cleaned (s : Snapshot) (cluster : Cluster) : Prop :=
  config_removed s (mkKey TeleportBotNamespace TeleportBotAppName)
    (GetTbotConfigmapName (cluster_name cluster)) ∧
  s_configmaps s !! tbot_configmap_key (cluster_name cluster) TeleportBotNamespace = None ∧
  s_secrets s !! kubeconfig_key (cluster_name cluster) TeleportBotNamespace = None.

Record cleaned (s : Snapshot) (t : Teleport) (bot : bool) (cluster : Cluster) : Prop := {
  cleaned_secret :
    s_secrets s !! secret_key (cluster_name cluster) (cluster_namespace cluster) = None;
  cleaned_configmap :
    s_configmaps s !! configmap_key t (cluster_name cluster) (cluster_namespace cluster) = None;
  cleaned_reference : config_removed s (agent_key t cluster) (agent_configmap t cluster);
  cleaned_bot : bot = true → bot_cleaned s cluster;
}.

(** One of the cluster's tokens is gone, if there was one. *)
Definition one_token_deleted (reg : string) (s s' : Snapshot) : Prop :=
  (cluster_tokens reg s = ∅ ∧ s_tokens s' = s_tokens s) ∨
  ∃ n, n ∈ cluster_tokens reg s ∧ s_tokens s' = delete n (s_tokens s).

(** ** What deletions keep *)

(** Absent Secrets and ConfigMaps stay absent. *)
Definition absent_kept (w w' : world) : Prop :=
  ∀ key, (s_secrets (view w) !! key = None → s_secrets (view w') !! key = None) ∧
         (s_configmaps (view w) !! key = None → s_configmaps (view w') !! key = None).

#[local] Instance absent_kept_preorder : PreOrder absent_kept.
Proof.
  split; [by intros w key|]. intros w1 w2 w3 K12 K23 key.
  destruct (K12 key), (K23 key). auto.
Qed.

Lemma absent_kept_step F w w' :
  (∀ key, ¬ F (slot_obj KSecret key)) → (∀ key, ¬ F (slot_obj KConfigMap key)) →
  step F w w' → absent_kept w w'.
Proof.
  intros HS HC [_ HU] key.
  pose proof (untouched_obj F KSecret key _ _ HU (HS key)) as E1.
  pose proof (untouched_obj F KConfigMap key _ _ HU (HC key)) as E2.
  simpl in *. by rewrite E1, E2.
Qed.

Lemma keeps_absent_delete k key f :
  k = KSecret ∨ k = KConfigMap → Keeps absent_kept (delete_if_present k key f).
Proof.
  intros Hk. unfold delete_if_present. apply keeps_bind; [apply _| |solve_keeps].
  intros w. pose proof (Delete_spec k key w Hk) as [_ Hw].
  change (absent_kept w (k8s_Delete k key w).2).
  assert (view (k8s_Delete k key w).2 = view w ∨
    view (k8s_Delete k key w).2 = del_obj k key (view w)) as Hv
    by (destruct (k8s_Delete k key w).1; naive_solver).
  intros key'. destruct Hv as [->|Hv]; [done|]. rewrite Hv.
  destruct Hk as [-> | ->]; simpl; split; auto; intros Hn;
    by apply lookup_delete_None; right.
Qed.

(** Removing a reference brings none back. *)
Definition resources_shrink (s s' : Snapshot) : Prop :=
  ∀ key cm, config_removed s key cm → config_removed s' key cm.

Lemma resources_shrink_same s s' :
  s_helmreleases s' = s_helmreleases s → s_apps s' = s_apps s → resources_shrink s s'.
Proof. intros E1 E2 key cm. unfold config_removed. by rewrite E1, E2. Qed.

Lemma resources_shrink_step F w w' :
  (∀ key, ¬ F (slot_obj KHelmRelease key)) → (∀ key, ¬ F (slot_obj KApp key)) →
  step F w w' → resources_shrink (view w) (view w').
Proof.
  intros HH HA [_ HU]. apply resources_shrink_same; apply map_eq; intros key.
  - by apply (untouched_obj F KHelmRelease).
  - by apply (untouched_obj F KApp).
Qed.

Lemma resources_shrink_helmrelease s key hr ref :
  s_helmreleases s !! key = Some hr → hr_meta hr = key →
  resources_shrink s
    (put_obj KHelmRelease (setValuesFrom hr (Some (filter (λ x, x ≠ ref) (hr_refs hr)))) s).
Proof.
  intros Hhr <- key' cm. unfold config_removed. simpl.
  destruct (decide (hr_meta hr = key')) as [<-|Hne]; [|by rewrite lookup_insert_ne].
  rewrite lookup_insert_eq, Hhr. unfold stored. rewrite hr_refs_set.
  by intros Hnot [_ Hin]%list_elem_of_filter.
Qed.

Lemma resources_shrink_app s key app ref :
  s_apps s !! key = Some app → app_meta app = key →
  resources_shrink s
    (put_obj KApp (with_extra_configs app (Some (filter (λ x, x ≠ ref) (app_refs app)))) s).
Proof.
  intros Happ <- key' cm. unfold config_removed. simpl.
  destruct (s_helmreleases s !! key'); [done|].
  destruct (decide (app_meta app = key')) as [<-|Hne]; [|by rewrite lookup_insert_ne].
  rewrite lookup_insert_eq, Happ. by intros Hnot [_ Hin]%list_elem_of_filter.
Qed.

(** ** The stages *)

Lemma keeps_delete_reference (F : slot → Prop) rn ns cm :
  (∀ x, resource_slot rn ns x → F x) → Keeps (step F) (delete_reference rn ns cm).
Proof.
  intros HF w. unfold delete_reference. rewrite mask_bind.
  assert (Keeps (step F) (NewTeleportAppConfigManager rn ns cm ≫= DeleteConfig)) as Hk.
  { apply keeps_manager_bind. intros m Hm. apply keeps_DeleteConfig. eauto. }
  by apply keeps_mask_errors.
Qed.

Lemma wp_delete_shrinks rn ns cm w :
  wp (NewTeleportAppConfigManager rn ns cm ≫= DeleteConfig) (λ o w',
    match o with Ret _ => resources_shrink (view w) (view w') | _ => True end) w.
Proof.
  apply wp_bind. eapply wp_mono; [apply wp_NewTeleportAppConfigManager|].
  intros [m|?|] w1 [-> _]; [|done..]. destruct m as [rn' ns' cm'|rn' ns' cm'|rn' ns']; simpl.
  - eapply wp_mono; [apply wp_helmRelease_DeleteConfig|]. intros [?|?|] w' Hv; [|done..].
    destruct Hv as [[_ ->]|(hr & Hhr & [[_ ->]| ->])]; [by apply resources_shrink_same..|].
    eapply resources_shrink_helmrelease; [done|by eapply hr_meta_key].
  - eapply wp_mono; [apply wp_appCR_DeleteConfig|]. intros [?|?|] w' Hv; [|done..].
    destruct Hv as [[_ ->]|(app & Happ & [[_ ->]|[_ ->]])]; [by apply resources_shrink_same..|].
    eapply resources_shrink_app; [done|by eapply app_meta_key].
  - by apply wp_ret, resources_shrink_same.
Qed.

Lemma stage_delete_reference rn ns cm w :
  wp (delete_reference rn ns cm) (λ o w', (match o with
    | Ret _ => config_removed (view w') (mkKey ns rn) cm ∧ resources_shrink (view w) (view w')
    | _ => True
    end) ∧ step (resource_slot rn ns) w w' ∧ absent_kept w w') w.
Proof.
  pose proof (keeps_delete_reference (resource_slot rn ns) rn ns cm (λ _ Hx, Hx)) as Hk.
  apply wp_and.
  - apply wp_mask_bind. eapply wp_mono;
      [apply wp_and; [apply wp_delete_removes|apply wp_delete_shrinks]|].
    intros [?|?|] w' Ho; simpl in *; tauto.
  - apply (keeps_wp (λ w w', step (resource_slot rn ns) w w' ∧ absent_kept w w')).
    intros w1. split; [apply Hk|]. eapply absent_kept_step; [..|apply Hk]; by intros ? [|].
Qed.

Lemma stage_delete k key f w :
  k = KSecret ∨ k = KConfigMap →
  wp (mask_errors (delete_if_present k key f)) (λ o w', (match o with
    | Ret _ => objs k (view w') !! key = None
    | _ => True
    end) ∧ step (λ x, x = slot_obj k key) w w' ∧ absent_kept w w' ∧
    resources_shrink (view w) (view w')) w.
Proof.
  intros Hk. apply wp_mask_errors. eapply wp_mono.
  { apply wp_and; [by apply (wp_delete_if_present k)|].
    apply wp_and; [apply (keeps_wp (step (λ x, x = slot_obj k key))); by apply (keeps_delete_if_present _ k)|].
    by apply (keeps_wp absent_kept), keeps_absent_delete. }
  intros o w' (Ho & Hs & Ha). split_and!; [by destruct o|done..|].
  eapply resources_shrink_step; [..|exact Hs]; destruct Hk as [-> | ->]; by intros ? [=].
Qed.

(** C28. Removing a reference: whatever the outcome, only the HelmRelease or the App of the
    resource may change; without an error the reference is gone and none came back. *)
Theorem delete_reference_contract rn ns cm w :
  wp (delete_reference rn ns cm) (λ o w',
    untouched (resource_slot rn ns) (view w) (view w') ∧
    match o with
    | Ret _ => config_removed (view w') (mkKey ns rn) cm ∧ resources_shrink (view w) (view w')
    | _ => True
    end) w.
Proof.
  eapply wp_mono; [apply stage_delete_reference|]. intros o w' (Ho & [_ HU] & _). done.
Qed.

(** *** Deleting steps and what survives them *)

(** Neither Clusters nor tokens. *)
Definition quiet (x : slot) : Prop := no_clusters x ∧ no_tokens x.

Definition deletes (w w' : world) : Prop :=
  step quiet w w' ∧ absent_kept w w' ∧ resources_shrink (view w) (view w').

(** A deletion that establishes [P] when it returns. *)
Definition deleting (m : M world unit) (P : Snapshot → Prop) : Prop :=
  ∀ w, wp m (λ o w', step quiet w w' ∧
         match o with Ret _ => P (view w') ∧ deletes w w' | _ => True end) w.

(** What later deletions keep. *)
Definition stable (P : Snapshot → Prop) : Prop :=
  ∀ w w', deletes w w' → P (view w) → P (view w').

Lemma deletes_trans w1 w2 w3 : deletes w1 w2 → deletes w2 w3 → deletes w1 w3.
Proof.
  intros (HS1 & HA1 & HR1) (HS2 & HA2 & HR2). split_and!; [by etrans..|].
  intros key cm Hr. auto.
Qed.

Lemma stable_no_secret key : stable (λ s, s_secrets s !! key = None).
Proof. intros w w' (_ & HA & _). apply HA. Qed.

Lemma stable_no_configmap key : stable (λ s, s_configmaps s !! key = None).
Proof. intros w w' (_ & HA & _). apply HA. Qed.

Lemma stable_removed key cm : stable (λ s, config_removed s key cm).
Proof. intros w w' (_ & _ & HR). apply HR. Qed.

Lemma stable_bot_cleaned cluster : stable (λ s, bot_cleaned s cluster).
Proof.
  intros w w' Hd (Hr & Hc & Hs). split_and!.
  - by eapply stable_removed.
  - by eapply stable_no_configmap.
  - by eapply stable_no_secret.
Qed.

Lemma deleting_delete k key f :
  k = KSecret ∨ k = KConfigMap →
  deleting (mask_errors (delete_if_present k key f)) (λ s, objs k s !! key = None).
Proof.
  intros Hk w. eapply wp_mono; [by apply (stage_delete k)|]. intros o w' (Ho & Hs & Ha & Hr).
  assert (step quiet w w').
  { eapply step_mono; [|exact Hs]. intros x ->. by destruct Hk as [-> | ->]. }
  split; [done|]. by destruct o.
Qed.

Lemma deleting_reference rn ns cm :
  deleting (delete_reference rn ns cm) (λ s, config_removed s (mkKey ns rn) cm).
Proof.
  intros w. eapply wp_mono; [apply stage_delete_reference|]. intros o w' (Ho & Hs & Ha).
  assert (step quiet w w').
  { eapply step_mono; [|exact Hs]. by intros x [-> | ->]. }
  split; [done|]. destruct o; [|done..]. destruct Ho. by split_and!.
Qed.

(** Sequencing: the outcome of an abandoned run, or the rest after the deletion. *)
Lemma wp_deleting {A} m P (k : M world A) (Q : outcome A → world → Prop) w :
  deleting m P →
  (∀ w', step quiet w w' → (∀ e, Q (Err e) w') ∧ Q Panic w') →
  (∀ w', deletes w w' → P (view w') → wp k Q w') →
  wp (m;; k) Q w.
Proof.
  intros Hm Hstop Hk. apply wp_bind. eapply wp_mono; [apply Hm|].
  intros [a|e|] w' [Hs Ho]; [|by apply Hstop..]. destruct Ho. by apply Hk.
Qed.

Lemma deleting_seq m1 P1 m2 P2 :
  deleting m1 P1 → deleting m2 P2 → stable P1 → deleting (m1;; m2) (λ s, P1 s ∧ P2 s).
Proof.
  intros Hm1 Hm2 HP1 w. apply (wp_deleting m1 P1); [done|done|]. intros w1 Hd1 H1'.
  eapply wp_mono; [apply Hm2|]. intros o w' [Hs Ho]. split.
  - destruct Hd1 as [Hs1 _]. by etrans.
  - destruct o; [|done..]. destruct Ho as [H2' Hd2].
    split_and!; [by eapply HP1|done|by eapply deletes_trans..].
Qed.

Lemma deleting_tbot cluster : deleting (delete_tbot cluster) (λ s, bot_cleaned s cluster).
Proof.
  assert (stable (λ s, s_configmaps s !! tbot_configmap_key (cluster_name cluster)
                        TeleportBotNamespace = None)) by apply stable_no_configmap.
  apply deleting_seq; [apply deleting_reference| |apply stable_removed].
  apply deleting_seq; [|by apply (deleting_delete KSecret); left|done].
  by apply (deleting_delete KConfigMap); right.
Qed.

Lemma deleting_tbot_if (bot : bool) cluster :
  deleting (if bot then delete_tbot cluster else mret tt)
    (λ s, bot = true → bot_cleaned s cluster).
Proof.
  destruct bot; intros w.
  - eapply wp_mono; [apply deleting_tbot|]. intros o w' [Hs Ho]. split; [done|].
    destruct o; [|done..]. destruct Ho. by split.
  - apply wp_ret. split; [reflexivity|]. split; [done|]. split_and!; [reflexivity..|].
    by apply resources_shrink_same.
Qed.

(** *** The token *)

Lemma stage_token t reg w :
  wp (mask_errors (DeleteToken t reg)) (λ o w',
    step (λ x, ∃ n, x = slot_token n) w w' ∧
    match o with Ret _ => one_token_deleted reg (view w) (view w') | _ => True end) w.
Proof.
  apply wp_mask_errors. eapply wp_mono.
  { apply wp_and; [apply wp_DeleteToken|].
    apply (keeps_wp (step (λ x, ∃ n, x = slot_token n))), keeps_DeleteToken_cluster. eauto. }
  intros o w' [[Ht Ho] Hs]. split; [done|]. destruct o; simpl; [|done..].
  destruct Ho as [[-> Hn]|(n & Hn & ->)]; [by left|right; eauto].
Qed.

(** ** The whole *)

Section run.
Context (t : Teleport) (bot : bool) (cluster : Cluster) (reg : string).

(** What precedes the finalizer, with the rest of the run as an argument: it is
    reached in a cleaned state only, and no Cluster was touched on the way. *)
Definition remove_resources {A} (k : M world A) : M world A :=
  mask_errors (DeleteToken t reg);;
  mask_errors (DeleteSecret (cluster_name cluster) (cluster_namespace cluster));;
  mask_errors (DeleteConfigMap t (cluster_name cluster) (cluster_namespace cluster));;
  (if bot then delete_tbot cluster else mret tt);;
  delete_reference (agent_name t cluster) (cluster_namespace cluster) (agent_configmap t cluster);;
  k.

Lemma tokens_quiet w w' : step quiet w w' → s_tokens (view w') = s_tokens (view w).
Proof. intros [_ HU]. apply map_eq. intros n. apply (untouched_token quiet n _ _ HU). by intros []. Qed.

Lemma wp_remove_resources {A} (k : M world A) (Q : outcome A → world → Prop) w :
  (∀ w', step no_clusters w w' → (∀ e, Q (Err e) w') ∧ Q Panic w') →
  (∀ w', step no_clusters w w' → cleaned (view w') t bot cluster →
         one_token_deleted reg (view w) (view w') → wp k Q w') →
  wp (remove_resources k) Q w.
Proof.
  intros Hstop Hk. apply wp_bind. eapply wp_mono; [apply stage_token|].
  intros o w1 [Hs1 Htok].
  assert (step no_clusters w w1) as Hs1'.
  { eapply step_mono; [|exact Hs1]. by intros x [n ->]. }
  destruct o as [[]|e|]; [|by apply Hstop..].
  assert (∀ w', step quiet w1 w' → step no_clusters w w') as Hquiet.
  { intros w' Hs. etrans; [exact Hs1'|]. eapply step_mono; [|exact Hs]. by intros x []. }
  assert (∀ w0, deletes w1 w0 → ∀ w', step quiet w0 w' →
    (∀ e, Q (Err e) w') ∧ Q Panic w') as Hstop'.
  { intros w0 [Hd _] w' Hs. apply Hstop, Hquiet. by etrans. }
  eapply wp_deleting; [by apply (deleting_delete KSecret); left| |].
  { intros w' Hs. by apply Hstop, Hquiet. }
  intros w2 Hd2 Hsec. simpl in Hsec.
  eapply wp_deleting; [by apply (deleting_delete KConfigMap); right|by apply Hstop'|].
  intros w3 Hd3 Hcm. simpl in Hcm. pose proof (deletes_trans _ _ _ Hd2 Hd3) as Hd13.
  eapply wp_deleting; [apply deleting_tbot_if|by apply Hstop'|].
  intros w4 Hd4 Hbot. pose proof (deletes_trans _ _ _ Hd13 Hd4) as Hd14.
  eapply wp_deleting; [apply deleting_reference|by apply Hstop'|].
  intros w5 Hd5 Href. pose proof (deletes_trans _ _ _ Hd14 Hd5) as Hd15.
  pose proof (deletes_trans _ _ _ Hd4 Hd5) as Hd35.
  pose proof (deletes_trans _ _ _ Hd3 Hd35) as Hd25.
  apply Hk; [apply Hquiet, Hd15| |].
  - constructor; [by eapply stable_no_secret; [exact Hd25|]|
      by eapply stable_no_configmap; [exact Hd35|]|done|].
    intros Hb. eapply stable_bot_cleaned; [exact Hd5|]. by apply Hbot.
  - unfold one_token_deleted. by rewrite (tokens_quiet _ _ (proj1 Hd15)).
Qed.

(** What follows the token. *)
Definition remove_objects : M world Result :=
  mask_errors (DeleteSecret (cluster_name cluster) (cluster_namespace cluster));;
  mask_errors (DeleteConfigMap t (cluster_name cluster) (cluster_namespace cluster));;
  (if bot then delete_tbot cluster else mret tt);;
  delete_reference (agent_name t cluster) (cluster_namespace cluster) (agent_configmap t cluster);;
  (if ContainsFinalizer cluster TeleportOperatorFinalizer
   then mask_errors (RemoveFinalizer cluster) else mret tt);;
  mret (mkResult 0).

Lemma keeps_remove_objects (F : slot → Prop) :
  (∀ x, cluster_slots t bot cluster x → (∀ n, x ≠ slot_token n) → F x) →
  Keeps (step F) remove_objects.
Proof.
  intros HF. unfold cluster_slots in HF. unfold remove_objects, delete_tbot.
  assert (∀ rn ns, (∀ x, resource_slot rn ns x → cluster_slots t bot cluster x) →
    ∀ x, resource_slot rn ns x → F x) as HR.
  { intros rn ns Hsub x Hx. apply HF; [by apply Hsub|]. by destruct Hx as [-> | ->]. }
  repeat (apply keeps_bind; [apply _| |intros _]).
  - apply keeps_mask_errors, keeps_DeleteSecret, HF; [auto|done].
  - apply keeps_mask_errors, keeps_DeleteConfigMap, HF; [auto|done].
  - destruct bot; [|apply keeps_ret, _].
    repeat (apply keeps_bind; [apply _| |intros _]).
    + apply keeps_delete_reference, HR. intros x Hx. do 5 right. auto.
    + apply keeps_mask_errors, keeps_DeleteTbotConfigMap, HF; [do 5 right; auto|done].
    + apply keeps_mask_errors, keeps_DeleteKubeconfigSecret, HF; [do 5 right; auto|done].
  - apply keeps_delete_reference, HR. intros x Hx. right. auto.
  - destruct (ContainsFinalizer _ _); [|apply keeps_ret, _].
    apply keeps_mask_errors, keeps_RemoveFinalizer, HF; [by left|done].
  - apply keeps_ret, _.
Qed.

Lemma keeps_reconcileDelete (F : slot → Prop) :
  (∀ x, cluster_slots t bot cluster x → F x) → Keeps (step F) (reconcileDelete t bot cluster reg).
Proof.
  intros HF. apply keeps_bind; [apply _| |intros _].
  - apply keeps_mask_errors, keeps_DeleteToken_cluster. intros n. apply HF.
    unfold cluster_slots. eauto 8.
  - apply keeps_remove_objects. auto.
Qed.

(** The finalizer's patch leaves the cleaned objects and the tokens alone. *)
Definition cluster_only (x : slot) : Prop := x = slot_obj KCluster (cl_meta cluster).

Lemma cluster_step_same w w' k key :
  k ≠ KCluster → step cluster_only w w' → objs k (view w') !! key = objs k (view w) !! key.
Proof. intros Hk [_ HU]. apply (untouched_obj _ k _ _ _ HU). intros [= ??]. done. Qed.

Lemma tokens_cluster_step w w' : step cluster_only w w' → s_tokens (view w') = s_tokens (view w).
Proof. intros [_ HU]. apply map_eq. intros n. by apply (untouched_token _ n _ _ HU). Qed.

Lemma config_removed_cluster_step w w' key cm :
  step cluster_only w w' → config_removed (view w) key cm → config_removed (view w') key cm.
Proof.
  intros Hs. apply (resources_shrink_step cluster_only); by intros ? [=] || done.
Qed.

Lemma cleaned_cluster_step w w' :
  step cluster_only w w' → cleaned (view w) t bot cluster → cleaned (view w') t bot cluster.
Proof.
  intros Hs [Hsec Hcm Href Hbot].
  pose proof (cluster_step_same w w' KSecret) as ES.
  pose proof (cluster_step_same w w' KConfigMap) as EC. simpl in ES, EC.
  constructor; [by rewrite ES|by rewrite EC|by eapply config_removed_cluster_step|].
  intros Hb. destruct (Hbot Hb) as (Hr & Hc & Hk).
  split_and!; [by eapply config_removed_cluster_step|by rewrite EC|by rewrite ES].
Qed.

Lemma stage_RemoveFinalizer w :
  TeleportOperatorFinalizer ∈ cl_Finalizers cluster →
  wp (mask_errors (RemoveFinalizer cluster)) (λ o w', (match o with
    | Ret _ => finalizer_clear (view w') (cl_meta cluster)
    | _ => True
    end) ∧ step cluster_only w w') w.
Proof.
  intros Hin. apply wp_and.
  - apply wp_mask_errors. eapply wp_mono; [by apply wp_RemoveFinalizer|]. by intros [?|?|] w'.
  - by apply (keeps_wp (step cluster_only)), keeps_mask_errors, keeps_RemoveFinalizer.
Qed.

Lemma wp_reconcileDelete w :
  s_clusters (view w) !! cl_meta cluster = Some cluster →
  wp (reconcileDelete t bot cluster reg) (λ o w', match o with
    | Ret res => res = mkResult 0 ∧ cleaned (view w') t bot cluster ∧
        finalizer_clear (view w') (cl_meta cluster) ∧
        one_token_deleted reg (view w) (view w')
    | _ => True
    end) w.
Proof.
  intros Hc. apply wp_remove_resources; [done|]. intros w1 [_ HU1] Hclean Htok.
  rewrite ContainsFinalizer_spec. case_bool_decide as Hin.
  - apply wp_bind. eapply wp_mono; [by apply stage_RemoveFinalizer|].
    intros [[]|?|] w2 [Hfin Hs2]; [|done..]. apply wp_ret.
    split_and!; [done|by eapply cleaned_cluster_step|done|].
    unfold one_token_deleted. by rewrite (tokens_cluster_step _ _ Hs2).
  - apply wp_bind, wp_ret, wp_ret. split_and!; [done..| |done].
    intros c Hc'. rewrite (untouched_obj _ KCluster _ _ _ HU1) in Hc' by by intros [].
    simpl in Hc'. congruence.
Qed.

(** C8. The finalizer goes last: whatever the outcome and wherever the run stopped, either
    the stored Cluster is exactly as before, or everything [cleaned] lists is already gone
    and one of the cluster's tokens, if it had any, is deleted; so a failed run is retried with
    the finalizer still in place. *)
Theorem reconcileDelete_finalizer_last w :
  wp (reconcileDelete t bot cluster reg) (λ _ w',
    (∀ key, s_clusters (view w') !! key = s_clusters (view w) !! key) ∨
    (cleaned (view w') t bot cluster ∧ one_token_deleted reg (view w) (view w'))) w.
Proof.
  assert (∀ w', step no_clusters w w' →
    ∀ key, s_clusters (view w') !! key = s_clusters (view w) !! key) as Hsame.
  { intros w' [_ HU] key. apply (untouched_obj _ KCluster _ _ _ HU). by intros []. }
  apply wp_remove_resources; [intros w' Hs; split; intros; left; by apply Hsame|]. intros w1 Hs1 Hclean Htok.
  assert (Keeps (step (λ x, x = slot_obj KCluster (cl_meta cluster)))
    ((if ContainsFinalizer cluster TeleportOperatorFinalizer
      then mask_errors (RemoveFinalizer cluster) else mret tt);; mret (mkResult 0))) as Hk.
  { apply keeps_bind; [apply _| |solve_keeps].
    destruct (ContainsFinalizer _ _); [|apply keeps_ret, _].
    by apply keeps_mask_errors, keeps_RemoveFinalizer. }
  eapply wp_mono; [by apply (keeps_wp _ _ w1 Hk)|]. intros o w2 Hs2. right.
  split; [exact (cleaned_cluster_step _ _ Hs2 Hclean)|].
  unfold one_token_deleted. by rewrite (tokens_cluster_step _ _ Hs2).
Qed.
End run.
End Deregistration.
