(* ===== verification/Success.v ===== *)
(** * Success of the stages when the servers answer

    The stages of [reconcileNormal] and [reconcileDelete] return, in a good world,
    under conditions on what is stored ([readable_secret], [readable_configmap]). *)
From S2P Require Import Prelude GoStrings GoValue GoTime Libraries Key Objects World Config.
From S2P Require Import Teleport Token Secret Finalizer ConfigMap AppManager Healthy Controller.
From S2P Require Import Stages Registration Registered Deregistration.

(** A generator whose names Teleport takes. *)
Class GeneratorHealthy `{HealthyWorld} (g : Generator) : Prop := {
  Generate_good w :
    good w → wp (Generate g) (λ o w', ∃ n, o = Ret n ∧ n ≠ "" ∧ plain n = true ∧ good w') w;
}.

#[global] Instance NewGenerator_healthy `{HealthyWorld} : GeneratorHealthy NewGenerator.
Proof.
  constructor. intros w Hg. destruct (good_NewString w Hg) as (? & ? & ?). apply wp_run. eauto.
Qed.

Section Success.
Context `{Unicode, Semver, Yaml, HealthyWorld, !ProvisionTokens, !TeleportTypesLaws,
  !ProvisionTokensAccept, ControllerUtil, !ControllerUtilLaws}.

(** ** What must be readable *)

(** A stored join-token Secret has the key the operator reads. *)
Definition readable_secret (s : Snapshot) (key : ObjectKey) : Prop :=
  ∀ sec, s_secrets s !! key = Some sec → ∃ tok, GetTokenFromSecret sec = Ret tok.

(** A stored values ConfigMap has a token and a register name. *)
Definition readable_configmap (s : Snapshot) (key : ObjectKey) : Prop :=
  ∀ cm, s_configmaps s !! key = Some cm →
    (∃ tok, GetTokenFromConfigMap cm = Ret tok) ∧ ∃ reg, registerNameFromConfigMap cm = Ret reg.

(** Roles Teleport accepts for a token. *)
Definition grantable (roles : list string) : Prop :=
  RolesToSystemRoles roles ≠ [] ∧ NoDup (RolesToSystemRoles roles).

Lemma RoleKube_RoleApp : RoleKube ≠ RoleApp.
Proof. intros E. pose proof RoleKube_lower as HK. rewrite E, RoleApp_lower in HK. done. Qed.

Lemma grantable_node : grantable [role_node].
Proof. split; [done|]. apply NoDup_singleton. Qed.

Lemma grantable_roles_for b : grantable (roles_for b).
Proof.
  destruct b; (split; [done|]).
  - apply NoDup_cons. split; [|apply NoDup_singleton].
    intros Hin%list_elem_of_singleton. by apply RoleKube_RoleApp.
  - apply NoDup_singleton.
Qed.

Lemma RolesToSystemRoles_forall roles :
  Forall (λ r, r = RoleKube ∨ r = RoleApp ∨ r = RoleNode) (RolesToSystemRoles roles).
Proof.
  apply Forall_forall. intros sr (role & _ & Hr)%list_elem_of_omap. revert Hr.
  unfold system_role. repeat case_decide; naive_solver.
Qed.

Section stages.
Context (t : Teleport) `{!GeneratorLaws (t_TokenGenerator t), !GeneratorHealthy (t_TokenGenerator t)}.
Context (Hclient : is_Some (t_TeleportClient t)).

(** ** Tokens *)

Lemma wp_client (Q : outcome tele_client → world → Prop) w :
  (∀ c, Q (Ret c) w) → wp (deref (t_TeleportClient t)) Q w.
Proof. destruct Hclient as [c ->]. intros HQ. by apply wp_ret. Qed.

Lemma returns_GenerateToken reg roles w :
  good w → grantable roles → returns (GenerateToken t reg roles) w.
Proof.
  intros Hg [Hne Hnd]. unfold GenerateToken. apply wp_bind, wp_Now. simpl.
  apply wp_bind. eapply wp_mono; [by apply Generate_good|].
  intros o w1 (n & -> & Hn & Hplain & Hg1).
  destruct (NewProvisionToken_accepts n (RolesToSystemRoles roles)
    (Add (now w) TeleportKubeTokenValidity) Hn Hne Hnd (RolesToSystemRoles_forall roles)) as [tk Htk].
  rewrite Htk. apply NewProvisionToken_spec in Htk as (Hname & _).
  set (tk' := set_labels _ tk). unfold client_UpsertToken.
  apply wp_bind, wp_bind, wp_client. intros c.
  eapply good_wp_write; [apply UpsertToken_spec|apply good_UpsertToken; [exact Hg1|]|].
  { simpl. by rewrite Hname. }
  intros w2 Hg2 _ _. by apply returns_ret.
Qed.

Lemma good_wp_GetTokens (Q : outcome (lib_error + list ProvisionToken) → world → Prop) w :
  good w →
  (∀ l, (∀ t, t ∈ l ↔ s_tokens (view w) !! GetName t = Some t) → Q (Ret (inr l)) w) →
  wp (client_GetTokens (t_TeleportClient t)) Q w.
Proof.
  intros Hg HQ. unfold client_GetTokens. apply wp_bind, wp_client. intros c. apply wp_gets.
  pose proof (GetTokens_spec c w) as Hs.
  destruct (good_GetTokens c w Hg) as [l Hl]. rewrite Hl in *. apply HQ, Hs.
Qed.

Lemma returns_IsTokenValid reg tok ty roles w :
  good w → ParseRoles ty = Ret roles → returns (IsTokenValid t reg tok ty) w.
Proof.
  intros Hg Hr. unfold IsTokenValid. apply wp_bind, good_wp_GetTokens; [done|]. intros l _.
  rewrite Hr. apply wp_bind, wp_lift. simpl. apply wp_bind, wp_Now. by apply returns_ret.
Qed.

Lemma returns_DeleteToken reg w : good w → returns (DeleteToken t reg) w.
Proof.
  intros Hg. unfold DeleteToken. apply wp_bind, good_wp_GetTokens; [done|]. intros l Hl.
  pose proof (find_has_label reg l) as Hf.
  destruct (List.find _ l) as [tk|]; [|by apply returns_ret].
  destruct Hf as [Hin _]. unfold client_DeleteToken.
  apply wp_bind, wp_bind, wp_client. intros c.
  eapply good_wp_write; [apply DeleteToken_spec|apply good_DeleteToken; [done|]|].
  - eexists. by apply Hl.
  - intros w' Hg' _ _. by apply returns_ret.
Qed.

(** ** The stages of registering *)

Lemma returns_write_secret (create : bool) c n tok w :
  good w →
  (if create then s_secrets (view w) !! secret_key c n = None
   else is_Some (s_secrets (view w) !! secret_key c n)) →
  returns (mask_errors ((if create then CreateSecret else UpdateSecret) c n tok)) w.
Proof.
  intros Hg Hs. apply returns_mask. destruct create; apply wp_bind.
  - eapply good_wp_write; [apply Create_spec|by apply good_Create|].
    intros w' Hg' _ _. by apply returns_ret.
  - eapply good_wp_write; [apply Update_spec|by apply good_Update|].
    intros w' Hg' _ _. by apply returns_ret.
Qed.

Lemma returns_generate_then reg roles (f : string → M world unit) w :
  good w → grantable roles → Forall known_role roles →
  (∀ tok w', good w' → (∀ k, objs k (view w') = objs k (view w)) → returns (f tok) w') →
  returns (mask_errors (GenerateToken t reg roles) ≫= f) w.
Proof.
  intros Hg Hgr Hk Hf. eapply returns_mask_bind;
    [by apply returns_GenerateToken|by apply (wp_GenerateToken_valid t reg roles w Hk)|].
  intros tok w' Hg' [_ [_ Hobjs]]. by apply Hf.
Qed.

Lemma returns_value {A B} (a : A) (f : A → M world B) w :
  returns (f a) w → returns (mask_errors (lift (Ret a)) ≫= f) w.
Proof. intros Hf. by apply wp_bind, wp_mask_errors, wp_lift. Qed.

Lemma returns_check_then reg tok ty roles (f : bool → M world unit) w :
  good w → ParseRoles ty = Ret roles → (∀ b, returns (f b) w) →
  returns (mask_errors (IsTokenValid t reg tok ty) ≫= f) w.
Proof.
  intros Hg Hr Hf. eapply returns_mask_bind;
    [by eapply returns_IsTokenValid|by apply wp_IsTokenValid|]. by intros b w' _ [-> _].
Qed.

Lemma returns_reconcileSecret cluster reg w :
  good w →
  readable_secret (view w) (secret_key (cluster_name cluster) (cluster_namespace cluster)) →
  returns (reconcileSecret t cluster reg) w.
Proof.
  intros Hg Hread. assert (Forall known_role [role_node]) as Hk by (repeat constructor; by right; right).
  unfold reconcileSecret. eapply returns_mask_bind;
    [by apply (returns_get_or_nil KSecret)|apply (wp_get_or_nil KSecret)|].
  intros [sec|] w1 _ [-> Hsec]; simpl in Hsec.
  - destruct (Hread sec Hsec) as [tok ->]. apply returns_value.
    eapply returns_check_then; [done..|]. intros [|]; [by apply returns_ret|]. simpl.
    apply returns_generate_then; [done|apply grantable_node|done|].
    intros tok' w1 Hg1 Hobjs. apply (returns_write_secret false); [done|].
    pose proof (Hobjs KSecret) as E. simpl in E. rewrite E. by exists sec.
  - apply returns_generate_then; [done|apply grantable_node|done|].
    intros tok w1 Hg1 Hobjs. apply (returns_write_secret true); [done|].
    pose proof (Hobjs KSecret) as E. simpl in E. by rewrite E.
Qed.

Lemma returns_UpdateConfigMap cm reg tok roles tka w :
  good w → registerNameFromConfigMap cm = Ret reg → is_Some (s_configmaps (view w) !! cm_meta cm) →
  returns (mask_errors (UpdateConfigMap t cm tok roles tka)) w.
Proof.
  intros Hg Hreg Hs. apply returns_mask. unfold UpdateConfigMap. rewrite Hreg.
  apply wp_bind, wp_lift, wp_bind.
  eapply good_wp_write; [apply Update_spec|by apply good_Update|].
  intros w' Hg' _ _. by apply returns_ret.
Qed.

Lemma returns_updateExisting reg roles tka cm w :
  good w → roles ≠ [] → Forall known_role roles → grantable roles →
  (∃ tok, GetTokenFromConfigMap cm = Ret tok) → (∃ name, registerNameFromConfigMap cm = Ret name) →
  s_configmaps (view w) !! cm_meta cm = Some cm →
  returns (updateExistingConfigMap t reg roles tka cm) w.
Proof.
  intros Hg Hne Hk Hgr [tok Htok] [name Hname] Hcm. unfold updateExistingConfigMap. rewrite Htok.
  assert (∀ tok' b w', good w' → (∀ k, objs k (view w') = objs k (view w)) →
    returns (if decide (default "" (map_read (cm_Data cm) "values")
                        = RenderConfigMapValues t reg tok' roles tka)
             then mret tt
             else if negb b then mask_errors (UpdateConfigMap t cm tok' roles tka)
             else mask_errors (UpdateConfigMap t cm tok' roles tka)) w') as Hwrite.
  { intros tok' b w' Hg' Hobjs. case_decide; [by apply returns_ret|].
    assert (returns (mask_errors (UpdateConfigMap t cm tok' roles tka)) w'); [|by destruct b].
    eapply returns_UpdateConfigMap; [done..|]. pose proof (Hobjs KConfigMap) as E. simpl in E.
    rewrite E. by exists cm. }
  apply returns_value. eapply returns_check_then; [done|by apply ParseRoles_RolesToString|].
  intros [|]; simpl.
  - apply wp_bind, wp_ret. by apply (Hwrite tok true).
  - apply returns_generate_then; [done..|]. intros tok' w' Hg' Hobjs. by apply (Hwrite tok' false).
Qed.

Lemma returns_reconcileConfigMap cluster reg roles w :
  good w → roles ≠ [] → Forall known_role roles → grantable roles →
  readable_configmap (view w) (configmap_key t (cluster_name cluster) (cluster_namespace cluster)) →
  returns (reconcileConfigMap t cluster reg roles) w.
Proof.
  intros Hg Hne Hk Hgr Hread. unfold reconcileConfigMap. eapply returns_mask_bind;
    [by apply returns_GetVersion|apply wp_GetTeleportKubeAgentVersion|]. intros tka w1 _ [-> _].
  eapply returns_mask_bind;
    [by apply (returns_get_or_nil KConfigMap)|apply (wp_get_or_nil KConfigMap)|].
  intros [cm|] w1 _ [-> Hcm]; simpl in Hcm.
  - destruct (Hread cm Hcm). apply returns_updateExisting; [done..|].
    by rewrite (view_obj_key w KConfigMap _ _ Hcm : cm_meta cm = _).
  - apply returns_generate_then; [done..|]. intros tok w1 Hg1 Hobjs. apply returns_mask.
    unfold CreateConfigMap. cbn zeta. apply wp_bind; good_get; [done|by intros; apply returns_ret|].
    intros Hn. simpl. apply wp_bind.
    eapply good_wp_write; [apply Create_spec|by apply good_Create|].
    intros w' Hg' _ _. by apply returns_ret.
Qed.
Lemma returns_ensure_reference rn ns cm w : good w → returns (ensure_reference rn ns cm) w.
Proof.
  intros Hg. eapply returns_mask_bind;
    [by apply returns_manager|apply wp_NewTeleportAppConfigManager|].
  intros m w1 Hg1 [-> ->]. by apply returns_mask, returns_EnsureConfig.
Qed.

Lemma returns_delete_reference rn ns cm w : good w → returns (delete_reference rn ns cm) w.
Proof.
  intros Hg. eapply returns_mask_bind;
    [by apply returns_manager|apply wp_NewTeleportAppConfigManager|].
  intros m w1 Hg1 [-> ->]. by apply returns_mask, returns_DeleteConfig.
Qed.

Lemma returns_reconcileBot cluster reg w : good w → returns (reconcileBot cluster reg) w.
Proof.
  intros Hg. unfold reconcileBot. eapply returns_mask_bind;
    [by apply (returns_get_or_nil KSecret)|apply (wp_get_or_nil KSecret)|].
  intros [sec|] w1 _ [-> _]; [by apply returns_ret|].
  eapply returns_mask_bind; [|apply wp_EnsureTbotConfigMap|].
  2:{ intros _ w' Hg' _. by apply returns_ensure_reference. }
  unfold EnsureTbotConfigMap, GetTbotConfigMap. eapply returns_mask_bind;
    [by apply (returns_get_or_nil KConfigMap)|apply (wp_get_or_nil KConfigMap)|].
  intros [cm|] w1 _ [-> Hcm]; [by apply returns_ret|]. simpl in Hcm.
  apply wp_bind, wp_mask_errors. unfold CreateTbotConfigMap. apply wp_bind.
  eapply good_wp_write; [apply Create_spec|by apply good_Create|].
  intros w' Hg' _ _. by apply wp_ret, returns_ret.
Qed.

Lemma returns_ensureFinalizer cluster w :
  good w → is_Some (s_clusters (view w) !! cl_meta cluster) → returns (ensureFinalizer cluster) w.
Proof.
  intros Hg Hc. unfold ensureFinalizer. destruct (negb _); [|by apply returns_ret].
  apply returns_mask. unfold AddFinalizer. apply wp_bind, wp_gets. rewrite good_NewHelper by done.
  apply returns_Patch; [done..|]. intros w' Hg' _. by apply returns_ret.
Qed.

(** ** The two handlers *)

Context `{!GeneratorFresh (t_TokenGenerator t)}.

(** A stored Secret or ConfigMap stays readable outside the footprint. *)
Lemma readable_secret_step F w w' key :
  step F w w' → ¬ F (slot_obj KSecret key) →
  readable_secret (view w) key → readable_secret (view w') key.
Proof.
  intros [_ HU] HF Hr sec.
  pose proof (untouched_obj F KSecret key _ _ HU HF) as E. simpl in E. rewrite E. apply Hr.
Qed.

Lemma readable_configmap_step F w w' key :
  step F w w' → ¬ F (slot_obj KConfigMap key) →
  readable_configmap (view w) key → readable_configmap (view w') key.
Proof.
  intros [_ HU] HF Hr cm.
  pose proof (untouched_obj F KConfigMap key _ _ HU HF) as E. simpl in E. rewrite E. apply Hr.
Qed.

Lemma returns_reconcileNormal bot cluster reg roles w :
  good w → s_clusters (view w) !! cl_meta cluster = Some cluster →
  roles ≠ [] → Forall known_role roles → grantable roles →
  readable_secret (view w) (secret_key (cluster_name cluster) (cluster_namespace cluster)) →
  readable_configmap (view w) (configmap_key t (cluster_name cluster) (cluster_namespace cluster)) →
  returns (reconcileNormal t bot cluster reg roles) w.
Proof.
  intros Hg Hc Hne Hk Hgr Hsec Hcm. unfold reconcileNormal.
  eapply returns_bind; [by apply returns_ensureFinalizer|by apply stage_finalizer|].
  intros [] w1 Hg1 [_ [Hs1 _]].
  apply (readable_secret_step _ _ _ _ Hs1) in Hsec; [|done].
  apply (readable_configmap_step _ _ _ _ Hs1) in Hcm; [|done].
  eapply returns_bind; [by apply returns_reconcileSecret|by apply stage_secret|].
  intros [] w2 Hg2 [_ [Hs2 _]].
  apply (readable_configmap_step _ _ _ _ Hs2) in Hcm; [|by intros [|[]]].
  eapply (returns_bind _ _ (λ _ _, True)); [by apply returns_reconcileConfigMap|done|].
  intros [] w3 Hg3 _.
  eapply (returns_bind _ _ (λ _ _, True)); [by apply returns_ensure_reference|done|].
  intros [] w4 Hg4 _.
  eapply (returns_bind _ _ (λ _ _, True)); [|done|by intros; apply returns_ret].
  destruct bot; [by apply returns_reconcileBot|by apply returns_ret].
Qed.

Lemma returns_delete_tbot cluster w : good w → returns (delete_tbot cluster) w.
Proof.
  intros Hg. unfold delete_tbot.
  eapply (returns_bind _ _ (λ _ _, True)); [by apply returns_delete_reference|done|].
  intros [] w1 Hg1 _.
  eapply (returns_bind _ _ (λ _ _, True)); [by apply returns_mask, (returns_delete KConfigMap)|done|].
  intros [] w2 Hg2 _. by apply returns_mask, (returns_delete KSecret).
Qed.

Lemma keeps_no_clusters_deletions bot cluster reg :
  Keeps (step no_clusters) (mask_errors (DeleteToken t reg)) ∧
  Keeps (step no_clusters) (mask_errors (DeleteSecret (cluster_name cluster) (cluster_namespace cluster))) ∧
  Keeps (step no_clusters) (mask_errors (DeleteConfigMap t (cluster_name cluster) (cluster_namespace cluster))) ∧
  Keeps (step no_clusters) (if bot : bool then delete_tbot cluster else mret tt) ∧
  ∀ rn ns cm, Keeps (step no_clusters) (delete_reference rn ns cm).
Proof.
  assert (∀ rn ns cm, Keeps (step no_clusters) (delete_reference rn ns cm)) as Href.
  { intros rn ns cm. apply keeps_delete_reference. by intros x [-> | ->]. }
  split_and!; [..|done].
  - by apply keeps_mask_errors, keeps_DeleteToken_cluster.
  - by apply keeps_mask_errors, keeps_DeleteSecret.
  - by apply keeps_mask_errors, keeps_DeleteConfigMap.
  - destruct bot; [|apply keeps_ret, _]. unfold delete_tbot.
    repeat (apply keeps_bind; [apply _|first [apply Href
      |by apply keeps_mask_errors, keeps_DeleteTbotConfigMap]|intros _]).
    by apply keeps_mask_errors, keeps_DeleteKubeconfigSecret.
Qed.

Lemma returns_remove_resources {A} bot cluster reg (k : M world A) w :
  good w → (∀ w', good w' → step no_clusters w w' → returns k w') →
  returns (remove_resources t bot cluster reg k) w.
Proof.
  intros Hg Hk. destruct (keeps_no_clusters_deletions bot cluster reg) as (K1 & K2 & K3 & K4 & K5).
  unfold remove_resources.
  eapply returns_bind; [by apply returns_mask, returns_DeleteToken|by apply keeps_wp|].
  intros [] w1 Hg1 S1.
  eapply returns_bind; [by apply returns_mask, (returns_delete KSecret)|by apply keeps_wp|].
  intros [] w2 Hg2 S2.
  eapply returns_bind; [by apply returns_mask, (returns_delete KConfigMap)|by apply keeps_wp|].
  intros [] w3 Hg3 S3.
  eapply returns_bind; [|by apply keeps_wp|].
  { destruct bot; [by apply returns_delete_tbot|by apply returns_ret]. }
  intros [] w4 Hg4 S4.
  eapply returns_bind; [by apply returns_delete_reference|apply keeps_wp, K5|].
  intros [] w5 Hg5 S5. apply Hk; [done|]. by do 4 (etrans; [eassumption|]).
Qed.

Lemma returns_reconcileDelete bot cluster reg w :
  good w → is_Some (s_clusters (view w) !! cl_meta cluster) →
  returns (reconcileDelete t bot cluster reg) w.
Proof.
  intros Hg Hc. apply returns_remove_resources; [done|]. intros w1 Hg1 [_ HU].
  eapply (returns_bind _ _ (λ _ _, True)); [|done|by intros; apply returns_ret].
  destruct (ContainsFinalizer _ _); [|by apply returns_ret]. apply returns_mask.
  unfold RemoveFinalizer. apply wp_bind, wp_gets. rewrite good_NewHelper by done.
  apply returns_Patch; [done| |by intros w' Hg' _; apply returns_ret].
  pose proof (untouched_obj _ KCluster (cl_meta cluster) _ _ HU) as E. simpl in E.
  rewrite E; [done|by intros []].
Qed.

(** Removing the last finalizer of a cluster that is being deleted removes it. *)
Lemma patch_last_finalizer cluster s :
  s_clusters s !! cl_meta cluster = Some cluster →
  time_IsZero (cl_DeletionTimestamp cluster) = false →
  cl_Finalizers cluster = [TeleportOperatorFinalizer] →
  s_clusters (patch_cluster cluster (RemoveFinalizerFrom cluster TeleportOperatorFinalizer) s)
    !! cl_meta cluster = None.
Proof.
  intros Hc Hdel Hfin. unfold patch_cluster. rewrite Hc. cbn zeta.
  assert (cl_Finalizers (RemoveFinalizerFrom cluster TeleportOperatorFinalizer) = []) as Hnil
    by by rewrite RemoveFinalizerFrom_spec, Hfin.
  unfold patched. rewrite Hnil, Hfin, decide_False by done. simpl. rewrite Hdel. simpl.
  apply lookup_delete_eq.
Qed.

Lemma wp_last_finalizer bot cluster reg w :
  s_clusters (view w) !! cl_meta cluster = Some cluster →
  time_IsZero (cl_DeletionTimestamp cluster) = false →
  cl_Finalizers cluster = [TeleportOperatorFinalizer] →
  wp (reconcileDelete t bot cluster reg) (λ o w', match o with
    | Ret _ => s_clusters (view w') !! cl_meta cluster = None
    | _ => True
    end) w.
Proof.
  intros Hc Hdel Hfin. apply wp_remove_resources; [done|]. intros w1 [_ HU] _ _.
  assert (s_clusters (view w1) !! cl_meta cluster = Some cluster) as Hc1.
  { rewrite <-Hc. apply (untouched_obj _ KCluster _ _ _ HU). by intros []. }
  rewrite ContainsFinalizer_spec, bool_decide_true by (rewrite Hfin; by left).
  apply wp_bind, wp_mask_errors. unfold RemoveFinalizer. apply wp_bind, wp_gets.
  destruct (patch_NewHelper cluster w1); [by apply wp_throw|].
  apply wp_bind. eapply wp_write; [apply Patch_spec| |].
  - intros w' _ _ _ Hv. apply wp_ret, wp_ret. rewrite Hv. by apply patch_last_finalizer.
  - intros e w' He _ _. unfold mask_ignoring_notfound. destruct e; simpl; [|by apply wp_throw..].
    pose proof (Patch_NotFound cluster (RemoveFinalizerFrom cluster TeleportOperatorFinalizer) w1) as Hn.
    rewrite He in Hn. specialize (Hn eq_refl). congruence.
Qed.
End stages.
End Success.
