(* ===== verification/Reconcile.v ===== *)
(** * The reconciler: runs, sequences of runs, and the end-to-end theorems *)
From S2P Require Import Prelude GoStrings GoValue GoTime Libraries Key Objects World Config.
From S2P Require Import Teleport Token Secret Finalizer ConfigMap AppManager Controller Stages.
From S2P Require Import Registration Registered Deregistration.

Section Reconcile.
Context `{Unicode, Semver, Yaml, WorldLaws, !ProvisionTokens, !TeleportTypesLaws,
  ControllerUtil, !ControllerUtilLaws}.

(** ** The reconciler's own state *)

Lemma wp_on_world {A} (m : M world A) Q (r : ClusterReconciler) w :
  wp m (λ o w', Q o (r, w')) w → wp (on_world m) Q (r, w).
Proof. rewrite !wp_unfold. simpl. by destruct (m w). Qed.

Lemma wp_attempt {S A} (m : M S A) Q s :
  wp m (λ o s', match o with
                | Ret a => Q (Ret (inr a)) s'
                | Err e => Q (Ret (inl e)) s'
                | Panic => Q Panic s'
                end) s →
  wp (attempt m) Q s.
Proof. rewrite !wp_unfold. unfold attempt. by destruct (m s) as [[a|e|] s']. Qed.

(** What a run never changes in the reconciler. *)
Definition same_setup (r r' : ClusterReconciler) : Prop :=
  t_Config (r_Teleport r') = t_Config (r_Teleport r) ∧
  t_TokenGenerator (r_Teleport r') = t_TokenGenerator (r_Teleport r) ∧
  r_IsBotEnabled r' = r_IsBotEnabled r ∧ r_Namespace r' = r_Namespace r ∧
  r_Client r' = r_Client r ∧ t_Client (r_Teleport r') = t_Client (r_Teleport r).

(** The Kubernetes clients are set: the reconciler's own and that of its [Teleport]. *)
Definition connected (r : ClusterReconciler) : Prop :=
  is_Some (r_Client r) ∧ is_Some (t_Client (r_Teleport r)).

Lemma connected_same r r' : same_setup r r' → connected r → connected r'.
Proof. intros (_ & _ & _ & _ & Hc & Ht). unfold connected. by rewrite Hc, Ht. Qed.

(** Without a client, the next run reads a new identity before it uses one. *)
Definition client_ready (s : run_state) : Prop :=
  t_TeleportClient (r_Teleport s.1) = None →
  identity_expired (now s.2) (t_Identity (r_Teleport s.1)) = true.

Lemma identity_expired_later t0 t1 i :
  (t0 <= t1)%Z → identity_expired t0 i = true → identity_expired t1 i = true.
Proof.
  destruct i as [i|]; [|done]. simpl. intros Ht. rewrite !bool_decide_eq_true.
  intros He. pose proof (Sub_mono t0 t1 (id_LastRead i) Ht). lia.
Qed.

Lemma identity_fresh_now i t : id_LastRead i = t → identity_expired t (Some i) = false.
Proof.
  intros <-. simpl. apply bool_decide_eq_false. unfold Sub. rewrite Z.sub_diag. done.
Qed.

(** The reconciler with a new client and the identity it was made with. *)
Definition reconnected (c : tele_client) (i : IdentityConfig) (r : ClusterReconciler)
    : ClusterReconciler := set_teleport (λ t, set_identity (Some i) (set_client (Some c) t)) r.

(** What [refreshIdentity] leaves behind. *)
Definition refreshed (r : ClusterReconciler) (w : world) (o : outcome unit) (s' : run_state)
    : Prop :=
  let '(r', w') := s' in
  same_setup r r' ∧ r_lastAssignedRoles r' = r_lastAssignedRoles r ∧
  view w' = view w ∧ (now w <= now w')%Z ∧
  match o with
  | Ret _ =>
      identity_expired (now w) (t_Identity (r_Teleport r')) = false ∧
      if identity_expired (now w) (t_Identity (r_Teleport r))
      then ∃ c i s,
        r' = reconnected c i r ∧
        tc_New (cfg_ProxyAddr (t_Config (r_Teleport r))) (id_IdentityFile i) w = (inr c, w') ∧
        tc_Ping c w' = None ∧ id_LastRead i = now w ∧
        s_secrets (view w) !! mkKey (r_Namespace r) TeleportBotSecretName = Some s ∧
        sec_Data s !! Identity = Some (id_IdentityFile i)
      else r' = r ∧ w' = w
  | Err _ =>
      identity_expired (now w) (t_Identity (r_Teleport r)) = true ∧
      ((r' = r ∧ w' = w) ∨ r' = set_teleport (set_client None) r)
  | Panic => False
  end.

Lemma wp_refreshIdentity r w : wp refreshIdentity (refreshed r w) (r, w).
Proof.
  unfold refreshIdentity, refreshed. apply wp_bind, wp_gets.
  apply wp_bind, wp_on_world, wp_Now. simpl.
  destruct (identity_expired _ _) eqn:Eexp.
  2:{ apply wp_ret. split_and!; (done || lia). }
  apply wp_bind, wp_on_world, wp_mask_errors. eapply wp_mono; [apply wp_GetIdentity|].
  intros [i|e|] w1 [-> Hi]; simpl; [| |done].
  2:{ split_and!; (done || lia || auto). }
  destruct Hi as (Hread & s & Hs & Hfile).
  apply wp_bind, wp_on_world, wp_attempt. eapply wp_mono; [apply wp_NewClient|].
  intros [c|e|] w2 (Ht & Hv & Hconn); simpl; [| |done].
  - destruct Hconn as [Hnew Hping]. apply wp_bind, wp_run, wp_run. simpl.
    split_and!; [done..|by apply identity_fresh_now|by exists c, i, s].
  - apply wp_bind, wp_run, wp_throw. simpl. split_and!; [done..|auto].
Qed.

(** C14. Refreshing the identity: a run goes on with a client and an identity at most twenty
    minutes old, either the ones it had, with nothing read or written, or both new: the
    identity is the one in the bot's Secret, and the client is the connection made with it,
    which has answered.  On a failure nothing else changes than that the client may be gone;
    the old identity stays, so that the next run tries again.  No write to the cluster or to
    Teleport is made. *)
Theorem refreshIdentity_spec r w : wp refreshIdentity (refreshed r w) (r, w).
Proof. apply wp_refreshIdentity. Qed.

(** ** One run, by cases *)

(** The run stopped before the cluster's own stages. *)
Definition stopped (r : ClusterReconciler) (w : world) (s' : run_state) : Prop :=
  let '(r', w') := s' in
  same_setup r r' ∧ view w' = view w ∧ (now w <= now w')%Z ∧
  t_Identity (r_Teleport r') = t_Identity (r_Teleport r) ∧
  (t_TeleportClient (r_Teleport r') = t_TeleportClient (r_Teleport r) ∨
   identity_expired (now w) (t_Identity (r_Teleport r)) = true) ∧
  (identity_expired (now w) (t_Identity (r_Teleport r)) = false →
   r_Teleport r' = r_Teleport r ∧ w' = w).

(** The cluster's stages run with this reconciler, in this world. *)
Definition prepared (r : ClusterReconciler) (w : world) (cluster : Cluster)
    (r' : ClusterReconciler) (w' : world) : Prop :=
  same_setup r r' ∧ view w' = view w ∧ (now w <= now w')%Z ∧
  r_lastAssignedRoles r' =
    roles_for (apps_enabled (view w) (cluster_name cluster) (cluster_namespace cluster)) ∧
  (client_ready (r, w) → is_Some (t_TeleportClient (r_Teleport r'))) ∧
  (identity_expired (now w) (t_Identity (r_Teleport r)) = false →
   r_Teleport r' = r_Teleport r ∧ w' = w).

(** A refresh that succeeds after the roles were set prepares the run. *)
Lemma refreshed_prepared r w cluster r' w' :
  refreshed (set_roles (roles_for (apps_enabled (view w) (cluster_name cluster)
                                     (cluster_namespace cluster))) r) w (Ret tt) (r', w') →
  prepared r w cluster r' w'.
Proof.
  intros (Hsetup & Hroles & Hv & Ht & Ho). simpl in Hsetup, Hroles, Ho.
  unfold prepared. split_and!; [done..| |].
  - intros Hready. destruct (identity_expired (now w) (t_Identity (r_Teleport r))) eqn:Eexp.
    { destruct Ho as (_ & c & i & s & -> & _). by exists c. }
    destruct Ho as (_ & -> & ->).
    destruct (t_TeleportClient (r_Teleport r)) eqn:Ec; [by exists t|].
    specialize (Hready Ec). simpl in Hready. congruence.
  - intros Hfresh. rewrite Hfresh in Ho. by destruct Ho as (_ & -> & ->).
Qed.

Lemma wp_Reconcile req r w (Q : outcome Result → run_state → Prop) :
  (s_clusters (view w) !! req = None → Q (Ret (mkResult 0)) (r, w)) →
  (∀ e s', stopped r w s' → Q (Err e) s') →
  (¬ connected r → Q Panic (r, w)) →
  (∀ cluster r' w', s_clusters (view w) !! req = Some cluster → prepared r w cluster r' w' →
     wp (reconcileCluster (r_Teleport r') (r_IsBotEnabled r') cluster (r_lastAssignedRoles r'))
        (λ o w'', Q o (r', w'')) w') →
  wp (Reconcile req) Q (r, w).
Proof.
  intros Hnone Hstop Hpanic Hgo.
  assert (∀ e, Q (Err e) (r, w)) as Hstop0.
  { intros e. apply Hstop. split_and!; (done || lia || auto). }
  unfold Reconcile. apply wp_bind, wp_gets. cbn [fst].
  apply wp_bind, wp_on_world; wp_client_get.
  { intros Hc. apply Hpanic. unfold connected. rewrite Hc. by intros [[] _]. }
  2:{ intros e -> Hn. apply wp_ret. by apply Hnone. }
  2:{ intros e ->. apply wp_throw, Hstop0. }
  intros cluster Hc. simpl in Hc.
  apply wp_bind, wp_on_world, wp_mask_errors. eapply wp_mono; [apply wp_AreTeleportAppsEnabled|].
  intros [b|e|] w1 [-> Hb]; simpl; [|apply Hstop0|].
  2:{ apply Hpanic. unfold connected. rewrite Hb. by intros [_ []]. }
  apply wp_bind, wp_run. simpl. apply wp_bind. eapply wp_mono; [apply wp_refreshIdentity|].
  intros [[]|e|] [r' w'] Ho; [| |by destruct Ho as (_ & _ & _ & _ & [])].
  - subst b. apply refreshed_prepared in Ho.
    apply wp_bind, wp_gets. cbn [fst]. apply wp_on_world.
    rewrite <-(proj1 (proj2 (proj2 (proj2 Ho)))). by apply (Hgo cluster r' w' Hc).
  - destruct Ho as (Hsetup & Hroles & Hv & Ht & Hexp & Hcl). simpl in Hexp. apply Hstop.
    split_and!; try done; [|by right|by intros Hfresh; congruence].
    by destruct Hcl as [[-> _]| ->].
Qed.

(** The register name depends on the configuration only. *)
Lemma registerName_same r r' cluster :
  same_setup r r' →
  registerName_of (r_Teleport r') cluster = registerName_of (r_Teleport r) cluster.
Proof. intros (Hcfg & _). unfold registerName_of. by rewrite Hcfg. Qed.

(** ** No run panics *)

Section panics.
Context (r : ClusterReconciler) `{!GeneratorLaws (t_TokenGenerator (r_Teleport r))}.

Lemma generator_same r' :
  same_setup r r' → GeneratorLaws (t_TokenGenerator (r_Teleport r')).
Proof. intros (_ & -> & _). done. Qed.

Lemma keeps_reconcileCluster (F : slot → Prop) t bot cluster roles
    `{!GeneratorLaws (t_TokenGenerator t)} :
  (∀ x, cluster_slots t bot cluster x → F x) →
  Keeps (step F) (reconcileCluster t bot cluster roles).
Proof.
  intros HF. unfold reconcileCluster. cbn zeta. destruct (negb _).
  - by apply keeps_reconcileDelete.
  - by apply keeps_reconcileNormal.
Qed.

Lemma Reconcile_ready req w :
  connected r → client_ready (r, w) →
  wp (Reconcile req) (λ o s', o ≠ Panic ∧ same_setup r s'.1 ∧ client_ready s') (r, w).
Proof.
  intros Hconn Hready. apply wp_Reconcile; [done| |done|].
  - intros e [r' w'] (Hsetup & _ & Ht & Hi & Hcl & _). split_and!; [done..|]. intros Hnone.
    cbn [fst snd] in *. rewrite Hi. eapply identity_expired_later; [exact Ht|].
    destruct Hcl as [Hcl|?]; [|done]. apply Hready. simpl. by rewrite <-Hcl.
  - intros cluster r' w' _ (Hsetup & _ & _ & _ & Hsome & _). specialize (Hsome Hready).
    pose proof (generator_same r' Hsetup).
    rewrite wp_unfold. split_and!; [|done|].
    { exact (total_reconcileCluster (r_Teleport r') Hsome _ _ _ w'). }
    intros Hnone. simpl in Hnone. rewrite Hnone in Hsome. by destruct Hsome.
Qed.
End panics.

(** ** Sequences of runs *)

(** The states the process can reach from start-up: reconciliations of any
    requests, one at a time, and anything the rest of the world does in between. *)
Inductive reachable (r0 : ClusterReconciler) : run_state → Prop :=
| reachable_start w : reachable r0 (r0, w)
| reachable_reconcile req s : reachable r0 s → reachable r0 (Reconcile req s).2
| reachable_world r w w' : reachable r0 (r, w) → (now w <= now w')%Z → reachable r0 (r, w').

Lemma same_setup_trans r1 r2 r3 : same_setup r1 r2 → same_setup r2 r3 → same_setup r1 r3.
Proof. intros (?&?&?&?&?&?) (?&?&?&?&?&?). split_and!; congruence. Qed.

Lemma reachable_ready r0 s `{!GeneratorLaws (t_TokenGenerator (r_Teleport r0))} :
  connected r0 → t_Identity (r_Teleport r0) = None → reachable r0 s →
  same_setup r0 s.1 ∧ client_ready s.
Proof.
  intros Hconn Hinit. induction 1 as [w|req [r w] _ [Hs Hr]|r w w' _ [Hs Hr] Ht].
  - split; [done|]. intros _. simpl. by rewrite Hinit.
  - pose proof (generator_same r0 r Hs) as Hg.
    pose proof (proj1 (wp_unfold _ _ _) (Reconcile_ready r req w
      (connected_same _ _ Hs Hconn) Hr)) as (_ & Hs' & Hr').
    split; [by eapply same_setup_trans|done].
  - split; [done|]. intros Hnone. eapply identity_expired_later; [exact Ht|by apply Hr].
Qed.

Lemma initial_connected client scheme namespace config bot :
  connected (initialReconciler client scheme namespace config bot).
Proof. split; by eexists. Qed.

(** C10. The operator does not crash: from the reconciler main.go sets up, after any sequence
    of reconciliations, with any failures of the API servers in between and any changes the
    rest of the world makes, no further reconciliation panics; in particular neither the
    Teleport client nor one of the Kubernetes clients is ever used while it is nil. *)
Theorem Reconcile_never_panics client scheme namespace config bot req s :
  reachable (initialReconciler client scheme namespace config bot) s →
  (Reconcile req s).1 ≠ Panic.
Proof.
  intros Hs. destruct s as [r w]. pose proof (initial_connected client scheme namespace config bot) as Hc.
  destruct (reachable_ready _ _ Hc eq_refl Hs) as [Hsetup Hready].
  pose proof (generator_same _ r Hsetup). pose proof (connected_same _ _ Hsetup Hc) as Hcr.
  by destruct (proj1 (wp_unfold _ _ _) (Reconcile_ready r req w Hcr Hready)).
Qed.

(** C15. The client and the identity stay in step: in every reachable state without a client
    the identity counts as expired, so the next reconciliation reads a new one and connects
    before it talks to Teleport. *)
Theorem reachable_client_ready client scheme namespace config bot s :
  reachable (initialReconciler client scheme namespace config bot) s → client_ready s.
Proof. intros Hs. by apply (reachable_ready _ _ (initial_connected _ _ _ _ _) eq_refl Hs). Qed.

(** ** End to end *)

#[local] Instance others_kept_preorder reg : PreOrder (others_kept reg).
Proof. split; [by intros w n tk|intros w1 w2 w3 K12 K23 n tk Htk Hl; auto]. Qed.

Lemma keeps_others_of_tokens {A} reg (m : M world A) :
  Keeps tokens_kept m → Keeps (others_kept reg) m.
Proof. intros Hm w n tk Htk _. by apply Hm. Qed.

Lemma keeps_others_DeleteToken t reg :
  Keeps (others_kept reg) (DeleteToken t reg).
Proof.
  intros w. pose proof (proj1 (wp_unfold _ _ _) (wp_DeleteToken t reg w)) as [_ Ho].
  set (w' := (DeleteToken t reg w).2) in *.
  assert (view w' = view w ∨
    ∃ n, n ∈ cluster_tokens reg (view w) ∧ view w' = del_token n (view w)) as Hv.
  { destruct (DeleteToken t reg w).1; [naive_solver..|]. left. by destruct Ho as [-> _]. }
  intros m tk Htk Hl. destruct Hv as [->|(n & Hn & ->)]; [done|].
  simpl. rewrite lookup_delete_ne; [done|]. intros ->.
  unfold cluster_tokens in Hn. apply elem_of_dom in Hn as [tk' [Htk' Hl']%map_lookup_filter_Some]. simpl in Hl'. congruence.
Qed.

Lemma keeps_others_reconcileDelete t bot cluster reg :
  Keeps (others_kept reg) (reconcileDelete t bot cluster reg).
Proof.
  unfold reconcileDelete. apply keeps_bind; [apply _| |intros _].
  { apply keeps_mask_errors, keeps_others_DeleteToken. }
  apply keeps_others_of_tokens, keeps_tokens, (keeps_remove_objects t bot cluster no_tokens).
  intros [k key|n] _ Hn; [done|by destruct (Hn n)].
Qed.

Lemma keeps_others_reconcileCluster t bot cluster roles
    `{!GeneratorLaws (t_TokenGenerator t), !GeneratorFresh (t_TokenGenerator t)} :
  Keeps (others_kept (registerName_of t cluster))
    (reconcileCluster t bot cluster roles).
Proof.
  unfold reconcileCluster. cbn zeta. destruct (negb _).
  - apply keeps_others_reconcileDelete.
  - by apply keeps_others_of_tokens, keeps_tokens_reconcileNormal.
Qed.

Lemma cluster_slots_same r r' bot cluster x :
  same_setup r r' → cluster_slots (r_Teleport r') bot cluster x →
  cluster_slots (r_Teleport r) bot cluster x.
Proof.
  intros (Hcfg & _). unfold cluster_slots, configmap_key, agent_name. by rewrite Hcfg.
Qed.

Lemma registered_earlier t w0 w0' w bot cluster reg roles :
  (now w0 <= now w0')%Z → registered t w0' w bot cluster reg roles →
  registered t w0 w bot cluster reg roles.
Proof.
  intros Ht [Hf (tok & Hh & Hv) (tok' & Hdoc & Hv') Hr Hb].
  constructor; [done|exists tok|exists tok'|done|done];
    (split; [done|by eapply valid_within_earlier]).
Qed.

Lemma roles_for_known b : roles_for b ≠ [] ∧ Forall known_role (roles_for b).
Proof.
  assert (known_role role_kube ∧ known_role role_app) as [? ?] by (unfold known_role; auto).
  destruct b; (split; [done|]); by repeat apply Forall_cons_2.
Qed.

Section run.
Context (r : ClusterReconciler) `{!GeneratorLaws (t_TokenGenerator (r_Teleport r))}.

Lemma wp_Reconcile_footprint req w :
  wp (Reconcile req) (λ _ s',
    match s_clusters (view w) !! req with
    | Some cluster =>
        untouched (cluster_slots (r_Teleport r) (r_IsBotEnabled r) cluster) (view w) (view s'.2)
    | None => view s'.2 = view w
    end) (r, w).
Proof.
  apply wp_Reconcile.
  - by intros ->.
  - intros e [r' w'] (_ & Hv & _). simpl. rewrite Hv. by destruct (s_clusters _ !! _).
  - intros _. simpl. by destruct (s_clusters _ !! _).
  - intros cluster r' w' -> (Hsetup & Hv & _). pose proof (generator_same r r' Hsetup).
    assert (r_IsBotEnabled r' = r_IsBotEnabled r) as -> by apply Hsetup.
    eapply wp_mono; [apply (keeps_wp (step (cluster_slots (r_Teleport r) (r_IsBotEnabled r) cluster)))|].
    + apply keeps_reconcileCluster; [apply _|]. intros x. by apply cluster_slots_same.
    + intros o w'' [_ HU]. simpl. by rewrite <-Hv.
Qed.

(** C11. The footprint of a run, whatever its outcome: only the Cluster itself, its Secret and
    ConfigMap, the resource that deploys its agent, Teleport tokens and, with the bot enabled,
    tbot's objects for this cluster may change; without the cluster, nothing does. *)
Theorem Reconcile_footprint req w :
  wp (Reconcile req) (λ _ s',
    match s_clusters (view w) !! req with
    | Some cluster =>
        untouched (cluster_slots (r_Teleport r) (r_IsBotEnabled r) cluster) (view w) (view s'.2)
    | None => view s'.2 = view w
    end) (r, w).
Proof. apply wp_Reconcile_footprint. Qed.

(** C4. Deregistration end to end: a run for a stored cluster that is being deleted, when it
    returns without an error, leaves nothing of the cluster behind but tokens, and the Cluster
    without the finalizer. *)
Theorem Reconcile_deregisters req w cluster :
  s_clusters (view w) !! req = Some cluster →
  time_IsZero (cl_DeletionTimestamp cluster) = false →
  wp (Reconcile req) (λ o s', match o with
    | Ret res => res = mkResult 0 ∧
        cleaned (view s'.2) (r_Teleport s'.1) (r_IsBotEnabled r) cluster ∧
        finalizer_clear (view s'.2) req ∧
        one_token_deleted (registerName_of (r_Teleport r) cluster) (view w) (view s'.2)
    | _ => True
    end) (r, w).
Proof.
  intros Hc Hdel. pose proof (view_obj_key w KCluster _ _ Hc) as Hkey. simpl in Hkey.
  apply wp_Reconcile; [congruence|done..|].
  intros cluster' r' w' Hc' (Hsetup & Hv & _). assert (cluster' = cluster) as -> by congruence.
  unfold reconcileCluster. rewrite Hdel. simpl.
  rewrite (registerName_same r r' cluster Hsetup).
  assert (r_IsBotEnabled r' = r_IsBotEnabled r) as -> by apply Hsetup.
  eapply wp_mono; [by apply wp_reconcileDelete; rewrite Hv, Hkey|].
  intros [res|?|] w'' Ho; [|done..]. by rewrite Hkey, Hv in Ho.
Qed.

Lemma wp_Reconcile_registers req w cluster `{!GeneratorFresh (t_TokenGenerator (r_Teleport r))} :
  s_clusters (view w) !! req = Some cluster →
  time_IsZero (cl_DeletionTimestamp cluster) = true →
  register_name_agrees (r_Teleport r) (view w) cluster (registerName_of (r_Teleport r) cluster) →
  wp (Reconcile req) (λ o s', match o with
    | Ret res => res = mkResult (5 * Minute) ∧
        registered (r_Teleport s'.1) w s'.2 (r_IsBotEnabled r) cluster
          (registerName_of (r_Teleport r) cluster)
          (roles_for (apps_enabled (view w) (cluster_name cluster) (cluster_namespace cluster)))
    | _ => True
    end) (r, w).
Proof.
  intros Hc Hdel Hag. pose proof (view_obj_key w KCluster _ _ Hc) as Hkey. simpl in Hkey.
  apply wp_Reconcile; [congruence|done..|].
  intros cluster' r' w' Hc' (Hsetup & Hv & Ht & Hroles & _).
  assert (cluster' = cluster) as -> by congruence.
  pose proof (generator_same r r' Hsetup).
  assert (GeneratorFresh (t_TokenGenerator (r_Teleport r'))) by (by rewrite (proj1 (proj2 Hsetup))).
  assert (register_name_agrees (r_Teleport r') (view w') cluster
            (registerName_of (r_Teleport r) cluster)).
  { rewrite Hv. unfold register_name_agrees, configmap_key. by rewrite (proj1 Hsetup). }
  unfold reconcileCluster. rewrite Hdel. simpl.
  rewrite (registerName_same r r' cluster Hsetup), Hroles.
  assert (r_IsBotEnabled r' = r_IsBotEnabled r) as -> by apply Hsetup.
  eapply wp_mono; [apply wp_reconcileNormal; [apply _..| | | |done]|].
  { by rewrite Hv, Hkey. }
  { apply roles_for_known. }
  { apply roles_for_known. }
  intros [res|?|] w'' Ho; [|done..]. destruct Ho as [-> Hreg]. split; [done|].
  by eapply registered_earlier.
Qed.

(** C1. Registration end to end: a run for a stored cluster that is not being deleted, whose
    ConfigMap, if it exists, is for the cluster's register name, leaves the cluster registered
    when it returns without an error: with the finalizer, a Secret with a node token, values
    rendered for a token with the kube role, and the app role exactly when the user values list
    Teleport apps, both tokens valid during the run, the reference to the ConfigMap, and tbot's
    configuration when the bot is enabled; the next run is due in five minutes. *)
Theorem Reconcile_registers req w cluster `{!GeneratorFresh (t_TokenGenerator (r_Teleport r))} :
  s_clusters (view w) !! req = Some cluster →
  time_IsZero (cl_DeletionTimestamp cluster) = true →
  register_name_agrees (r_Teleport r) (view w) cluster (registerName_of (r_Teleport r) cluster) →
  wp (Reconcile req) (λ o s', match o with
    | Ret res => res = mkResult (5 * Minute) ∧
        registered (r_Teleport s'.1) w s'.2 (r_IsBotEnabled r) cluster
          (registerName_of (r_Teleport r) cluster)
          (roles_for (apps_enabled (view w) (cluster_name cluster) (cluster_namespace cluster)))
    | _ => True
    end) (r, w).
Proof. apply wp_Reconcile_registers, _. Qed.

(** C12. Other clusters' tokens are safe: whatever its outcome, a run changes or deletes no
    Teleport token whose label is not the register name of its own cluster. *)
Theorem Reconcile_foreign_tokens req w cluster
    `{!GeneratorFresh (t_TokenGenerator (r_Teleport r))} :
  s_clusters (view w) !! req = Some cluster →
  wp (Reconcile req) (λ _ s',
    others_kept (registerName_of (r_Teleport r) cluster) w s'.2) (r, w).
Proof.
  intros Hc. apply wp_Reconcile; [congruence| | |].
  - intros e [r' w'] (_ & Hv & _) n tk. simpl. by rewrite Hv.
  - by intros _ n tk.
  - intros cluster' r' w' Hc' (Hsetup & Hv & _). assert (cluster' = cluster) as -> by congruence.
    pose proof (generator_same r r' Hsetup).
    assert (GeneratorFresh (t_TokenGenerator (r_Teleport r'))) by (by rewrite (proj1 (proj2 Hsetup))).
    rewrite <-(registerName_same r r' cluster Hsetup).
    eapply wp_mono; [apply (keeps_wp (others_kept (registerName_of (r_Teleport r') cluster)))|].
    { apply keeps_others_reconcileCluster; apply _. }
    intros o w'' Hk n tk. simpl. rewrite <-Hv. apply Hk.
Qed.

(** C3. Reconciling is idempotent end to end: for a registered cluster, with tokens that are
    valid now and an identity that is not due, a run leaves the world exactly as it is, and
    of the reconciler it can change only the roles it last computed. *)
Theorem Reconcile_stable `{!YamlLaws} req w cluster :
  s_clusters (view w) !! req = Some cluster →
  time_IsZero (cl_DeletionTimestamp cluster) = true →
  identity_expired (now w) (t_Identity (r_Teleport r)) = false →
  registered (r_Teleport r) w w (r_IsBotEnabled r) cluster
    (registerName_of (r_Teleport r) cluster)
    (roles_for (apps_enabled (view w) (cluster_name cluster) (cluster_namespace cluster))) →
  (∀ n, is_Some (s_tokens (view w) !! n) → plain n = true) →
  plain (registerName_of (r_Teleport r) cluster) = true →
  plain (cfg_ProxyAddr (t_Config (r_Teleport r))) = true →
  plain (cfg_TeleportVersion (t_Config (r_Teleport r))) = true →
  wp (Reconcile req) (λ _ s', s'.2 = w ∧ r_Teleport s'.1 = r_Teleport r) (r, w).
Proof.
  intros Hc Hdel Hfresh Hreg Htokens Hname Hproxy Hversion.
  pose proof (view_obj_key w KCluster _ _ Hc) as Hkey. simpl in Hkey.
  apply wp_Reconcile; [congruence| |done|].
  { intros e [r' w'] (_ & _ & _ & _ & _ & Hsame). by destruct (Hsame Hfresh). }
  intros cluster' r' w' Hc' (Hsetup & _ & _ & Hroles & _ & Hsame).
  destruct (Hsame Hfresh) as [Hteleport ->]. assert (cluster' = cluster) as -> by congruence.
  assert (r_IsBotEnabled r' = r_IsBotEnabled r) as Hbot by apply Hsetup.
  unfold reconcileCluster. rewrite Hdel, Hteleport, Hbot, Hroles. simpl.
  eapply wp_mono; [apply wp_reconcileNormal_stable|]; try done.
  - by rewrite Hkey.
  - apply roles_for_known.
  - apply roles_for_known.
Qed.
End run.
End Reconcile.
