(* ===== verification/Isolation.v ===== *)
(** * Runs of different clusters do not meet

    The derived names tell objects apart: of two clusters, of the operator's own
    inputs, and of the user values; so a run stays off what belongs to another. *)
From S2P Require Import Prelude GoStrings GoValue GoTime Libraries Key Objects World Config.
From S2P Require Import Teleport Token Secret Finalizer ConfigMap AppManager Controller Stages.
From S2P Require Import Registration Registered Deregistration Reconcile.

(** ** Names that differ *)

Lemma string_app_inj_suffix (a a' b b' : string) :
  String.length b = String.length b' → a +:+ b = a' +:+ b' → b = b'.
Proof.
  intros Hlen. revert a'. induction a as [|x a IH]; intros a' E.
  - pose proof (f_equal String.length E) as L. rewrite !string_length_app in L. simpl in L.
    destruct a' as [|y a']; [done|]. simpl in L. clear E. lia.
  - destruct a' as [|y a']; [|injection E as _ E; by apply IH in E].
    pose proof (f_equal String.length E) as L. rewrite !string_length_app in L. simpl in L.
    clear E IH. lia.
Qed.

Lemma string_ne_length (a b : string) : String.length a ≠ String.length b → a ≠ b.
Proof. by intros Hl ->. Qed.

Lemma GetSecretName_identity c : GetSecretName c ≠ TeleportBotSecretName.
Proof.
  apply string_ne_length. unfold GetSecretName. rewrite string_length_app. simpl. lia.
Qed.

(** A name with the ending of the operator's ConfigMaps is not a user values name. *)
Lemma config_not_user_values (p c : string) : p +:+ "-config" ≠ user_values_name c.
Proof.
  unfold user_values_name.
  change "-teleport-kube-agent-user-values" with ("-teleport-kube-agent-user" +:+ "-values").
  rewrite <-string_app_assoc. by intros E%string_app_inj_suffix.
Qed.

Lemma GetConfigmapName_user_values c app c' : GetConfigmapName c app ≠ user_values_name c'.
Proof. unfold GetConfigmapName. rewrite <-!string_app_assoc. apply config_not_user_values. Qed.

Lemma GetTbotConfigmapName_user_values c c' : GetTbotConfigmapName c ≠ user_values_name c'.
Proof. unfold GetTbotConfigmapName. rewrite <-!string_app_assoc. apply config_not_user_values. Qed.

(** Nor is it the name of the operator's own ConfigMap. *)
Lemma config_not_operator (p : string) : p +:+ "-config" ≠ TeleportOperatorConfigName.
Proof.
  change TeleportOperatorConfigName with ("teleport-o" +:+ "perator").
  by intros E%string_app_inj_suffix.
Qed.

Lemma GetConfigmapName_operator c app : GetConfigmapName c app ≠ TeleportOperatorConfigName.
Proof. unfold GetConfigmapName. rewrite <-!string_app_assoc. apply config_not_operator. Qed.

(** Names that are injective in the cluster's name. *)
#[export] Instance GetSecretName_inj : Inj (=) (=) GetSecretName.
Proof. intros a b. apply string_app_inj_r. Qed.
#[export] Instance GetConfigmapName_inj app : Inj (=) (=) (λ c, GetConfigmapName c app).
Proof. intros a b. apply string_app_inj_r. Qed.
#[export] Instance GetAppName_inj app : Inj (=) (=) (λ c, GetAppName c app).
Proof. intros a b. apply string_app_inj_r. Qed.

Section Isolation.
Context `{Unicode, Semver, Yaml, WorldLaws, !ProvisionTokens, !TeleportTypesLaws,
  ControllerUtil, !ControllerUtilLaws}.

(** ** What the footprint leaves out *)

Lemma identity_not_slot t bot cluster ns :
  ¬ cluster_slots t bot cluster (slot_obj KSecret (mkKey ns TeleportBotSecretName)).
Proof.
  intros [E|[E|[E|[[E|E]|[[n E]|[_ [E|[E|[E|E]]]]]]]]]; try discriminate E; injection E as _ E.
  symmetry in E. by apply GetSecretName_identity in E.
Qed.

Lemma user_values_not_slot t bot cluster c ns :
  ¬ cluster_slots t bot cluster (slot_obj KConfigMap (mkKey ns (user_values_name c))).
Proof.
  intros [E|[E|[E|[[E|E]|[[n E]|[_ [E|[E|[E|E]]]]]]]]]; try discriminate E; injection E as _ E.
  - symmetry in E. by apply GetConfigmapName_user_values in E.
  - symmetry in E. by apply GetTbotConfigmapName_user_values in E.
Qed.

Lemma operator_config_not_slot t bot cluster ns :
  ¬ cluster_slots t bot cluster (slot_obj KConfigMap (mkKey ns TeleportOperatorConfigName)).
Proof.
  intros [E|[E|[E|[[E|E]|[[n E]|[_ [E|[E|[E|E]]]]]]]]]; try discriminate E; injection E as _ E.
  symmetry in E. by apply GetConfigmapName_operator in E.
Qed.

(** What the operator reads and does not manage: its configuration and the bot's
    identity, wherever it is deployed, and the user values of every cluster. *)
Definition input_slot (x : slot) : Prop :=
  ∃ ns, x = slot_obj KConfigMap (mkKey ns TeleportOperatorConfigName) ∨
        x = slot_obj KSecret (mkKey ns TeleportBotSecretName) ∨
        ∃ c, x = slot_obj KConfigMap (mkKey ns (user_values_name c)).

(** What belongs to a cluster in its own namespace. *)
Definition private_slot (t : Teleport) (cluster : Cluster) (x : slot) : Prop :=
  x = slot_obj KCluster (cl_meta cluster) ∨
  x = slot_obj KSecret (secret_key (cluster_name cluster) (cluster_namespace cluster)) ∨
  x = slot_obj KConfigMap (configmap_key t (cluster_name cluster) (cluster_namespace cluster)) ∨
  resource_slot (agent_name t cluster) (cluster_namespace cluster) x.

Lemma input_not_slot t bot cluster x : input_slot x → ¬ cluster_slots t bot cluster x.
Proof.
  intros (ns & [-> | [-> | [c ->]]]);
    [apply operator_config_not_slot|apply identity_not_slot|apply user_values_not_slot].
Qed.

Lemma cluster_key_eq c1 c2 :
  cluster_namespace c1 = cluster_namespace c2 → cluster_name c1 = cluster_name c2 →
  cl_meta c1 = cl_meta c2.
Proof.
  unfold cluster_namespace, cluster_name. destruct (cl_meta c1), (cl_meta c2). simpl. congruence.
Qed.

(** The slots of a run are no other cluster's. *)
Lemma private_not_slot t bot c1 c2 x :
  cl_meta c1 ≠ cl_meta c2 → (bot = true → cluster_namespace c1 ≠ TeleportBotNamespace) →
  private_slot t c1 x → ¬ cluster_slots t bot c2 x.
Proof.
  intros Hne Hns Hp Hx.
  assert (∀ k f, Inj (=) (=) f →
    slot_obj k (mkKey (cluster_namespace c1) (f (cluster_name c1))) =
    slot_obj k (mkKey (cluster_namespace c2) (f (cluster_name c2))) → False) as Hinj.
  { intros k f Hf [= E1 E2]. by apply Hne, cluster_key_eq, (inj f). }
  assert (∀ k n n', bot = true → slot_obj k (mkKey (cluster_namespace c1) n) =
    slot_obj k (mkKey TeleportBotNamespace n') → False) as Hbot.
  { intros k n n' Hb [= E1 _]. by apply Hns. }
  destruct Hp as [-> | [-> | [-> | [-> | ->]]]];
    destruct Hx as [E|[E|[E|[[E|E]|[[n E]|[Hb [E|[E|[E|E]]]]]]]]]; try discriminate E.
  - by injection E as E.
  - by apply (Hinj KSecret GetSecretName _).
  - by eapply (Hbot KSecret).
  - by apply (Hinj KConfigMap (λ c, GetConfigmapName c (cfg_AppName (t_Config t))) _).
  - by eapply (Hbot KConfigMap).
  - by apply (Hinj KHelmRelease (λ c, GetAppName c (cfg_AppName (t_Config t))) _).
  - by eapply (Hbot KHelmRelease).
  - by apply (Hinj KApp (λ c, GetAppName c (cfg_AppName (t_Config t))) _).
  - by eapply (Hbot KApp).
Qed.

(** C33. Runs do not interfere: whatever its outcome, a run for one cluster leaves as they are
    the Cluster, the Secret, the ConfigMap and the agent's resource of every other cluster that
    does not share tbot's namespace, and everywhere what the operator only reads: its own
    configuration, the bot's identity and the user values. *)
Theorem Reconcile_isolated r `{!GeneratorLaws (t_TokenGenerator (r_Teleport r))} req w other :
  cl_meta other ≠ req →
  (r_IsBotEnabled r = true → cluster_namespace other ≠ TeleportBotNamespace) →
  wp (Reconcile req) (λ _ s', ∀ x, input_slot x ∨ private_slot (r_Teleport r) other x →
    same_slot x (view w) (view s'.2)) (r, w).
Proof.
  intros Hne Hns. eapply wp_mono; [by apply wp_Reconcile_footprint|]. intros o [r' w'] Hfoot x Hx.
  simpl in *. destruct (s_clusters (view w) !! req) as [cluster|] eqn:Hc;
    [|rewrite Hfoot; apply same_slot_refl].
  pose proof (view_obj_key w KCluster _ _ Hc) as Hkey. simpl in Hkey. apply Hfoot.
  destruct Hx as [Hx|Hx]; [by apply input_not_slot|]. apply (private_not_slot _ _ other); [congruence|done..].
Qed.
End Isolation.
