(* ===== verification/Liveness.v ===== *)
(** * Runs that succeed, and what stays when nothing disturbs the operator

    Total correctness of [Reconcile] in good worlds, for clusters whose stored
    objects can be read ([operable]); and the sequences of runs and waiting
    ([undisturbed]) along which the registration holds. *)
From S2P Require Import Prelude GoStrings GoValue GoTime Libraries Key Objects World Config.
From S2P Require Import Teleport Token Secret Finalizer ConfigMap AppManager Healthy Controller.
From S2P Require Import Stages Registration Registered Deregistration Success Reconcile.

Section Liveness.
Context `{Unicode, Semver, Yaml, HealthyWorld, !ProvisionTokens, !TeleportTypesLaws,
  !ProvisionTokensAccept, ControllerUtil, !ControllerUtilLaws}.

(** ** What a run must be able to read *)

(** The bot's Secret holds an identity. *)
Definition identity_readable (s : Snapshot) (namespace : string) : Prop :=
  ∃ sec file, s_secrets s !! mkKey namespace TeleportBotSecretName = Some sec ∧
              sec_Data sec !! Identity = Some file.

(** The user values, if there are any, are a YAML mapping. *)
Definition user_values_readable (s : Snapshot) (cluster : Cluster) : Prop :=
  ∀ cm v, s_configmaps s !! mkKey (cluster_namespace cluster) (user_values_name (cluster_name cluster))
            = Some cm →
    map_read (cm_Data cm) "values" = Some v → ∃ m, Unmarshal v = inr m.

(** ** Getting to the cluster's own stages *)

Lemma returns_AreTeleportAppsEnabled t cluster w :
  good w → is_Some (t_Client t) → user_values_readable (view w) cluster →
  returns (AreTeleportAppsEnabled t (cluster_name cluster) (cluster_namespace cluster)) w.
Proof.
  intros Hg Hc Huv. unfold AreTeleportAppsEnabled. rewrite client_Get_Some by done.
  apply wp_bind; good_get; [done| |].
  - intros cm Hcm. destruct (map_read (cm_Data cm) "values") as [v|] eqn:Ev; [|by apply returns_ret].
    destruct (Huv cm v Hcm Ev) as [m ->]. by apply returns_ret.
  - intros _. by apply returns_ret.
Qed.

Lemma good_refreshIdentity r w :
  good w → identity_readable (view w) (r_Namespace r) →
  wp refreshIdentity (λ o s', o = Ret tt ∧ good s'.2) (r, w).
Proof.
  intros Hg (sec & file & Hsec & Hfile). unfold refreshIdentity.
  apply wp_bind, wp_gets, wp_bind, wp_on_world, wp_Now. simpl.
  destruct (identity_expired _ _); [|by apply wp_ret].
  apply wp_bind, wp_on_world, wp_mask_errors. unfold GetIdentityConfigFromSecret.
  apply wp_bind; good_get; [done| |]; simpl; [|congruence]. intros sec' Hsec'.
  assert (sec' = sec) as -> by congruence. unfold getSecretString. rewrite Hfile.
  apply wp_bind, wp_lift. simpl. apply wp_bind, wp_Now, wp_ret. simpl.
  apply wp_bind, wp_on_world, wp_attempt. unfold NewClient.
  destruct (good_New (cfg_ProxyAddr (t_Config (r_Teleport r))) file w Hg) as [Hg1 [c Hc]].
  apply wp_bind, wp_run. rewrite Hc. apply wp_bind, wp_gets. rewrite good_Ping by done.
  apply wp_ret. simpl. by apply wp_bind, wp_run, wp_run.
Qed.

Lemma good_wp_Reconcile req r w cluster (Q : outcome Result → run_state → Prop) :
  good w → connected r → s_clusters (view w) !! req = Some cluster →
  client_ready (r, w) → identity_readable (view w) (r_Namespace r) →
  user_values_readable (view w) cluster →
  (∀ r' w', good w' → prepared r w cluster r' w' → is_Some (t_TeleportClient (r_Teleport r')) →
     wp (reconcileCluster (r_Teleport r') (r_IsBotEnabled r') cluster (r_lastAssignedRoles r'))
        (λ o w'', Q o (r', w'')) w') →
  wp (Reconcile req) Q (r, w).
Proof.
  intros Hg [Hconn Htc] Hc Hready Hid Huv Hgo. unfold Reconcile. apply wp_bind, wp_gets. cbn [fst].
  rewrite client_Get_Some by done. apply wp_bind, wp_on_world; good_get; [done| |]; simpl; [|congruence].
  intros cluster' Hc'. assert (cluster' = cluster) as -> by congruence.
  apply wp_bind, wp_on_world. eapply wp_mono.
  { apply returns_and; [by apply returns_mask, returns_AreTeleportAppsEnabled|].
    apply wp_masked_spec, wp_AreTeleportAppsEnabled. }
  intros o w1 (b & -> & _ & -> & ->). apply wp_bind, wp_run. simpl. apply wp_bind.
  eapply wp_mono; [apply wp_and; [by apply good_refreshIdentity|apply wp_refreshIdentity]|].
  intros o [r' w'] [[-> Hg'] Hp%refreshed_prepared]. simpl in Hg'.
  apply wp_bind, wp_gets. cbn [fst]. apply wp_on_world.
  pose proof Hp as (_ & _ & _ & Hroles & Hclient & _). rewrite <-Hroles.
  apply Hgo; [done..|by apply Hclient].
Qed.
(** ** One run *)

(** What a registration needs: the servers up, a client or an identity to get one
    with, the live Cluster, and stored objects that can be read. *)
Record operable (r : ClusterReconciler) (w : world) (cluster : Cluster) : Prop := {
  op_good : good w;
  op_connected : connected r;
  op_client : client_ready (r, w);
  op_identity : identity_readable (view w) (r_Namespace r);
  op_cluster : s_clusters (view w) !! cl_meta cluster = Some cluster;
  op_live : time_IsZero (cl_DeletionTimestamp cluster) = true;
  op_user_values : user_values_readable (view w) cluster;
  op_secret :
    readable_secret (view w) (secret_key (cluster_name cluster) (cluster_namespace cluster));
  op_configmap : readable_configmap (view w)
    (configmap_key (r_Teleport r) (cluster_name cluster) (cluster_namespace cluster));
  op_register_name :
    register_name_agrees (r_Teleport r) (view w) cluster (registerName_of (r_Teleport r) cluster);
}.

Definition wanted_roles (w : world) (cluster : Cluster) : list string :=
  roles_for (apps_enabled (view w) (cluster_name cluster) (cluster_namespace cluster)).

Section run.
Context (r : ClusterReconciler) `{!GeneratorLaws (t_TokenGenerator (r_Teleport r)),
  !GeneratorFresh (t_TokenGenerator (r_Teleport r)),
  !GeneratorHealthy (t_TokenGenerator (r_Teleport r))}.

Lemma configmap_key_same r' c n :
  same_setup r r' → configmap_key (r_Teleport r') c n = configmap_key (r_Teleport r) c n.
Proof. intros (Hcfg & _). unfold configmap_key. by rewrite Hcfg. Qed.

Lemma returns_Reconcile w cluster :
  operable r w cluster →
  wp (Reconcile (cl_meta cluster)) (λ o s', (∃ a, o = Ret a) ∧ good s'.2) (r, w).
Proof.
  intros [Hg Hconn Hcl Hid Hc Hlive Huv Hsec Hcm Hname].
  apply (good_wp_Reconcile _ r w cluster); [done..|]. intros r' w' Hg' (Hsetup & Hv & _ & Hroles & _) Hsome.
  pose proof (generator_same r r' Hsetup).
  assert (t_TokenGenerator (r_Teleport r') = t_TokenGenerator (r_Teleport r)) as Hgen by apply Hsetup.
  assert (GeneratorFresh (t_TokenGenerator (r_Teleport r'))) by by rewrite Hgen.
  assert (GeneratorHealthy (t_TokenGenerator (r_Teleport r'))) by by rewrite Hgen.
  unfold reconcileCluster. rewrite Hlive, Hroles. cbn [negb].
  apply returns_reconcileNormal; try (rewrite Hv; done); try done.
  - apply roles_for_known.
  - apply roles_for_known.
  - apply grantable_roles_for.
  - by rewrite Hv, configmap_key_same.
Qed.

(** C2. Registration succeeds: once the servers answer, for a live cluster whose stored objects
    can be read, a run does return, with the next one due in five minutes, and leaves the
    cluster registered. *)
Theorem Reconcile_succeeds w cluster :
  operable r w cluster →
  wp (Reconcile (cl_meta cluster)) (λ o s', o = Ret (mkResult (5 * Minute)) ∧ good s'.2 ∧
    registered (r_Teleport s'.1) w s'.2 (r_IsBotEnabled r) cluster
      (registerName_of (r_Teleport r) cluster) (wanted_roles w cluster)) (r, w).
Proof.
  intros Hop. eapply wp_mono.
  { apply wp_and; [by apply returns_Reconcile|]. apply wp_Reconcile_registers; [apply _|apply _|apply Hop..]. }
  by intros o s' [[[a ->] Hg] [-> Hreg]].
Qed.

(** C5. Deletion completes: once the servers answer, for a cluster that is being deleted and
    whose user values can be read, a run does return and leaves everything cleaned; when the
    operator's finalizer was the last one, the Cluster itself is gone. *)
Theorem Reconcile_completes_deletion w cluster :
  good w → connected r → client_ready (r, w) → identity_readable (view w) (r_Namespace r) →
  s_clusters (view w) !! cl_meta cluster = Some cluster →
  time_IsZero (cl_DeletionTimestamp cluster) = false →
  user_values_readable (view w) cluster →
  wp (Reconcile (cl_meta cluster)) (λ o s', o = Ret (mkResult 0) ∧ good s'.2 ∧
    cleaned (view s'.2) (r_Teleport s'.1) (r_IsBotEnabled r) cluster ∧
    (cl_Finalizers cluster = [TeleportOperatorFinalizer] →
     s_clusters (view s'.2) !! cl_meta cluster = None)) (r, w).
Proof.
  intros Hg Hconn Hcl Hid Hc Hdel Huv. apply (good_wp_Reconcile _ r w cluster); [done..|].
  intros r' w' Hg' (Hsetup & Hv & _) Hsome. pose proof (generator_same r r' Hsetup).
  assert (r_IsBotEnabled r' = r_IsBotEnabled r) as -> by apply Hsetup.
  unfold reconcileCluster. rewrite Hdel. cbn [negb].
  assert (s_clusters (view w') !! cl_meta cluster = Some cluster) as Hc' by by rewrite Hv.
  eapply wp_mono.
  { apply wp_and; [by apply returns_reconcileDelete|]. apply wp_and; [by apply wp_reconcileDelete|].
    apply (wp_imp (cl_Finalizers cluster = [TeleportOperatorFinalizer])). intros Hfin.
    by apply wp_last_finalizer. }
  intros o w'' [[[a ->] Hg''] [(-> & Hclean & _) Hgone]]. by split_and!.
Qed.

(** C19. A request for a cluster that is gone is done: the reconciler and the world stay as they
    were; that the cluster was not found is no error, so the request is dropped and not
    retried; the run fails only on another error of the read, and succeeds once the servers
    answer. *)
Theorem Reconcile_absent req w :
  connected r → s_clusters (view w) !! req = None →
  wp (Reconcile req) (λ o s', s' = (r, w) ∧
    match o with
    | Ret res => res = mkResult 0
    | Err err => ∃ e, err = EMask (ELib e) ∧ k8s_Get KCluster req w = inl e ∧ IsNotFound e = false
    | Panic => False
    end ∧ (good w → o = Ret (mkResult 0))) (r, w).
Proof.
  intros [Hconn _] Hnone. unfold Reconcile. apply wp_bind, wp_gets. cbn [fst].
  rewrite client_Get_Some by done. apply wp_bind, wp_on_world, wp_gets.
  pose proof (Get_spec KCluster req w) as Hs.
  destruct (k8s_Get KCluster req w) as [e|o] eqn:E; [|simpl in *; congruence].
  destruct (IsNotFound e) eqn:En; [by apply wp_ret|]. apply wp_throw.
  split_and!; [done|by exists e|]. intros Hg. by rewrite (good_Get _ _ _ _ Hg E) in En.
Qed.

(** C18. User values that are not a YAML mapping stop everything for their cluster, its deletion
    included: as long as they are stored so, every run for the cluster fails and changes
    nothing, so the finalizer stays. *)
Theorem unreadable_user_values_block req w cluster cm v e :
  connected r → s_clusters (view w) !! req = Some cluster →
  s_configmaps (view w) !!
    mkKey (cluster_namespace cluster) (user_values_name (cluster_name cluster)) = Some cm →
  map_read (cm_Data cm) "values" = Some v → Unmarshal v = inl e →
  wp (Reconcile req) (λ o s', (∃ err, o = Err err) ∧ s' = (r, w)) (r, w).
Proof.
  intros [Hconn Htc] Hc Hcm Hv He. unfold Reconcile. apply wp_bind, wp_gets. cbn [fst].
  rewrite client_Get_Some by done. apply wp_bind, wp_on_world; wp_get; simpl.
  - intros cluster' Hc'. assert (cluster' = cluster) as -> by congruence.
    apply wp_bind, wp_on_world, wp_mask_errors. unfold AreTeleportAppsEnabled.
    rewrite client_Get_Some by done. apply wp_bind; wp_get; simpl; [|congruence|].
    + intros cm' Hcm'. assert (cm' = cm) as -> by congruence. rewrite Hv, He.
      apply wp_throw. simpl. eauto.
    + intros e' ->. apply wp_throw. simpl. eauto.
  - congruence.
  - intros e' ->. apply wp_throw. eauto.
Qed.
End run.
End Liveness.
