(* ===== verification/Steady.v ===== *)
(** * The operator left alone

    What a run keeps for later runs, and the sequences of runs of one request and
    of waiting ([undisturbed]): the registration holds along all of them, and until
    the first of the cluster's tokens expires nothing is written at all. *)
From S2P Require Import Prelude GoStrings GoValue GoTime Libraries Key Objects World Config.
From S2P Require Import Teleport Token Secret Finalizer ConfigMap AppManager Healthy Controller.
From S2P Require Import Stages Registration Registered Deregistration Success Reconcile Isolation Liveness.

Section Steady.
Context `{Unicode, Semver, Yaml, HealthyWorld, !ProvisionTokens, !TeleportTypesLaws,
  !ProvisionTokensAccept, ControllerUtil, !ControllerUtilLaws}.

(** ** Live Clusters stay live *)

Definition lives (w w' : world) : Prop :=
  ∀ key c, s_clusters (view w) !! key = Some c → time_IsZero (cl_DeletionTimestamp c) = true →
  ∃ c', s_clusters (view w') !! key = Some c' ∧ time_IsZero (cl_DeletionTimestamp c') = true.

#[local] Instance lives_preorder : PreOrder lives.
Proof.
  split; [by intros w key c ? ?; exists c|]. intros w1 w2 w3 L12 L23 key c Hc Hl.
  destruct (L12 key c Hc Hl) as (c' & ? & ?). eauto.
Qed.

Lemma lives_step F w w' : (∀ key, ¬ F (slot_obj KCluster key)) → step F w w' → lives w w'.
Proof.
  intros HF [_ HU] key c Hc Hl. exists c. split; [|done].
  rewrite <-Hc. apply (untouched_obj F KCluster key _ _ HU (HF key)).
Qed.

Lemma patch_cluster_lives before after s key c :
  s_clusters s !! key = Some c → time_IsZero (cl_DeletionTimestamp c) = true →
  ∃ c', s_clusters (patch_cluster before after s) !! key = Some c' ∧
        time_IsZero (cl_DeletionTimestamp c') = true.
Proof.
  intros Hc Hl. destruct (decide (key = cl_meta before)) as [->|Hne].
  - unfold patch_cluster. rewrite Hc. cbn zeta.
    assert (cl_DeletionTimestamp (patched before after c) = cl_DeletionTimestamp c) as E
      by (unfold patched; by case_decide).
    rewrite E, Hl. simpl. rewrite lookup_insert_eq. exists (patched before after c).
    by rewrite E.
  - exists c. split; [|done]. rewrite <-Hc.
    apply (untouched_patch_cluster before after s (slot_obj KCluster key)). by intros [=].
Qed.

Lemma keeps_lives_Patch before after : Keeps lives (Patch before after).
Proof.
  intros w key c Hc Hl. change (∃ c', s_clusters (view (patch_Patch before after w).2) !! key = Some c' ∧
    time_IsZero (cl_DeletionTimestamp c') = true).
  destruct (Patch_spec before after w) as [_ Hv].
  destruct (patch_Patch before after w).1.
  - destruct Hv as [->|[_ ->]]; [by exists c|by eapply patch_cluster_lives].
  - destruct Hv as [_ ->]. by eapply patch_cluster_lives.
Qed.

Lemma keeps_lives {A} (m : M world A) : Keeps (step no_clusters) m → Keeps lives m.
Proof. intros Hm. eapply keeps_weaken; [exact Hm|]. intros w w'. apply lives_step. by intros key []. Qed.

Lemma keeps_lives_reconcileNormal t `{!GeneratorLaws (t_TokenGenerator t)} bot cluster reg roles :
  Keeps lives (reconcileNormal t bot cluster reg roles).
Proof.
  apply keeps_bind; [apply _| |intros _].
  - unfold ensureFinalizer. destruct (negb _); [|apply keeps_ret, _]. apply keeps_mask_errors.
    unfold AddFinalizer, mask_ignoring_notfound.
    apply keeps_bind; [apply _|apply keeps_lives; solve_keeps|]. intros [e|]; [apply keeps_throw, _|].
    apply keeps_bind; [apply _|apply keeps_lives_Patch|]. intros a. apply keeps_lives. solve_keeps.
  - apply keeps_lives, keeps_register_resources; [apply _|].
    intros [[]|n] Hx Hne; simpl; try done. apply Hne. f_equal.
    by destruct Hx as [[= ->]|[|[|[[|]|[[]|[_ [|[|[|]]]]]]]]].
Qed.
(** ** A registration leaves its cluster operable *)

Section run.
Context (r : ClusterReconciler) `{!GeneratorLaws (t_TokenGenerator (r_Teleport r)),
  !GeneratorFresh (t_TokenGenerator (r_Teleport r)),
  !GeneratorHealthy (t_TokenGenerator (r_Teleport r))}.

Lemma wp_Reconcile_lives req w cluster :
  s_clusters (view w) !! req = Some cluster → time_IsZero (cl_DeletionTimestamp cluster) = true →
  wp (Reconcile req) (λ _ s', lives w s'.2) (r, w).
Proof.
  intros Hc Hl. apply wp_Reconcile; [congruence| |by intros _ key c; eauto|].
  - intros e [r' w'] (_ & Hv & _). cbn [snd]. intros key c. rewrite Hv. eauto.
  - intros cluster' r' w' Hc' (Hsetup & Hv & _). assert (cluster' = cluster) as -> by congruence.
    pose proof (generator_same r r' Hsetup). unfold reconcileCluster. rewrite Hl. cbn [negb].
    eapply wp_mono; [apply (keeps_wp lives), keeps_lives_reconcileNormal, _|].
    intros o w'' Hlives key c. rewrite <-Hv. apply Hlives.
Qed.

(** The texts the operator writes into a values document are plain. *)
Record plain_setup (cluster : Cluster) : Prop := {
  plain_name : plain (registerName_of (r_Teleport r) cluster) = true;
  plain_proxy : plain (cfg_ProxyAddr (t_Config (r_Teleport r))) = true;
  plain_version : plain (cfg_TeleportVersion (t_Config (r_Teleport r))) = true;
  some_name : registerName_of (r_Teleport r) cluster ≠ "";
}.

Lemma configmap_ready_readable `{!YamlLaws} t w0 w cluster reg roles tka :
  good w → Forall known_role roles → reg ≠ "" → plain reg = true →
  plain (cfg_ProxyAddr (t_Config t)) = true → plain (cfg_TeleportVersion (t_Config t)) = true →
  configmap_ready t w0 w cluster reg roles tka →
  readable_configmap (view w) (configmap_key t (cluster_name cluster) (cluster_namespace cluster)) ∧
  register_name_agrees t (view w) cluster reg.
Proof.
  intros Hg Hk Hne Hp1 Hp2 Hp3 (tok & (cm & Hcm & Hdoc) & _ & _ & tk & Htk & _).
  assert (plain tok = true) by (eapply good_token_plain; eauto).
  assert (plain_inputs tok (cfg_ProxyAddr (t_Config t)) reg (cfg_TeleportVersion (t_Config t)) roles)
    as Hin by by split_and!.
  assert (GetTokenFromConfigMap cm = Ret tok ∧ registerNameFromConfigMap cm = Ret reg) as [Ht Hr].
  { unfold GetTokenFromConfigMap, registerNameFromConfigMap.
    rewrite (parse_rendered t cm reg tok roles tka Hdoc Hin). simpl.
    rewrite entries_token, entries_name. simpl. by rewrite decide_False. }
  split; intros cm' Hcm'; assert (cm' = cm) as -> by congruence; eauto.
Qed.

Lemma footprint_keeps_inputs t bot cluster s s' ns :
  untouched (cluster_slots t bot cluster) s s' →
  (identity_readable s ns → identity_readable s' ns) ∧
  s_configmaps s' !! mkKey (cluster_namespace cluster) (user_values_name (cluster_name cluster)) =
  s_configmaps s !! mkKey (cluster_namespace cluster) (user_values_name (cluster_name cluster)).
Proof.
  intros HU. split.
  - intros (sec & file & Hsec & Hfile). exists sec, file. split; [|done]. rewrite <-Hsec.
    by apply (untouched_obj _ KSecret _ _ _ HU), identity_not_slot.
  - by apply (untouched_obj _ KConfigMap _ _ _ HU), user_values_not_slot.
Qed.

Lemma operable_run `{!YamlLaws} w cluster :
  operable r w cluster → plain_setup cluster →
  wp (Reconcile (cl_meta cluster)) (λ o s', ∃ cluster',
    cl_meta cluster' = cl_meta cluster ∧ same_setup r s'.1 ∧ operable s'.1 s'.2 cluster' ∧
    wanted_roles s'.2 cluster' = wanted_roles w cluster) (r, w).
Proof.
  intros Hop [Hp1 Hp2 Hp3 Hne]. eapply wp_mono.
  { apply wp_and; [by apply returns_Reconcile|].
    apply wp_and; [apply wp_Reconcile_registers; [apply _|apply _|apply Hop..]|].
    apply wp_and; [apply Reconcile_ready; [apply _|apply Hop..]|].
    apply wp_and; [apply wp_Reconcile_footprint; apply _|].
    eapply wp_Reconcile_lives; apply Hop. }
  intros o [r' w'] ([[a ->] Hg] & [_ Hreg] & (_ & Hsetup & Hready) & Hfoot & Hlives). simpl in *.
  destruct Hop as [_ Hconn _ Hid Hc Hl Huv _ _ _]. rewrite Hc in Hfoot.
  destruct (footprint_keeps_inputs _ _ _ _ _ (r_Namespace r) Hfoot) as [Hid' Euv].
  destruct (Hlives _ _ Hc Hl) as (cluster' & Hc' & Hl').
  pose proof (view_obj_key w' KCluster _ _ Hc') as Hkey. simpl in Hkey.
  destruct Hreg as [_ (tok & (sec & Hsec & Htok) & _) Hcm _ _].
  assert (cluster_name cluster' = cluster_name cluster ∧
          cluster_namespace cluster' = cluster_namespace cluster) as [En Ens]
    by (unfold cluster_name, cluster_namespace; by rewrite Hkey).
  assert (registerName_of (r_Teleport r') cluster' = registerName_of (r_Teleport r) cluster) as Ereg.
  { rewrite (registerName_same r r' _ Hsetup). unfold registerName_of. by rewrite En. }
  pose proof (proj1 Hsetup) as Ecfg.
  apply configmap_ready_readable in Hcm as [Hread Hagree];
    [|done|apply roles_for_known|done..|by rewrite Ecfg|by rewrite Ecfg].
  exists cluster'. split_and!; [done..| |].
  - constructor; rewrite ?Ereg, ?En, ?Ens, ?Hkey; try done.
    + by eapply connected_same.
    + rewrite (proj1 (proj2 (proj2 (proj2 Hsetup)))). by apply Hid'.
    + unfold user_values_readable. rewrite En, Ens, Euv. apply Huv.
    + intros sec' Hsec'. exists tok. by assert (sec' = sec) as -> by congruence.
    + unfold register_name_agrees in *. by rewrite En, Ens.
  - unfold wanted_roles, apps_enabled. by rewrite En, Ens, Euv.
Qed.
End run.

(** ** Sequences of runs *)

(** Runs of one request, with waiting in between during which nobody else changes
    the cluster or Teleport; [ok] holds of the worlds waiting ends in. *)
Inductive undisturbed (ok : world → Prop) (req : ObjectKey) (s0 : run_state) : run_state → Prop :=
| undisturbed_start : undisturbed ok req s0 s0
| undisturbed_run s : undisturbed ok req s0 s → undisturbed ok req s0 (Reconcile req s).2
| undisturbed_wait r w w' :
    undisturbed ok req s0 (r, w) → view w' = view w → (now w <= now w')%Z → ok w' →
    undisturbed ok req s0 (r, w').

Lemma operable_wait r w w' cluster :
  operable r w cluster → view w' = view w → (now w <= now w')%Z → good w' → operable r w' cluster.
Proof.
  intros [? ? Hcl ? ? ? Huv Hsec Hcm Hname] Hv Ht Hg.
  constructor; rewrite ?Hv; try done.
  intros Hnone. eapply identity_expired_later; [exact Ht|by apply Hcl].
Qed.

Lemma plain_setup_same r r' cluster cluster' :
  same_setup r r' → cl_meta cluster' = cl_meta cluster → plain_setup r cluster →
  plain_setup r' cluster'.
Proof.
  intros Hs Hkey [? ? ? ?].
  assert (registerName_of (r_Teleport r') cluster' = registerName_of (r_Teleport r) cluster) as E.
  { rewrite (registerName_same r r' _ Hs). unfold registerName_of, cluster_name. by rewrite Hkey. }
  destruct Hs as [Hcfg _]. by constructor; rewrite ?E, ?Hcfg.
Qed.

Lemma generators_same r r' :
  same_setup r r' → t_TokenGenerator (r_Teleport r') = t_TokenGenerator (r_Teleport r).
Proof. by intros (_ & E & _). Qed.

Section sequences.
Context (r : ClusterReconciler) `{!GeneratorLaws (t_TokenGenerator (r_Teleport r)),
  !GeneratorFresh (t_TokenGenerator (r_Teleport r)),
  !GeneratorHealthy (t_TokenGenerator (r_Teleport r)), !YamlLaws}.

Lemma undisturbed_operable w cluster s :
  operable r w cluster → plain_setup r cluster → undisturbed good (cl_meta cluster) (r, w) s →
  ∃ cluster', cl_meta cluster' = cl_meta cluster ∧ same_setup r s.1 ∧
    operable s.1 s.2 cluster' ∧ wanted_roles s.2 cluster' = wanted_roles w cluster.
Proof.
  intros Hop Hplain.
  induction 1 as [|[r1 w1] _ (c1 & Hkey & Hs & Hop1 & Hroles)
                  |r1 w1 w2 _ (c1 & Hkey & Hs & Hop1 & Hroles) Hv Ht Hg]; simpl in *.
  - by exists cluster.
  - pose proof (generators_same r r1 Hs) as Hgen.
    assert (wp (Reconcile (cl_meta c1)) (λ o s', ∃ cluster',
      cl_meta cluster' = cl_meta c1 ∧ same_setup r1 s'.1 ∧ operable s'.1 s'.2 cluster' ∧
      wanted_roles s'.2 cluster' = wanted_roles w1 c1) (r1, w1)) as Hrun.
    { apply operable_run; rewrite ?Hgen; try apply _; [done|by eapply plain_setup_same]. }
    rewrite Hkey in Hrun. apply wp_unfold in Hrun as (c2 & Hkey2 & Hs2 & Hop2 & Hroles2).
    exists c2. split_and!; [congruence|by eapply same_setup_trans|done|congruence].
  - exists c1. split_and!; [done..|by eapply operable_wait|].
    rewrite <-Hroles. unfold wanted_roles. by rewrite Hv.
Qed.

(** C6. The registration holds for good: from an operable state, after any sequence of runs for
    the cluster and of waiting, however long, with the servers up and nobody else interfering,
    the next run returns and leaves the cluster registered under the same name and roles; in
    particular tokens that expire while the operator waits are replaced. *)
Theorem registration_holds w cluster s :
  operable r w cluster → plain_setup r cluster → undisturbed good (cl_meta cluster) (r, w) s →
  ∃ cluster', s_clusters (view s.2) !! cl_meta cluster = Some cluster' ∧
    wp (Reconcile (cl_meta cluster)) (λ o s', o = Ret (mkResult (5 * Minute)) ∧
      registered (r_Teleport s'.1) s.2 s'.2 (r_IsBotEnabled r) cluster'
        (registerName_of (r_Teleport r) cluster) (wanted_roles w cluster)) s.
Proof.
  intros Hop Hplain Hs. destruct (undisturbed_operable _ _ _ Hop Hplain Hs)
    as (c1 & Hkey & Hsetup & Hop1 & Hroles). exists c1. destruct s as [r1 w1]. simpl in *.
  pose proof (generators_same r r1 Hsetup) as Hgen.
  rewrite <-Hkey, <-Hroles. split; [apply Hop1|].
  assert (registerName_of (r_Teleport r) cluster = registerName_of (r_Teleport r1) c1) as ->.
  { rewrite (registerName_same r r1 _ Hsetup). unfold registerName_of, cluster_name. by rewrite Hkey. }
  assert (r_IsBotEnabled r = r_IsBotEnabled r1) as -> by (symmetry; apply Hsetup).
  eapply wp_mono.
  { apply wp_and; [apply returns_Reconcile; rewrite ?Hgen; try apply _; exact Hop1|].
    apply wp_Reconcile_registers; rewrite ?Hgen; try apply _; apply Hop1. }
  by intros o s' [[[a ->] _] [-> Hreg]].
Qed.
End sequences.

(** ** Until a token expires *)

(** A registered world in which the cluster's tokens expire at [t_expiry] or later. *)
Record settled (r : ClusterReconciler) (w : world) (cluster : Cluster) (t_expiry : Z) : Prop := {
  settled_cluster : s_clusters (view w) !! cl_meta cluster = Some cluster;
  settled_live : time_IsZero (cl_DeletionTimestamp cluster) = true;
  settled_registered : registered (r_Teleport r) w w (r_IsBotEnabled r) cluster
    (registerName_of (r_Teleport r) cluster) (wanted_roles w cluster);
  settled_names : ∀ n, is_Some (s_tokens (view w) !! n) → plain n = true;
  settled_tokens : ∀ n tk, s_tokens (view w) !! n = Some tk →
    cluster_label tk = registerName_of (r_Teleport r) cluster → (t_expiry <= Expiry tk)%Z;
  settled_plain : plain_setup r cluster;
}.

Lemma valid_within_wait w w' reg tok roles t_expiry :
  view w' = view w → (now w' < t_expiry)%Z →
  (∀ n tk, s_tokens (view w) !! n = Some tk → cluster_label tk = reg → (t_expiry <= Expiry tk)%Z) →
  valid_within w w reg tok roles → valid_within w' w' reg tok roles.
Proof.
  intros Hv Ht Hexp (tc & _ & tk & Htk & Hl & Hne & _ & Hlen & Hroles).
  exists (now w'). split; [lia|]. exists tk. rewrite Hv. split; [done|].
  specialize (Hexp tok tk Htk Hl). split_and!; (done || lia).
Qed.

Lemma settled_wait r r' w w' cluster t_expiry :
  settled r w cluster t_expiry → same_setup r r' → view w' = view w → (now w' < t_expiry)%Z →
  settled r' w' cluster t_expiry.
Proof.
  intros [Hc Hl [Hf (tok & Htok & Hv1) (tok' & Hdoc & Hv2) Href Hbot] Hn Htk Hp] Hs Hv Ht.
  pose proof (registerName_same r r' cluster Hs) as Ereg.
  pose proof (plain_setup_same r r' cluster cluster Hs eq_refl Hp) as Hp'.
  pose proof Hs as (Ecfg & _ & Ebot & _).
  constructor; rewrite ?Hv, ?Ereg; try done. rewrite Ebot.
  assert (wanted_roles w' cluster = wanted_roles w cluster) as -> by (unfold wanted_roles; by rewrite Hv).
  constructor; rewrite ?Hv; unfold agent_configmap, agent_key, agent_name in *; rewrite ?Ecfg; try done.
  - exists tok. split; [done|by eapply valid_within_wait].
  - exists tok'. unfold RenderConfigMapValues, getConfigMapData, configmap_key in *.
    rewrite Ecfg, Hv. split; [done|by eapply valid_within_wait].
Qed.

Section quiescence.
Context (r : ClusterReconciler) `{!GeneratorLaws (t_TokenGenerator (r_Teleport r)), !YamlLaws}.

(** Any run keeps the set-up, and time does not go back. *)
Lemma wp_Reconcile_setup req w :
  wp (Reconcile req) (λ _ s', same_setup r s'.1 ∧ (now w <= now s'.2)%Z) (r, w).
Proof.
  apply wp_Reconcile.
  - intros _. simpl. split; [done|lia].
  - by intros e [r' w'] (Hs & Hv & Ht & _).
  - intros _. simpl. split; [done|lia].
  - intros cluster' r' w' Hc' (Hs & Hv & Ht & _). pose proof (generator_same r r' Hs).
    eapply wp_mono; [apply (keeps_wp (step (λ _, True))); by apply keeps_reconcileCluster|].
    intros o w'' [Ht' _]. simpl. split; [done|lia].
Qed.

Lemma settled_run w cluster t_expiry :
  settled r w cluster t_expiry →
  wp (Reconcile (cl_meta cluster)) (λ _ s', (now s'.2 < t_expiry)%Z → view s'.2 = view w) (r, w).
Proof.
  intros Hset. pose proof (settled_cluster _ _ _ _ Hset) as Hc0. apply wp_Reconcile.
  - by rewrite Hc0.
  - by intros e [r' w'] (Hs & Hv & Ht & _).
  - done.
  - intros cluster' r' w' Hc' (Hs & Hv & _ & Hroles & _).
    assert (cluster' = cluster) as -> by congruence.
    pose proof (generator_same r r' Hs). fold (wanted_roles w cluster) in Hroles.
    assert (wp (reconcileCluster (r_Teleport r') (r_IsBotEnabled r') cluster (r_lastAssignedRoles r'))
      (λ _ w'', (now w' < t_expiry)%Z → w'' = w') w') as Hstable.
    { apply wp_imp. intros Hlt.
      destruct (settled_wait _ r' _ w' _ _ Hset Hs Hv Hlt) as [Hc Hl Hreg Hn _ [? ? ? _]].
      unfold reconcileCluster. rewrite Hl, Hroles. cbn [negb].
      assert (wanted_roles w' cluster = wanted_roles w cluster) as E by (unfold wanted_roles; by rewrite Hv).
      rewrite E in Hreg. apply wp_reconcileNormal_stable; try done; apply roles_for_known. }
    eapply wp_mono; [apply wp_and; [exact Hstable|apply (keeps_wp (step (λ _, True)))]|].
    { by apply keeps_reconcileCluster. }
    intros o w'' [Hst [Ht' _]] Hlt. simpl in *. rewrite Hst by lia. done.
Qed.
End quiescence.

(** C7. The registration is a fixed point until a token expires: from a registered state, as long
    as the time is before the expiry of every token of the cluster, no sequence of runs and
    waiting changes anything in the cluster or in Teleport, whether its calls succeed or fail
    and however often the identity is renewed on the way. *)
Theorem settled_until_expiry r w cluster t_expiry s
    `{!GeneratorLaws (t_TokenGenerator (r_Teleport r)), !YamlLaws} :
  settled r w cluster t_expiry → undisturbed (λ _, True) (cl_meta cluster) (r, w) s →
  (now s.2 < t_expiry)%Z → view s.2 = view w.
Proof.
  intros Hset Hs. enough (same_setup r s.1 ∧ ((now s.2 < t_expiry)%Z → view s.2 = view w)) by tauto.
  induction Hs as [|[r1 w1] _ [Hs1 IH]|r1 w1 w2 _ [Hs1 IH] Hv Ht _]; simpl in *.
  - done.
  - pose proof (generator_same r r1 Hs1).
    pose proof (proj1 (wp_unfold _ _ _) (wp_Reconcile_setup r1 (cl_meta cluster) w1)) as [Hs2 Ht].
    split; [by eapply same_setup_trans|]. intros Hlt.
    assert (view w1 = view w) as Hv1 by (apply IH; lia).
    assert (settled r1 w1 cluster t_expiry) as Hset1 by (eapply settled_wait; [done..|lia]).
    rewrite <-Hv1. by apply (proj1 (wp_unfold _ _ _) (settled_run r1 w1 cluster t_expiry Hset1)).
  - split; [done|]. intros Hlt. rewrite Hv. apply IH. lia.
Qed.
End Steady.
