(* ===== verification/Main.v ===== *)
(** * Program start (main.go)

    The command line, the manager's options, the configuration that is read once,
    and the one reconciler that is registered.  Kubernetes' host libraries (the
    manager, its builder, the rest configuration, the flags of zap and of
    controller-runtime) are parameters. *)
From S2P Require Import Prelude GoStrings GoValue GoTime GoFlag Libraries Key Objects World.
From S2P Require Import Config Teleport Token Secret Finalizer ConfigMap AppManager Controller.

(** ** Flags *)

Record Flags := mkFlags {
  metricsAddr : string;
  probeAddr : string;
  enableLeaderElection : bool;
  enableTeleportBot : bool;
  namespace : string;
}.

Definition default_flags : Flags := mkFlags ":8080" ":8081" false false "".

(** The [flag.StringVar] and [flag.BoolVar] calls, in their order. *)
Definition declared : list (string * flag Flags) :=
  [ ("metrics-bind-address", StringVar (λ v f,
      mkFlags v (probeAddr f) (enableLeaderElection f) (enableTeleportBot f) (namespace f)));
    ("health-probe-bind-address", StringVar (λ v f,
      mkFlags (metricsAddr f) v (enableLeaderElection f) (enableTeleportBot f) (namespace f)));
    ("leader-elect", BoolVar (λ v f,
      mkFlags (metricsAddr f) (probeAddr f) v (enableTeleportBot f) (namespace f)));
    ("tbot", BoolVar (λ v f,
      mkFlags (metricsAddr f) (probeAddr f) (enableLeaderElection f) v (namespace f)));
    ("namespace", StringVar (λ v f,
      mkFlags (metricsAddr f) (probeAddr f) (enableLeaderElection f) (enableTeleportBot f) v)) ].

Definition own_flag (name : string) : option (flag Flags) :=
  snd <$> List.find (λ d, bool_decide (d.1 = name)) declared.

(** The flags the libraries declare ([zap.Options.BindFlags], the client
    configuration's [kubeconfig]).  A name declared twice makes the flag package
    panic, so these are other names. *)
Class LibraryFlags := {
  lib_settings : Type;
  lib_defaults : lib_settings;
  lib_flag : string → option (flag lib_settings);
}.

Definition on_fst {A B} (f : flag A) : flag (A * B) :=
  mkFlag (IsBoolFlag f) (λ v s, match Set_ f v s.1 with inr a => inr (a, s.2) | inl e => inl e end).
Definition on_snd {A B} (f : flag B) : flag (A * B) :=
  mkFlag (IsBoolFlag f) (λ v s, match Set_ f v s.2 with inr b => inr (s.1, b) | inl e => inl e end).

Definition formal `{LibraryFlags} (name : string) : option (flag (Flags * lib_settings)) :=
  match own_flag name with
  | Some f => Some (on_fst f)
  | None => on_snd <$> lib_flag name
  end.

(** ** A process: a computation that may end with an exit status *)

Definition process (W A : Type) : Type := W → (Z + A) * W.

#[global] Instance process_ret {W} : MRet (process W) := λ A a w, (inr a, w).
#[global] Instance process_bind {W} : MBind (process W) := λ A B f m w,
  match m w with
  | (inr a, w') => f a w'
  | (inl status, w') => (inl status, w')
  end.

Definition os_Exit {W A} (status : Z) : process W A := λ w, (inl status, w).

(** [if err != nil { setupLog.Error(...); os.Exit(1) }]. *)
Definition or_exit {W A} (r : lib_error + A) : process W A :=
  match r with inl _ => os_Exit 1 | inr a => mret a end.
Definition check_err {W} (e : option lib_error) : process W unit :=
  match e with Some _ => os_Exit 1 | None => mret tt end.
Definition call {W A} (f : W → A * W) : process W A := λ w, (inr (f w).1, (f w).2).

(** A computation with a Go error; a panic ends the process with status 2. *)
Definition of_M {W A} (m : M W A) : process W A := λ w,
  match m w with
  | (Ret a, w') => (inr a, w')
  | (Err _, w') => (inl 1%Z, w')
  | (Panic, w') => (inl 2%Z, w')
  end.

(** ** The host *)

(** The API groups that [init] adds to the scheme. *)
Inductive api_group := ClientGo | ClusterAPI | AppV1alpha1 | CoreV1.

Record Options `{World} := mkOptions {
  o_Scheme : runtime_scheme;
  o_Metrics_BindAddress : string;
  o_WebhookServer_Port : Z;
  o_HealthProbeBindAddress : string;
  o_LeaderElection : bool;
  o_LeaderElectionID : string;
}.
Arguments mkOptions {_ _}.

(** The manager is a mutable object; here a call that changes it hands on the new
    one. *)
Class Host `{Unicode, World, LibraryFlags} := {
  NewScheme : runtime_scheme;
  AddToScheme : api_group → runtime_scheme → option lib_error * runtime_scheme;
  rest_config : Type;
  GetConfigOrDie : lib_settings → world → option rest_config;
  manager : Type;
  NewManager : rest_config → Options → world → (lib_error + manager) * world;
  GetClient : manager → kube_client;
  GetScheme : manager → runtime_scheme;
  client_New : rest_config → world → (lib_error + kube_client) * world;
  Complete : ClusterReconciler → manager → world → (lib_error + manager) * world;
  AddHealthzCheck : string → manager → world → (lib_error + manager) * world;
  AddReadyzCheck : string → manager → world → (lib_error + manager) * world;
  Start : manager → world → option lib_error * world;
}.

Section Main.
Context `{Host}.

(** ** main.go *)

(** [utilruntime.Must]. *)
Definition Must {A} (r : option lib_error * A) : outcome A :=
  match r.1 with Some _ => Panic | None => Ret r.2 end.

Definition init : outcome runtime_scheme :=
  s ← Must (AddToScheme ClientGo NewScheme);
  s ← Must (AddToScheme ClusterAPI s);
  s ← Must (AddToScheme AppV1alpha1 s);
  Must (AddToScheme CoreV1 s).

Definition manager_options (s : runtime_scheme) (f : Flags) : Options :=
  mkOptions s (metricsAddr f) 9443 (probeAddr f) (enableLeaderElection f)
    "765979b4.giantswarm.io".

(** [SetupWithManager]: the builder watches Clusters and reconciles with [r]. *)
Definition SetupWithManager (r : ClusterReconciler) (mgr : manager)
    : world → (lib_error + manager) * world := Complete r mgr.

(** [main] after the flags are parsed and until the manager is started. *)
Definition start_up (s : runtime_scheme) (f : Flags) (lib : lib_settings) : process world manager :=
  restConfig ← (λ w, match GetConfigOrDie lib w with Some c => (inr c, w) | None => (inl 1%Z, w) end);
  mgr ← call (NewManager restConfig (manager_options s f));
  mgr ← or_exit mgr;
  ctrlClient ← call (client_New restConfig);
  ctrlClient ← or_exit ctrlClient;
  config ← of_M (GetConfigFromConfigMap (Some ctrlClient) (namespace f));
  mgr ← call (SetupWithManager (initialReconciler (GetClient mgr) (GetScheme mgr)
                                  (namespace f) config (enableTeleportBot f)) mgr);
  mgr ← or_exit mgr;
  mgr ← call (AddHealthzCheck "healthz" mgr);
  mgr ← or_exit mgr;
  mgr ← call (AddReadyzCheck "readyz" mgr);
  or_exit mgr.

(** The flag set exits with 0 after a request for help and with 2 on an error. *)
Definition setup (args : list string) : process world manager :=
  match init with
  | Panic | Err _ => os_Exit 2
  | Ret s =>
      match parse formal args (default_flags, lib_defaults) with
      | ErrHelp => os_Exit 0
      | ErrUsage _ => os_Exit 2
      | Parsed (f, lib) _ => start_up s f lib
      end
  end.

Definition main (args : list string) : process world unit :=
  mgr ← setup args;
  err ← call (Start mgr);
  check_err err.
End Main.

(** ** What the host promises *)

(** What has been registered with a manager. *)
Record host_state `{World} := mkHostState {
  h_controllers : list ClusterReconciler;
  h_healthz : list string;
  h_readyz : list string;
}.

Arguments mkHostState {_ _}.

Definition add_controller `{World} (r : ClusterReconciler) (h : host_state) : host_state :=
  mkHostState (h_controllers h ++ [r]) (h_healthz h) (h_readyz h).
Definition add_healthz `{World} (n : string) (h : host_state) : host_state :=
  mkHostState (h_controllers h) (h_healthz h ++ [n]) (h_readyz h).
Definition add_readyz `{World} (n : string) (h : host_state) : host_state :=
  mkHostState (h_controllers h) (h_healthz h) (h_readyz h ++ [n]).

(** Setting up a manager writes nothing to the API servers, and a registration that
    reports no error is added to the manager's. *)
Class HostLaws `{Host, !WorldLaws} := {
  host_of : manager → host_state;
  options_of : manager → Options;
  GetScheme_spec m : GetScheme m = o_Scheme (options_of m);
  NewManager_spec rc o w :
    view (NewManager rc o w).2 = view w ∧
    ∀ m, (NewManager rc o w).1 = inr m → options_of m = o ∧ host_of m = mkHostState [] [] [];
  client_New_spec rc w : view (client_New rc w).2 = view w;
  Complete_spec r m w :
    view (Complete r m w).2 = view w ∧
    ∀ m', (Complete r m w).1 = inr m' →
          options_of m' = options_of m ∧ host_of m' = add_controller r (host_of m);
  AddHealthzCheck_spec n m w :
    view (AddHealthzCheck n m w).2 = view w ∧
    ∀ m', (AddHealthzCheck n m w).1 = inr m' →
          options_of m' = options_of m ∧ host_of m' = add_healthz n (host_of m);
  AddReadyzCheck_spec n m w :
    view (AddReadyzCheck n m w).2 = view w ∧
    ∀ m', (AddReadyzCheck n m w).1 = inr m' →
          options_of m' = options_of m ∧ host_of m' = add_readyz n (host_of m);
}.

Section theorems.
Context `{HostLaws}.

(** ** Reasoning about processes *)

Definition ends {A} (m : process world A) (Q : Z + A → world → Prop) (w : world) : Prop :=
  Q (m w).1 (m w).2.

Lemma ends_bind {A B} (m : process world A) (f : A → process world B) Q w :
  ends m (λ r w', match r with inr a => ends (f a) Q w' | inl z => Q (inl z) w' end) w →
  ends (m ≫= f) Q w.
Proof. unfold ends, mbind, process_bind. by destruct (m w) as [[z|a] w']. Qed.

Lemma ends_ret {A} (a : A) (Q : Z + A → world → Prop) w : Q (inr a) w → ends (mret a) Q w.
Proof. done. Qed.

Lemma ends_call {A B} (c : world → A * world) (f : A → process world B) Q w :
  ends (f (c w).1) Q (c w).2 → ends (call c ≫= f) Q w.
Proof. done. Qed.

(** A call of the host followed by its error check. *)
Lemma ends_call_check {A B} (c : world → (lib_error + A) * world) (f : A → process world B)
    (Q : Z + B → world → Prop) w :
  (∀ e w', c w = (inl e, w') → Q (inl 1%Z) w') →
  (∀ a w', c w = (inr a, w') → ends (f a) Q w') →
  ends (r ← call c; a ← or_exit r; f a) Q w.
Proof.
  intros He Ha. apply ends_call. destruct (c w) as [[e|a] w'] eqn:E.
  - by eapply He.
  - by apply Ha.
Qed.

(** ** The configuration *)

Lemma config_of_total cm : config_of cm ≠ Panic.
Proof.
  unfold config_of. rewrite !masked_getConfigMapString.
  by repeat (destruct (config_value _ _); simpl).
Qed.

Lemma wp_GetConfig c ns w :
  wp (GetConfigFromConfigMap (Some c) ns) (λ o w', w' = w ∧ match o with
    | Ret config => ∃ cm, s_configmaps (view w) !! mkKey ns TeleportOperatorConfigName = Some cm ∧
                          config_of cm = Ret config
    | Err _ => True
    | Panic => False
    end) w.
Proof.
  unfold GetConfigFromConfigMap. rewrite client_Get_Some by done.
  apply wp_bind; wp_get; simpl; [|by intros; apply wp_throw..].
  intros cm Hcm. apply wp_lift. split; [done|]. pose proof (config_of_total cm).
  destruct (config_of cm) eqn:E; [by exists cm|done..].
Qed.

Lemma ends_config {B} c ns (f : Config → process world B) (Q : Z + B → world → Prop) w :
  (∀ e, GetConfigFromConfigMap (Some c) ns w = (Err e, w) → Q (inl 1%Z) w) →
  (∀ config, GetConfigFromConfigMap (Some c) ns w = (Ret config, w) → ends (f config) Q w) →
  ends (of_M (GetConfigFromConfigMap (Some c) ns) ≫= f) Q w.
Proof.
  intros HQ Hf. apply ends_bind. unfold ends at 1, of_M.
  pose proof (wp_GetConfig c ns w) as Hwp. apply wp_unfold in Hwp as [Hw Ho].
  destruct (GetConfigFromConfigMap (Some c) ns w) as [[config|e|] w']; simpl in *; subst w';
    [by apply Hf|by eapply HQ|done].
Qed.

(** ** The set-up *)

(** Every call of the set-up answers without an error, one after the other. *)
Definition set_up (s : runtime_scheme) (f : Flags) (lib : lib_settings) (w : world)
    (mgr : manager) (w' : world) : Prop :=
  ∃ rc m1 w1 c w2 config m2 w3 m3 w4,
    GetConfigOrDie lib w = Some rc ∧
    NewManager rc (manager_options s f) w = (inr m1, w1) ∧
    client_New rc w1 = (inr c, w2) ∧
    GetConfigFromConfigMap (Some c) (namespace f) w2 = (Ret config, w2) ∧
    Complete (initialReconciler (GetClient m1) (GetScheme m1) (namespace f) config
                (enableTeleportBot f)) m1 w2 = (inr m2, w3) ∧
    AddHealthzCheck "healthz" m2 w3 = (inr m3, w4) ∧
    AddReadyzCheck "readyz" m3 w4 = (inr mgr, w').

Definition unable (s : runtime_scheme) (f : Flags) (lib : lib_settings) (w : world) : Prop :=
  ∀ mgr w', ¬ set_up s f lib w mgr w'.

(** The manager's options are the command line's, and what is registered is one
    reconciler, the initial one for the manager's client and scheme, the namespace and the bot
    flag of the command line and the configuration stored in that namespace, and both checks. *)
Record started (s : runtime_scheme) (f : Flags) (mgr : manager) (w : world) : Prop := {
  started_scheme : o_Scheme (options_of mgr) = s;
  started_metrics : o_Metrics_BindAddress (options_of mgr) = metricsAddr f;
  started_probes : o_HealthProbeBindAddress (options_of mgr) = probeAddr f;
  started_election : o_LeaderElection (options_of mgr) = enableLeaderElection f;
  started_webhook : o_WebhookServer_Port (options_of mgr) = 9443%Z;
  started_host : ∃ c cm config,
    s_configmaps (view w) !! mkKey (namespace f) TeleportOperatorConfigName = Some cm ∧
    config_of cm = Ret config ∧
    host_of mgr =
      mkHostState [initialReconciler c s (namespace f) config (enableTeleportBot f)]
        ["healthz"] ["readyz"];
}.

Lemma set_up_started s f lib w mgr w' :
  set_up s f lib w mgr w' → view w' = view w ∧ started s f mgr w.
Proof.
  intros (rc & m1 & w1 & c & w2 & config & m2 & w3 & m3 & w4 & _ & E1 & E2 & E3 & E4 & E5 & E6).
  pose proof (NewManager_spec rc (manager_options s f) w) as L1. rewrite E1 in L1.
  pose proof (client_New_spec rc w1) as L2. rewrite E2 in L2.
  epose proof (Complete_spec _ m1 w2) as L4. rewrite E4 in L4.
  pose proof (AddHealthzCheck_spec "healthz" m2 w3) as L5. rewrite E5 in L5.
  pose proof (AddReadyzCheck_spec "readyz" m3 w4) as L6. rewrite E6 in L6. simpl in *.
  destruct L1 as [V1 L1], L4 as [V4 L4], L5 as [V5 L5], L6 as [V6 L6].
  destruct (L1 _ eq_refl) as [O1 K1], (L4 _ eq_refl) as [O4 K4], (L5 _ eq_refl) as [O5 K5],
    (L6 _ eq_refl) as [O6 K6].
  assert (options_of mgr = manager_options s f) as Ho by congruence.
  split; [congruence|]. constructor; rewrite ?Ho; [done..|].
  destruct (wp_elim _ _ _ _ _ (wp_GetConfig c (namespace f) w2) E3) as (_ & cm & Hcm & Hconfig).
  exists (GetClient m1), cm, config. split_and!; [congruence|done|].
  rewrite K6, K5, K4, K1, GetScheme_spec, O1. done.
Qed.

(** A call that failed is none of the set-up's. *)
Ltac refute_set_up :=
  intros ? ? (? & ? & ? & ? & ? & ? & ? & ? & ? & ? & ? & ? & ? & ? & ? & ? & ?); congruence.

(** Either every call answers, or the process ends with status 1. *)
Lemma ends_start_up s f lib w :
  ends (start_up s f lib) (λ r w', match r with
    | inr mgr => set_up s f lib w mgr w'
    | inl status => status = 1%Z ∧ view w' = view w ∧ unable s f lib w
    end) w.
Proof.
  assert (∀ w', view w' = view w → unable s f lib w →
    1%Z = 1%Z ∧ view w' = view w ∧ unable s f lib w) as Hstop by done.
  unfold start_up. apply ends_bind. unfold ends at 1.
  destruct (GetConfigOrDie lib w) as [rc|] eqn:E0; cbn [fst snd].
  2:{ apply Hstop; [done|refute_set_up]. }
  pose proof (NewManager_spec rc (manager_options s f) w) as [V1 _].
  apply ends_call_check; intros m1 w1 E1; rewrite E1 in V1; simpl in V1.
  { apply Hstop; [done|refute_set_up]. }
  pose proof (client_New_spec rc w1) as V2.
  apply ends_call_check; intros c w2 E2; rewrite E2 in V2; simpl in V2.
  { apply Hstop; [congruence|refute_set_up]. }
  apply ends_config; intros config E3.
  { apply Hstop; [congruence|refute_set_up]. }
  unfold SetupWithManager. epose proof (Complete_spec _ m1 w2) as [V4 _].
  apply ends_call_check; intros m2 w3 E4; rewrite E4 in V4; simpl in V4.
  { apply Hstop; [congruence|refute_set_up]. }
  pose proof (AddHealthzCheck_spec "healthz" m2 w3) as [V5 _].
  apply ends_call_check; intros m3 w4 E5; rewrite E5 in V5; simpl in V5.
  { apply Hstop; [congruence|refute_set_up]. }
  pose proof (AddReadyzCheck_spec "readyz" m3 w4) as [V6 _]. apply ends_call.
  destruct (AddReadyzCheck "readyz" m3 w4) as [[e|m4] w5] eqn:E6; simpl in V6.
  { apply Hstop; [simpl; congruence|refute_set_up]. }
  by exists rc, m1, w1, c, w2, config, m2, w3, m3, w4.
Qed.

(** C16. What main does: it starts a manager exactly when the scheme and the command line are
    good and every call of the set-up answers, and then that manager has the options of the
    command line, one reconciler, with both its clients set, for the stored configuration, and
    both health checks; the status is 1 when the manager's run ends with an error.  Otherwise
    nothing is started and nothing written, and the status says why: 1 when a call failed, 2 for
    a bad scheme or command line, 0 after a request for help. *)
Theorem main_spec args w :
  ends (main args) (λ r w',
    match init, parse formal args (default_flags, lib_defaults) with
    | Ret s, Parsed (f, lib) _ =>
        (∃ mgr w1, set_up s f lib w mgr w1 ∧ view w1 = view w ∧ started s f mgr w ∧
           w' = (Start mgr w1).2 ∧
           r = match (Start mgr w1).1 with None => inr tt | Some _ => inl 1%Z end) ∨
        (unable s f lib w ∧ r = inl 1%Z ∧ view w' = view w)
    | Ret _, ErrHelp => r = inl 0%Z ∧ w' = w
    | _, _ => r = inl 2%Z ∧ w' = w
    end) w.
Proof.
  unfold main. apply ends_bind. unfold setup, ends at 1.
  destruct init as [s|e|]; [|done..].
  destruct (parse formal args _) as [[f lib] rest| |msg]; [|done..].
  pose proof (ends_start_up s f lib w) as Hs. unfold ends in Hs.
  destruct (start_up s f lib w) as [[status|mgr] w1]; simpl in *.
  - destruct Hs as (-> & Hv & Hno). by right.
  - left. exists mgr, w1. destruct (set_up_started _ _ _ _ _ _ Hs) as [Hv Hst].
    apply ends_call. unfold ends, check_err. by destruct (Start mgr w1).1.
Qed.
End theorems.

(** ** The command line *)

(** The last value a command line gives to a name. *)
Definition last_value {A} (read : string → A) (name : string) (d : A) (xs : list setting) : A :=
  foldl (λ d x, if decide (set_name x = name) then read (set_value x) else d) d xs.

Definition string_names : list string :=
  ["metrics-bind-address"; "health-probe-bind-address"; "namespace"].
Definition bool_names : list string := ["leader-elect"; "tbot"].

(** A setting of a flag that main declares, with a value the flag takes. *)
Definition valid_setting (x : setting) : Prop :=
  set_name x ∈ string_names ∨
  (set_name x ∈ bool_names ∧ is_Some (ParseBool (set_value x)) ∧
   (set_equals x = false → set_value x = "true")).

Definition print_own (x : setting) : list string :=
  print_setting (bool_decide (set_name x ∈ bool_names)) x.

Definition read_bool (v : string) : bool := default false (ParseBool v).

(** The variables after some settings. *)
Definition settings_read (f : Flags) (xs : list setting) : Flags :=
  mkFlags (last_value id "metrics-bind-address" (metricsAddr f) xs)
    (last_value id "health-probe-bind-address" (probeAddr f) xs)
    (last_value read_bool "leader-elect" (enableLeaderElection f) xs)
    (last_value read_bool "tbot" (enableTeleportBot f) xs)
    (last_value id "namespace" (namespace f) xs).

Section command_line.
Context `{Unicode, LibraryFlags}.

(** One valid setting is parsed as the assignment it stands for. *)
Lemma parse_own_setting x rest f lib :
  valid_setting x →
  parse formal (print_own x ++ rest) (f, lib) = parse formal rest (settings_read f [x], lib).
Proof.
  destruct x as [n v d e]. unfold valid_setting, print_own. cbn [set_name set_value set_equals].
  intros [Hn|(Hn & [b Hb] & He)].
  - assert (n = "metrics-bind-address" ∨ n = "health-probe-bind-address" ∨ n = "namespace")
      as [->|[->| ->]] by set_solver; (eapply parse_setting; [done|reflexivity|done..]).
  - assert (n = "leader-elect" ∨ n = "tbot") as [->| ->] by set_solver;
      (eapply parse_setting; [done|reflexivity|done|done|]); simpl; rewrite Hb;
      unfold settings_read, last_value, read_bool; simpl; by rewrite Hb.
Qed.

Lemma settings_read_cons f x xs : settings_read f (x :: xs) = settings_read (settings_read f [x]) xs.
Proof. done. Qed.

(** What may follow the flags: nothing, an argument that is no flag, or the end mark,
    which is dropped. *)
Definition operands (rest : list string) : option (list string) :=
  match rest with
  | [] => Some []
  | a :: rest' =>
      match classify a with NoFlag => Some rest | EndOfFlags => Some rest' | _ => None end
  end.

Lemma parse_operands rest args s :
  operands rest = Some args → parse formal rest s = Parsed s args.
Proof. destruct rest as [|a rest]; simpl; [by intros [= <-]|]. by destruct (classify a); intros [= <-]. Qed.

Lemma parse_all xs rest args f lib :
  Forall valid_setting xs → operands rest = Some args →
  parse formal (concat (print_own <$> xs) ++ rest) (f, lib) = Parsed (settings_read f xs, lib) args.
Proof.
  intros Hxs Hrest. revert f. induction Hxs as [|x xs Hx _ IH]; intros f.
  - rewrite (parse_operands rest args) by done. by destruct f.
  - csimpl. rewrite <-app_assoc, parse_own_setting by done. by rewrite IH, <-settings_read_cons.
Qed.

(** C17. The command line means what it says: main's parse of any list of settings of its flags,
    each with one or two dashes and with its value after an equals sign or as the next
    argument, followed by nothing, by arguments that are no flags, or by the end mark and any
    arguments, gives every variable the last value it was set to, or its default: port 8080 for
    the metrics, 8081 for the probes, no leader election, no bot and no namespace. *)
Theorem parse_settings xs rest args :
  Forall valid_setting xs → operands rest = Some args →
  parse formal (concat (print_own <$> xs) ++ rest) (default_flags, lib_defaults) =
  Parsed (mkFlags (last_value id "metrics-bind-address" ":8080" xs)
            (last_value id "health-probe-bind-address" ":8081" xs)
            (last_value read_bool "leader-elect" false xs)
            (last_value read_bool "tbot" false xs)
            (last_value id "namespace" "" xs), lib_defaults) args.
Proof. intros Hxs Hrest. by apply parse_all. Qed.
End command_line.
