(* ===== verification/Schema.v ===== *)
(** * What is stored stays well formed

    The rules the API servers check on write, and the operator's own rule that a
    token has an expiry, as a predicate on snapshots; every run keeps it, whatever
    its outcome. *)
From S2P Require Import Prelude GoStrings GoValue GoTime Libraries Key Objects World Config.
From S2P Require Import Teleport Token Secret Finalizer ConfigMap AppManager Controller Stages.
From S2P Require Import Registration Registered Deregistration Reconcile.

(** ** The rules *)

(** A key of a Secret or a ConfigMap: letters, digits, dots, dashes, underscores. *)
Definition key_char (c : ascii) : bool :=
  let n := N_of_ascii c in
  (bool_decide (48 ≤ n ≤ 57) || bool_decide (65 ≤ n ≤ 90) || bool_decide (97 ≤ n ≤ 122) ||
   bool_decide (n = 45) || bool_decide (n = 46) || bool_decide (n = 95))%N.
Definition data_key (k : string) : Prop := k ≠ "" ∧ all_chars key_char k = true.

(** An entry of a HelmRelease's [spec.valuesFrom]. *)
Definition wf_values_ref (v : value) : Prop :=
  ∃ m kind name, v = VMap m ∧ index m "kind" = VString kind ∧ kind ∈ ["ConfigMap"; "Secret"] ∧
    index m "name" = VString name ∧ name ≠ "".

(** An entry of an App's [spec.extraConfigs]. *)
Definition wf_extra_config (c : AppExtraConfig) : Prop :=
  ec_Kind c ∈ ["configMap"; "secret"] ∧ ec_Name c ≠ "" ∧ (1 <= ec_Priority c <= 150)%Z.

Definition wf_cluster (c : Cluster) : Prop := NoDup (cl_Finalizers c).
Definition wf_secret (s : Secret) : Prop := map_Forall (λ k _, data_key k) (sec_Data s).

(** No key is both text and binary. *)
Definition wf_configmap (c : ConfigMap) : Prop :=
  map_Forall (λ k _, data_key k) (default ∅ (cm_Data c)) ∧
  map_Forall (λ k _, data_key k) (cm_BinaryData c) ∧
  default ∅ (cm_Data c) ##ₘ cm_BinaryData c.

Definition wf_helmrelease (hr : HelmRelease) : Prop :=
  ∃ spec, index (hr_Object hr) "spec" = VMap spec ∧
    (index spec "valuesFrom" = VNil ∨ ∃ l, index spec "valuesFrom" = VList l) ∧
    Forall wf_values_ref (hr_refs hr).

Definition wf_app (a : App) : Prop := Forall wf_extra_config (app_refs a).

Definition wf_obj (k : kind) : obj k → Prop :=
  match k return obj k → Prop with
  | KCluster => wf_cluster
  | KSecret => wf_secret
  | KConfigMap => wf_configmap
  | KHelmRelease => wf_helmrelease
  | KApp => wf_app
  end.

Definition well_formed `{SystemRoles} (s : Snapshot) : Prop :=
  (∀ k key o, objs k s !! key = Some o → wf_obj k o) ∧
  (∀ n t, s_tokens s !! n = Some t → Expiry t ≠ 0%Z).

(** ** What the operator sends *)

Lemma wf_token_secret c n tok : wf_secret (stored KSecret (token_secret c n tok)).
Proof.
  unfold wf_secret, stored, token_secret. simpl. rewrite map_union_empty.
  apply map_Forall_singleton. by split.
Qed.

Lemma wf_values_configmap key values : wf_configmap (values_configmap key values).
Proof.
  split_and!; simpl; [by apply map_Forall_singleton|done|]. apply map_disjoint_empty_r.
Qed.

Lemma wf_set_values cm values d :
  cm_Data cm = Some d → is_Some (d !! "values") → wf_configmap cm → wf_configmap (set_values values cm).
Proof.
  intros Hd [v Hv] (Hk & Hb & Hdis). unfold wf_configmap, set_values in *. rewrite Hd in *. simpl in *.
  split_and!; [|done|].
  - by apply map_Forall_insert_2.
  - apply map_disjoint_insert_l_2; [|done]. by eapply map_disjoint_Some_l.
Qed.

Lemma wf_values_ref_ref cm : cm ≠ "" → wf_values_ref (values_ref cm).
Proof.
  intros Hne. eexists _, "ConfigMap", cm. split_and!; [done|done| |done|done]. by left.
Qed.

Lemma wf_setValuesFrom hr refs :
  Forall wf_values_ref (elems refs) → wf_helmrelease (setValuesFrom hr refs).
Proof.
  intros Hl. eexists. split_and!.
  - unfold setValuesFrom. simpl. apply index_insert.
  - right. eexists. apply index_insert.
  - unfold hr_refs. by rewrite getValuesFrom_set.
Qed.

Lemma Forall_append_reference {A} `{EqDecision A} (P : A → Prop) refs ref :
  P ref → Forall P (elems refs) → Forall P (elems (append_reference refs ref)).
Proof.
  intros Hr Hl. rewrite append_reference_spec. case_decide; [done|].
  apply Forall_app. split; [done|by apply Forall_singleton].
Qed.

Lemma Forall_remove_reference {A} `{EqDecision A} (P : A → Prop) refs ref :
  Forall P (elems refs) → Forall P (elems (remove_reference refs ref)).
Proof.
  intros Hl. rewrite remove_reference_spec. apply Forall_forall. intros x [_ Hx]%list_elem_of_filter.
  by apply (proj1 (Forall_forall P _) Hl).
Qed.

Lemma wf_extra cm ns : cm ≠ "" → wf_extra_config (extra_config cm ns).
Proof. intros Hne. split_and!; [by left|done|done..]. Qed.

Lemma GetConfigmapName_ne c app : GetConfigmapName c app ≠ "".
Proof. unfold GetConfigmapName. by destruct c. Qed.

Lemma GetTbotConfigmapName_ne c : GetTbotConfigmapName c ≠ "".
Proof. done. Qed.

Section Schema.
Context `{Unicode, Semver, Yaml, WorldLaws, !ProvisionTokens, !TeleportTypesLaws,
  ControllerUtil, !ControllerUtilLaws}.

(** ** Computations that keep it *)

Definition wf_kept (w w' : world) : Prop := well_formed (view w) → well_formed (view w').

#[local] Instance wf_kept_preorder : PreOrder wf_kept.
Proof. split; [by intros w Hw|]. intros w1 w2 w3 K12 K23 Hw. auto. Qed.

(** A computation that changes nothing. *)
Definition nothing (x : slot) : Prop := False.

Lemma keeps_wf_read {A} (m : M world A) : Keeps (step nothing) m → Keeps wf_kept m.
Proof.
  intros Hm. eapply keeps_weaken; [exact Hm|]. intros w w' [_ HU] [Ho Ht]. split.
  - intros k key o. rewrite (untouched_obj _ k key _ _ HU) by by intros []. apply Ho.
  - intros n t. rewrite (untouched_token _ n _ _ HU) by by intros []. apply Ht.
Qed.

Lemma keeps_wf_write (pre : world → Prop) change call :
  (∀ w, write_spec view (pre w) change call w) → (∀ s, well_formed s → well_formed (change s)) →
  Keeps wf_kept (run call).
Proof.
  intros Hw Hc w Hwf. change (well_formed (view (call w).2)). destruct (Hw w) as [_ Hv].
  destruct (call w).1; [destruct Hv as [->|[_ ->]]|destruct Hv as [_ ->]]; auto.
Qed.

Lemma well_formed_with_objs k m s :
  well_formed s → (∀ key o, m !! key = Some o → wf_obj k o) → well_formed (with_objs k m s).
Proof.
  intros [Ho Ht] Hm. split.
  - intros k' key o. destruct (decide (k = k')) as [<-|Hne].
    + rewrite objs_with_objs. apply Hm.
    + rewrite objs_with_objs_ne by done. apply Ho.
  - intros n t. rewrite tokens_with_objs. apply Ht.
Qed.

Lemma well_formed_put k o s : wf_obj k (stored k o) → well_formed s → well_formed (put_obj k o s).
Proof.
  intros Ho Hs. apply well_formed_with_objs; [done|]. intros key o'.
  rewrite lookup_insert_Some. intros [[_ <-]|[_ Hl]]; [done|by apply Hs in Hl].
Qed.

Lemma well_formed_del k key s : well_formed s → well_formed (del_obj k key s).
Proof.
  intros Hs. apply well_formed_with_objs; [done|]. intros key' o.
  rewrite lookup_delete_Some. intros [_ Hl]. by apply Hs in Hl.
Qed.

Lemma well_formed_patch before after s :
  NoDup (cl_Finalizers after) → well_formed s → well_formed (patch_cluster before after s).
Proof.
  intros Hn Hs. unfold patch_cluster. destruct (s_clusters s !! cl_meta before) as [cur|] eqn:E; [|done].
  cbn zeta. destruct (_ && _); [by apply well_formed_del|].
  apply (well_formed_with_objs KCluster); [done|]. intros key o.
  rewrite lookup_insert_Some. intros [[_ <-]|[_ Hl]].
  - simpl. unfold wf_cluster, patched. case_decide; [|done]. apply (proj1 Hs KCluster _ _ E).
  - by apply (proj1 Hs KCluster) in Hl.
Qed.

Lemma well_formed_put_token t s : Expiry t ≠ 0%Z → well_formed s → well_formed (put_token t s).
Proof.
  intros He [Ho Ht]. split.
  - intros k key o. unfold put_token. rewrite objs_with_tokens. apply Ho.
  - intros n t'. simpl. rewrite lookup_insert_Some. intros [[_ <-]|[_ Hl]]; [done|by apply Ht in Hl].
Qed.

Lemma well_formed_del_token n s : well_formed s → well_formed (del_token n s).
Proof.
  intros [Ho Ht]. split.
  - intros k key o. unfold del_token. rewrite objs_with_tokens. apply Ho.
  - intros m t. simpl. rewrite lookup_delete_Some. intros [_ Hl]. by apply Ht in Hl.
Qed.

(** *** The calls *)

Lemma keeps_wf_Create k o : wf_obj k (stored k o) → Keeps wf_kept (Create k o).
Proof.
  intros Ho. apply (keeps_wf_write (λ w, objs k (view w) !! obj_key k o = None) (put_obj k o));
    [apply Create_spec|]. intros s. by apply well_formed_put.
Qed.

Lemma keeps_wf_Update k o : wf_obj k (stored k o) → Keeps wf_kept (Update k o).
Proof.
  intros Ho. apply (keeps_wf_write (λ w, is_Some (objs k (view w) !! obj_key k o)) (put_obj k o));
    [apply Update_spec|]. intros s. by apply well_formed_put.
Qed.

Lemma keeps_wf_delete k key f :
  k = KSecret ∨ k = KConfigMap → Keeps wf_kept (delete_if_present k key f).
Proof.
  intros Hk. unfold delete_if_present. apply keeps_bind; [apply _| |].
  - apply (keeps_wf_write (λ _, True) (del_obj k key)); [intros w; by apply Delete_spec|].
    intros s. apply well_formed_del.
  - intros [e|]; apply keeps_wf_read; solve_keeps.
Qed.

Lemma keeps_wf_Patch before after :
  NoDup (cl_Finalizers after) → Keeps wf_kept (Patch before after).
Proof.
  intros Hn. apply (keeps_wf_write (λ w, is_Some (s_clusters (view w) !! cl_meta before))
    (patch_cluster before after)); [apply Patch_spec|]. intros s. by apply well_formed_patch.
Qed.

Lemma keeps_wf_UpsertToken c t : Expiry t ≠ 0%Z → Keeps wf_kept (client_UpsertToken c t).
Proof.
  intros He. apply keeps_bind; [apply _|apply keeps_wf_read; solve_keeps|]. intros c'.
  apply (keeps_wf_write (λ _, True) (put_token t)); [intros w; apply UpsertToken_spec|].
  intros s. by apply well_formed_put_token.
Qed.

Lemma keeps_wf_DeleteToken c n : Keeps wf_kept (client_DeleteToken c n).
Proof.
  apply keeps_bind; [apply _|apply keeps_wf_read; solve_keeps|]. intros c'.
  apply (keeps_wf_write (λ _, True) (del_token n)); [intros w; apply DeleteToken_spec|].
  intros s. apply well_formed_del_token.
Qed.

(** A read from a well-formed snapshot gives a well-formed object. *)
Lemma keeps_wf_Get_bind {A} k key (f : lib_error + obj k → M world A) :
  (∀ e, Keeps wf_kept (f (inl e))) → (∀ o, wf_obj k o → Keeps wf_kept (f (inr o))) →
  Keeps wf_kept (Get k key ≫= f).
Proof.
  intros HL HR w Hwf. change (well_formed (view (f (k8s_Get k key w) w).2)).
  pose proof (Get_spec k key w) as Hs.
  destruct (k8s_Get k key w) as [e|o]; [by apply HL|]. apply HR; [|done]. by apply (proj1 Hwf k key).
Qed.

Lemma keeps_wf_get_or_nil_bind {A} k key h (f : option (obj k) → M world A) :
  Keeps wf_kept (f None) → (∀ o, wf_obj k o → Keeps wf_kept (f (Some o))) →
  Keeps wf_kept (mask_errors (get_or_nil k key h) ≫= f).
Proof.
  intros HN HS. enough (Keeps wf_kept (get_or_nil k key h ≫= f)) as Hb.
  { intros w. specialize (Hb w). unfold mbind, M_bind, mask_errors in *.
    by destruct (get_or_nil k key h w) as [[o|e|] w']. }
  intros w Hwf. pose proof (Get_spec k key w) as Hs.
  unfold mbind, M_bind, get_or_nil, mbind, M_bind, Get, gets.
  destruct (k8s_Get k key w) as [e|o]; [destruct (IsNotFound e)|].
  - by apply HN.
  - done.
  - apply HS; [|done]. by apply (proj1 Hwf k key).
Qed.

(** A pure step hands on its value. *)
Lemma keeps_wf_lift_bind {A B} (o : outcome A) (f : A → M world B) :
  (∀ a, o = Ret a → Keeps wf_kept (f a)) → Keeps wf_kept (lift o ≫= f).
Proof. intros Hf w. destruct o as [a|e|]; [by apply (Hf a)|by intros Hw..]. Qed.
Lemma keeps_wf_Now_bind {A} (f : Z → M world A) :
  (∀ t_now, (0 < t_now)%Z → Keeps wf_kept (f t_now)) → Keeps wf_kept (Now ≫= f).
Proof. intros Hf w. apply (Hf (now w) (now_pos w) w). Qed.

Ltac wf_read := solve [apply keeps_wf_read; solve_keeps].
Ltac wf_steps := repeat (keeps_step || apply keeps_mask_errors || wf_read).

(** *** The operations *)

Section run.
Context (t : Teleport) `{!GeneratorLaws (t_TokenGenerator t)}.

Lemma keeps_wf_GenerateToken reg roles : Keeps wf_kept (GenerateToken t reg roles).
Proof.
  unfold GenerateToken. apply keeps_wf_Now_bind. intros t_now Hnow. cbn zeta.
  apply keeps_bind; [apply _|wf_read|]. intros name.
  destruct (NewProvisionToken _ _ _) as [e|tk] eqn:Etk; [wf_read|].
  apply NewProvisionToken_spec in Etk as (_ & He & _).
  apply keeps_bind; [apply _| |intros [e|]; wf_read].
  apply keeps_wf_UpsertToken. simpl. rewrite He.
  unfold Add, TeleportKubeTokenValidity, Hour, Minute. lia.
Qed.

Lemma keeps_wf_DeleteToken_cluster reg : Keeps wf_kept (DeleteToken t reg).
Proof.
  unfold DeleteToken. apply keeps_bind; [apply _|wf_read|]. intros [e|l]; [wf_read|].
  destruct (List.find _ l); [|wf_read].
  apply keeps_bind; [apply _|apply keeps_wf_DeleteToken|intros [e|]; wf_read].
Qed.

Lemma keeps_wf_write_secret (create : bool) c n tok :
  Keeps wf_kept ((if create then CreateSecret else UpdateSecret) c n tok).
Proof.
  destruct create; (apply keeps_bind; [apply _| |intros [e|]; wf_read]).
  - apply keeps_wf_Create, wf_token_secret.
  - apply keeps_wf_Update, wf_token_secret.
Qed.

Lemma keeps_wf_reconcileSecret cluster reg : Keeps wf_kept (reconcileSecret t cluster reg).
Proof.
  assert (∀ create, Keeps wf_kept (token ← mask_errors (GenerateToken t reg [role_node]);
    mask_errors ((if create : bool then CreateSecret else UpdateSecret)
      (cluster_name cluster) (cluster_namespace cluster) token))) as Hwrite.
  { intros create. apply keeps_bind; [apply _|apply keeps_mask_errors, keeps_wf_GenerateToken|].
    intros tok. apply keeps_mask_errors, keeps_wf_write_secret. }
  unfold reconcileSecret. apply keeps_bind; [apply _|apply keeps_mask_errors; wf_read|].
  intros [sec|]; [|apply (Hwrite true)].
  apply keeps_bind; [apply _|apply keeps_mask_errors; wf_read|]. intros tok.
  apply keeps_bind; [apply _|apply keeps_mask_errors; wf_read|].
  intros [|]; cbn [negb]; [wf_read|apply (Hwrite false)].
Qed.

Lemma registerName_values cm name :
  registerNameFromConfigMap cm = Ret name → ∃ d, cm_Data cm = Some d ∧ is_Some (d !! "values").
Proof.
  unfold registerNameFromConfigMap, parseConfigMapValues, values_root, map_read.
  destruct (cm_Data cm) as [d|]; [|done]. simpl. intros E. exists d. split; [done|].
  destruct (d !! "values"); [by eexists|done].
Qed.

Lemma keeps_wf_UpdateConfigMap cm tok roles tka :
  wf_configmap cm → Keeps wf_kept (UpdateConfigMap t cm tok roles tka).
Proof.
  intros Hcm. unfold UpdateConfigMap. apply keeps_wf_lift_bind. intros name Hname. cbn zeta.
  destruct (registerName_values _ _ Hname) as (d & Hd & Hv).
  apply keeps_bind; [apply _| |intros [e|]; wf_read].
  apply keeps_wf_Update. by eapply wf_set_values.
Qed.

Lemma keeps_wf_updateExisting reg roles tka cm :
  wf_configmap cm → Keeps wf_kept (updateExistingConfigMap t reg roles tka cm).
Proof.
  intros Hcm. unfold updateExistingConfigMap. cbn zeta.
  apply keeps_bind; [apply _|apply keeps_mask_errors; wf_read|]. intros tok.
  apply keeps_bind; [apply _|apply keeps_mask_errors; wf_read|]. intros b.
  apply keeps_bind; [apply _| |].
  - destruct (negb b); [apply keeps_mask_errors, keeps_wf_GenerateToken|wf_read].
  - intros tok'. destruct (decide _); [wf_read|].
    destruct (negb b); by apply keeps_mask_errors, keeps_wf_UpdateConfigMap.
Qed.

Lemma keeps_wf_reconcileConfigMap cluster reg roles :
  Keeps wf_kept (reconcileConfigMap t cluster reg roles).
Proof.
  unfold reconcileConfigMap. apply keeps_bind; [apply _|apply keeps_mask_errors; wf_read|].
  intros tka. apply (keeps_wf_get_or_nil_bind KConfigMap).
  - apply keeps_bind; [apply _|apply keeps_mask_errors, keeps_wf_GenerateToken|]. intros tok.
    apply keeps_mask_errors. unfold CreateConfigMap. cbn zeta.
    apply keeps_bind; [apply _|wf_read|]. intros [e|cm]; [|wf_read].
    destruct (IsNotFound e); [|wf_read].
    apply keeps_bind; [apply _|apply keeps_wf_Create, wf_values_configmap|intros [?|]; wf_read].
  - intros cm Hcm. by apply keeps_wf_updateExisting.
Qed.
(** *** References *)

Lemma keeps_wf_update_or_fail k o : wf_obj k (stored k o) → Keeps wf_kept (update_or_fail k o).
Proof.
  intros Ho. apply keeps_bind; [apply _|by apply keeps_wf_Update|intros [e|]; wf_read].
Qed.

Definition named_manager (m : TeleportAppConfigManager) : Prop :=
  match m with
  | helmReleaseManager _ _ cm | appCRManager _ _ cm => cm ≠ ""
  | noOpManager _ _ => True
  end.

Lemma wf_helmrelease_refs hr : wf_helmrelease hr → Forall wf_values_ref (hr_refs hr).
Proof. by intros (? & _ & _ & ?). Qed.

Lemma keeps_wf_EnsureConfig m : named_manager m → Keeps wf_kept (EnsureConfig m).
Proof.
  intros Hm. destruct m as [rn ns cm|rn ns cm|rn ns]; simpl in *; [..|wf_read].
  - apply (keeps_wf_Get_bind KHelmRelease); [intros e; wf_read|]. intros hr Hhr. cbn zeta.
    destruct (DeepEqual _ _); [wf_read|]. apply keeps_wf_update_or_fail, wf_setValuesFrom.
    apply Forall_append_reference; [by apply wf_values_ref_ref|by apply wf_helmrelease_refs].
  - apply (keeps_wf_Get_bind KApp); [intros e; wf_read|]. intros app Happ. cbn zeta.
    destruct (DeepEqual _ _); [wf_read|]. apply keeps_wf_update_or_fail.
    apply Forall_append_reference; [by apply wf_extra|done].
Qed.

Lemma keeps_wf_DeleteConfig m : Keeps wf_kept (DeleteConfig m).
Proof.
  destruct m as [rn ns cm|rn ns cm|rn ns]; simpl in *; [..|wf_read].
  - apply (keeps_wf_Get_bind KHelmRelease); [intros e; destruct (IsNotFound e); wf_read|].
    intros hr Hhr. cbn zeta. destruct (DeepEqual _ _); [wf_read|].
    apply keeps_wf_update_or_fail, wf_setValuesFrom, Forall_remove_reference.
    by apply wf_helmrelease_refs.
  - apply (keeps_wf_Get_bind KApp); [intros e; destruct (IsNotFound e); wf_read|].
    intros app Happ. cbn zeta. destruct (app_Spec_ExtraConfigs app) as [l|] eqn:El; [|wf_read].
    destruct (DeepEqual _ _); [wf_read|]. apply keeps_wf_update_or_fail.
    apply Forall_remove_reference. unfold wf_obj, wf_app, app_refs in Happ. by rewrite El in Happ.
Qed.

Lemma keeps_wf_manager_bind {A} rn ns cm (f : TeleportAppConfigManager → M world A) :
  cm ≠ "" → (∀ m, named_manager m → Keeps wf_kept (f m)) →
  Keeps wf_kept (mask_errors (NewTeleportAppConfigManager rn ns cm) ≫= f).
Proof.
  intros Hne Hf w Hwf. pose proof (wp_NewTeleportAppConfigManager rn ns cm w) as Hm.
  apply wp_unfold in Hm. unfold mbind, M_bind, mask_errors.
  destruct (NewTeleportAppConfigManager rn ns cm w) as [[m|e|] w1]; simpl in Hm;
    destruct Hm as [-> Hm]; [|done..].
  apply Hf; [|done]. subst m. unfold chosen_manager.
  destruct (s_helmreleases _ !! _); [done|]. by destruct (s_apps _ !! _).
Qed.

Lemma keeps_wf_ensure_reference rn ns cm : cm ≠ "" → Keeps wf_kept (ensure_reference rn ns cm).
Proof.
  intros Hne. apply keeps_wf_manager_bind; [done|]. intros m Hm.
  by apply keeps_mask_errors, keeps_wf_EnsureConfig.
Qed.

Lemma keeps_wf_delete_reference rn ns cm : cm ≠ "" → Keeps wf_kept (delete_reference rn ns cm).
Proof.
  intros Hne. apply keeps_wf_manager_bind; [done|]. intros m _.
  apply keeps_mask_errors, keeps_wf_DeleteConfig.
Qed.

(** *** The handlers *)

Lemma keeps_wf_reconcileBot cluster reg : Keeps wf_kept (reconcileBot cluster reg).
Proof.
  unfold reconcileBot. apply (keeps_wf_get_or_nil_bind KSecret); [|intros; wf_read].
  apply keeps_bind; [apply _| |intros _; by apply keeps_wf_ensure_reference].
  apply keeps_mask_errors. unfold EnsureTbotConfigMap, GetTbotConfigMap.
  apply (keeps_wf_get_or_nil_bind KConfigMap); [|intros; wf_read].
  apply keeps_bind; [apply _| |intros _; wf_read]. apply keeps_mask_errors.
  unfold CreateTbotConfigMap. cbn zeta.
  apply keeps_bind; [apply _|apply keeps_wf_Create, wf_values_configmap|intros [e|]; wf_read].
Qed.

Lemma keeps_wf_ensureFinalizer cluster : wf_cluster cluster → Keeps wf_kept (ensureFinalizer cluster).
Proof.
  intros Hc. unfold ensureFinalizer. destruct (negb _); [|wf_read]. apply keeps_mask_errors.
  unfold AddFinalizer, mask_ignoring_notfound. apply keeps_bind; [apply _|wf_read|].
  intros [e|]; [wf_read|]. apply keeps_bind; [apply _| |intros [e|]; wf_read].
  apply keeps_wf_Patch. rewrite AddFinalizerTo_spec. case_decide as Hin; [done|]. simpl.
  apply NoDup_app. split_and!; [done| |apply NoDup_singleton].
  intros f Hf ->%list_elem_of_singleton. done.
Qed.

Lemma keeps_wf_RemoveFinalizer cluster : wf_cluster cluster → Keeps wf_kept (RemoveFinalizer cluster).
Proof.
  intros Hc. unfold RemoveFinalizer, mask_ignoring_notfound. apply keeps_bind; [apply _|wf_read|].
  intros [e|]; [wf_read|]. apply keeps_bind; [apply _| |intros [e|]; wf_read].
  apply keeps_wf_Patch. rewrite RemoveFinalizerFrom_spec. by apply NoDup_filter.
Qed.

Lemma keeps_wf_reconcileNormal bot cluster reg roles :
  wf_cluster cluster → Keeps wf_kept (reconcileNormal t bot cluster reg roles).
Proof.
  intros Hc. unfold reconcileNormal. repeat (apply keeps_bind; [apply _| |intros _]).
  - by apply keeps_wf_ensureFinalizer.
  - apply keeps_wf_reconcileSecret.
  - apply keeps_wf_reconcileConfigMap.
  - apply keeps_wf_ensure_reference, GetConfigmapName_ne.
  - destruct bot; [apply keeps_wf_reconcileBot|wf_read].
  - wf_read.
Qed.

Lemma keeps_wf_reconcileDelete bot cluster reg :
  wf_cluster cluster → Keeps wf_kept (reconcileDelete t bot cluster reg).
Proof.
  intros Hc. unfold reconcileDelete, delete_tbot. repeat (apply keeps_bind; [apply _| |intros _]).
  - apply keeps_mask_errors, keeps_wf_DeleteToken_cluster.
  - apply keeps_mask_errors, (keeps_wf_delete KSecret). by left.
  - apply keeps_mask_errors, (keeps_wf_delete KConfigMap). by right.
  - destruct bot; [|wf_read]. repeat (apply keeps_bind; [apply _| |intros _]).
    + by apply keeps_wf_delete_reference.
    + apply keeps_mask_errors, (keeps_wf_delete KConfigMap). by right.
    + apply keeps_mask_errors, (keeps_wf_delete KSecret). by left.
  - apply keeps_wf_delete_reference, GetConfigmapName_ne.
  - destruct (ContainsFinalizer _ _); [|wf_read]. by apply keeps_mask_errors, keeps_wf_RemoveFinalizer.
  - wf_read.
Qed.
End run.

(** C13. Everything stays well formed: from a snapshot in which every object follows the rules of
    its kind (valid and distinct keys, well-typed references, no duplicate finalizers) and
    every token expires, a run leaves such a snapshot, whatever its outcome. *)
Theorem Reconcile_well_formed req r w `{!GeneratorLaws (t_TokenGenerator (r_Teleport r))} :
  well_formed (view w) → wp (Reconcile req) (λ _ s', well_formed (view s'.2)) (r, w).
Proof.
  intros Hwf. apply wp_Reconcile; [done| |done|].
  - intros e [r' w'] (_ & Hv & _). simpl. by rewrite Hv.
  - intros cluster r' w' Hc (Hsetup & Hv & _). pose proof (generator_same r r' Hsetup).
    assert (wf_cluster cluster) as Hcl by exact (proj1 Hwf KCluster _ _ Hc).
    assert (Keeps wf_kept (reconcileCluster (r_Teleport r') (r_IsBotEnabled r') cluster
      (r_lastAssignedRoles r'))) as Hk.
    { unfold reconcileCluster. cbn zeta. destruct (negb _);
        [by apply keeps_wf_reconcileDelete|by apply keeps_wf_reconcileNormal]. }
    eapply wp_mono; [apply (keeps_wp wf_kept _ _ Hk)|]. intros o w'' Hk'. apply Hk'. by rewrite Hv.
Qed.
End Schema.
