(* ===== verification/Instances.v ===== *)
(** * The library interfaces, inhabited

    Small concrete versions of the interfaces of [Libraries], for which their laws
    are proved: a version parser for releases, a decoder for the block documents the
    templates print, and the system roles.  They show that the laws can hold together,
    and the witnesses run on them. *)
From Stdlib Require Import DecimalString DecimalFacts DecimalPos DecimalN.
From S2P Require Import Prelude GoStrings GoValue GoTime Libraries.

(** ** Unicode tables: the tests use ASCII only *)

#[export] Instance mini_unicode : Unicode :=
  {| unicode_ToLower := id; unicode_Quote := id |}.

(** ** Versions: releases *)

Definition release : Type := N * N * N.

Definition parse_number (s : string) : option N :=
  d ← NilZero.uint_of_string s;
  let n := N.of_uint d in
  if (n <? 2 ^ 64)%N then Some n else None.

Definition parse_release (s : string) : option release :=
  match Split "."%char s with
  | [a; b; c] => a ← parse_number a; b ← parse_number b; c ← parse_number c; Some (a, b, c)
  | _ => None
  end.

Definition release_NewVersion (s : string) : lib_error + release :=
  match parse_release s with
  | Some v => inr v
  | None => inl (OtherError "Invalid Semantic Version")
  end.

#[export] Instance mini_semver : Semver := {|
  Version := release;
  NewVersion := release_NewVersion;
  MustParse s := match release_NewVersion s with inr v => v | inl _ => (0, 0, 0)%N end;
  Compare v v' := of_comparison (release_compare v v');
|}.

Lemma parse_number_dec n : is_uint64 n → parse_number (dec n) = Some n.
Proof.
  intros Hn. unfold parse_number, dec. rewrite NilZero.usu.
  - simpl. rewrite DecimalN.Unsigned.of_to. by rewrite (proj2 (N.ltb_lt _ _) Hn).
  - destruct n as [|p]; [done|]. apply DecimalPos.Unsigned.to_uint_nonnil.
Qed.

Lemma dec_lacks_dot n : lacks "."%char (dec n) = true.
Proof.
  unfold dec, NilZero.string_of_uint. destruct (N.to_uint n) eqn:E; [done|..]; clear;
    unfold lacks; simpl; induction u; simpl; auto.
Qed.

Lemma parse_release_text a b c :
  is_uint64 a → is_uint64 b → is_uint64 c → parse_release (version_text a b c) = Some (a, b, c).
Proof.
  intros Ha Hb Hc. unfold parse_release, version_text.
  change "." with (str1 "."%char).
  rewrite !Split_app, Split_lacks by apply dec_lacks_dot.
  by rewrite !parse_number_dec.
Qed.

Lemma release_compare_antisym x y : release_compare y x = CompOpp (release_compare x y).
Proof.
  destruct x as [[a b] c], y as [[a' b'] c']. simpl.
  rewrite (N.compare_antisym a a'), (N.compare_antisym b b'), (N.compare_antisym c c').
  by destruct (a ?= a')%N, (b ?= b')%N.
Qed.

Lemma release_compare_le a b c a' b' c' :
  release_compare (a, b, c) (a', b', c') ≠ Gt ↔
  (a < a' ∨ a = a' ∧ (b < b' ∨ b = b' ∧ c <= c'))%N.
Proof.
  simpl. destruct (N.compare_spec a a'); [destruct (N.compare_spec b b')|..];
    rewrite ?N.compare_le_iff; intuition (try lia; try congruence).
Qed.

Lemma of_comparison_le r : (of_comparison r <= 0)%Z ↔ r ≠ Gt.
Proof. by destruct r; simpl; split; intros; try lia. Qed.

#[export] Instance mini_semver_laws : SemverLaws.
Proof.
  split.
  - intros s v Hv. simpl in *. by rewrite Hv.
  - intros a b c Ha Hb Hc. exists (a, b, c). simpl. unfold release_NewVersion.
    by rewrite parse_release_text.
  - intros a b c a' b' c' v v' Ha Hb Hc Ha' Hb' Hc'. simpl. unfold release_NewVersion.
    rewrite !parse_release_text by done. by intros [= <-] [= <-].
  - intros v v'. cbn [Compare mini_semver].
    rewrite (release_compare_antisym v' v). by destruct (release_compare v' v).
  - intros [[a1 b1] c1] [[a2 b2] c2] [[a3 b3] c3]. cbn [Compare mini_semver].
    rewrite !of_comparison_le, !release_compare_le. lia.
Qed.

(** ** Block documents *)

Inductive yline :=
| LScalar (key s : string)
| LHeader (key : string)
| LEntry (key s : string)
| LBlank.

(** The text before and after the first colon. *)
Fixpoint cut_colon (s : string) : option (string * string) :=
  match s with
  | "" => None
  | String c s' =>
      if decide (c = ":"%char) then Some ("", s')
      else prod_map (String c) id <$> cut_colon s'
  end.

(** The text between double quotes that ends with the line. *)
Fixpoint unquote (s : string) : option string :=
  match s with
  | "" => None
  | String c s' =>
      if decide (c = dquote) then match s' with "" => Some "" | _ => None end
      else if plain_char c then String c <$> unquote s' else None
  end.

Definition parse_key (s : string) : option (string * option string) :=
  '(k, rest) ← cut_colon s;
  if decide (k ∈ template_keys) then
    if decide (rest = "") then Some (k, None)
    else r ← CutPrefix (" " +:+ str1 dquote) rest; v ← unquote r; Some (k, Some v)
  else None.

Definition parse_line (s : string) : option yline :=
  if decide (s = "") then Some LBlank
  else match CutPrefix "  " s with
       | Some s' => '(k, v) ← parse_key s'; v ← v; Some (LEntry k v)
       | None => '(k, v) ← parse_key s;
                 Some (match v with Some v => LScalar k v | None => LHeader k end)
       end.

(** The lines from the last to the first: the entries not yet under a header, and
    the document after them. *)
Definition add_line (l : string) (st : option (list (string * string) * ydoc))
    : option (list (string * string) * ydoc) :=
  '(pending, d) ← st; l ← parse_line l;
  match l, pending with
  | LBlank, _ => Some (pending, d)
  | LEntry k v, _ => Some ((k, v) :: pending, d)
  | LHeader k, _ => Some ([], (k, YBlock pending) :: d)
  | LScalar k v, [] => Some ([], (k, YScalar v) :: d)
  | LScalar _ _, _ :: _ => None
  end.

Definition parse_doc (s : string) : option ydoc :=
  '(pending, d) ← foldr add_line (Some ([], [])) (Split newline s);
  match pending with [] => Some d | _ => None end.

#[export] Instance mini_yaml : Yaml := {|
  Unmarshal s := match parse_doc s with
                 | Some d => inr (denote_doc d)
                 | None => inl (OtherError "yaml")
                 end
|}.

Lemma unquote_plain s : plain s = true → unquote (s +:+ str1 dquote) = Some s.
Proof.
  unfold plain. induction s as [|c s IH]; [done|]. rewrite string_app_cons. simpl.
  rewrite andb_true_iff. intros [Hc Hs]. rewrite Hc, (IH Hs).
  rewrite decide_False; [done|]. intros ->. by vm_compute in Hc.
Qed.

Lemma plain_lacks_newline s : plain s = true → lacks newline s = true.
Proof.
  apply all_chars_impl. intros c Hc. rewrite negb_true_iff, bool_decide_eq_false.
  intros ->. by vm_compute in Hc.
Qed.

Ltac each_key Hk :=
  unfold template_keys in Hk;
  repeat (apply elem_of_cons in Hk as [-> | Hk]); [..|by apply elem_of_nil in Hk].

Lemma parse_key_scalar k s :
  k ∈ template_keys → plain s = true →
  parse_key (k +:+ ": " +:+ str1 dquote +:+ s +:+ str1 dquote) = Some (k, Some s).
Proof.
  intros Hk Hs. pose proof (unquote_plain s Hs) as Hu.
  unfold parse_key.
  assert (∀ rest, cut_colon (k +:+ ":" +:+ rest) = Some (k, rest)) as Hcut by by each_key Hk.
  change (": " +:+ ?x) with (":" +:+ (" " +:+ x)). rewrite Hcut. simpl.
  rewrite decide_True by done. by rewrite string_app_nil_l, Hu.
Qed.

Lemma parse_key_header k : k ∈ template_keys → parse_key (k +:+ ":") = Some (k, None).
Proof. intros Hk. each_key Hk; by vm_compute. Qed.

Lemma parse_line_entry k s :
  k ∈ template_keys → plain s = true →
  parse_line ("  " +:+ k +:+ ": " +:+ str1 dquote +:+ s +:+ str1 dquote) = Some (LEntry k s).
Proof.
  intros Hk Hs. unfold parse_line.
  rewrite decide_False by done. rewrite (proj2 (CutPrefix_Some _ _ _) eq_refl).
  by rewrite parse_key_scalar.
Qed.

(** No template key starts with a blank. *)
Lemma parse_line_key k rest :
  k ∈ template_keys →
  parse_line (k +:+ rest) =
    '(k, v) ← parse_key (k +:+ rest);
    Some (match v with Some v => LScalar k v | None => LHeader k end).
Proof. intros Hk. by each_key Hk. Qed.

(** *** Printed documents split into their lines *)

Definition scalar_line (indent : string) (e : string * string) : string :=
  indent +:+ e.1 +:+ ": " +:+ str1 dquote +:+ e.2 +:+ str1 dquote.

Lemma lacks_app sep a b : lacks sep (a +:+ b) = lacks sep a && lacks sep b.
Proof. apply all_chars_app. Qed.

Lemma scalar_line_lacks indent e :
  lacks newline indent = true → wf_entry e → lacks newline (scalar_line indent e) = true.
Proof.
  intros Hi [Hk Hs%plain_lacks_newline]. unfold scalar_line.
  rewrite !lacks_app, Hi, Hs. destruct e as [k s]. simpl in *. by each_key Hk.
Qed.

Lemma Split_scalar indent e rest :
  lacks newline indent = true → wf_entry e →
  Split newline (print_scalar indent e +:+ rest) = scalar_line indent e :: Split newline rest.
Proof.
  intros Hi He. rewrite <-Split_app by by apply scalar_line_lacks.
  f_equal. unfold print_scalar, scalar_line. by autorewrite with strings.
Qed.

Lemma Split_entries entries rest :
  Forall wf_entry entries →
  Split newline (concat_map (print_scalar "  ") entries +:+ rest) =
  (scalar_line "  " <$> entries) ++ Split newline rest.
Proof.
  induction 1 as [|e es He _ IH]; [done|].
  change (concat_map ?f (e :: es)) with (f e +:+ concat_map f es). rewrite string_app_assoc.
  rewrite Split_scalar by done. by rewrite IH.
Qed.

Definition node_lines (e : string * ynode) : list string :=
  match e.2 with
  | YScalar s => [scalar_line "" (e.1, s)]
  | YBlock entries => (e.1 +:+ ":") :: (scalar_line "  " <$> entries)
  end.

Lemma Split_node e rest :
  wf_node e → Split newline (print_node e +:+ rest) = node_lines e ++ Split newline rest.
Proof.
  destruct e as [k [s|entries]]; intros [Hk Hn]; unfold print_node, node_lines; cbn [fst snd] in *.
  - by rewrite Split_scalar.
  - destruct Hn as (_ & _ & Hes).
    assert (lacks newline (k +:+ ":") = true) as Hl.
    { rewrite lacks_app, andb_true_iff. split; [by each_key Hk|done]. }
    rewrite <-app_comm_cons, <-(Split_entries entries rest Hes), <-(Split_app _ _ _ Hl).
    f_equal. by autorewrite with strings.
Qed.

Lemma Split_doc d rest :
  Forall wf_node d →
  Split newline (print_doc d +:+ rest) = concat (node_lines <$> d) ++ Split newline rest.
Proof.
  unfold print_doc. induction 1 as [|e d He _ IH]; [done|].
  change (concat_map print_node (e :: d)) with (print_node e +:+ concat_map print_node d).
  change (concat (node_lines <$> e :: d)) with (node_lines e ++ concat (node_lines <$> d)).
  by rewrite string_app_assoc, (Split_node e) by done; rewrite IH, app_assoc.
Qed.

(** *** And their lines parse back *)

Lemma add_entries entries pending d :
  Forall wf_entry entries →
  foldr add_line (Some (pending, d)) (scalar_line "  " <$> entries) = Some (entries ++ pending, d).
Proof.
  induction 1 as [|[k s] es [Hk Hs] _ IH]; [done|]. rewrite fmap_cons. cbn [foldr].
  rewrite IH. unfold add_line, scalar_line. cbn [fst snd].
  by rewrite (parse_line_entry k s Hk Hs).
Qed.

Lemma add_node e d :
  wf_node e → foldr add_line (Some ([], d)) (node_lines e) = Some ([], e :: d).
Proof.
  destruct e as [k [s|entries]]; intros [Hk Hn]; unfold node_lines; cbn [fst snd] in *.
  - cbn [foldr]. unfold add_line, scalar_line. cbn [fst snd]. rewrite string_app_nil_l. simpl.
    rewrite parse_line_key by done. by rewrite parse_key_scalar.
  - destruct Hn as (_ & _ & Hes). cbn [foldr]. rewrite add_entries by done.
    rewrite app_nil_r. unfold add_line. simpl.
    rewrite parse_line_key by done. by rewrite parse_key_header.
Qed.

Lemma add_nodes d :
  Forall wf_node d →
  foldr add_line (foldr add_line (Some ([], [])) (Split newline "")) (concat (node_lines <$> d)) =
  Some ([], d).
Proof.
  induction 1 as [|e d He _ IH]; [done|].
  change (concat (node_lines <$> e :: d)) with (node_lines e ++ concat (node_lines <$> d)).
  rewrite foldr_app, IH. by apply add_node.
Qed.

Lemma parse_print d : wf_doc d → parse_doc (print_doc d) = Some d.
Proof.
  intros [_ Hd]. unfold parse_doc.
  by rewrite <-(string_app_nil_r (print_doc d)), Split_doc, foldr_app, add_nodes by done.
Qed.

#[export] Instance mini_yaml_laws : YamlLaws.
Proof. split. intros d Hd. simpl. by rewrite parse_print. Qed.

(** ** Teleport API types *)

Inductive mini_role := MiniKube | MiniApp | MiniNode.

#[export] Instance mini_roles : SystemRoles := {|
  SystemRole := mini_role;
  RoleKube := MiniKube;
  RoleApp := MiniApp;
  RoleNode := MiniNode;
  SystemRole_String r :=
    match r with MiniKube => "Kube" | MiniApp => "App" | MiniNode => "Node" end;
|}.

(** A token needs a name, a role and nothing else. *)
#[export] Instance mini_tokens : ProvisionTokens := {|
  NewProvisionToken name roles expires :=
    if decide (name = "" ∨ roles = []) then inl (OtherError "bad parameter")
    else inr (mkToken _ name ∅ expires roles)
|}.

#[export] Instance mini_types_laws : TeleportTypesLaws.
Proof.
  split; try done. intros name roles expires t. simpl. case_decide; [done|]. by intros [= <-].
Qed.

#[export] Instance mini_tokens_accept : ProvisionTokensAccept.
Proof.
  split. intros name roles expires Hn Hr _ _. simpl. rewrite decide_False by tauto. eauto.
Qed.
