(* ===== verification/FakeWorld.v ===== *)
(** * A world to run on

    The Teleport client of the repository's own tests
    (internal/pkg/test/teleport_client.go) beside an in-memory API server, as an
    instance of [World] with its laws.  It shows that the laws can hold together,
    and the witnesses run the operator on it. *)
From stdpp Require Import stringmap.
From S2P Require Import Prelude GoStrings GoValue GoTime Libraries Key Objects World Config.
From S2P Require Import Teleport Instances.

(** ** internal/pkg/test/teleport_client.go *)

Record FakeTeleportClientConfig := mkFakeConfig {
  FailsPing : bool;
  FailsGet : bool;
  FailsList : bool;
  FailsCreate : bool;
  FailsUpsert : bool;
  FailsDelete : bool;
  Tokens : list ProvisionToken;
}.

Record FakeTeleportClient := mkFakeClient {
  failsPing : bool;
  failsGet : bool;
  failsList : bool;
  failsCreate : bool;
  failsUpsert : bool;
  failsDelete : bool;
  tokens : gmap string ProvisionToken;
}.

(** Later tokens of the list replace earlier ones of the same name. *)
Definition NewTeleportClient (config : FakeTeleportClientConfig) : FakeTeleportClient :=
  mkFakeClient (FailsPing config) (FailsGet config) (FailsList config) (FailsCreate config)
    (FailsDelete config) (FailsDelete config)
    (foldl (λ m t, <[GetName t := t]> m) ∅ (Tokens config)).

Definition with_client_tokens (m : gmap string ProvisionToken) (c : FakeTeleportClient)
    : FakeTeleportClient :=
  mkFakeClient (failsPing c) (failsGet c) (failsList c) (failsCreate c) (failsUpsert c)
    (failsDelete c) m.

Definition Ping (c : FakeTeleportClient) : option lib_error :=
  if failsPing c then Some (OtherError "mock teleport client failed ping") else None.

(** Go ranges over a map in no fixed order; this is one. *)
Definition GetTokens (c : FakeTeleportClient) : lib_error + list ProvisionToken :=
  if failsList c then inl (OtherError "mock teleport client failed to get tokens")
  else inr (map_to_list (tokens c)).*2.

Definition UpsertToken (token : ProvisionToken) (c : FakeTeleportClient)
    : option lib_error * FakeTeleportClient :=
  if failsUpsert c then (Some (OtherError "mock teleport client failed to upsert token"), c)
  else (None, with_client_tokens (<[GetName token := token]> (tokens c)) c).

Definition FakeDeleteToken (name : string) (c : FakeTeleportClient)
    : option lib_error * FakeTeleportClient :=
  if failsDelete c then (Some (OtherError "mock teleport client failed to delete token"), c)
  else (None, with_client_tokens (delete name (tokens c)) c).

(** ** controllerutil *)

#[export] Instance fake_controllerutil : ControllerUtil := {|
  ContainsFinalizer c f := bool_decide (f ∈ cl_Finalizers c);
  AddFinalizerTo c f :=
    if decide (f ∈ cl_Finalizers c) then c
    else mkCluster (cl_meta c) (cl_Finalizers c ++ [f]) (cl_DeletionTimestamp c);
  RemoveFinalizerFrom c f :=
    mkCluster (cl_meta c) (filter (λ g, g ≠ f) (cl_Finalizers c)) (cl_DeletionTimestamp c);
|}.

#[export] Instance fake_controllerutil_laws : ControllerUtilLaws.
Proof. by split. Qed.

(** ** Worlds *)

Record fake := mkFake {
  f_objs : Snapshot;  (* its tokens are not used *)
  f_client : FakeTeleportClient;
  f_now : positive;
}.

(** Objects and tokens under their own names. *)
Definition keyed (s : Snapshot) : Prop :=
  (∀ k key o, objs k s !! key = Some o → obj_key k o = key) ∧
  (∀ n t, s_tokens s !! n = Some t → GetName t = n).

Definition normalise (s : Snapshot) : Snapshot :=
  mkSnapshot (filter (λ p, cl_meta p.2 = p.1) (s_clusters s))
    (filter (λ p, sec_meta p.2 = p.1) (s_secrets s))
    (filter (λ p, cm_meta p.2 = p.1) (s_configmaps s))
    (filter (λ p, hr_meta p.2 = p.1) (s_helmreleases s))
    (filter (λ p, app_meta p.2 = p.1) (s_apps s))
    (filter (λ p, GetName p.2 = p.1) (s_tokens s)).

Definition fake_view (w : fake) : Snapshot :=
  normalise (with_tokens (tokens (f_client w)) (f_objs w)).

(** A write takes some time. *)
Definition update_fake (f : Snapshot → Snapshot) (w : fake) : fake :=
  let s := f (fake_view w) in
  mkFake s (with_client_tokens (s_tokens s) (f_client w)) (Pos.succ (f_now w)).

Definition with_client (w : fake) (r : option lib_error * FakeTeleportClient)
    : option lib_error * fake :=
  (r.1, mkFake (f_objs w) r.2 (Pos.succ (f_now w))).

(** The client as it is seen: with the tokens of the view. *)
Definition client_of (w : fake) : FakeTeleportClient :=
  with_client_tokens (s_tokens (fake_view w)) (f_client w).

(** A write with its precondition. *)
Definition guarded (ok : bool) (e : lib_error) (f : Snapshot → Snapshot) (w : fake)
    : option lib_error * fake :=
  if ok then (None, update_fake f w) else (Some e, w).

Definition present (k : kind) (key : ObjectKey) (w : fake) : bool :=
  bool_decide (is_Some (objs k (fake_view w) !! key)).

#[export] Instance fake_world : World := {|
  world := fake;
  kube_client := unit;
  tele_client := unit;
  runtime_scheme := list string;
  now w := Zpos (f_now w);
  k8s_Get k key w :=
    match objs k (fake_view w) !! key with Some o => inr o | None => inl NotFound end;
  k8s_Create k o w :=
    guarded (negb (present k (obj_key k o) w)) (OtherError "already exists") (put_obj k o) w;
  k8s_Update k o w := guarded (present k (obj_key k o) w) NotFound (put_obj k o) w;
  k8s_Delete k key w := guarded (present k key w) NotFound (del_obj k key) w;
  patch_NewHelper _ _ := None;
  patch_Patch before after w :=
    guarded (present KCluster (cl_meta before) w) NotFound (patch_cluster before after) w;
  uuid_NewString w := (fresh_string "token" (s_tokens (fake_view w)), w);
  tc_New _ _ w := (inr tt, w);
  tc_Ping _ w := Ping (client_of w);
  tc_GetTokens _ w := GetTokens (client_of w);
  tc_UpsertToken _ t w := with_client w (UpsertToken t (client_of w));
  tc_DeleteToken _ n w := with_client w (FakeDeleteToken n (client_of w));
|}.

(** ** The laws *)

Lemma keyed_normalise s : keyed (normalise s).
Proof.
  split.
  - by intros [] key o [_ Hk]%map_lookup_filter_Some.
  - by intros n t [_ Hn]%map_lookup_filter_Some.
Qed.

Lemma normalise_keyed s : keyed s → normalise s = s.
Proof.
  intros [Hk Hn]. destruct s as [c se cm hr app tk]. unfold normalise. simpl in *.
  f_equal; apply map_filter_id; intros key o Ho; simpl.
  - by apply (Hk KCluster).
  - by apply (Hk KSecret).
  - by apply (Hk KConfigMap).
  - by apply (Hk KHelmRelease).
  - by apply (Hk KApp).
  - by apply Hn.
Qed.

Lemma keyed_with_objs k m s :
  keyed s → (∀ key o, m !! key = Some o → obj_key k o = key) → keyed (with_objs k m s).
Proof.
  intros [Hk Hn] Hm. split.
  - intros k' key o. destruct (decide (k = k')) as [<-|Hne].
    + rewrite objs_with_objs. apply Hm.
    + rewrite objs_with_objs_ne by done. apply Hk.
  - intros n t. rewrite tokens_with_objs. apply Hn.
Qed.

Lemma keyed_with_tokens m s :
  keyed s → (∀ n t, m !! n = Some t → GetName t = n) → keyed (with_tokens m s).
Proof. intros [Hk Hn] Hm. split; [|done]. intros k key o. rewrite objs_with_tokens. apply Hk. Qed.

Lemma keyed_put_obj k o s : keyed s → keyed (put_obj k o s).
Proof.
  intros Hs. apply keyed_with_objs; [done|]. intros key o'.
  rewrite lookup_insert_Some. intros [[<- <-]|[_ Ho]]; [apply obj_key_stored|].
  by apply Hs.
Qed.

Lemma keyed_del_obj k key s : keyed s → keyed (del_obj k key s).
Proof.
  intros Hs. apply keyed_with_objs; [done|]. intros key' o.
  rewrite lookup_delete_Some. intros [_ Ho]. by apply Hs.
Qed.

Lemma keyed_patch before after s : keyed s → keyed (patch_cluster before after s).
Proof.
  intros Hs. unfold patch_cluster. destruct (s_clusters s !! cl_meta before) as [cur|] eqn:E; [|done].
  cbn zeta. destruct (_ && _); [by apply keyed_del_obj|].
  apply (keyed_with_objs KCluster); [done|]. intros key o.
  rewrite lookup_insert_Some. intros [[<- <-]|[_ Ho]]; [|by apply (proj1 Hs KCluster)].
  simpl. rewrite <-(proj1 Hs KCluster _ _ E). unfold patched. by case_decide.
Qed.

Lemma keyed_view w : keyed (fake_view w).
Proof. apply keyed_normalise. Qed.

Lemma view_update f w : keyed (f (fake_view w)) → fake_view (update_fake f w) = f (fake_view w).
Proof.
  intros Hf. unfold update_fake. cbn zeta. unfold fake_view at 1. simpl.
  rewrite <-(normalise_keyed _ Hf) at 3. done.
Qed.

Lemma normalise_with_tokens m s :
  normalise (with_tokens m s) = with_tokens (filter (λ p, GetName p.2 = p.1) m) (normalise s).
Proof. done. Qed.

Lemma view_client w e c :
  (∀ n t, tokens c !! n = Some t → GetName t = n) →
  fake_view (with_client w (e, c)).2 = with_tokens (tokens c) (fake_view w).
Proof.
  intros Hn. unfold fake_view. simpl. rewrite !normalise_with_tokens.
  by rewrite (map_filter_id _ (tokens c)) by (intros n t Ht; apply (Hn n t Ht)).
Qed.

Lemma with_tokens_same s : with_tokens (s_tokens s) s = s.
Proof. by destruct s. Qed.

Lemma guarded_spec (P : Prop) ok e f w :
  (ok = true → P) → keyed (f (fake_view w)) → write_spec fake_view P f (guarded ok e f) w.
Proof.
  intros HP Hf. unfold write_spec, guarded. destruct ok; cbn [fst snd].
  - rewrite view_update by done. split; [simpl; lia|auto].
  - split; [simpl; lia|by left].
Qed.

Lemma present_true k key w : present k key w = true → is_Some (objs k (fake_view w) !! key).
Proof. apply bool_decide_eq_true. Qed.

Lemma present_false k key w : present k key w = false → objs k (fake_view w) !! key = None.
Proof. intros Hp%bool_decide_eq_false. by apply eq_None_not_Some. Qed.

Lemma guarded_NotFound k key f w :
  (guarded (present k key w) NotFound f w).1 = Some NotFound →
  (guarded (present k key w) NotFound f w).2 = w ∧ objs k (fake_view w) !! key = None.
Proof.
  unfold guarded. destruct (present k key w) eqn:E; [done|]. intros _.
  split; [done|by apply present_false].
Qed.

Lemma client_tokens_named w n t : s_tokens (fake_view w) !! n = Some t → GetName t = n.
Proof. apply keyed_view. Qed.

Lemma upsert_spec w t :
  write_spec fake_view True (put_token t) (λ w, with_client w (UpsertToken t (client_of w))) w.
Proof.
  unfold write_spec, UpsertToken. destruct (failsUpsert _); cbn [fst snd].
  - split; [simpl; lia|left]. rewrite view_client by apply client_tokens_named.
    apply with_tokens_same.
  - split; [simpl; lia|split; [done|]]. apply view_client. simpl. intros n t'.
    rewrite lookup_insert_Some. intros [[<- <-]|[_ Ht]]; [done|].
    exact (client_tokens_named w _ _ Ht).
Qed.

Lemma delete_spec w n :
  write_spec fake_view True (del_token n) (λ w, with_client w (FakeDeleteToken n (client_of w))) w.
Proof.
  unfold write_spec, FakeDeleteToken. destruct (failsDelete _); cbn [fst snd].
  - split; [simpl; lia|left]. rewrite view_client by apply client_tokens_named.
    apply with_tokens_same.
  - split; [simpl; lia|split; [done|]]. apply view_client. simpl. intros m t.
    rewrite lookup_delete_Some. intros [_ Ht]. exact (client_tokens_named w _ _ Ht).
Qed.

Lemma list_spec w :
  match GetTokens (client_of w) with
  | inr l => NoDup (GetName <$> l) ∧ ∀ t, t ∈ l ↔ s_tokens (fake_view w) !! GetName t = Some t
  | inl _ => True
  end.
Proof.
  unfold GetTokens. destruct (failsList _); [done|]. change (tokens (client_of w)) with
    (s_tokens (fake_view w)). set (m := s_tokens (fake_view w)).
  assert (GetName <$> (map_to_list m).*2 = (map_to_list m).*1) as Hnames.
  { rewrite <-list_fmap_compose. apply list_fmap_ext. intros i [n t] Hi. simpl.
    apply client_tokens_named with w, elem_of_map_to_list. by eapply list_elem_of_lookup_2. }
  split; [rewrite Hnames; apply NoDup_fst_map_to_list|]. intros t.
  rewrite list_elem_of_fmap. setoid_rewrite elem_of_map_to_list'. split.
  - intros ([n t'] & -> & Ht). simpl in *. by rewrite (client_tokens_named w n t' Ht).
  - intros Ht. by exists (GetName t, t).
Qed.

#[export] Instance fake_world_laws : WorldLaws.
Proof.
  refine {| view := fake_view : world → Snapshot |}.
  - intros w. simpl. lia.
  - intros w k key o. apply keyed_view.
  - intros w n t. apply keyed_view.
  - intros k key w. simpl. by destruct (objs k (fake_view w) !! key).
  - intros k o w. apply guarded_spec; [|apply keyed_put_obj, keyed_view].
    rewrite negb_true_iff. apply present_false.
  - intros k o w. apply guarded_spec; [apply present_true|apply keyed_put_obj, keyed_view].
  - intros k key w _. apply guarded_spec; [done|apply keyed_del_obj, keyed_view].
  - intros k key w. simpl. intros [-> Hn]%guarded_NotFound. done.
  - intros before after w. apply (guarded_spec _ _ _ (patch_cluster before after));
      [apply (present_true KCluster)|apply keyed_patch, keyed_view].
  - intros before after w. simpl. by intros [_ Hn]%(guarded_NotFound KCluster).
  - intros w. simpl. split; [lia|done].
  - intros p i w. simpl. split; [lia|done].
  - intros c w. apply list_spec.
  - intros c t w. apply upsert_spec.
  - intros c n w. apply delete_spec.
Defined.

#[export] Instance fake_fresh : FreshUUID.
Proof. split. intros w. apply fresh_string_fresh. Qed.
