(* ===== verification/FakeHealthy.v ===== *)
(** * The world to run on, when nothing in it fails

    [FakeWorld] is an instance of [HealthyWorld]: it is good when its Teleport
    client does not fail and the names of its tokens are plain. *)
From stdpp Require Import stringmap pretty.
From S2P Require Import Prelude GoStrings GoValue GoTime Libraries Key Objects World Config.
From S2P Require Import Teleport Healthy Instances FakeWorld.

(** ** Fresh names are plain *)

Lemma pretty_N_go_plain x s : plain s = true → plain (pretty_N_go x s) = true.
Proof.
  revert s. induction (N.lt_wf_0 x) as [x _ IH]; intros s Hs.
  assert (x = 0 ∨ 0 < x)%N as [->|Hx] by lia; [by rewrite pretty_N_go_0|].
  rewrite pretty_N_go_step by done. apply IH; [by apply N.div_lt|].
  unfold plain. simpl. unfold plain in Hs. rewrite Hs, andb_true_r.
  unfold pretty_N_char. by repeat case_match.
Qed.

Lemma pretty_N_plain (x : N) : plain (pretty x) = true.
Proof. unfold pretty, pretty_N. case_decide; [done|by apply pretty_N_go_plain]. Qed.

Lemma plain_app a b : plain a = true → plain b = true → plain (a +:+ b) = true.
Proof. unfold plain. rewrite all_chars_app. by intros -> ->. Qed.

Lemma fresh_string_shape {A} s (m : stringmap A) :
  fresh_string s m = s ∨ ∃ n, fresh_string s m = s +:+ pretty (n : N).
Proof.
  unfold fresh_string. destruct (m !! s) as [a|]; [right|by left].
  generalize 0%N (wf_guard 32 (fresh_string_R_wf s m) 0%N).
  fix FIX 2. intros n [acc]. simpl. unfold fresh_string_go at 1. simpl.
  destruct (Some_dec (m !! _)) as [[??]|?]; [apply FIX|by exists n].
Qed.

Lemma fresh_token_plain {A} (m : stringmap A) :
  fresh_string "token" m ≠ "" ∧ plain (fresh_string "token" m) = true.
Proof.
  destruct (fresh_string_shape "token" m) as [->|[n ->]]; [done|]. split; [done|].
  apply plain_app; [done|apply pretty_N_plain].
Qed.

(** ** Good worlds *)

Definition fake_good (w : fake) : Prop :=
  failsPing (f_client w) = false ∧ failsList (f_client w) = false ∧
  failsUpsert (f_client w) = false ∧ failsDelete (f_client w) = false ∧
  ∀ n, is_Some (s_tokens (fake_view w) !! n) → plain n = true.

Lemma update_fake_good f w :
  keyed (f (fake_view w)) → s_tokens (f (fake_view w)) = s_tokens (fake_view w) →
  fake_good w → fake_good (update_fake f w).
Proof.
  intros Hk Ht (?&?&?&?&Hn). split_and!; [done..|]. by rewrite view_update, Ht.
Qed.

Lemma guarded_served P ok e f w :
  (P → ok = true) → P → keyed (f (fake_view w)) →
  s_tokens (f (fake_view w)) = s_tokens (fake_view w) → fake_good w →
  served fake_good (guarded ok e f) w.
Proof.
  intros Hok HP Hk Ht Hg. unfold served, guarded. rewrite Hok by done. simpl.
  split; [done|by apply update_fake_good].
Qed.

Lemma patch_tokens before after s : s_tokens (patch_cluster before after s) = s_tokens s.
Proof.
  unfold patch_cluster. destruct (s_clusters s !! cl_meta before); [|done]. cbn zeta.
  by destruct (_ && _).
Qed.

(** A call of the client that changes its tokens only. *)
Lemma with_client_good w m :
  fake_good w → (∀ n t, m !! n = Some t → GetName t = n ∧ plain n = true) →
  fake_good (with_client w (None, with_client_tokens m (client_of w))).2.
Proof.
  intros (?&?&?&?&_) Hm. split_and!; [done..|]. intros n [t Ht]. revert Ht.
  rewrite view_client by (intros n' t' Ht'; by apply Hm). intros Ht. by apply (Hm n t).
Qed.

Lemma good_token_name w n t :
  fake_good w → s_tokens (fake_view w) !! n = Some t → GetName t = n ∧ plain n = true.
Proof. intros (_&_&_&_&Hn) Ht. split; [by eapply client_tokens_named|apply Hn; eauto]. Qed.

#[export] Instance fake_healthy : HealthyWorld.
Proof.
  refine {| good := fake_good : world → Prop |}.
  - intros w n (_&_&_&_&Hn). apply Hn.
  - intros k key w e _. simpl. destruct (objs k (fake_view w) !! key); [done|]. by intros [= <-].
  - intros k o w Hg Hn. apply (guarded_served (objs k (fake_view w) !! obj_key k o = None)); try done.
    + intros Hn'%eq_None_not_Some. unfold present. by rewrite bool_decide_false.
    + apply keyed_put_obj, keyed_view.
    + apply tokens_with_objs.
  - intros k o w Hg Hs. apply (guarded_served (is_Some (objs k (fake_view w) !! obj_key k o))); try done.
    + apply bool_decide_eq_true.
    + apply keyed_put_obj, keyed_view.
    + apply tokens_with_objs.
  - intros k key w Hg. simpl. unfold guarded. destruct (present k key w); simpl; [|by auto].
    split; [|by auto]. apply update_fake_good; [apply keyed_del_obj, keyed_view|apply tokens_with_objs|done].
  - done.
  - intros before after w Hg Hs.
    apply (guarded_served (is_Some (s_clusters (fake_view w) !! cl_meta before))); try done.
    + apply (bool_decide_eq_true (is_Some (objs KCluster (fake_view w) !! cl_meta before))).
    + apply keyed_patch, keyed_view.
    + apply patch_tokens.
  - intros w Hg. simpl. split; [done|apply fresh_token_plain].
  - intros p i w Hg. simpl. eauto.
  - intros c w (Hp&_). simpl. unfold Ping. simpl. by rewrite Hp.
  - intros c w (_&Hl&_). simpl. unfold GetTokens. simpl. rewrite Hl. eauto.
  - intros c t w Hg Hplain. unfold served. simpl. unfold UpsertToken.
    pose proof Hg as (_&_&Hu&_). change (failsUpsert (client_of w)) with (failsUpsert (f_client w)).
    rewrite Hu. split; [done|]. apply with_client_good; [done|]. intros n t'.
    rewrite lookup_insert_Some. intros [[<- <-]|[_ Ht]]; [done|by apply (good_token_name w)].
  - intros c n w Hg _. unfold served. simpl. unfold FakeDeleteToken.
    pose proof Hg as (_&_&_&Hd&_). change (failsDelete (client_of w)) with (failsDelete (f_client w)).
    rewrite Hd. split; [done|]. apply with_client_good; [done|]. intros m t'.
    rewrite lookup_delete_Some. intros [_ Ht]. by apply (good_token_name w).
Defined.
