(* ===== verification/Witnesses.v ===== *)
(** * Witnesses

    Each theorem with hypotheses, applied at a concrete input where they hold: the
    operator runs on [FakeWorld] with the libraries of [Instances]. *)
From S2P Require Import Prelude GoStrings GoValue GoTime Libraries Key Objects World Config.
From S2P Require Import Teleport Token Secret Finalizer ConfigMap AppManager Controller Stages.
From S2P Require Import Registration Registered Deregistration Reconcile Isolation Instances FakeWorld.

(** ** The installation *)

Definition config0 : Config :=
  mkConfig "teleport.example.io:443" "18.8.0" "mc" "teleport-kube-agent" "0.11.2" "default".
Definition reconciler0 : ClusterReconciler := 
  initialReconciler tt ["client-go"; "cluster-api"; "app"; "core"] "giantswarm" config0 true.
Definition teleport0 : Teleport := r_Teleport reconciler0.
Definition teleport1 : Teleport := set_client (Some tt) teleport0.

Definition request0 : ObjectKey := mkKey "org-acme" "c1".
Definition cluster0 : Cluster := mkCluster request0 ["other"] None.
Definition identity_secret : Secret :=
  mkSecret (mkKey "giantswarm" "identity-output") {["identity" := "the identity"]} ∅.

(** The agent comes as a HelmRelease that deploys 0.12.0, tbot as an App. *)
Definition agent_release : HelmRelease :=
  mkHelmRelease (mkKey "org-acme" "c1-teleport-kube-agent")
    {["spec" := VMap {["chart" := VMap {["spec" := VMap {["version" := VString "0.12.0"]}]}]}]}.
Definition tbot_app : App := mkApp (mkKey "giantswarm" "teleport-tbot") "0.3.0" None.

Definition snapshot_of (clusters : list Cluster) (secrets : list Secret)
    (configmaps : list ConfigMap) : Snapshot :=
  mkSnapshot (list_to_map ((λ c, (cl_meta c, c)) <$> clusters))
    (list_to_map ((λ s, (sec_meta s, s)) <$> secrets))
    (list_to_map ((λ c, (cm_meta c, c)) <$> configmaps))
    {[hr_meta agent_release := agent_release]} {[app_meta tbot_app := tbot_app]} ∅.

Definition healthy : FakeTeleportClientConfig :=
  mkFakeConfig false false false false false false [].
Definition fake_of (clusters : list Cluster) (config : FakeTeleportClientConfig) : world :=
  mkFake (snapshot_of clusters [identity_secret] []) (NewTeleportClient config) 1000.

(** A new cluster; the same after its first reconciliation; and when it is then
    deleted. *)
Definition world0 : world := fake_of [cluster0] healthy.
Definition state1 : run_state := (Reconcile request0 (reconciler0, world0)).2.
Definition cluster1 : Cluster := mkCluster request0 ["other"; TeleportOperatorFinalizer] None.
Definition cluster_deleted : Cluster :=
  mkCluster request0 ["other"; TeleportOperatorFinalizer] (Some 7%Z).
Definition world_deleting : world :=
  update_fake (put_obj KCluster cluster_deleted) state1.2.

(** The result of a [wp] theorem on a run whose outcome is known. *)
Lemma wp_result {S A} (m : M S A) Q s o : wp m Q s → (m s).1 = o → Q o (m s).2.
Proof. rewrite wp_unfold. by intros Hm <-. Qed.

Lemma name_agrees0 :
  register_name_agrees teleport0 (view world0) cluster0 (registerName_of teleport0 cluster0).
Proof. intros cm. by vm_compute. Qed.

Lemma stored0 : s_clusters (view world0) !! request0 = Some cluster0.
Proof. vm_compute. reflexivity. Qed.

Lemma stored_deleting : s_clusters (view world_deleting) !! request0 = Some cluster_deleted.
Proof. vm_compute. reflexivity. Qed.

(** ** The controller *)

Lemma Reconcile_registers_witness :
  (Reconcile request0 (reconciler0, world0)).1 = Ret (mkResult (5 * Minute)) ∧
  registered (r_Teleport state1.1) world0 state1.2 true cluster0 "mc-c1" [role_kube].
Proof.
  assert ((Reconcile request0 (reconciler0, world0)).1 = Ret (mkResult (5 * Minute))) as Ho
    by (vm_compute; reflexivity).
  split; [exact Ho|].
  pose proof (Reconcile_registers reconciler0 request0 world0 cluster0 stored0 eq_refl
    name_agrees0) as Hwp.
  apply (λ Hw, wp_result _ _ _ _ Hw Ho) in Hwp. exact (proj2 Hwp).
Defined.

Lemma Reconcile_deregisters_witness :
  (Reconcile request0 (state1.1, world_deleting)).1 = Ret (mkResult 0) ∧
  cleaned (view (Reconcile request0 (state1.1, world_deleting)).2.2)
    (r_Teleport (Reconcile request0 (state1.1, world_deleting)).2.1) true cluster_deleted.
Proof.
  assert ((Reconcile request0 (state1.1, world_deleting)).1 = Ret (mkResult 0)) as Ho
    by (vm_compute; reflexivity).
  split; [exact Ho|].
  pose proof (Reconcile_deregisters state1.1 request0 world_deleting cluster_deleted
    stored_deleting eq_refl) as Hwp.
  apply (λ Hw, wp_result _ _ _ _ Hw Ho) in Hwp. exact (proj1 (proj2 Hwp)).
Defined.

(** After the first run the cluster has its finalizer, and its tokens are valid. *)
Definition world1 : world := state1.2.
Definition teleport_state1 : Teleport := r_Teleport state1.1.

Lemma stored1 : s_clusters (view world1) !! cl_meta cluster1 = Some cluster1.
Proof. vm_compute. reflexivity. Qed.

(** What Teleport holds under a name, as a test. *)
Definition grantsb (t : ProvisionToken) (t_now : Z) (reg : string) (roles : list string) : bool :=
  bool_decide (cluster_label t = reg) && bool_decide (Expiry t ≠ 0%Z) &&
  bool_decide (t_now < Expiry t)%Z && bool_decide (length (GetRoles t) = length roles) &&
  forallb (containsRole (GetRoles t)) roles.

Lemma grantsb_true t t_now reg roles : grantsb t t_now reg roles = true → grants t t_now reg roles.
Proof.
  unfold grantsb, grants. rewrite !andb_true_iff, !bool_decide_eq_true, forallb_True_forall.
  setoid_rewrite containsRole_true. tauto.
Qed.

Definition valid_tokenb (s : Snapshot) (t_now : Z) (reg tok : string) (roles : list string) : bool :=
  match s_tokens s !! tok with Some t => grantsb t t_now reg roles | None => false end.

Lemma valid_tokenb_true s t_now reg tok roles :
  valid_tokenb s t_now reg tok roles = true → valid_token s t_now reg tok roles.
Proof.
  unfold valid_tokenb, valid_token. destruct (s_tokens s !! tok) as [t|]; [|done].
  intros Ht%grantsb_true. eauto.
Qed.

Definition config_injectedb (s : Snapshot) (key : ObjectKey) (cm : string) : bool :=
  match s_helmreleases s !! key with
  | Some hr => bool_decide (values_ref cm ∈ hr_refs hr)
  | None =>
      match s_apps s !! key with
      | Some app => bool_decide (extra_config cm (Namespace key) ∈ app_refs app)
      | None => true
      end
  end.

Lemma config_injectedb_true s key cm : config_injectedb s key cm = true → config_injected s key cm.
Proof.
  unfold config_injectedb, config_injected.
  destruct (s_helmreleases s !! key); [apply bool_decide_eq_true|].
  destruct (s_apps s !! key); [apply bool_decide_eq_true|done].
Qed.

Lemma registered1 : registered teleport_state1 world1 world1 true cluster1 "mc-c1" [role_kube].
Proof.
  constructor.
  - exists cluster1. split; [exact stored1|]. apply (bool_decide_unpack _). by vm_compute.
  - exists "token". split.
    + eexists. split; by vm_compute.
    + apply valid_within_now, valid_tokenb_true. by vm_compute.
  - exists "token0". split.
    + eexists. split; by vm_compute.
    + apply valid_within_now, valid_tokenb_true. by vm_compute.
  - apply config_injectedb_true. by vm_compute.
  - intros _. right. split; [vm_compute; by eexists|].
    apply config_injectedb_true. by vm_compute.
Qed.

Lemma tokens_plain1 n : is_Some (s_tokens (view world1) !! n) → plain n = true.
Proof.
  assert (map_Forall (λ n _, plain n = true) (s_tokens (view world1))) as Hall
    by (apply (bool_decide_unpack _); by vm_compute).
  intros [t Ht]. exact (Hall n t Ht).
Qed.

Lemma kube_known : Forall known_role [role_kube].
Proof. repeat constructor. Qed.

Lemma register_name1 : registerName_of (r_Teleport state1.1) cluster1 = "mc-c1".
Proof. vm_compute. reflexivity. Qed.
Lemma roles1 :
  roles_for (apps_enabled (view world1) (cluster_name cluster1) (cluster_namespace cluster1))
  = [role_kube].
Proof. vm_compute. reflexivity. Qed.
Lemma bot1 : r_IsBotEnabled state1.1 = true.
Proof. vm_compute. reflexivity. Qed.
Lemma fresh1 : identity_expired (now world1) (t_Identity (r_Teleport state1.1)) = false.
Proof. vm_compute. reflexivity. Qed.
Lemma proxy1 : plain (cfg_ProxyAddr (t_Config (r_Teleport state1.1))) = true.
Proof. vm_compute. reflexivity. Qed.
Lemma version1 : plain (cfg_TeleportVersion (t_Config (r_Teleport state1.1))) = true.
Proof. vm_compute. reflexivity. Qed.

Lemma Reconcile_stable_witness :
  (Reconcile request0 (state1.1, world1)).1 = Ret (mkResult (5 * Minute)) ∧
  (Reconcile request0 (state1.1, world1)).2.2 = world1.
Proof.
  split; [vm_compute; reflexivity|].
  pose proof (Reconcile_stable state1.1 request0 world1 cluster1 stored1 eq_refl fresh1) as Hwp.
  rewrite register_name1, roles1, bot1 in Hwp.
  specialize (Hwp registered1 tokens_plain1 eq_refl proxy1 version1).
  exact (proj1 (proj1 (wp_unfold _ _ _) Hwp)).
Defined.

(** A run on a Teleport that fails to delete tokens stops before anything is removed. *)
Definition unhealthy : FakeTeleportClientConfig :=
  mkFakeConfig false false false false false true (map_to_list (s_tokens (view world1))).*2.
Definition world_stuck : world :=
  mkFake (f_objs world_deleting) (NewTeleportClient unhealthy) 2000.
Definition world_after_stuck : world :=
  (reconcileDelete teleport_state1 true cluster_deleted "mc-c1" world_stuck).2.
Definition world_after_delete : world :=
  (reconcileDelete teleport_state1 true cluster_deleted "mc-c1" world_deleting).2.
Definition world_after_normal : world :=
  (reconcileNormal teleport1 true cluster0 "mc-c1" [role_kube] world0).2.

Lemma reconcileDelete_finalizer_last_witness :
  ((∀ key, s_clusters (view world_after_stuck) !! key = s_clusters (view world_stuck) !! key) ∨
   (cleaned (view world_after_stuck) teleport_state1 true cluster_deleted ∧
    one_token_deleted "mc-c1" (view world_stuck) (view world_after_stuck))) ∧
  ((∀ key, s_clusters (view world_after_delete) !! key = s_clusters (view world_deleting) !! key) ∨
   (cleaned (view world_after_delete) teleport_state1 true cluster_deleted ∧
    one_token_deleted "mc-c1" (view world_deleting) (view world_after_delete))).
Proof.
  split.
  - exact (proj1 (wp_unfold _ _ _)
      (reconcileDelete_finalizer_last teleport_state1 true cluster_deleted "mc-c1" world_stuck)).
  - exact (proj1 (wp_unfold _ _ _)
      (reconcileDelete_finalizer_last teleport_state1 true cluster_deleted "mc-c1" world_deleting)).
Defined.

Lemma reconcileNormal_finalizer_first_witness :
  finalizer_set (view world_after_normal) (cl_meta cluster0) ∨
  untouched (λ x, x = slot_obj KCluster (cl_meta cluster0)) (view world0) (view world_after_normal).
Proof.
  exact (proj1 (wp_unfold _ _ _)
    (reconcileNormal_finalizer_first teleport1 true cluster0 "mc-c1" [role_kube] world0 stored0)).
Defined.

Lemma reachable1 : reachable reconciler0 state1.
Proof. apply reachable_reconcile, reachable_start. Qed.

Lemma Reconcile_never_panics_witness :
  reachable reconciler0 state1 ∧ (Reconcile request0 state1).1 ≠ Panic.
Proof.
  split; [exact reachable1|].
  exact (Reconcile_never_panics _ _ "giantswarm" config0 true request0 state1 reachable1).
Defined.

Lemma reachable_client_ready_witness : reachable reconciler0 state1 ∧ client_ready state1.
Proof.
  split; [exact reachable1|].
  exact (reachable_client_ready _ _ "giantswarm" config0 true state1 reachable1).
Defined.

Lemma Reconcile_footprint_witness :
  untouched (cluster_slots teleport0 true cluster0) (view world0) (view world1).
Proof.
  pose proof (proj1 (wp_unfold _ _ _) (Reconcile_footprint reconciler0 request0 world0)) as Hwp.
  rewrite stored0 in Hwp. exact Hwp.
Defined.

Lemma Reconcile_foreign_tokens_witness :
  others_kept "mc-c1" world0 (Reconcile request0 (reconciler0, world0)).2.2.
Proof.
  exact (proj1 (wp_unfold _ _ _)
    (Reconcile_foreign_tokens reconciler0 request0 world0 cluster0 stored0)).
Defined.

Lemma refreshIdentity_spec_witness :
  refreshed reconciler0 world0 (Ret tt) (refreshIdentity (reconciler0, world0)).2.
Proof.
  assert ((refreshIdentity (reconciler0, world0)).1 = Ret tt) as Ho by (vm_compute; reflexivity).
  exact (wp_result _ _ _ _ (refreshIdentity_spec reconciler0 world0) Ho).
Defined.

Lemma Reconcile_isolated_witness :
  s_configmaps (view world1) !! mkKey "giantswarm" TeleportOperatorConfigName =
  s_configmaps (view world0) !! mkKey "giantswarm" TeleportOperatorConfigName.
Proof.
  apply (proj1 (wp_unfold _ _ _) (Reconcile_isolated reconciler0 request0 world0
    (mkCluster (mkKey "org-acme" "c2") [] None) ltac:(discriminate) ltac:(discriminate))
    (slot_obj KConfigMap (mkKey "giantswarm" TeleportOperatorConfigName))).
  left. exists "giantswarm". left. reflexivity.
Defined.

Lemma ensure_reference_contract_witness :
  config_injected (view (ensure_reference "c1-teleport-kube-agent" "org-acme" "values" world0).2)
    (mkKey "org-acme" "c1-teleport-kube-agent") "values".
Proof.
  assert ((ensure_reference "c1-teleport-kube-agent" "org-acme" "values" world0).1 = Ret tt) as Ho
    by (vm_compute; reflexivity).
  exact (proj1 (proj2 (proj2 (wp_result _ _ _ _
    (ensure_reference_contract "c1-teleport-kube-agent" "org-acme" "values" world0) Ho)))).
Defined.

Lemma delete_reference_contract_witness :
  config_removed (view (delete_reference "c1-teleport-kube-agent" "org-acme" "values" world1).2)
    (mkKey "org-acme" "c1-teleport-kube-agent") "values".
Proof.
  assert ((delete_reference "c1-teleport-kube-agent" "org-acme" "values" world1).1 = Ret tt) as Ho
    by (vm_compute; reflexivity).
  exact (proj1 (proj2 (wp_result _ _ _ _
    (delete_reference_contract "c1-teleport-kube-agent" "org-acme" "values" world1) Ho))).
Defined.

(** ** Tokens *)

Lemma IsTokenValid_decides_witness :
  (IsTokenValid teleport_state1 "mc-c1" "token" "node" world1).1 = Ret true ∧
  valid_token (view world1) (now world1) "mc-c1" "token" [role_node].
Proof.
  assert ((IsTokenValid teleport_state1 "mc-c1" "token" "node" world1).1 = Ret true) as Ho
    by (vm_compute; reflexivity).
  split; [exact Ho|].
  pose proof (wp_result _ _ _ _
    (IsTokenValid_decides teleport_state1 "mc-c1" "token" "node" [role_node] world1 eq_refl) Ho) as Hr.
  exact (proj1 (proj2 Hr) eq_refl).
Defined.

(** A token generated at second 1000, checked at once. *)
Definition generated0 : outcome string * world :=
  GenerateToken teleport1 "mc-c1" [role_kube; role_app] world0.

Lemma kube_app_known : Forall known_role [role_kube; role_app].
Proof.
  constructor; [left; reflexivity|]. constructor; [right; left; reflexivity|constructor].
Qed.

Lemma GenerateToken_then_IsTokenValid_witness :
  (IsTokenValid teleport1 "mc-c1" "token" "kube,app" generated0.2).1 = Ret true ∧
  (now generated0.2 < now world0 + 720 * Hour)%Z.
Proof.
  split; [vm_compute; reflexivity|].
  apply (GenerateToken_then_IsTokenValid teleport1 teleport1 "mc-c1" [role_kube; role_app] world0
    generated0.2 generated0.2 generated0.2 "token" true ltac:(discriminate) kube_app_known);
    vm_compute; reflexivity.
Defined.

Lemma DeleteToken_deletes_one_witness :
  (DeleteToken teleport_state1 "mc-c1" world1).1 = Ret tt ∧
  size (cluster_tokens "mc-c1" (view world1)) = 2 ∧
  size (cluster_tokens "mc-c1" (view (DeleteToken teleport_state1 "mc-c1" world1).2)) = 1.
Proof.
  assert ((DeleteToken teleport_state1 "mc-c1" world1).1 = Ret tt) as Ho by (vm_compute; reflexivity).
  assert (size (cluster_tokens "mc-c1" (view world1)) = 2) as Hsize by (vm_compute; reflexivity).
  split; [exact Ho|]. split; [exact Hsize|].
  pose proof (proj1 (wp_result _ _ _ _ (DeleteToken_deletes_one teleport_state1 "mc-c1" world1) Ho))
    as Hd. rewrite Hsize in Hd. exact Hd.
Defined.

Definition token0 : ProvisionToken :=
  mkToken _ "t" (token_labels "mc-c1" [role_node]) (1000 + TeleportKubeTokenValidity) [MiniNode].
Definition token1 : ProvisionToken := mkToken _ "u" ∅ 5 [MiniKube].

Lemma generated_token_roles_witness :
  (IsTokenValid teleport1 "mc-c1" "token" "app,kube" generated0.2).1 = Ret true ∧
  (IsTokenValid teleport1 "mc-c1" "token" "node" generated0.2).1 = Ret false ∧
  [role_app; role_kube] ≡ₚ [role_kube; role_app].
Proof.
  split; [vm_compute; reflexivity|]. split; [vm_compute; reflexivity|].
  assert (NoDup [role_app; role_kube]) as Hnd by (apply (bool_decide_unpack _); by vm_compute).
  apply (generated_token_roles teleport1 teleport1 "mc-c1" "mc-c1" [role_kube; role_app]
    [role_app; role_kube] "app,kube" world0 generated0.2 generated0.2 generated0.2 "token" true
    kube_app_known eq_refl Hnd);
    vm_compute; reflexivity.
Defined.

Lemma check_tokens_permutation_witness :
  check_tokens 2000 [token0; token1] "mc-c1" "t" [role_node] =
  check_tokens 2000 [token1; token0] "mc-c1" "t" [role_node].
Proof.
  apply check_tokens_permutation; [|constructor].
  apply (bool_decide_unpack _). by vm_compute.
Defined.

(** ** ConfigMaps and references *)

Definition values_key : ObjectKey := mkKey "org-acme" "c1-teleport-kube-agent-config".
Definition configmap0 : ConfigMap :=
  values_configmap values_key (RenderConfigMapValues teleport1 "mc-c1" "tok" [role_kube] "0.9.0").

Lemma plain0 :
  plain_inputs "tok" (cfg_ProxyAddr (t_Config teleport1)) "mc-c1"
    (cfg_TeleportVersion (t_Config teleport1)) [role_kube].
Proof. split_and!; [by vm_compute..|exact kube_known]. Qed.

Lemma rendered_values_roundtrip_witness :
  GetTokenFromConfigMap configmap0 = Ret "tok" ∧
  IsConfigMapLayoutUpToDate configmap0 "0.12.0" = Ret false.
Proof.
  pose proof (rendered_values_roundtrip teleport1 configmap0 "mc-c1" "tok" [role_kube] "0.9.0"
    "0.12.0" eq_refl plain0 ltac:(discriminate)) as (Htok & _ & _ & Hlayout).
  split; [exact Htok|]. rewrite Hlayout. vm_compute. reflexivity.
Defined.

Definition world_configmap : world := update_fake (put_obj KConfigMap configmap0) world0.

Lemma name0 : registerNameFromConfigMap configmap0 = Ret "mc-c1".
Proof. vm_compute. reflexivity. Qed.

Definition world_updated : world :=
  (UpdateConfigMap teleport1 configmap0 "tok" [role_kube] "0.12.0" world_configmap).2.

Lemma UpdateConfigMap_keeps_name_witness :
  ∃ cm', s_configmaps (view world_updated) !! values_key = Some cm' ∧
         registerNameFromConfigMap cm' = Ret "mc-c1".
Proof.
  assert ((UpdateConfigMap teleport1 configmap0 "tok" [role_kube] "0.12.0" world_configmap).1 = Ret tt)
    as Ho by (vm_compute; reflexivity).
  destruct (wp_result _ _ _ _ (UpdateConfigMap_keeps_name teleport1 configmap0 "tok" [role_kube]
    "0.12.0" "mc-c1" world_configmap name0 plain0) Ho) as (cm' & Hcm' & _ & Hname & _).
  exists cm'. split; [exact Hcm'|exact Hname].
Defined.

Lemma UpdateConfigMap_never_converges_witness :
  ∃ cm', s_configmaps (view world_updated) !! values_key = Some cm' ∧
    map_read (cm_Data cm') "values" ≠
      Some (RenderConfigMapValues teleport1 "new-c1" "tok" [role_kube] "0.12.0").
Proof.
  assert ((UpdateConfigMap teleport1 configmap0 "tok" [role_kube] "0.12.0" world_configmap).1 = Ret tt)
    as Ho by (vm_compute; reflexivity).
  destruct (wp_result _ _ _ _ (UpdateConfigMap_never_converges teleport1 configmap0 "tok" [role_kube]
    "0.12.0" "mc-c1" "new-c1" world_configmap name0 ltac:(discriminate) plain0 eq_refl) Ho)
    as (cm' & Hcm' & Hdoc).
  exists cm'. split; [exact Hcm'|]. apply Hdoc. reflexivity.
Defined.

(** The agent's HelmRelease during an upgrade to 0.12.0, with two releases behind it. *)
Definition release_entry (chart app : string) : value :=
  VMap {["chartVersion" := VString chart; "appVersion" := VString app]}.
Definition agent_upgrading : HelmRelease :=
  mkHelmRelease (hr_meta agent_release)
    (<["status" := VMap {["history" := VList [release_entry "0.10.0" "18.7.0";
                                             release_entry "0.9.1" "17.0.0"]]}]>
      (hr_Object agent_release)).
Definition world_upgrading : world := update_fake (put_obj KHelmRelease agent_upgrading) world0.

Lemma GetTeleportKubeAgentVersion_spec_witness :
  deployed_version (view world0) (mkKey "org-acme" "c1-teleport-kube-agent") = "0.12.0" ∧
  deployed_version (view world_upgrading) (mkKey "org-acme" "c1-teleport-kube-agent") = "0.10.0".
Proof.
  assert ((GetTeleportKubeAgentVersion "c1-teleport-kube-agent" "org-acme" world0).1 = Ret "0.12.0")
    as Ho by (vm_compute; reflexivity).
  assert ((GetTeleportKubeAgentVersion "c1-teleport-kube-agent" "org-acme" world_upgrading).1
    = Ret "0.10.0") as Ho' by (vm_compute; reflexivity).
  split; symmetry.
  - exact (proj2 (wp_result _ _ _ _
      (GetTeleportKubeAgentVersion_spec "c1-teleport-kube-agent" "org-acme" world0) Ho)).
  - exact (proj2 (wp_result _ _ _ _
      (GetTeleportKubeAgentVersion_spec "c1-teleport-kube-agent" "org-acme" world_upgrading) Ho')).
Defined.

Lemma helmRelease_DeleteConfig_writes_empty_witness :
  setValuesFrom agent_release (Some []) ≠ agent_release ∧
  (helmRelease_DeleteConfig "c1-teleport-kube-agent" "org-acme" "values" world0).1 = Ret tt.
Proof.
  assert ((helmRelease_DeleteConfig "c1-teleport-kube-agent" "org-acme" "values" world0).1 = Ret tt)
    as Ho by (vm_compute; reflexivity).
  split; [|exact Ho].
  assert (s_helmreleases (view world0) !! mkKey "org-acme" "c1-teleport-kube-agent"
          = Some agent_release) as Hhr by (vm_compute; reflexivity).
  exact (proj2 (wp_result _ _ _ _ (helmRelease_DeleteConfig_writes_empty "c1-teleport-kube-agent"
    "org-acme" "values" agent_release world0 Hhr eq_refl) Ho)).
Defined.

Lemma no_resource_no_effect_witness :
  ((NewTeleportAppConfigManager "no-agent" "org-acme" "values" ≫= EnsureConfig) world0).2 = world0.
Proof.
  assert (s_helmreleases (view world0) !! mkKey "org-acme" "no-agent" = None) as Hhr
    by (vm_compute; reflexivity).
  assert (s_apps (view world0) !! mkKey "org-acme" "no-agent" = None) as Happ
    by (vm_compute; reflexivity).
  exact (proj1 (proj1 (wp_unfold _ _ _)
    (proj1 (no_resource_no_effect "no-agent" "org-acme" "values" world0 Hhr Happ)))).
Defined.

Lemma reference_add_remove_witness :
  elems (remove_reference (append_reference (Some [1; 2]) 3) 3) = [1; 2].
Proof.
  apply (reference_add_remove (Some [1; 2]) 3). apply (bool_decide_unpack _). by vm_compute.
Defined.

(** ** Versions, roles and names *)

Lemma UsesNestedKubeAgentValues_release_witness :
  UsesNestedKubeAgentValues "v0.11.0" = true ∧ UsesNestedKubeAgentValues "0.9.12" = false.
Proof.
  split.
  - exact (UsesNestedKubeAgentValues_release "v" 0 11 0 ltac:(right; reflexivity) eq_refl eq_refl
      eq_refl).
  - exact (UsesNestedKubeAgentValues_release "" 0 9 12 ltac:(left; reflexivity) eq_refl eq_refl
      eq_refl).
Defined.

Lemma ResolveNestedTeleportVersionOverride_release_witness :
  ResolveNestedTeleportVersionOverride "v18.8.0" = "v18.8.0" ∧
  ResolveNestedTeleportVersionOverride "18.7.5" = "".
Proof.
  split.
  - exact (ResolveNestedTeleportVersionOverride_release "v" 18 8 0 ltac:(right; reflexivity)
      eq_refl eq_refl eq_refl).
  - exact (ResolveNestedTeleportVersionOverride_release "" 18 7 5 ltac:(left; reflexivity)
      eq_refl eq_refl eq_refl).
Defined.

Lemma RolesToString_canonical_witness :
  RolesToString ["kube"; "app"] = "kube,app" ∧ ParseRoles "kube,app" = Ret ["kube"; "app"].
Proof.
  split; [reflexivity|].
  apply (RolesToString_canonical " kube , app " ["kube"; "app"]). vm_compute. reflexivity.
Defined.

Lemma registerName_of_injective_witness :
  cluster_name cluster0 = cluster_name cluster1.
Proof. apply (registerName_of_injective teleport0 cluster0 cluster1). vm_compute. reflexivity. Defined.
