(* ===== verification/LiveWitnesses.v ===== *)
(** * Witnesses of the theorems on success and on sequences of runs *)
From S2P Require Import Prelude GoStrings GoValue GoTime Libraries Key Objects World Config.
From S2P Require Import Teleport Token Secret Finalizer ConfigMap AppManager Healthy Controller.
From S2P Require Import Stages Registration Registered Deregistration Success Reconcile Liveness.
From S2P Require Import Steady Schema Instances FakeWorld FakeHealthy Witnesses.

(** Token names as a test. *)
Lemma fake_good_check (w : fake) :
  negb (failsPing (f_client w)) && negb (failsList (f_client w)) &&
  negb (failsUpsert (f_client w)) && negb (failsDelete (f_client w)) &&
  bool_decide (map_Forall (λ n _, plain n = true) (s_tokens (fake_view w))) = true →
  good w.
Proof.
  rewrite !andb_true_iff, !negb_true_iff, bool_decide_eq_true.
  intros ((((?&?)&?)&?)&Hall). split_and!; [done..|]. intros n [t Ht]. exact (Hall n t Ht).
Qed.

Lemma good0 : good world0.
Proof. apply fake_good_check. by vm_compute. Qed.

Lemma identity0 : identity_readable (view world0) "giantswarm".
Proof. exists identity_secret, "the identity". split; by vm_compute. Qed.

Lemma operable0 : operable reconciler0 world0 cluster0.
Proof.
  constructor.
  - exact good0.
  - exact (initial_connected _ _ _ _ _).
  - by intros _.
  - exact identity0.
  - exact stored0.
  - done.
  - intros cm v Hcm. by vm_compute in Hcm.
  - intros sec Hsec. by vm_compute in Hsec.
  - intros cm Hcm. by vm_compute in Hcm.
  - exact name_agrees0.
Qed.

Lemma Reconcile_succeeds_witness :
  operable reconciler0 world0 cluster0 ∧
  (Reconcile request0 (reconciler0, world0)).1 = Ret (mkResult (5 * Minute)).
Proof.
  split; [exact operable0|].
  exact (proj1 (proj1 (wp_unfold _ _ _) (Reconcile_succeeds reconciler0 world0 cluster0 operable0))).
Defined.

(** The same cluster when it is deleted and only the operator still holds it. *)
Definition cluster_last : Cluster :=
  mkCluster request0 [TeleportOperatorFinalizer] (Some 7%Z).
Definition world_last : world := update_fake (put_obj KCluster cluster_last) state1.2.

Lemma good_last : good world_last.
Proof. apply fake_good_check. by vm_compute. Qed.

Lemma stored_last : s_clusters (view world_last) !! cl_meta cluster_last = Some cluster_last.
Proof. vm_compute. reflexivity. Qed.

Lemma ready1 (w : world) : client_ready (state1.1, w).
Proof. intros Hnone. by vm_compute in Hnone. Qed.

Lemma connected1 : connected state1.1.
Proof. split; vm_compute; by eexists. Qed.

Lemma identity_last : identity_readable (view world_last) (r_Namespace state1.1).
Proof. exists identity_secret, "the identity". split; by vm_compute. Qed.

Lemma user_values_last : user_values_readable (view world_last) cluster_last.
Proof. intros cm v Hcm. by vm_compute in Hcm. Qed.

Lemma Reconcile_completes_deletion_witness :
  cl_Finalizers cluster_last = [TeleportOperatorFinalizer] ∧
  s_clusters (view (Reconcile request0 (state1.1, world_last)).2.2) !! request0 = None.
Proof.
  split; [reflexivity|].
  pose proof (Reconcile_completes_deletion state1.1 world_last cluster_last good_last connected1
    (ready1 world_last) identity_last stored_last eq_refl user_values_last) as Hwp.
  exact (proj2 (proj2 (proj2 (proj1 (wp_unfold _ _ _) Hwp))) eq_refl).
Defined.

(** User values that are no mapping. *)
Definition user_values0 : ConfigMap :=
  mkConfigMap (mkKey "org-acme" "c1-teleport-kube-agent-user-values") (Some {["values" := "]"]}) ∅.
Definition world_unreadable : world := update_fake (put_obj KConfigMap user_values0) world_last.

Lemma unreadable_user_values_block_witness :
  s_clusters (view world_unreadable) !! request0 = Some cluster_last ∧
  (Reconcile request0 (state1.1, world_unreadable)).2 = (state1.1, world_unreadable).
Proof.
  assert (s_clusters (view world_unreadable) !! request0 = Some cluster_last) as Hc
    by (vm_compute; reflexivity).
  split; [exact Hc|].
  assert (s_configmaps (view world_unreadable) !! mkKey (cluster_namespace cluster_last)
    (user_values_name (cluster_name cluster_last)) = Some user_values0) as Hcm
    by (vm_compute; reflexivity).
  destruct (Unmarshal "]") as [e|m] eqn:He; [|exfalso; by vm_compute in He].
  exact (proj2 (proj1 (wp_unfold _ _ _) (unreadable_user_values_block state1.1 request0
    world_unreadable cluster_last user_values0 "]" e connected1 Hc Hcm eq_refl He))).
Defined.

Lemma Reconcile_absent_witness :
  (Reconcile (mkKey "org-acme" "gone") (reconciler0, world0)).1 = Ret (mkResult 0) ∧
  (Reconcile (mkKey "org-acme" "gone") (reconciler0, world0)).2 = (reconciler0, world0).
Proof.
  assert (s_clusters (view world0) !! mkKey "org-acme" "gone" = None) as Hn
    by (vm_compute; reflexivity).
  pose proof (proj1 (wp_unfold _ _ _) (Reconcile_absent reconciler0 (mkKey "org-acme" "gone") world0
    (initial_connected _ _ _ _ _) Hn)) as (Hs & _ & Hret).
  split; [exact (Hret good0)|exact Hs].
Defined.

(** A year later. *)
Definition at_time (t : positive) (w : fake) : fake := mkFake (f_objs w) (f_client w) t.
Definition world_later : world := at_time (Z.to_pos (8760 * Hour)) state1.2.
Definition state_later : run_state := (state1.1, world_later).

Lemma fake_view_at t w : fake_view (at_time t w) = fake_view w.
Proof. by destruct w. Qed.

Lemma view_later : view world_later = view state1.2.
Proof. exact (fake_view_at _ _). Qed.

Lemma good_later : good world_later.
Proof. apply fake_good_check. by vm_compute. Qed.

Lemma plain_setup0 : plain_setup reconciler0 cluster0.
Proof. constructor; by vm_compute. Qed.

Lemma undisturbed1 ok : undisturbed ok request0 (reconciler0, world0) (state1.1, state1.2).
Proof.
  rewrite <-surjective_pairing. apply (undisturbed_run _ _ _ (reconciler0, world0)), undisturbed_start.
Qed.

Lemma undisturbed_later : undisturbed good request0 (reconciler0, world0) state_later.
Proof.
  apply (undisturbed_wait _ _ _ _ _ _ (undisturbed1 _)); [exact view_later|by vm_compute|exact good_later].
Qed.

Lemma registration_holds_witness :
  operable reconciler0 world0 cluster0 ∧ plain_setup reconciler0 cluster0 ∧
  undisturbed good request0 (reconciler0, world0) state_later ∧
  (Reconcile request0 state_later).1 = Ret (mkResult (5 * Minute)).
Proof.
  split_and!; [exact operable0|exact plain_setup0|exact undisturbed_later|].
  destruct (registration_holds reconciler0 world0 cluster0 state_later operable0 plain_setup0
    undisturbed_later) as (c & _ & Hwp).
  exact (proj1 (proj1 (wp_unfold _ _ _) Hwp)).
Defined.

(** A day after the first run, when the tokens have 29 days left. *)
Definition world_day : world := at_time (Z.to_pos (24 * Hour)) state1.2.
Definition expiry0 : Z := 720 * Hour.

Lemma plain_setup1 : plain_setup state1.1 cluster1.
Proof. constructor; by vm_compute. Qed.

Lemma settled1 : settled state1.1 state1.2 cluster1 expiry0.
Proof.
  constructor.
  - exact stored1.
  - reflexivity.
  - unfold wanted_roles. change state1.2 with world1.
    rewrite register_name1, roles1, bot1. exact registered1.
  - exact tokens_plain1.
  - assert (map_Forall (λ _ tk, expiry0 <= Expiry tk)%Z (s_tokens (view world1))) as Hall
      by (apply (bool_decide_unpack _); by vm_compute).
    intros n tk Htk _. exact (Hall n tk Htk).
  - exact plain_setup1.
Qed.

Lemma undisturbed_day :
  undisturbed (λ _, True) (cl_meta cluster1) (state1.1, state1.2) (Reconcile request0 (state1.1, world_day)).2.
Proof.
  apply undisturbed_run. apply (undisturbed_wait _ _ _ _ state1.2); [apply undisturbed_start| | |done].
  - exact (fake_view_at _ _).
  - by vm_compute.
Qed.

Lemma settled_until_expiry_witness :
  settled state1.1 state1.2 cluster1 expiry0 ∧
  view (Reconcile request0 (state1.1, world_day)).2.2 = view state1.2.
Proof.
  split; [exact settled1|].
  apply (settled_until_expiry state1.1 state1.2 cluster1 expiry0 _ settled1 undisturbed_day).
  by vm_compute.
Defined.

(** ** What is stored is well formed *)

Lemma well_formed_fake (m : Snapshot) :
  map_Forall (λ _, wf_cluster) (s_clusters m) → map_Forall (λ _, wf_secret) (s_secrets m) →
  map_Forall (λ _, wf_configmap) (s_configmaps m) →
  map_Forall (λ _, wf_helmrelease) (s_helmreleases m) →
  map_Forall (λ _, wf_app) (s_apps m) →
  map_Forall (λ _ tk, Expiry tk ≠ 0%Z) (s_tokens m) → well_formed m.
Proof. intros Hc Hs Hm Hh Ha Ht. split; [|exact Ht]. by intros []. Qed.

Lemma wf_identity : wf_secret identity_secret.
Proof. apply map_Forall_singleton. split; [done|]. by vm_compute. Qed.

Lemma wf_agent : wf_helmrelease agent_release.
Proof.
  eexists. split_and!; [reflexivity|by left|]. apply Forall_nil_2.
Qed.

Lemma well_formed0 : well_formed (view world0).
Proof.
  change (view world0) with (snapshot_of [cluster0] [identity_secret] []).
  apply well_formed_fake; cbn [snapshot_of s_clusters s_secrets s_configmaps s_helmreleases s_apps s_tokens fmap list_fmap list_to_map foldr].
  - apply map_Forall_insert_2; [|done]. apply NoDup_singleton.
  - apply map_Forall_insert_2; [exact wf_identity|done].
  - done.
  - apply map_Forall_singleton. exact wf_agent.
  - apply map_Forall_singleton. apply Forall_nil_2.
  - done.
Qed.

Lemma Reconcile_well_formed_witness :
  well_formed (view world0) ∧ well_formed (view (Reconcile request0 (reconciler0, world0)).2.2).
Proof.
  split; [exact well_formed0|].
  exact (proj1 (wp_unfold _ _ _) (Reconcile_well_formed request0 reconciler0 world0 well_formed0)).
Defined.
