(* ===== verification/FakeHost.v ===== *)
(** * A host to start on

    An instance of [Host] with its laws beside [FakeWorld], a configuration in the
    cluster, and the theorems of [Main] applied to a command line. *)
From S2P Require Import Prelude GoStrings GoValue GoTime GoFlag Libraries Key Objects World.
From S2P Require Import Config Teleport Controller Main Instances FakeWorld Witnesses.

(** Two of the flags the libraries declare. *)
#[export] Instance mini_flags : LibraryFlags := {|
  lib_settings := bool * string;
  lib_defaults := (true, "");
  lib_flag name :=
    if decide (name = "zap-devel") then Some (BoolVar (λ v s, (v, s.2)))
    else if decide (name = "kubeconfig") then Some (StringVar (λ v s, (s.1, v)))
    else None;
|}.

Definition group_name (g : api_group) : string :=
  match g with
  | ClientGo => "client-go"
  | ClusterAPI => "cluster-api"
  | AppV1alpha1 => "app"
  | CoreV1 => "core"
  end.

#[export] Instance fake_host : Host := {|
  NewScheme := [];
  AddToScheme g s := (None, s ++ [group_name g]);
  rest_config := unit;
  GetConfigOrDie _ _ := Some tt;
  manager := host_state * Options;
  NewManager _ o w := (inr (mkHostState [] [] [], o), w);
  GetClient _ := tt;
  GetScheme m := o_Scheme m.2;
  client_New _ w := (inr tt, w);
  Complete r m w := (inr (add_controller r m.1, m.2), w);
  AddHealthzCheck n m w := (inr (add_healthz n m.1, m.2), w);
  AddReadyzCheck n m w := (inr (add_readyz n m.1, m.2), w);
  Start _ w := (None, w);
|}.

#[export] Instance fake_host_laws : HostLaws.
Proof.
  refine {| host_of := fst : manager → host_state; options_of := snd : manager → Options |}.
  - done.
  - intros rc o w. split; [done|]. by intros m [= <-].
  - done.
  - intros r m w. split; [done|]. by intros m' [= <-].
  - intros n m w. split; [done|]. by intros m' [= <-].
  - intros n m w. split; [done|]. by intros m' [= <-].
Defined.

(** ** Witnesses *)

Definition operator_config : ConfigMap :=
  mkConfigMap (mkKey "giantswarm" "teleport-operator")
    (Some (list_to_map
      [ ("proxyAddr", "teleport.example.io:443"); ("teleportVersion", "18.8.0");
        ("managementClusterName", "mc"); ("appName", "teleport-kube-agent");
        ("appVersion", "0.11.2"); ("appCatalog", "default") ])) ∅.
Definition world_start : world := update_fake (put_obj KConfigMap operator_config) world0.

Definition settings0 : list setting :=
  [ mkSetting "namespace" "default" true true; mkSetting "tbot" "true" false false;
    mkSetting "namespace" "giantswarm" false false ].
Definition command_line0 : list string := concat (print_own <$> settings0) ++ ["--"; "extra"].

(** The arguments of the Helm chart's deployment. *)
Definition deployed_settings : list setting :=
  [ mkSetting "namespace" "giantswarm" true true; mkSetting "tbot" "true" true false ].

Lemma settings_valid0 : Forall valid_setting settings0.
Proof.
  repeat apply Forall_cons_2; [|..|apply Forall_nil_2].
  - left. apply (bool_decide_unpack _). by vm_compute.
  - right. split_and!; [apply (bool_decide_unpack _); by vm_compute|by exists true|done].
  - left. apply (bool_decide_unpack _). by vm_compute.
Qed.

Lemma deployed_valid : Forall valid_setting deployed_settings.
Proof.
  repeat apply Forall_cons_2; [| |apply Forall_nil_2].
  - left. apply (bool_decide_unpack _). by vm_compute.
  - right. split_and!; [apply (bool_decide_unpack _); by vm_compute|by exists true|done].
Qed.

Lemma parse_settings_witness :
  command_line0 = ["--namespace=default"; "-tbot"; "-namespace"; "giantswarm"; "--"; "extra"] ∧
  parse formal command_line0 (default_flags, lib_defaults) =
    Parsed (mkFlags ":8080" ":8081" false true "giantswarm", lib_defaults) ["extra"] ∧
  parse formal ["--namespace=giantswarm"; "--tbot"] (default_flags, lib_defaults) =
    Parsed (mkFlags ":8080" ":8081" false true "giantswarm", lib_defaults) [].
Proof.
  split_and!; [reflexivity| |].
  - exact (parse_settings settings0 ["--"; "extra"] ["extra"] settings_valid0 eq_refl).
  - exact (parse_settings deployed_settings [] [] deployed_valid eq_refl).
Defined.

Definition flags0 : Flags := mkFlags ":8080" ":8081" false true "giantswarm".

Lemma parsed0 :
  parse formal command_line0 (default_flags, lib_defaults) = Parsed (flags0, lib_defaults) ["extra"].
Proof. vm_compute. reflexivity. Qed.

Lemma stored_config :
  s_configmaps (view world_start) !! mkKey "giantswarm" TeleportOperatorConfigName
    = Some operator_config.
Proof. vm_compute. reflexivity. Qed.

Lemma config_of0 : config_of operator_config = Ret config0.
Proof. vm_compute. reflexivity. Qed.

Lemma init0 : init = Ret (r_Scheme reconciler0).
Proof. vm_compute. reflexivity. Qed.

Lemma main0 : (main command_line0 world_start).1 = inr tt.
Proof. vm_compute. reflexivity. Qed.

Lemma main_spec_witness :
  (main command_line0 world_start).1 = inr tt ∧
  ∃ mgr, h_controllers (host_of mgr) = [reconciler0].
Proof.
  split; [exact main0|].
  pose proof (main_spec command_line0 world_start) as Hs. unfold ends in Hs.
  rewrite init0, parsed0, main0 in Hs. destruct Hs as [(mgr & w1 & _ & _ & Hst & _)|(_ & [=] & _)].
  destruct (started_host _ _ _ _ Hst) as (c & cm & config & Hcm & Hconfig & Hh).
  change (namespace flags0) with "giantswarm" in *. rewrite stored_config in Hcm.
  injection Hcm as <-. rewrite config_of0 in Hconfig. injection Hconfig as <-.
  exists mgr. rewrite Hh. destruct c. reflexivity.
Defined.
